(* ===== verification/_CoqProject ===== *)
-Q . S2P
Prelude.v
GoStrings.v
Utf8.v
Utf8Decode.v
JsonString.v
ByteStrings.v
Extract.v
ExtractBytes.v
Decode.v
JsonScan.v
JsonText.v
JsonComplete.v
JsonDecode.v
FlagParse.v
Main.v
EndToEnd.v
