(* ===== verification/Prelude.v ===== *)
(** * A verification of [src/recon/crtRecon.go] (sikumy/ethical-hacking)

    ** The program
    [crtRecon.go] is a command-line tool.  [main] (lines 18-90) reads the
    flags [-d], [-org] and [-o], prints usage when neither query flag is set,
    stops when both are, sends one HTTP GET to crt.sh, reads the body,
    decodes it as a JSON array of [Certificate] (lines 13-16), feeds each
    certificate's [NameValue] lines (domain query) or its [CommonName]
    (organization query) to [addDomainsToSet] (lines 92-97), which trims,
    lower-cases and filters each name into a [map[string]struct{}] used as a
    set, then prints the set one name per line and optionally writes the
    same text to a file.  Every error ends the run through [log.Fatal].

    ** Files, in dependency order
    - [Prelude] (this file): runes and Go strings as [list Z] (a JSON
      decoded Go string is valid UTF-8, so it is read as its code points),
      the rune literals of the source, the [go_scope] notations, the tactics
      [bool_to_prop], [bool_cases] and [zcase], the hint databases [gostr]
      and [gostr_rw], and the generic lemmas on lists and on loops that fold
      a list into a [gset].
    - [GoStrings]: the parts of Go's [unicode] and [strings] packages the
      source calls ([IsSpace], [ToLower], [TrimSpace], [ContainsAny],
      [Contains], [Split], [ReplaceAll], with [Index], [HasPrefix] and
      [TrimFunc] under them), modelled from their Go definitions.  The case
      mapping is the interface [Unicode.CaseTable] with the laws
      [Unicode.CaseTableLaws]; its instance [Unicode.latin1_case] is Go's
      [unicode.to] ([Unicode.to], [Unicode.to_loop]: the binary search over
      [CaseRange] entries, Upper-Lower runs included) run on
      [Unicode.CaseRanges], the entries of Go's table up to U+017F and the
      Kelvin and Angstrom signs.  [Unicode.to_binary_search] shows the
      search equal to a linear scan on any sorted table, and the laws are
      checked on the table by evaluation.  [StringsFacts] proves the index
      specification, the round trip of [Split] and [Join], the fuel
      adequacy of the splitting loop and the one-rune equivalences.
    - [Utf8] (module [Utf8]): the byte layer under the rune model.  Go's
      [utf8.EncodeRune] (which [encoding/json] uses to store the decoded
      strings) with its [uint32] and [byte] conversions as [Z.land],
      [Z.lor] and [Z.shiftr], and [encode] for [string([]rune)].  It shows
      that the byte strings Go actually splits (line 67) and tests (line 94)
      give the same answers as the rune lists the other files use.
    - [Utf8Decode] (module [Utf8Decode]): Go's [utf8.DecodeRune] with the
      256-entry [first] table and the [acceptRanges] table written out as
      in [unicode/utf8], [utf8.DecodeLastRune] with its backward scan
      ([scan_back], at most [UTFMax] steps), one step of
      [for i, r := range s] ([range_step]) and the runes that loop visits
      ([runes_of]).
    - [JsonString] (module [JsonString]): how [json.Unmarshal] (line 56)
      turns a string literal into the bytes of a [Certificate] field:
      [encoding/json]'s [unquoteBytes] with its fast path ([unquote_scan]),
      the copying loop ([unquote_loop]) for escapes, [\u] escapes
      ([getu4]) with surrogate pairs ([utf16.DecodeRune]) and bytes that are
      not UTF-8 (written as U+FFFD).
    - [ByteStrings] (module [ByteStrings]): the two calls of line 93 as Go
      runs them on bytes: [strings.TrimSpace] (its two ASCII scans
      [trim_space_left]/[trim_space_right] and the [TrimFunc] and
      [TrimRightFunc] fallbacks through [indexFunc] and [lastIndexFunc]) and
      [strings.ToLower] (the [isASCII]/[hasUpper] scan, the copying loop
      [lower_ascii] and both loops of [strings.Map]).
    - [Extract] (module [Extract]): [Certificate], [addDomainsToSet], one
      loop iteration [add_certificate] and the loop [collect]; the spec's
      contract as [normalize], [raw_tokens] and [valid_name].
    - [Decode] (module [Decode]): [json.Unmarshal] into [[]Certificate] on a
      parsed JSON value: tags, case-folded keys, nulls, type errors, first
      saved error.
    - [JsonScan] (module [JsonScan]): the syntax check [json.Unmarshal]
      runs first, [checkValid] of [encoding/json/scanner.go]: the scanner
      as a state machine (a constructor of [stepFn] per [state...]
      function, the stack [parseState] with the limit [maxNestingDepth],
      [eof], and the [SyntaxError] with its offset), run byte by byte by
      [scan_bytes]; [reachable] is the step relation from [reset] and
      [scanner_inv] its invariant.
    - [JsonText] (module [JsonText]): the JSON texts of RFC 8259
      ([json_text] of a [Decode.JSON] value), a specification of what a
      server sends, and the runs of the scanner over them.
    - [JsonComplete] (module [JsonComplete]): the prefixes [checkValid]
      can still accept: [completion] computes from a scanner state the
      bytes that finish the current token and close every open container.
    - [JsonDecode] (module [JsonDecode]): the second pass of
      [json.Unmarshal] over the body, [encoding/json/decode.go]: the
      record [decodeState] (data, offset, last scan code, scanner),
      [scanWhile], [scanNext], [rescanLiteral] (its [Switch] is
      [literal_end]), [literalStore]'s reading of a literal
      ([literal_value]) and the mutually recursive [value], [array] and
      [object]; [Unmarshal] is [checkValid] followed by
      [decodeState.unmarshal] and [Decode.decode_certificates].
    - [FlagParse] (module [FlagParse]): [flag.Parse()] of line 23 on
      [os.Args[1:]] for the three string flags: Go's [parseOne] loop
      ([-name value], [-name=value], [--], [-h]/[-help], undefined flags,
      missing values), the usage text and the [ExitOnError] messages.
    - [ExtractBytes] (module [ExtractBytes]): [addDomainsToSet] and the
      loop of lines 61-74 on the bytes Go holds, the map keyed by byte
      strings; [unmarshalled] says a certificate's fields are what
      [unquoteBytes] returned.
    - [Main] (module [Main]): [main] as a function from the flags to an
      [Outcome] (events in order and exit code) against the interface
      [World] (HTTP client, JSON text parser, file system, map iteration
      order) with its law [WorldLaws]; [run] is the whole program on the
      command line, [flag.Parse] first.
    - [EndToEnd] (module [EndToEnd]): [main] composed with Go's own JSON
      parser, [go_json_parse] ([checkValid], then the decoder), in place
      of [World.json_parse].

    ** Theorems
    - Refinement and invariant of the extractor: [Extract.collect_spec]
      characterises the set the loop builds by the spec's normalise-and-filter
      contract; [Extract.collect_valid] gives the output
      guarantee; [normalize_idem], [addDomainsToSet_collapse]
      and [collect_perm] are the spec's idempotence, collapse and
      determinism properties.
    - Control flow of the program: no request unless the command line
      parses with exactly one query flag ([run_request_only_with_one_query]),
      usage, conflicting flags before any request; a failing request,
      body read or decoding fatal with nothing on standard output
      ([main_fetch_error]); the success run printing each name of the set
      with a newline, in a permutation of the set, and writing the same
      text to the [-o] file ([main_success]); for domain queries one name
      per line ([main_domain_output_lines]), and no such guarantee once a
      name holds a newline ([main_newline_name_breaks_lines]); the status
      code never read ([main_status_ignored], against the world
      [with_status] that changes only the status).  [flag.Parse]
      terminates: [FlagParse.parse_run] is its loop without fuel, and its
      one result is [Parse] ([FlagParse.Parse_terminates]).  With Go's parser in the
      world and a server answering with the bytes of crt.sh records,
      [main] prints the names of exactly those certificates
      ([EndToEnd.main_crtsh_body]): the pipeline from the bytes on the
      wire to standard output.
    - Decoding: the round trip of crt.sh records and the exact condition
      under which [Unmarshal] reports no error.
    - JSON syntax: every state the scanner reaches satisfies its
      invariant, proved by induction on [reachable]
      ([JsonScan.reachable_inv]); [checkValid] returns [nil] exactly when
      the scan succeeds and otherwise a saved error
      ([JsonScan.checkValid_nil_iff]); it accepts the text of every
      well-formed value ([JsonText.checkValid_accepts]), and [k] nested
      arrays exactly when [k <= 10000] ([JsonText.checkValid_nesting]).
    - JSON values: the decoder reads every well-formed value back from its
      text ([JsonDecode.unmarshal_value_text]), by induction on the value
      with the loops of [array] and [object] proved by induction on the
      elements and members, string literals through [rescanLiteral] and
      [unquoteBytes]; so [json.Unmarshal] of line 56 on such a text stores
      exactly what [Decode.decode_certificates] gives
      ([JsonDecode.Unmarshal_text]): the concrete library refines the
      abstract decoding the other theorems use.
    - Liveness of the syntax check: after a prefix read without saving
      an error, [completion] makes a text [checkValid] accepts, and after
      a saved error no continuation is accepted
      ([JsonComplete.checkValid_prefix]); the scanner has no dead state
      other than its error state.
    - Flag parsing: a command line of [-name value] pairs sets the flags in
      order (the last occurrence wins), [-h] stops with help, the first
      non-flag argument ends parsing, and the loop terminates.
    - String library: [Split]/[Join] round trip, no separator in a piece,
      fuel adequacy.
    - UTF-8: [EncodeRune] writes bytes below 256, one to four by the
      rune's range for a valid rune and the three bytes of [RuneError]
      for a negative rune, a surrogate or a rune above [MaxRune]
      ([Utf8.EncodeRune_bytes]), decoding its output gives the
      valid runes back ([Utf8.decode_encode]), and [Split], [Contains] and
      [ContainsAny] with ASCII arguments commute with the encoding
      ([Utf8.Split_bytes], [Utf8.Contains_bytes]).
    - Decoding bytes: what [DecodeRune] accepts is canonical UTF-8
      ([Utf8Decode.DecodeRune_canonical]), both decoders read back the
      encoding of a valid rune whatever surrounds it, and the [range] loop
      gives back the runes of an encoding ([Utf8Decode.runes_of_encode]).
    - Optimised routines against the reference: line 93 on bytes, fast paths
      included, is the encoding of the rune-level [ToLower (TrimSpace s)]
      ([ByteStrings.normalize_bytes]), and the whole extractor on bytes
      builds the encodings of the rune-level set
      ([ExtractBytes.collect_bytes]).  So the rune-level theorems hold of
      the bytes Go runs on, for any case table that maps valid runes to
      valid runes.
    - From the JSON text to the set: every string [unquoteBytes] produces
      is valid UTF-8 ([JsonString.unquoteBytes_valid]), so for any bytes of
      [-d] and any certificates [json.Unmarshal] fills, the byte-level
      extractor builds the encodings of the rune-level set computed on the
      runes [for range] reads ([ExtractBytes.collect_unmarshalled]): the
      validity hypothesis of [collect_bytes] is discharged by the decoder.
    - Runs that show where code and spec part: a 500 answer is accepted, a
      failing [-o] write comes after the listing is printed, an inner newline
      of a common name breaks the one-name-per-line output, and an ['&'] in
      the search term is not escaped.

    ** Bounds and fuel
    The loops of [strings.Split] and [strings.Replace] run with fuel one more
    than the length of the string; each cut consumes at least one rune, so
    [StringsFacts.genSplit_fuel] and [StringsFacts.Split_fuel_enough] show the
    fuel is never the limit.  The binary search [Unicode.to_loop] runs
    with fuel [len(caseRange)]; each iteration shrinks [hi - lo] by at
    least one, and [Unicode.to_binary_search] holds for this fuel.  The loop of [flag.Parse] runs with fuel one
    more than the number of arguments; each consumed flag consumes at least
    one argument, so [FlagParse.parse_loop_fuel] and
    [FlagParse.Parse_fuel_enough] show the same, and
    [FlagParse.parse_loop_run] that this fuel always ends in a finished
    run of the fuel-free loop [parse_run].  The byte loops of
    [ByteStrings] ([index_func_loop], [last_index_loop], [trim_space_left],
    [trim_space_right], [map_first], [map_rest]) and the [range] loop run
    with one unit of fuel per byte (the scans of [TrimSpace] one more); on
    valid UTF-8 each step consumes at least one byte, and the equivalence
    lemmas are proved for any fuel above the byte count, so the fuel is
    never the limit there.  [scan_back] runs with [UTFMax] = 4: it starts
    two bytes before the end and stops at [len - UTFMax], so it takes at
    most three steps.  The two loops of [unquoteBytes] run with fuel the
    length of the literal's contents; each iteration reads at least one
    byte, and [JsonString.unquote_loop_terminates] shows that from offset
    [r] fuel [len - r] gives the same result as any larger fuel.  The
    scanner's loop [scan_bytes] is structural on the bytes.  In
    [JsonDecode], [scanWhile] and the two loops of [rescanLiteral] run
    with fuel the length of the body, and each iteration moves at least
    one byte on; [value], [array] and [object] run with fuel one more than
    the length of the body, and each call that recurses has read at least
    one byte, so the lemmas of [JsonDecode] need only fuel above the
    length of the text still to read, which is what [unmarshal_value]
    gives.  Every other definition is structural.

    ** Not modelled
    The bytes of the network and file I/O (the [World]
    interface returns their results); [Main] takes the JSON parser from
    the interface [World.json_parse], and [EndToEnd] instantiates it with
    Go's parser ([go_json_parse]).  [JsonDecode] builds the value and then stores it,
    where Go stores into the [reflect.Value] while it reads; the
    theorems are about what ends up stored.  The
    internal search loops of
    [strings.Index] and [strings.IndexAny] (modelled by the search they
    compute; the source only passes them ASCII arguments, for which [Utf8]
    shows the byte and rune views agree), the behaviour of the byte routines on invalid UTF-8 beyond what
    [DecodeRune_canonical] states ([unquoteBytes] hands Go strings that
    are valid UTF-8), the entries of Go's [CaseRanges] above U+017F other than U+212A and
    U+212B (the table has some 300 entries generated from the Unicode
    database, which is not part of the repository; [to] and the
    equivalence theorem are stated for any sorted table), and the timestamp that
    [log.Fatal] prefixes to its message. *)

From Stdlib Require Import ZArith Ascii.
From stdpp Require Export base list gmap sets strings.

(** ** Runes and Go strings *)

Abbreviation rune := Z (only parsing).
Abbreviation gostring := (list Z) (only parsing).

Declare Scope go_scope.
Delimit Scope go_scope with go.

(** The rune literals of [crtRecon.go]: ['\n'], [' '], ['&'], ['.'], ['+']. *)
Definition rNL : rune := 10%Z.
Definition rSP : rune := 32%Z.
Definition rAMP : rune := 38%Z.
Definition rDOT : rune := 46%Z.
Definition rPLUS : rune := 43%Z.

(** [gs "abc"] is the Go string literal ["abc"] (ASCII only). *)
Definition gs (s : string) : list Z :=
  map (fun a => Z.of_nat (nat_of_ascii a)) (String.list_ascii_of_string s).


(** A Go string with an embedded newline, as ["a\nb"] is written in Go. *)
Notation "s1 +nl+ s2" := (s1 ++ rNL :: s2)
  (at level 60, right associativity) : go_scope.

(** ** Automation *)

Create HintDb gostr discriminated.
Create Rewrite HintDb gostr_rw.

(** [bool_to_prop] turns the boolean tests of the models into propositions. *)
Ltac bool_to_prop :=
  repeat match goal with
  | H : (_ && _)%bool = true |- _ => apply andb_true_iff in H as [? ?]
  | H : (_ || _)%bool = false |- _ => apply orb_false_iff in H as [? ?]
  | H : negb _ = true |- _ => apply negb_true_iff in H
  | H : negb _ = false |- _ => apply negb_false_iff in H
  | H : bool_decide _ = true |- _ => apply bool_decide_eq_true_1 in H
  | H : bool_decide _ = false |- _ => apply bool_decide_eq_false_1 in H
  end.

(** ** Generic lemmas on lists *)

Section lists.
Context {A : Type}.

(** [existsb] on a concatenation. *)
Lemma existsb_app_iff (f : A -> bool) (l1 l2 : list A) :
  existsb f (l1 ++ l2) = true <-> existsb f l1 = true \/ existsb f l2 = true.
Proof. rewrite existsb_app, orb_true_iff. tauto. Qed.

Lemma existsb_true_iff (f : A -> bool) (l : list A) :
  existsb f l = true <-> exists x, x ∈ l /\ f x = true.
Proof.
  rewrite existsb_exists. setoid_rewrite list_elem_of_In. done.
Qed.

Lemma existsb_false_iff (f : A -> bool) (l : list A) :
  existsb f l = false <-> forall x, x ∈ l -> f x = false.
Proof.
  split.
  - intros H x Hx. destruct (f x) eqn:E; [|done].
    assert (existsb f l = true) by (apply existsb_true_iff; eauto).
    congruence.
  - intros H. destruct (existsb f l) eqn:E; [|done].
    apply existsb_true_iff in E as (x & Hx & Hf). by rewrite H in Hf.
Qed.
(** A list ending in [a] is not empty. *)
Lemma match_snoc {B} (l : list A) (a : A) (x y : B) :
  match l ++ [a] with [] => x | _ :: _ => y end = y.
Proof. by destruct l. Qed.

Lemma Forall_map_id (g : A -> A) (l : list A) : Forall (fun x => g x = x) l -> map g l = l.
Proof. induction 1 as [|x l Hx _ IH]; simpl; [done|]. by rewrite Hx, IH. Qed.

Lemma last_elem (l : list A) (d : A) : l <> [] -> List.last l d ∈ l.
Proof.
  intros Hl. rewrite (app_removelast_last d Hl) at 2.
  apply elem_of_app. right. by left.
Qed.

Lemma elem_of_rev (x : A) (l : list A) : x ∈ rev l <-> x ∈ l.
Proof. rewrite !list_elem_of_In. split; [apply in_rev | apply in_rev]. Qed.
End lists.

#[export] Hint Rewrite @existsb_app : gostr_rw.

(** [bool_cases] takes apart a hypothesis that a boolean combination of
    integer comparisons holds, into the cases of the comparisons. *)
Ltac bool_cases :=
  repeat match goal with
  | H : (_ || _)%bool = true |- _ => apply orb_true_iff in H as [H|H]
  | H : (_ && _)%bool = true |- _ => apply andb_true_iff in H as [? ?]
  | H : Z.eqb _ _ = true |- _ => apply Z.eqb_eq in H
  | H : Z.leb _ _ = true |- _ => apply Z.leb_le in H
  | H : Z.ltb _ _ = true |- _ => apply Z.ltb_lt in H
  | H : negb _ = true |- _ => apply negb_true_iff in H
  | H : Z.eqb _ _ = false |- _ => apply Z.eqb_neq in H
  end.

(** [bool_facts] also reads the failed tests: [a <? b = false],
    [a <=? b = false] and [_ || _ = false]. *)
Ltac bool_facts :=
  repeat match goal with
  | H : (_ || _)%bool = false |- _ => apply orb_false_iff in H as [? ?]
  | H : Z.ltb _ _ = false |- _ => apply Z.ltb_ge in H
  | H : Z.leb _ _ = false |- _ => apply Z.leb_gt in H
  | H : negb _ = false |- _ => apply negb_false_iff in H
  | _ => progress bool_cases
  end.

(** [elem_cases H] turns [H : x ∈ [a; b; ...]] into the cases [x = a],
    [x = b], ... and discards the impossible [x ∈ []]. *)
Ltac elem_cases H :=
  repeat (apply elem_of_cons in H as [H|H]);
  try (apply elem_of_nil in H; contradiction).

(** [zcase] splits on every integer comparison of a goal or hypothesis, so
    that [lia] closes the arithmetic of each case. *)
Ltac zcase :=
  repeat match goal with
  | |- context [Z.leb ?a ?b] => destruct (Z.leb_spec a b)
  | |- context [Z.ltb ?a ?b] => destruct (Z.ltb_spec a b)
  | |- context [Z.eqb ?a ?b] => destruct (Z.eqb_spec a b)
  | H : context [Z.leb ?a ?b] |- _ => destruct (Z.leb_spec a b)
  | H : context [Z.ltb ?a ?b] |- _ => destruct (Z.ltb_spec a b)
  | H : context [Z.eqb ?a ?b] |- _ => destruct (Z.eqb_spec a b)
  end; simpl in *.

(** [pow_lia] evaluates the powers of two of the bit-level goals and
    closes their [div]/[mod] arithmetic. *)
Ltac pow_lia :=
  repeat match goal with
  | |- context [(2 ^ ?n)%Z] =>
      let v := eval vm_compute in (2 ^ n)%Z in change (2 ^ n)%Z with v
  | H : context [(2 ^ ?n)%Z] |- _ =>
      let v := eval vm_compute in (2 ^ n)%Z in change (2 ^ n)%Z with v in H
  end; Z.div_mod_to_equations; lia.

(** [zcase_on x] splits on the comparisons of [x] with constants only,
    leaving the other tests of the goal alone. *)
Ltac zcase_on x :=
  repeat match goal with
  | |- context [Z.ltb x ?c] => destruct (Z.ltb_spec x c)
  | |- context [Z.leb x ?c] => destruct (Z.leb_spec x c)
  | |- context [Z.eqb x ?c] => destruct (Z.eqb_spec x c)
  end.

(** [eval_closed] evaluates the bitwise [and] of two literals. *)
Ltac eval_closed :=
  repeat match goal with
  | |- context [Z.land (Zpos ?a) (Zpos ?b)] =>
      let v := eval vm_compute in (Z.land (Zpos a) (Zpos b)) in
      change (Z.land (Zpos a) (Zpos b)) with v
  end.

(** [range_split] splits on each range test [a <= b <= c] of the goal as a
    whole, keeping its two bounds as hypotheses. *)
Ltac range_split :=
  repeat match goal with
  | |- context [(Z.leb ?a ?b && Z.leb ?b ?c)%bool] =>
      let E := fresh "E" in
      destruct (Z.leb a b && Z.leb b c)%bool eqn:E; bool_cases; simpl
  end.

(** Go's [b < lo || hi < b] rejection test is the negation of the range
    test. *)
Lemma if_or_range {A} (b lo hi : Z) (x y : A) :
  (if Z.ltb b lo || Z.ltb hi b then x else y) = if Z.leb lo b && Z.leb b hi then y else x.
Proof.
  by destruct (Z.ltb_spec b lo), (Z.ltb_spec hi b), (Z.leb_spec lo b), (Z.leb_spec b hi);
    try lia.
Qed.

(** ** Finite checks on integer ranges *)

(** A boolean test that holds of every integer of [0, n) listed by [seq]
    holds of each of them: a table lookup is proved equal to a formula by
    evaluating the test once. *)
Lemma Z_range_check (P : Z -> bool) (n : nat) :
  forallb P (map Z.of_nat (seq 0 n)) = true ->
  forall z, (0 <= z < Z.of_nat n)%Z -> P z = true.
Proof.
  rewrite forallb_forall. intros HP z Hz.
  apply HP, in_map_iff. exists (Z.to_nat z). split; [lia|].
  apply in_seq. lia.
Qed.

(** ** Folding a list into a finite set *)

(** A loop that adds, for each element [a], the set [g a] to an accumulator
    builds the union of the [g a]: its result does not depend on the order
    of the list, only on its elements. *)
Section fold_union.
Context `{Countable K} {A : Type}.
Context (g : A -> gset K) (f : gset K -> A -> gset K).
Hypothesis f_union : forall S a, f S a = g a ∪ S.

Lemma fold_left_union_elem (l : list A) (S : gset K) (x : K) :
  x ∈ fold_left f l S <-> x ∈ S \/ exists a, a ∈ l /\ x ∈ g a.
Proof.
  revert S; induction l as [|a l IH]; intros S; simpl.
  - split; [by left | intros [?|(? & Hin%elem_of_nil & _)]; done].
  - rewrite IH, f_union, elem_of_union. setoid_rewrite elem_of_cons.
    naive_solver.
Qed.

Lemma fold_left_union_app (l1 l2 : list A) (S : gset K) :
  fold_left f (l1 ++ l2) S = fold_left f l2 ∅ ∪ fold_left f l1 S.
Proof.
  apply set_eq. intros x.
  rewrite elem_of_union, !fold_left_union_elem.
  setoid_rewrite elem_of_app. set_solver.
Qed.

#[export] Instance fold_left_union_perm :
  Proper ((≡ₚ) ==> (=) ==> (=)) (fold_left f).
Proof.
  intros l1 l2 Hl S ? <-. apply set_eq. intros x.
  rewrite !fold_left_union_elem. by setoid_rewrite Hl.
Qed.
End fold_union.
