(* ===== verification/GoStrings.v ===== *)
(** * GoStrings: the functions of Go's [unicode] and [strings] packages that
    [src/recon/crtRecon.go] calls, on rune lists

    [addDomainsToSet] (crtRecon.go:92-97) calls [strings.TrimSpace],
    [strings.ToLower], [strings.ContainsAny] and [strings.Contains]; [main]
    calls [strings.Split] (line 67) and [strings.ReplaceAll] (line 43).  Each
    is modelled here by the behaviour its Go documentation and source give it
    on a valid UTF-8 string, read as the list of its runes.  The case
    mapping that [unicode.ToLower] applies above ASCII is an interface
    ([CaseTable] with the laws [CaseTableLaws]); its instance
    [latin1_case] is Go's [unicode.to], the binary search over
    [CaseRanges], with the table's entries up to U+017F and U+212A, U+212B.
    Everything else is written out, the White_Space table of
    [unicode.IsSpace] included. *)

From Stdlib Require Import ZArith.
From Stdlib Require Import Sorted.
From S2P Require Import Prelude.

Open Scope Z_scope.

(** ** Package [unicode] *)
Module Unicode.

Definition MaxASCII : rune := 127.
Definition MaxLatin1 : rune := 255.

(** The White_Space property above Latin-1: U+1680, U+2000..U+200A,
    U+2028, U+2029, U+202F, U+205F, U+3000. *)
Definition white_space_above_latin1 (r : rune) : bool :=
  (r =? 5760) || ((8192 <=? r) && (r <=? 8202)) || (r =? 8232) || (r =? 8233)
  || (r =? 8239) || (r =? 8287) || (r =? 12288).

(** [unicode.IsSpace]: the Latin-1 special case ['\t'], ['\n'], ['\v'],
    ['\f'], ['\r'], [' '], U+0085, U+00A0, then the White_Space table.  A
    negative rune is above [MaxLatin1] once converted to [uint32]. *)
Definition IsSpace (r : rune) : bool :=
  if (0 <=? r) && (r <=? MaxLatin1) then
    existsb (Z.eqb r) [9; 10; 11; 12; 13; 32; 133; 160]
  else white_space_above_latin1 r.

(** The mappings [unicode.To(LowerCase, r)] and [unicode.To(UpperCase, r)]
    of the runes above ASCII, read from Go's [CaseRanges] table. *)
Class CaseTable := {
  to_lower_table : rune -> rune;
  to_upper_table : rune -> rune;
}.

(** [unicode.ToLower]: ASCII letters are shifted by ['a' - 'A'], other
    runes up to [MaxASCII] are kept, the rest go through the table. *)
Definition ToLower `{CaseTable} (r : rune) : rune :=
  if r <=? MaxASCII then
    (if (65 <=? r) && (r <=? 90) then r + (97 - 65) else r)
  else to_lower_table r.

(** [unicode.ToUpper]. *)
Definition ToUpper `{CaseTable} (r : rune) : rune :=
  if r <=? MaxASCII then
    (if (97 <=? r) && (r <=? 122) then r - (97 - 65) else r)
  else to_upper_table r.

(** What Go's table guarantees and the theorems use: lower-casing is
    idempotent, it neither creates nor removes white space, and it keeps
    every white-space rune as it is (the White_Space runes have no case
    mapping, letters are not spaces). *)
Class CaseTableLaws `{CaseTable} := {
  ToLower_idem : forall r, ToLower (ToLower r) = ToLower r;
  IsSpace_ToLower : forall r, IsSpace (ToLower r) = IsSpace r;
  ToLower_space : forall r, IsSpace r = true -> ToLower r = r;
}.

(** [unicode.CaseRange]: the runes [Lo..Hi] and their deltas
    [d{UpperCase, LowerCase, TitleCase}]. *)
Record CaseRange := {
  Lo : rune;
  Hi : rune;
  Delta : rune * rune * rune }.

Definition UpperCase : Z := 0.
Definition LowerCase : Z := 1.
Definition TitleCase : Z := 2.
Definition MaxCase : Z := 3.
Definition MaxRune : rune := 1114111.
Definition ReplacementChar : rune := 65533.

(** The delta of an Upper-Lower run: [MaxRune + 1]. *)
Definition UpperLower : rune := MaxRune + 1.

(** [cr.Delta[_case]]. *)
Definition delta_of (d : rune * rune * rune) (case_ : Z) : rune :=
  let '(u, l, t) := d in if case_ =? UpperCase then u else if case_ =? LowerCase then l else t.

(** [rune(cr.Lo) <= r && r <= rune(cr.Hi)]. *)
Definition in_range (r : rune) (cr : CaseRange) : bool := (Lo cr <=? r) && (r <=? Hi cr).

(** The mapping of [r] by the range [cr] that holds it: the delta, or in
    an Upper-Lower run the rune at the same offset with its low bit set
    for [LowerCase] and cleared for [UpperCase] and [TitleCase]. *)
Definition apply_range (case_ r : rune) (cr : CaseRange) : rune :=
  let delta := delta_of (Delta cr) case_ in
  if delta >? MaxRune then Lo cr + Z.lor (Z.land (r - Lo cr) (Z.lnot 1)) (Z.land case_ 1)
  else r + delta.

Definition no_range : CaseRange := {| Lo := 0; Hi := 0; Delta := (0, 0, 0) |}.

(** The binary search of [unicode.to] over [caseRange[lo:hi]];
    [m := int(uint(lo+hi) >> 1)]. *)
Fixpoint to_loop (fuel : nat) (case_ r : rune) (caseRange : list CaseRange) (lo hi : Z)
    : rune * bool :=
  match fuel with
  | O => (r, false)
  | S fuel =>
      if lo <? hi then
        let m := Z.shiftr (lo + hi) 1 in
        let cr := nth (Z.to_nat m) caseRange no_range in
        if in_range r cr then (apply_range case_ r cr, true)
        else if r <? Lo cr then to_loop fuel case_ r caseRange lo m
        else to_loop fuel case_ r caseRange (m + 1) hi
      else (r, false)
  end.

(** [unicode.to(_case, r, caseRange)]: the mapped rune and whether a
    range held it.  The loop runs at most [len(caseRange)] times. *)
Definition to (case_ r : rune) (caseRange : list CaseRange) : rune * bool :=
  if (case_ <? 0) || (MaxCase <=? case_) then (ReplacementChar, false)
  else to_loop (length caseRange) case_ r caseRange 0 (Z.of_nat (length caseRange)).

(** An excerpt of Go's [CaseRanges] table ([unicode/tables.go]), in its
    order: every entry up to U+017F (ASCII and Latin-1 letters, the micro
    sign, the Upper-Lower runs of Latin Extended-A, dotted and dotless i,
    Y with diaeresis, long s), then the Kelvin and Angstrom signs.  Runes
    the excerpt does not list are left as they are. *)
Definition CaseRanges : list CaseRange := [
  {| Lo := 65; Hi := 90; Delta := (0, 32, 0) |};
  {| Lo := 97; Hi := 122; Delta := (-32, 0, -32) |};
  {| Lo := 181; Hi := 181; Delta := (743, 0, 743) |};
  {| Lo := 192; Hi := 214; Delta := (0, 32, 0) |};
  {| Lo := 216; Hi := 222; Delta := (0, 32, 0) |};
  {| Lo := 224; Hi := 246; Delta := (-32, 0, -32) |};
  {| Lo := 248; Hi := 254; Delta := (-32, 0, -32) |};
  {| Lo := 255; Hi := 255; Delta := (121, 0, 121) |};
  {| Lo := 256; Hi := 303; Delta := (UpperLower, UpperLower, UpperLower) |};
  {| Lo := 304; Hi := 304; Delta := (0, -199, 0) |};
  {| Lo := 305; Hi := 305; Delta := (-232, 0, -232) |};
  {| Lo := 306; Hi := 311; Delta := (UpperLower, UpperLower, UpperLower) |};
  {| Lo := 313; Hi := 328; Delta := (UpperLower, UpperLower, UpperLower) |};
  {| Lo := 330; Hi := 375; Delta := (UpperLower, UpperLower, UpperLower) |};
  {| Lo := 376; Hi := 376; Delta := (0, -121, 0) |};
  {| Lo := 377; Hi := 382; Delta := (UpperLower, UpperLower, UpperLower) |};
  {| Lo := 383; Hi := 383; Delta := (-300, 0, -300) |};
  {| Lo := 8490; Hi := 8490; Delta := (0, -8383, 0) |};
  {| Lo := 8491; Hi := 8491; Delta := (0, -8262, 0) |}].

(** The case table of the worked examples: [unicode.To] on the excerpt. *)
#[export] Instance latin1_case : CaseTable := {
  to_lower_table r := fst (to LowerCase r CaseRanges);
  to_upper_table r := fst (to UpperCase r CaseRanges) }.

(** The runes [IsSpace] accepts, as ranges. *)
Lemma IsSpace_true r :
  IsSpace r = true ->
  9 <= r <= 13 \/ r = 32 \/ r = 133 \/ r = 160 \/ r = 5760 \/ 8192 <= r <= 8202 \/
  r = 8232 \/ r = 8233 \/ r = 8239 \/ r = 8287 \/ r = 12288.
Proof.
  unfold IsSpace, MaxLatin1, white_space_above_latin1. intros H.
  destruct ((0 <=? r) && (r <=? 255)).
  - apply existsb_true_iff in H as (x & Hx & Hr). apply Z.eqb_eq in Hr.
    repeat (apply elem_of_cons in Hx as [->|Hx]); [lia ..|by apply elem_of_nil in Hx].
  - bool_cases; lia.
Qed.

(** ** The binary search of [unicode.to] *)

(** The order of [CaseRanges]: each range lies wholly below the next. *)
Definition range_lt (a b : CaseRange) : Prop := Hi a < Lo b /\ Lo b <= Hi b.

Definition ranges_ok (tbl : list CaseRange) : Prop :=
  StronglySorted range_lt tbl /\ Forall (fun cr => Lo cr <= Hi cr) tbl.

(** The reference: the first range that holds [r], found by a linear
    scan. *)
Fixpoint to_linear (case_ r : rune) (tbl : list CaseRange) : rune * bool :=
  match tbl with
  | [] => (r, false)
  | cr :: tbl => if in_range r cr then (apply_range case_ r cr, true) else to_linear case_ r tbl
  end.

(** [in_unfold] turns the range tests of the context into arithmetic. *)
Ltac in_unfold :=
  unfold in_range in *; rewrite ?andb_true_iff, ?andb_false_iff, ?Z.leb_le, ?Z.leb_gt in *.

Lemma strongly_sorted_nth {A} (R : A -> A -> Prop) (l : list A) (d : A) (i j : nat) :
  StronglySorted R l -> (i < j < length l)%nat -> R (nth i l d) (nth j l d).
Proof.
  revert i j. induction l as [|x l IH]; intros i j Hs Hij; [cbn in Hij; lia|].
  apply StronglySorted_inv in Hs as [Hs Hx].
  destruct i as [|i], j as [|j]; cbn in *; try lia.
  - apply (proj1 (List.Forall_forall _ _) Hx), nth_In. lia.
  - apply IH; [done | lia].
Qed.

Lemma ranges_nth (tbl : list CaseRange) (i : nat) :
  ranges_ok tbl -> (i < length tbl)%nat -> Lo (nth i tbl no_range) <= Hi (nth i tbl no_range).
Proof. intros [_ Hf] Hi. apply (proj1 (List.Forall_forall _ _) Hf), nth_In. lia. Qed.

(** With ranges in order, at most one holds [r]: the linear scan finds
    it wherever it is. *)
Lemma to_linear_nth (tbl : list CaseRange) (case_ r : rune) (k : nat) :
  ranges_ok tbl -> (k < length tbl)%nat -> in_range r (nth k tbl no_range) = true ->
  to_linear case_ r tbl = (apply_range case_ r (nth k tbl no_range), true).
Proof.
  intros [Hs Hf]. revert k. induction Hs as [|cr tbl Hs IH Hx]; intros k Hk Hr; [cbn in Hk; lia|].
  apply Forall_cons in Hf as [_ Hf]. destruct k as [|k]; cbn in *; [by rewrite Hr|].
  destruct (in_range r cr) eqn:E; [|apply IH; [done | lia | done]].
  exfalso. destruct (proj1 (List.Forall_forall _ _) Hx (nth k tbl no_range) (ltac:(apply nth_In; lia) : In (nth k tbl no_range) tbl)).
  in_unfold. lia.
Qed.

Lemma to_linear_none (tbl : list CaseRange) (case_ r : rune) :
  (forall k, (k < length tbl)%nat -> in_range r (nth k tbl no_range) = false) ->
  to_linear case_ r tbl = (r, false).
Proof.
  induction tbl as [|cr tbl IH]; intros H; [done|].
  pose proof (H 0%nat ltac:(cbn; lia)) as H0. cbn in H0 |- *. rewrite H0.
  apply IH. intros k Hk. apply (H (S k)). cbn. lia.
Qed.

(** A range that holds [r] lies after every range that starts above
    [r], and before every range that ends below it. *)
Lemma search_left (tbl : list CaseRange) (r : rune) (k j : nat) :
  ranges_ok tbl -> (k < length tbl)%nat -> in_range r (nth k tbl no_range) = true ->
  (j < length tbl)%nat -> r < Lo (nth j tbl no_range) -> (k < j)%nat.
Proof.
  intros Hok Hk Hr Hj Hl. destruct (lt_eq_lt_dec k j) as [[?| ->]|Hjk]; [done| |].
  - in_unfold. lia.
  - pose proof (strongly_sorted_nth _ _ no_range _ _ (proj1 Hok) (conj Hjk Hk)) as [H1 H2].
    pose proof (ranges_nth tbl j Hok Hj). in_unfold. lia.
Qed.

Lemma search_right (tbl : list CaseRange) (r : rune) (k j : nat) :
  ranges_ok tbl -> (k < length tbl)%nat -> in_range r (nth k tbl no_range) = true ->
  (j < length tbl)%nat -> in_range r (nth j tbl no_range) = false ->
  Lo (nth j tbl no_range) <= r -> (j < k)%nat.
Proof.
  intros Hok Hk Hr Hj Hn Hl. destruct (lt_eq_lt_dec k j) as [[Hkj| ->]|?]; [| congruence | done].
  pose proof (strongly_sorted_nth _ _ no_range _ _ (proj1 Hok) (conj Hkj Hj)) as [H1 H2].
  in_unfold. lia.
Qed.

(** The loop invariant of the search: every range that holds [r] lies in
    [caseRange[lo:hi]], and the fuel covers [hi - lo]. *)
Lemma to_loop_linear (tbl : list CaseRange) (case_ r : rune) :
  ranges_ok tbl -> forall fuel lo hi, 0 <= lo -> hi <= Z.of_nat (length tbl) -> hi - lo <= Z.of_nat fuel ->
  (forall k, (k < length tbl)%nat -> in_range r (nth k tbl no_range) = true -> lo <= Z.of_nat k < hi) ->
  to_loop fuel case_ r tbl lo hi = to_linear case_ r tbl.
Proof.
  intros Hok fuel. induction fuel as [|fuel IH]; intros lo hi Hlo Hhi Hf Hin; cbn [to_loop].
  { rewrite to_linear_none; [done|]. intros k Hk. destruct (in_range r _) eqn:E; [|done].
    specialize (Hin k Hk E). lia. }
  destruct (Z.ltb_spec lo hi) as [Hlt|Hge]; cbv zeta.
  2: { rewrite to_linear_none; [done|]. intros k Hk. destruct (in_range r _) eqn:E; [|done].
       specialize (Hin k Hk E). lia. }
  set (m := Z.shiftr (lo + hi) 1).
  assert (Hm : lo <= m < hi) by (subst m; rewrite Z.shiftr_div_pow2 by lia; Z.div_mod_to_equations; lia).
  set (cr := nth (Z.to_nat m) tbl no_range).
  assert (Hcr : Lo cr <= Hi cr) by (apply ranges_nth; [done | lia]).
  destruct (in_range r cr) eqn:Er; [symmetry; apply to_linear_nth; [done | lia | done]|].
  assert (Hmt : (Z.to_nat m < length tbl)%nat) by lia.
  destruct (Z.ltb_spec r (Lo cr)) as [Hl|Hl]; apply IH; try lia; intros k Hk Hr;
    specialize (Hin k Hk Hr).
  - pose proof (search_left tbl r k (Z.to_nat m) Hok Hk Hr Hmt Hl). lia.
  - pose proof (search_right tbl r k (Z.to_nat m) Hok Hk Hr Hmt Er Hl). lia.
Qed.

(** [unicode.to] with a valid case is the linear scan. *)
Lemma to_linear_eq (tbl : list CaseRange) (case_ r : rune) :
  ranges_ok tbl -> 0 <= case_ < MaxCase -> to case_ r tbl = to_linear case_ r tbl.
Proof.
  intros Hok Hc. unfold to.
  replace ((case_ <? 0) || (MaxCase <=? case_)) with false by (symmetry; apply orb_false_iff; split; zcase; lia).
  apply to_loop_linear; [done | lia | lia | lia | intros k Hk _; lia].
Qed.

Lemma CaseRanges_ok : ranges_ok CaseRanges.
Proof.
  split; [|repeat constructor; cbn; unfold UpperLower, MaxRune; lia].
  apply Sorted_StronglySorted; [intros a b c [H1 H2] [H3 H4]; split; lia|].
  repeat constructor; cbn; unfold UpperLower, MaxRune; lia.
Qed.

(** ** The laws of the excerpt *)

(** The runes the ranges of a table hold. *)
Definition case_runes (tbl : list CaseRange) : list rune :=
  concat (map (fun cr => map (fun k => Lo cr + Z.of_nat k) (seq 0 (Z.to_nat (Hi cr - Lo cr + 1)))) tbl).

Lemma in_case_runes (tbl : list CaseRange) (cr : CaseRange) (r : rune) :
  In cr tbl -> in_range r cr = true -> r ∈ case_runes tbl.
Proof.
  intros Hcr Hr. in_unfold. apply list_elem_of_In, in_concat.
  exists (map (fun k => Lo cr + Z.of_nat k) (seq 0 (Z.to_nat (Hi cr - Lo cr + 1)))).
  split; [exact (in_map (fun c => map (fun k => Lo c + Z.of_nat k) (seq 0 (Z.to_nat (Hi c - Lo c + 1)))) tbl cr Hcr)|].
  apply in_map_iff. exists (Z.to_nat (r - Lo cr)).
  split; [lia|]. apply in_seq. lia.
Qed.

Lemma to_linear_cases (tbl : list CaseRange) (case_ r : rune) :
  to_linear case_ r tbl = (r, false) \/ exists cr, In cr tbl /\ in_range r cr = true.
Proof.
  induction tbl as [|cr tbl IH]; [by left|]. cbn. destruct (in_range r cr) eqn:E.
  - right. exists cr. auto.
  - destruct IH as [-> | (c & Hc & Hr)]; [by left | right; exists c; auto].
Qed.

(** [ToLower] moves only the runes the excerpt lists. *)
Lemma latin1_ToLower_table (r : rune) :
  ToLower (H := latin1_case) r = r \/ r ∈ case_runes CaseRanges.
Proof.
  unfold ToLower, MaxASCII. destruct (Z.leb_spec r 127).
  - destruct ((65 <=? r) && (r <=? 90)) eqn:E; [right|by left].
    apply (in_case_runes _ {| Lo := 65; Hi := 90; Delta := (0, 32, 0) |}); [by left | exact E].
  - cbn [to_lower_table latin1_case].
    rewrite to_linear_eq by (apply CaseRanges_ok || (unfold LowerCase, MaxCase; lia)).
    destruct (to_linear_cases CaseRanges LowerCase r) as [-> | (cr & Hc & Hr)]; [by left|].
    right. by apply (in_case_runes _ cr).
Qed.

#[export] Instance latin1_case_laws : CaseTableLaws (H := latin1_case).
Proof.
  assert (F : Forall (fun r => ToLower (ToLower r) = ToLower r /\ IsSpace (ToLower r) = IsSpace r /\
                               (IsSpace r = true -> ToLower r = r)) (case_runes CaseRanges)).
  { apply (bool_decide_unpack _). vm_compute. reflexivity. }
  rewrite Forall_forall in F.
  split; intros r; destruct (latin1_ToLower_table r) as [E|Hin];
    try (destruct (F r Hin) as (F1 & F2 & F3); by auto); try rewrite !E; done.
Qed.

(** ** Theorems *)

(** C32. The binary search of [unicode.to] (called by [unicode.ToLower]
    and [unicode.ToUpper], so by [strings.ToLower] at line 93) is the
    linear lookup of the range that holds the rune, on every table whose
    ranges are in increasing order as Go's [CaseRanges] is: the search
    never misses a range and its fuel of [len(caseRange)] iterations is
    enough. *)
Theorem to_binary_search (tbl : list CaseRange) (case_ r : rune) :
  ranges_ok tbl -> 0 <= case_ < MaxCase -> to case_ r tbl = to_linear case_ r tbl.
Proof. apply to_linear_eq. Qed.

Lemma to_binary_search_witness :
  ranges_ok CaseRanges /\ 0 <= LowerCase < MaxCase /\
  to LowerCase 8490 CaseRanges = to_linear LowerCase 8490 CaseRanges.
Proof.
  split; [exact CaseRanges_ok|]. split; [unfold LowerCase, MaxCase; lia|].
  apply (to_binary_search CaseRanges LowerCase 8490 CaseRanges_ok). unfold LowerCase, MaxCase. lia.
Defined.

(** The excerpt at work: dotted capital I and the Kelvin sign lower to
    ASCII, an Upper-Lower run sets or clears the low bit, the micro sign
    has only an upper case, and a case out of range gives U+FFFD. *)
Example to_examples :
  ToLower 304 = 105 /\ ToLower 8490 = 107 /\ ToLower 256 = 257 /\ ToUpper 257 = 256 /\
  ToLower 313 = 314 /\ ToUpper 181 = 924 /\ ToLower 181 = 181 /\ ToLower 376 = 255 /\
  to 3 65 CaseRanges = (ReplacementChar, false) /\ to LowerCase 1024 CaseRanges = (1024, false).
Proof. vm_compute. repeat split. Qed.

End Unicode.

(** ** Package [strings] *)
Module Strings.
Import Unicode.

(** [strings.TrimLeftFunc]: drop the leading runes satisfying [f]. *)
Fixpoint TrimLeftFunc (f : rune -> bool) (s : gostring) : gostring :=
  match s with
  | [] => []
  | r :: s' => if f r then TrimLeftFunc f s' else s
  end.

(** [strings.TrimRightFunc]: drop the trailing runes satisfying [f]. *)
Definition TrimRightFunc (f : rune -> bool) (s : gostring) : gostring :=
  rev (TrimLeftFunc f (rev s)).

(** [strings.TrimFunc s f = TrimRightFunc(TrimLeftFunc(s, f), f)]. *)
Definition TrimFunc (f : rune -> bool) (s : gostring) : gostring :=
  TrimRightFunc f (TrimLeftFunc f s).

(** [strings.TrimSpace]: its ASCII fast path computes the same slice as
    [TrimFunc(s, unicode.IsSpace)], which it falls back to. *)
Definition TrimSpace (s : gostring) : gostring := TrimFunc IsSpace s.

(** [strings.ToLower] of a valid UTF-8 string is
    [strings.Map(unicode.ToLower, s)] (the ASCII fast path agrees). *)
Definition ToLower `{CaseTable} (s : gostring) : gostring :=
  map Unicode.ToLower s.

(** [strings.ContainsRune]. *)
Definition ContainsRune (s : gostring) (r : rune) : bool :=
  existsb (Z.eqb r) s.

(** [strings.ContainsAny(s, chars)]: some rune of [s] is in [chars]. *)
Definition ContainsAny (s chars : gostring) : bool :=
  existsb (ContainsRune chars) s.

(** [strings.HasPrefix]. *)
Fixpoint HasPrefix (s prefix : gostring) : bool :=
  match prefix, s with
  | [], _ => true
  | _ :: _, [] => false
  | p :: prefix', r :: s' => (p =? r) && HasPrefix s' prefix'
  end.

(** The position of the first occurrence of [sub] in [s], if any. *)
Fixpoint index_of (s sub : gostring) : option nat :=
  if HasPrefix s sub then Some 0%nat
  else match s with
       | [] => None
       | _ :: s' => S <$> index_of s' sub
       end.

(** [strings.Index]: [-1] when [sub] does not occur. *)
Definition Index (s sub : gostring) : Z :=
  match index_of s sub with
  | Some n => Z.of_nat n
  | None => -1
  end.

(** [strings.Contains(s, substr) = Index(s, substr) >= 0]. *)
Definition Contains (s substr : gostring) : bool := 0 <=? Index s substr.

(** [strings.Split] on an empty separator splits after each rune
    ([explode(s, -1)]). *)
Definition explode (s : gostring) : list gostring := map (fun r => [r]) s.

(** The loop of [genSplit(s, sep, 0, -1)]: cut [s] at the first [sep],
    keep the piece, go on after the separator.  [fuel] bounds the number
    of cuts; [Split] gives one more than the length of [s], which
    [genSplit_fuel] shows is never used up. *)
Fixpoint genSplit (fuel : nat) (s sep : gostring) : list gostring :=
  match fuel with
  | O => [s]
  | S fuel' =>
      match index_of s sep with
      | None => [s]
      | Some m => take m s :: genSplit fuel' (drop (m + length sep) s) sep
      end
  end.

(** [strings.Split(s, sep)]. *)
Definition Split (s sep : gostring) : list gostring :=
  match sep with
  | [] => explode s
  | _ :: _ => genSplit (S (length s)) s sep
  end.

(** [strings.Join(elems, sep)]. *)
Fixpoint Join (elems : list gostring) (sep : gostring) : gostring :=
  match elems with
  | [] => []
  | [e] => e
  | e :: elems' => e ++ sep ++ Join elems' sep
  end.

(** The replacement loop of [strings.Replace] for a non-empty [old]: copy
    up to the next [old], write [new], continue after it. *)
Fixpoint replace_loop (fuel : nat) (s old new : gostring) : gostring :=
  match fuel with
  | O => s
  | S fuel' =>
      match index_of s old with
      | None => s
      | Some j => take j s ++ new ++ replace_loop fuel' (drop (j + length old) s) old new
      end
  end.

(** [strings.ReplaceAll(s, old, new) = Replace(s, old, new, -1)]: nothing
    to do when [old == new]; an empty [old] matches before every rune and
    at the end. *)
Definition ReplaceAll (s old new : gostring) : gostring :=
  if decide (old = new) then s
  else match old with
       | [] => new ++ concat (map (fun r => r :: new) s)
       | _ :: _ => replace_loop (S (length s)) s old new
       end.

End Strings.

(** ** Properties of the [strings] functions *)
Module StringsFacts.
Import Unicode Strings.

Lemma HasPrefix_spec (s p : gostring) :
  HasPrefix s p = true <-> p `prefix_of` s.
Proof.
  revert s; induction p as [|a p IH]; intros [|r s]; simpl.
  - split; [intros; apply prefix_nil | done].
  - split; [intros; apply prefix_nil | done].
  - split; [done | intros H; by apply prefix_nil_not in H].
  - rewrite andb_true_iff, Z.eqb_eq, IH. split.
    + intros [-> H]. by apply prefix_cons.
    + intros H. split; [by apply prefix_cons_inv_1 in H | by eapply prefix_cons_inv_2].
Qed.

Lemma HasPrefix_nil (s : gostring) : HasPrefix s [] = true.
Proof. by destruct s. Qed.

Lemma index_of_unfold (s sub : gostring) :
  index_of s sub =
    if HasPrefix s sub then Some 0%nat
    else match s with [] => None | _ :: s' => S <$> index_of s' sub end.
Proof. by destruct s. Qed.

(** [index_of] finds the first occurrence. *)
Lemma index_of_Some (s sub : gostring) (m : nat) :
  index_of s sub = Some m ->
  sub `prefix_of` drop m s /\ forall k, (k < m)%nat -> ~ sub `prefix_of` drop k s.
Proof.
  revert m; induction s as [|r s IH]; intros m; rewrite index_of_unfold.
  - destruct (HasPrefix [] sub) eqn:E; intros [= <-].
    split; [by apply HasPrefix_spec | lia].
  - destruct (HasPrefix (r :: s) sub) eqn:E.
    + intros [= <-]. split; [by apply HasPrefix_spec | lia].
    + destruct (index_of s sub) as [m'|] eqn:E'; intros [= <-].
      destruct (IH m' eq_refl) as [Hp Hk]. split; [done|].
      intros [|k] Hlt; simpl.
      * rewrite <- HasPrefix_spec. by rewrite E.
      * apply Hk. lia.
Qed.

Lemma index_of_None (s sub : gostring) :
  index_of s sub = None -> forall k, ~ sub `prefix_of` drop k s.
Proof.
  induction s as [|r s IH]; rewrite index_of_unfold.
  - destruct (HasPrefix [] sub) eqn:E; [done|]. intros _ k.
    rewrite drop_nil, <- HasPrefix_spec. by rewrite E.
  - destruct (HasPrefix (r :: s) sub) eqn:E; [done|].
    destruct (index_of s sub); [done|]. intros _ [|k]; simpl.
    + rewrite <- HasPrefix_spec. by rewrite E.
    + by apply IH.
Qed.

(** An occurrence at [m] cuts [s] into the text before, [sub], and the
    rest. *)
Lemma prefix_drop_split (s sub : gostring) (m : nat) :
  (m <= length s)%nat -> sub `prefix_of` drop m s ->
  s = take m s ++ sub ++ drop (m + length sub) s /\ (m + length sub <= length s)%nat.
Proof.
  intros Hm [t Ht].
  rewrite <- drop_drop, Ht, drop_app_length.
  split.
  - rewrite <- Ht. by rewrite take_drop.
  - apply (f_equal length) in Ht. rewrite length_drop, length_app in Ht. lia.
Qed.

Lemma index_of_split (s sub : gostring) (m : nat) :
  index_of s sub = Some m ->
  s = take m s ++ sub ++ drop (m + length sub) s /\ (m + length sub <= length s)%nat.
Proof.
  intros H. apply prefix_drop_split; [|apply (index_of_Some _ _ _ H)].
  revert m H; induction s as [|r s IH]; intros m; rewrite index_of_unfold.
  - destruct (HasPrefix [] sub); by intros [= <-].
  - destruct (HasPrefix (r :: s) sub); [intros [= <-]; simpl; lia|].
    destruct (index_of s sub) as [m'|] eqn:E; intros [= <-].
    specialize (IH m' eq_refl). simpl. lia.
Qed.

Lemma Join_cons_cons (x y : gostring) (ys : list gostring) (sep : gostring) :
  Join (x :: y :: ys) sep = x ++ sep ++ Join (y :: ys) sep.
Proof. reflexivity. Qed.

(** [genSplit] never returns the empty list. *)
Lemma genSplit_cons (fuel : nat) (s sep : gostring) :
  exists p ps, genSplit fuel s sep = p :: ps.
Proof.
  destruct fuel as [|fuel]; simpl; [eauto|].
  destruct (index_of s sep); eauto.
Qed.

(** Joining the pieces with the separator gives the string back, whatever
    the fuel. *)
Lemma Join_genSplit (fuel : nat) (s sep : gostring) :
  Join (genSplit fuel s sep) sep = s.
Proof.
  revert s; induction fuel as [|fuel IH]; intros s; simpl; [done|].
  destruct (index_of s sep) as [m|] eqn:E; [|done].
  destruct (genSplit_cons fuel (drop (m + length sep) s) sep) as (p & ps & Hps).
  rewrite Hps, Join_cons_cons, <- Hps, IH.
  symmetry. apply (index_of_split _ _ _ E).
Qed.

(** Fuel adequacy: past the length of [s], more fuel changes nothing. *)
Lemma genSplit_fuel (n m : nat) (s sep : gostring) :
  sep <> [] -> (length s < n)%nat -> (length s < m)%nat ->
  genSplit n s sep = genSplit m s sep.
Proof.
  intros Hsep. revert m s; induction n as [|n IH]; intros [|m] s Hn Hm; try lia.
  simpl. destruct (index_of s sep) as [j|] eqn:E; [|done].
  destruct (index_of_split _ _ _ E) as [_ Hle].
  destruct sep as [|c sep]; [done|]. simpl in Hle.
  f_equal. apply IH; rewrite length_drop; simpl; lia.
Qed.

Lemma replace_loop_fuel (n m : nat) (s old new : gostring) :
  old <> [] -> (length s < n)%nat -> (length s < m)%nat ->
  replace_loop n s old new = replace_loop m s old new.
Proof.
  intros Hold. revert m s; induction n as [|n IH]; intros [|m] s Hn Hm; try lia.
  simpl. destruct (index_of s old) as [j|] eqn:E; [|done].
  destruct (index_of_split _ _ _ E) as [_ Hle].
  destruct old as [|c old]; [done|]. simpl in Hle.
  do 2 f_equal. apply IH; rewrite length_drop; simpl; lia.
Qed.

(** [Contains] is the absence of any occurrence. *)
Lemma Contains_false (s sub : gostring) :
  Contains s sub = false <-> forall k, ~ sub `prefix_of` drop k s.
Proof.
  unfold Contains, Index. split.
  - destruct (index_of s sub) eqn:E; [intros H%Z.leb_gt; lia|]. intros _. by apply index_of_None.
  - intros H. destruct (index_of s sub) as [m|] eqn:E; [|done].
    exfalso. by apply (H m), (index_of_Some _ _ _ E).
Qed.

(** The text before the first occurrence holds no occurrence. *)
Lemma take_index_of_no_occurrence (s sub : gostring) (m : nat) :
  sub <> [] -> index_of s sub = Some m -> Contains (take m s) sub = false.
Proof.
  intros Hsub E. apply Contains_false. intros k [t Ht].
  destruct (index_of_Some _ _ _ E) as [_ Hmin].
  assert (Hk : (k < m)%nat).
  { destruct (decide (k < m)%nat) as [|Hge]; [done|].
    rewrite drop_ge in Ht by (rewrite length_take; lia).
    destruct sub; [done|]. discriminate. }
  assert (Hlen : (k < length (take m s))%nat).
  { destruct (decide (k < length (take m s))%nat); [done|].
    rewrite drop_ge in Ht by lia. destruct sub; [done|]. discriminate. }
  apply (Hmin k Hk). exists (t ++ drop m s).
  rewrite <- (take_drop m s) at 1.
  rewrite drop_app_le, Ht, app_assoc by lia. done.
Qed.

(** With enough fuel no piece of [genSplit] holds the separator. *)
Lemma genSplit_no_sep (fuel : nat) (s sep p : gostring) :
  sep <> [] -> (length s < fuel)%nat -> p ∈ genSplit fuel s sep ->
  Contains p sep = false.
Proof.
  intros Hsep. revert s; induction fuel as [|fuel IH]; intros s Hlt; [lia|].
  simpl. destruct (index_of s sep) as [m|] eqn:E.
  - intros [->|Hp]%elem_of_cons; [by apply take_index_of_no_occurrence|].
    destruct (index_of_split _ _ _ E) as [_ Hle].
    apply (IH (drop (m + length sep) s)); [|done].
    destruct sep; [done|]. rewrite length_drop. simpl in *. lia.
  - intros ->%list_elem_of_singleton. apply Contains_false. by apply index_of_None.
Qed.

(** The reference splitter on one rune: structural, no search. *)
Fixpoint split_rune (c : rune) (s : gostring) : list gostring :=
  match s with
  | [] => [[]]
  | r :: s' =>
      let ps := split_rune c s' in
      if r =? c then [] :: ps
      else match ps with p :: ps' => (r :: p) :: ps' | [] => [[r]] end
  end.

Lemma index_of_single (c r : rune) (s : gostring) :
  index_of (r :: s) [c] = if c =? r then Some 0%nat else S <$> index_of s [c].
Proof. simpl. rewrite HasPrefix_nil. by destruct (c =? r). Qed.

Lemma genSplit_S (f : nat) (s sep : gostring) :
  genSplit (S f) s sep =
    match index_of s sep with
    | None => [s]
    | Some m => take m s :: genSplit f (drop (m + length sep) s) sep
    end.
Proof. reflexivity. Qed.

Lemma replace_loop_S (f : nat) (s old new : gostring) :
  replace_loop (S f) s old new =
    match index_of s old with
    | None => s
    | Some j => take j s ++ new ++ replace_loop f (drop (j + length old) s) old new
    end.
Proof. reflexivity. Qed.

Lemma genSplit_single_cons (c r : rune) (s : gostring) (f : nat) :
  (length s < f)%nat ->
  genSplit (S f) (r :: s) [c] =
    if r =? c then [] :: genSplit f s [c]
    else match genSplit f s [c] with p :: ps => (r :: p) :: ps | [] => [[r]] end.
Proof.
  intros Hf. destruct f as [|f]; [lia|].
  rewrite (genSplit_S (S f) (r :: s)), index_of_single, (Z.eqb_sym c r).
  destruct (r =? c); [done|].
  rewrite (genSplit_S f s).
  destruct (index_of s [c]) as [m|] eqn:E; cbn -[genSplit]; [|done].
  destruct (index_of_split _ _ _ E) as [_ Hle]. simpl in Hle.
  rewrite (genSplit_fuel (S f) f); try done; rewrite length_drop; lia.
Qed.

(** [strings.Split] on a one-rune separator is the structural splitter. *)
Lemma Split_single (c : rune) (s : gostring) :
  Split s [c] = split_rune c s.
Proof.
  unfold Split. generalize (S (length s)) (Nat.lt_succ_diag_r (length s)).
  induction s as [|r s IH]; intros f Hf; simpl.
  - destruct f; [lia|]. done.
  - destruct f as [|f]; [lia|]. rewrite genSplit_single_cons by (simpl in Hf; lia).
    rewrite IH by (simpl in Hf; lia). done.
Qed.

Lemma replace_loop_single_cons (a b r : rune) (s : gostring) (f : nat) :
  (length s < f)%nat ->
  replace_loop (S f) (r :: s) [a] [b] =
    (if r =? a then b else r) :: replace_loop f s [a] [b].
Proof.
  intros Hf. destruct f as [|f]; [lia|].
  rewrite (replace_loop_S (S f) (r :: s)), index_of_single, (Z.eqb_sym a r).
  destruct (r =? a); [done|].
  rewrite (replace_loop_S f s).
  destruct (index_of s [a]) as [m|] eqn:E; cbn -[replace_loop]; [|done].
  destruct (index_of_split _ _ _ E) as [_ Hle]. simpl in Hle.
  rewrite (replace_loop_fuel (S f) f); try done; rewrite length_drop; lia.
Qed.

(** [strings.ReplaceAll] of one rune by another rewrites rune by rune. *)
Lemma ReplaceAll_single (a b : rune) (s : gostring) :
  a <> b -> ReplaceAll s [a] [b] = map (fun r => if r =? a then b else r) s.
Proof.
  intros Hab. unfold ReplaceAll.
  rewrite decide_False by congruence.
  generalize (S (length s)) (Nat.lt_succ_diag_r (length s)).
  induction s as [|r s IH]; intros f Hf; simpl.
  - destruct f; [lia|]. done.
  - destruct f as [|f]; [lia|]. rewrite replace_loop_single_cons by (simpl in Hf; lia).
    rewrite IH by (simpl in Hf; lia). done.
Qed.

(** ** Trimming *)

Lemma TrimLeftFunc_app_stop (f : rune -> bool) (l k : gostring) (r : rune) :
  f r = false -> TrimLeftFunc f (l ++ r :: k) = TrimLeftFunc f l ++ r :: k.
Proof.
  intros Hr. induction l as [|a l IH]; simpl; [by rewrite Hr|].
  by destruct (f a).
Qed.

Lemma TrimLeftFunc_length (f : rune -> bool) (s : gostring) :
  (length (TrimLeftFunc f s) <= length s)%nat.
Proof. induction s as [|r s IH]; simpl; [lia|]. destruct (f r); simpl; lia. Qed.

Lemma TrimLeftFunc_idem (f : rune -> bool) (s : gostring) :
  TrimLeftFunc f (TrimLeftFunc f s) = TrimLeftFunc f s.
Proof.
  induction s as [|r s IH]; simpl; [done|].
  destruct (f r) eqn:E; [done|]. simpl. by rewrite E.
Qed.

(** Once the left end is trimmed, trimming the right end keeps it so. *)
Lemma TrimLeftFunc_TrimRightFunc (f : rune -> bool) (s : gostring) :
  TrimLeftFunc f s = s -> TrimLeftFunc f (TrimRightFunc f s) = TrimRightFunc f s.
Proof.
  unfold TrimRightFunc. destruct s as [|r t]; [done|]. simpl.
  destruct (f r) eqn:E.
  - intros Ht. apply (f_equal length) in Ht.
    pose proof (TrimLeftFunc_length f t). simpl in Ht. lia.
  - intros _. rewrite TrimLeftFunc_app_stop, rev_app_distr by done. simpl.
    by rewrite E.
Qed.

Lemma TrimFunc_idem (f : rune -> bool) (s : gostring) :
  TrimFunc f (TrimFunc f s) = TrimFunc f s.
Proof.
  unfold TrimFunc.
  rewrite TrimLeftFunc_TrimRightFunc by apply TrimLeftFunc_idem.
  unfold TrimRightFunc. by rewrite rev_involutive, TrimLeftFunc_idem.
Qed.

(** Trimming commutes with a rune map that keeps [f]. *)
Lemma TrimLeftFunc_map (f : rune -> bool) (g : rune -> rune) (s : gostring) :
  (forall r, f (g r) = f r) ->
  TrimLeftFunc f (map g s) = map g (TrimLeftFunc f s).
Proof.
  intros Hg. induction s as [|r s IH]; simpl; [done|].
  rewrite Hg. by destruct (f r).
Qed.

Lemma TrimFunc_map (f : rune -> bool) (g : rune -> rune) (s : gostring) :
  (forall r, f (g r) = f r) ->
  TrimFunc f (map g s) = map g (TrimFunc f s).
Proof.
  intros Hg. unfold TrimFunc, TrimRightFunc.
  by rewrite TrimLeftFunc_map, <- map_rev, TrimLeftFunc_map, map_rev.
Qed.

(** ** Splitting on one rune *)

Lemma split_rune_app (c : rune) (p rest : gostring) :
  c ∉ p -> split_rune c (p ++ c :: rest) = p :: split_rune c rest.
Proof.
  intros Hp. induction p as [|r p IH]; simpl.
  - by rewrite Z.eqb_refl.
  - apply not_elem_of_cons in Hp as [Hr Hp].
    rewrite IH by done. by rewrite (proj2 (Z.eqb_neq r c) (not_eq_sym Hr)).
Qed.

(** Lines each ended by [c], none holding [c], split back into the lines
    and a last empty piece. *)
Lemma split_rune_lines (c : rune) (l : list gostring) :
  (forall d, d ∈ l -> c ∉ d) ->
  split_rune c (concat (map (fun d => d ++ [c]) l)) = l ++ [[]].
Proof.
  induction l as [|d l IH]; intros Hl; [done|]. simpl.
  rewrite <- app_assoc. simpl. rewrite split_rune_app by (apply Hl; set_solver).
  rewrite IH; [done|]. intros d' Hd'. apply Hl. set_solver.
Qed.

(** A piece of a one-rune split never holds that rune. *)
Lemma split_rune_not_elem (c : rune) (s p : gostring) :
  p ∈ split_rune c s -> c ∉ p.
Proof.
  revert p; induction s as [|r s IH]; intros p; simpl.
  - intros ->%list_elem_of_singleton. apply not_elem_of_nil.
  - destruct (Z.eqb_spec r c) as [->|Hrc].
    + intros [->|Hp]%elem_of_cons; [apply not_elem_of_nil | by apply IH].
    + destruct (split_rune c s) as [|q qs] eqn:E.
      * intros ->%list_elem_of_singleton. apply not_elem_of_cons. split; [done|].
        apply not_elem_of_nil.
      * intros [->|Hp]%elem_of_cons.
        -- apply not_elem_of_cons. split; [done|]. apply IH; rewrite ?E; set_solver.
        -- apply IH; rewrite ?E; set_solver.
Qed.

Lemma TrimLeftFunc_subseteq (f : rune -> bool) (s : gostring) :
  TrimLeftFunc f s ⊆ s.
Proof.
  induction s as [|r s IH]; simpl; [done|].
  destruct (f r); [set_solver | done].
Qed.

(** Trimming only removes runes. *)
Lemma TrimFunc_subseteq (f : rune -> bool) (s : gostring) : TrimFunc f s ⊆ s.
Proof.
  unfold TrimFunc, TrimRightFunc. intros x Hx.
  rewrite elem_of_rev in Hx. apply (TrimLeftFunc_subseteq f _ x) in Hx.
  rewrite elem_of_rev in Hx. by apply (TrimLeftFunc_subseteq f s x).
Qed.

Lemma split_rune_nonempty (c : rune) (s : gostring) : split_rune c s <> [].
Proof.
  destruct s as [|r s]; simpl; [done|].
  destruct (r =? c); [done|]. by destruct (split_rune c s).
Qed.

(** Runes other than the separator join the first piece. *)
Lemma split_rune_prepend (c : rune) (bs rest : gostring) :
  c ∉ bs ->
  split_rune c (bs ++ rest) =
    match split_rune c rest with
    | p :: ps => (bs ++ p) :: ps
    | [] => [bs]
    end.
Proof.
  intros Hbs. induction bs as [|b bs IH]; simpl.
  - destruct (split_rune c rest) eqn:E; [by apply split_rune_nonempty in E | done].
  - apply not_elem_of_cons in Hbs as [Hb Hbs].
    rewrite (proj2 (Z.eqb_neq b c) (not_eq_sym Hb)), IH by done.
    by destruct (split_rune c rest).
Qed.

Lemma index_of_single_Some (s : gostring) (c : rune) :
  is_Some (index_of s [c]) <-> c ∈ s.
Proof.
  induction s as [|r s IH].
  - simpl. split; [intros [? [=]] | intros ?%elem_of_nil; done].
  - rewrite index_of_single, elem_of_cons. destruct (Z.eqb_spec c r).
    + split; [by left | eauto].
    + rewrite fmap_is_Some, IH. naive_solver.
Qed.

(** [strings.Contains] of a one-rune string is membership. *)
Lemma Contains_single (s : gostring) (c : rune) :
  Contains s [c] = bool_decide (c ∈ s).
Proof.
  unfold Contains, Index. pose proof (index_of_single_Some s c) as Hs.
  destruct (index_of s [c]) eqn:E; case_bool_decide as Hin.
  - apply Z.leb_le. lia.
  - exfalso. apply Hin, Hs. eauto.
  - exfalso. apply Hs in Hin as [? [=]].
  - reflexivity.
Qed.

Lemma TrimSpace_idem (s : gostring) : TrimSpace (TrimSpace s) = TrimSpace s.
Proof. apply TrimFunc_idem. Qed.

#[export] Hint Rewrite HasPrefix_nil TrimSpace_idem TrimLeftFunc_idem Split_single : gostr_rw.
#[export] Hint Resolve TrimFunc_subseteq TrimLeftFunc_subseteq : gostr.

(** ** Theorems *)

(** C31. [strings.Split] cuts at every separator and loses nothing:
    for a non-empty separator, joining the pieces with the separator
    gives the string back, and no piece holds the separator. *)
Theorem Split_Join_roundtrip (s sep : gostring) :
  sep <> [] ->
  Join (Split s sep) sep = s /\ forall p, p ∈ Split s sep -> Contains p sep = false.
Proof.
  intros Hsep. destruct sep as [|c sep']; [done|]. split; [apply Join_genSplit|].
  intros p. apply genSplit_no_sep; [done | lia].
Qed.

(** The fuel of the splitting loop is never the limit: any fuel
    above the length of the string gives the result of [Split]. *)
Theorem Split_fuel_enough (s sep : gostring) (n : nat) :
  sep <> [] -> (length s < n)%nat -> genSplit n s sep = Split s sep.
Proof.
  intros Hsep Hn. destruct sep as [|c sep']; [done|].
  apply genSplit_fuel; [done | done | lia].
Qed.

Lemma Split_Join_roundtrip_witness :
  gs "--" <> [] /\ Join (Split (gs "a--b--c") (gs "--")) (gs "--") = gs "a--b--c" /\
  gs "b" ∈ Split (gs "a--b--c") (gs "--") /\ Contains (gs "b") (gs "--") = false.
Proof.
  assert (Hin : gs "b" ∈ Split (gs "a--b--c") (gs "--")).
  { vm_compute. apply list_elem_of_further, list_elem_of_here. }
  assert (Hs : gs "--" <> []) by discriminate.
  split; [exact Hs|]. split; [exact (proj1 (Split_Join_roundtrip _ _ Hs))|].
  split; [exact Hin | exact (proj2 (Split_Join_roundtrip _ _ Hs) _ Hin)].
Defined.

Lemma Split_fuel_enough_witness :
  gs "." <> [] /\ (length (gs "a.b") < 10)%nat /\
  genSplit 10 (gs "a.b") (gs ".") = Split (gs "a.b") (gs ".").
Proof.
  split; [discriminate|]. split; [simpl; lia|].
  apply Split_fuel_enough; [discriminate | simpl; lia].
Defined.

End StringsFacts.
