(* ===== verification/Utf8.v ===== *)
(** * Utf8: the bytes behind the rune model

    A Go [string] is a byte sequence.  The development reads the strings of
    [crtRecon.go] as their runes, because [encoding/json] hands back valid
    UTF-8.  This file connects the two views: [EncodeRune] is Go's
    [utf8.EncodeRune] (with the [uint32] conversion of the rune and the
    [byte] truncations written out with [Z.land], [Z.lor] and [Z.shiftr]),
    [encode] is the conversion [string([]rune)], and [decode] reads UTF-8
    back.  The theorems show the encoding's byte bounds, the round trip on
    valid runes, and that the byte-level [strings.Split] and the byte tests of
    [strings.Contains] and [strings.ContainsAny] on an ASCII separator, which
    is what Go runs, agree with the rune-level functions the other files
    use. *)

From Stdlib Require Import ZArith.
From S2P Require Import Prelude GoStrings.

Open Scope Z_scope.

Module Utf8.
Import Strings StringsFacts.

Definition RuneError : Z := 65533.
Definition MaxRune : Z := 1114111.
Definition surrogateMin : Z := 55296.
Definition surrogateMax : Z := 57343.

(** The constants of [unicode/utf8]: first-byte tags and the continuation
    tag with its mask. *)
Definition t2 : Z := 192.
Definition t3 : Z := 224.
Definition t4 : Z := 240.
Definition tx : Z := 128.
Definition maskx : Z := 63.

(** Go's [byte(x)]: the low 8 bits. *)
Definition byte (x : Z) : Z := Z.land x 255.

(** Go's [uint32(r)]: the low 32 bits. *)
Definition uint32 (r : Z) : Z := Z.land r (Z.ones 32).

(** [utf8.EncodeRune]: one to four bytes; a rune above [MaxRune] or a
    surrogate falls through to the three-byte encoding of [RuneError]. *)
Definition EncodeRune (r : Z) : list Z :=
  let i := uint32 r in
  let enc3 (r : Z) :=
    [Z.lor t3 (byte (Z.shiftr r 12));
     Z.lor tx (Z.land (byte (Z.shiftr r 6)) maskx);
     Z.lor tx (Z.land (byte r) maskx)] in
  if i <=? 127 then [byte r]
  else if i <=? 2047 then
    [Z.lor t2 (byte (Z.shiftr r 6)); Z.lor tx (Z.land (byte r) maskx)]
  else if (MaxRune <? i) || ((surrogateMin <=? i) && (i <=? surrogateMax)) then
    enc3 RuneError
  else if i <=? 65535 then enc3 r
  else
    [Z.lor t4 (byte (Z.shiftr r 18));
     Z.lor tx (Z.land (byte (Z.shiftr r 12)) maskx);
     Z.lor tx (Z.land (byte (Z.shiftr r 6)) maskx);
     Z.lor tx (Z.land (byte r) maskx)].

(** [string([]rune)]: the bytes of a rune list. *)
Definition encode (s : list Z) : list Z := concat (map EncodeRune s).

(** Reading UTF-8 back: the first byte gives the length, the payload bits
    are collected (no validation: it is used on encoder output). *)
Fixpoint decode (bs : list Z) : list Z :=
  match bs with
  | [] => []
  | b0 :: rest =>
      if b0 <? 128 then b0 :: decode rest
      else if b0 <? 224 then
        match rest with
        | b1 :: rest' => (Z.land b0 31 * 64 + Z.land b1 63) :: decode rest'
        | [] => [RuneError]
        end
      else if b0 <? 240 then
        match rest with
        | b1 :: b2 :: rest' =>
            (Z.land b0 15 * 4096 + Z.land b1 63 * 64 + Z.land b2 63) :: decode rest'
        | _ => [RuneError]
        end
      else
        match rest with
        | b1 :: b2 :: b3 :: rest' =>
            (Z.land b0 7 * 262144 + Z.land b1 63 * 4096 + Z.land b2 63 * 64
             + Z.land b3 63) :: decode rest'
        | _ => [RuneError]
        end
  end.

(** A Go [rune] is an [int32]. *)
Definition int32_range (r : Z) : Prop := -2147483648 <= r < 2147483648.

(** A rune UTF-8 can encode as itself. *)
Definition valid_rune (r : Z) : Prop :=
  0 <= r <= MaxRune /\ ~ (surrogateMin <= r <= surrogateMax).

(** [solve_valid_runes] proves [Forall valid_rune l] of a concrete [l]
    rune by rune. *)
Ltac solve_valid_runes :=
  apply Forall_forall; intros ? Hx; apply list_elem_of_In in Hx;
  vm_compute in Hx; repeat destruct Hx as [<-|Hx]; try contradiction;
  unfold valid_rune, MaxRune, surrogateMin, surrogateMax; lia.

(** ** From bits to arithmetic *)

Lemma land_ones_mod (x : Z) (n : Z) : 0 <= n -> Z.land x (Z.ones n) = x mod 2 ^ n.
Proof. apply Z.land_ones. Qed.

(** Setting high tag bits above a small payload adds them. *)
Lemma lor_add (t x k : Z) :
  0 <= k -> 0 <= x < 2 ^ k -> t mod 2 ^ k = 0 -> Z.lor t x = t + x.
Proof.
  intros Hk Hx Ht.
  assert (Hland : Z.land t x = 0).
  { rewrite <- (Z.mod_small x (2 ^ k)) by lia.
    rewrite <- land_ones_mod by lia.
    rewrite (Z.land_comm x), Z.land_assoc, land_ones_mod, Ht by lia. apply Z.land_0_l. }
  pose proof (Z.add_lor_land t x) as E. lia.
Qed.

Lemma byte_mod (x : Z) : byte x = x mod 256.
Proof. unfold byte. change 255 with (Z.ones 8). by rewrite land_ones_mod. Qed.

Lemma uint32_mod (r : Z) : uint32 r = r mod 2 ^ 32.
Proof. unfold uint32. by rewrite land_ones_mod. Qed.

(** A continuation byte carries six payload bits. *)
Lemma cont_byte (x : Z) : Z.lor tx (Z.land (byte x) maskx) = 128 + x mod 64.
Proof.
  unfold byte, maskx, tx. rewrite <- Z.land_assoc. change (Z.land 255 63) with (Z.ones 6).
  rewrite land_ones_mod by lia.
  apply (lor_add _ _ 6); [lia | change (2 ^ 6) with 64; pose proof (Z.mod_pos_bound x 64); lia | reflexivity].
Qed.

(** A leading byte: the tag above a payload of fewer than [k] bits. *)
Lemma lead_byte (t x k : Z) :
  0 <= k <= 8 -> 0 <= x < 2 ^ k -> t mod 2 ^ k = 0 ->
  Z.lor t (byte x) = t + x.
Proof.
  intros Hk Hx Ht. rewrite byte_mod.
  assert (2 ^ k <= 256) by (change 256 with (2 ^ 8); apply Z.pow_le_mono_r; lia).
  rewrite Z.mod_small by lia. apply (lor_add _ _ k); [lia | lia | done].
Qed.

#[export] Hint Rewrite cont_byte : gostr_rw.

(** ** The encoding, range by range *)

Lemma EncodeRune_valid (r : Z) :
  valid_rune r ->
  EncodeRune r =
    if r <=? 127 then [r]
    else if r <=? 2047 then [192 + r / 64; 128 + r mod 64]
    else if r <=? 65535 then [224 + r / 4096; 128 + (r / 64) mod 64; 128 + r mod 64]
    else [240 + r / 262144; 128 + (r / 4096) mod 64; 128 + (r / 64) mod 64; 128 + r mod 64].
Proof.
  unfold valid_rune, MaxRune, surrogateMin, surrogateMax. intros [Hr Hs].
  unfold EncodeRune. rewrite uint32_mod, Z.mod_small by lia.
  autorewrite with gostr_rw. rewrite !Z.shiftr_div_pow2 by lia.
  change (2 ^ 6) with 64. change (2 ^ 12) with 4096. change (2 ^ 18) with 262144.
  destruct (Z.leb_spec r 127); [by rewrite byte_mod, Z.mod_small by lia|].
  destruct (Z.leb_spec r 2047).
  { rewrite (lead_byte _ _ 5); [done | lia | change (2 ^ 5) with 32; split; [apply Z.div_pos|apply Z.div_lt_upper_bound]; lia | reflexivity]. }
  unfold MaxRune, surrogateMin, surrogateMax.
  destruct (Z.ltb_spec 1114111 r); [lia|].
  destruct (Z.leb_spec 55296 r), (Z.leb_spec r 57343); try lia; simpl.
  all: destruct (Z.leb_spec r 65535).
  all: first [ rewrite (lead_byte _ _ 4); [done | lia | change (2 ^ 4) with 16; split; [apply Z.div_pos|apply Z.div_lt_upper_bound]; lia | reflexivity]
             | rewrite (lead_byte _ _ 3); [done | lia | change (2 ^ 3) with 8; split; [apply Z.div_pos|apply Z.div_lt_upper_bound]; lia | reflexivity] ].
Qed.

(** An [int32] that is not a valid rune encodes as [RuneError]. *)
Lemma EncodeRune_invalid (r : Z) :
  int32_range r -> ~ valid_rune r -> EncodeRune r = [239; 191; 189].
Proof.
  unfold int32_range, valid_rune, MaxRune, surrogateMin, surrogateMax. intros Hr Hv.
  unfold EncodeRune, MaxRune, surrogateMin, surrogateMax.
  rewrite uint32_mod. change (2 ^ 32) with 4294967296.
  assert (Hi : r mod 4294967296 = if r <? 0 then r + 4294967296 else r).
  { destruct (Z.ltb_spec r 0); Z.div_mod_to_equations; lia. }
  rewrite Hi. destruct (Z.ltb_spec r 0).
  - zcase; try lia; reflexivity.
  - unfold MaxRune, surrogateMin, surrogateMax.
    destruct (Z.leb_spec r 127); [lia|]. destruct (Z.leb_spec r 2047); [lia|].
    destruct (Z.ltb_spec 1114111 r); [reflexivity|].
    destruct (Z.leb_spec 55296 r), (Z.leb_spec r 57343); try lia; reflexivity.
Qed.

(** Every [int32] encodes either as its own ASCII byte, or as bytes that
    are all at least 128. *)
Lemma EncodeRune_shape (r : Z) :
  int32_range r ->
  (0 <= r <= 127 /\ EncodeRune r = [r]) \/
  (~ (0 <= r <= 127) /\ Forall (fun b => 128 <= b < 256) (EncodeRune r)).
Proof.
  intros Hr. destruct (decide (valid_rune r)) as [Hv|Hv].
  - rewrite (EncodeRune_valid r Hv). unfold valid_rune, MaxRune in Hv.
    destruct (Z.leb_spec r 127); [left; split; [lia|done]|right; split; [lia|]].
    zcase; repeat constructor; Z.div_mod_to_equations; lia.
  - rewrite (EncodeRune_invalid r Hr Hv). right. split.
    + intros ?. apply Hv. unfold valid_rune, MaxRune, surrogateMin, surrogateMax. lia.
    + repeat constructor; lia.
Qed.

Lemma encode_cons (r : Z) (s : list Z) : encode (r :: s) = EncodeRune r ++ encode s.
Proof. reflexivity. Qed.

(** An ASCII byte occurs in the encoding exactly where its rune does. *)
Lemma elem_of_encode_ascii (c : Z) (s : list Z) :
  0 <= c <= 127 -> Forall int32_range s -> c ∈ encode s <-> c ∈ s.
Proof.
  intros Hc Hs. induction Hs as [|r s Hr Hs IH]; [done|].
  rewrite encode_cons, elem_of_app, elem_of_cons, IH.
  destruct (EncodeRune_shape r Hr) as [[_ ->] | [Hna Hbytes]].
  - rewrite list_elem_of_singleton. naive_solver.
  - rewrite Forall_forall in Hbytes. split.
    + intros [Hin|Hin]; [apply Hbytes in Hin; lia | by right].
    + intros [->|Hin]; [lia | by right].
Qed.

Lemma decode_ascii (b : Z) (rest : list Z) :
  0 <= b < 128 -> decode (b :: rest) = b :: decode rest.
Proof. intros Hb. simpl. by destruct (Z.ltb_spec b 128); [|lia]. Qed.

Lemma decode_2 (b0 b1 : Z) (rest : list Z) :
  128 <= b0 < 224 -> decode (b0 :: b1 :: rest) = (b0 mod 32 * 64 + b1 mod 64) :: decode rest.
Proof.
  intros Hb. simpl. destruct (Z.ltb_spec b0 128); [lia|]. destruct (Z.ltb_spec b0 224); [|lia].
  change 31 with (Z.ones 5). change 63 with (Z.ones 6). by rewrite !land_ones_mod.
Qed.

Lemma decode_3 (b0 b1 b2 : Z) (rest : list Z) :
  224 <= b0 < 240 ->
  decode (b0 :: b1 :: b2 :: rest) =
    (b0 mod 16 * 4096 + b1 mod 64 * 64 + b2 mod 64) :: decode rest.
Proof.
  intros Hb. simpl. destruct (Z.ltb_spec b0 128); [lia|]. destruct (Z.ltb_spec b0 224); [lia|].
  destruct (Z.ltb_spec b0 240); [|lia].
  change 15 with (Z.ones 4). change 63 with (Z.ones 6). by rewrite !land_ones_mod.
Qed.

Lemma decode_4 (b0 b1 b2 b3 : Z) (rest : list Z) :
  240 <= b0 ->
  decode (b0 :: b1 :: b2 :: b3 :: rest) =
    (b0 mod 8 * 262144 + b1 mod 64 * 4096 + b2 mod 64 * 64 + b3 mod 64) :: decode rest.
Proof.
  intros Hb. simpl. destruct (Z.ltb_spec b0 128); [lia|]. destruct (Z.ltb_spec b0 224); [lia|].
  destruct (Z.ltb_spec b0 240); [lia|].
  change 7 with (Z.ones 3). change 63 with (Z.ones 6). by rewrite !land_ones_mod.
Qed.

Lemma split_rune_encode (c : Z) (s : list Z) :
  0 <= c <= 127 -> Forall int32_range s ->
  split_rune c (encode s) = map encode (split_rune c s).
Proof.
  intros Hc Hs. induction Hs as [|r s Hr Hs IH]; [done|].
  rewrite encode_cons. destruct (EncodeRune_shape r Hr) as [[_ E] | [Hna Hbytes]].
  - rewrite E. cbn [app split_rune]. rewrite IH.
    destruct (r =? c); [done|]. destruct (split_rune c s); simpl; by rewrite ?encode_cons, ?E.
  - rewrite split_rune_prepend.
    2: { intros Hin. rewrite Forall_forall in Hbytes. apply Hbytes in Hin. lia. }
    rewrite IH. cbn [split_rune]. rewrite (proj2 (Z.eqb_neq r c)) by lia.
    destruct (split_rune c s); simpl; rewrite ?encode_cons; by rewrite ?app_nil_r.
Qed.

Lemma ContainsRune_spec (chars : list Z) (b : Z) : ContainsRune chars b = true <-> b ∈ chars.
Proof.
  unfold ContainsRune. rewrite existsb_true_iff.
  split; [intros (x & Hx & ->%Z.eqb_eq); done | intros Hb; exists b; by rewrite Z.eqb_refl].
Qed.

(** An ASCII separator occurs in the bytes iff it occurs in the runes. *)
Lemma Contains_encode (s : list Z) (c : Z) :
  0 <= c <= 127 -> Forall int32_range s -> Contains (encode s) [c] = Contains s [c].
Proof.
  intros Hc Hs. rewrite !Contains_single. apply bool_decide_ext. by apply elem_of_encode_ascii.
Qed.

Lemma ContainsAny_encode (s chars : list Z) :
  Forall (fun d => 0 <= d <= 127) chars -> Forall int32_range s ->
  ContainsAny (encode s) chars = ContainsAny s chars.
Proof.
  intros Hchars Hs. unfold ContainsAny. apply Bool.eq_iff_eq_true. rewrite !existsb_true_iff.
  setoid_rewrite ContainsRune_spec. rewrite Forall_forall in Hchars.
  split; intros (b & Hb & Hbc); exists b; split; try done;
    eapply elem_of_encode_ascii; eauto.
Qed.

(** ** Theorems *)

(** C37. [strings.Split] on the bytes refines the rune model: splitting the
    UTF-8 bytes of a string on an ASCII separator gives the encodings of
    the pieces of the rune-level split.  This is the split of line 67 as Go
    runs it. *)
Theorem Split_bytes (c : Z) (s : list Z) :
  0 <= c <= 127 -> Forall int32_range s ->
  Split (encode s) [c] = map encode (Split s [c]).
Proof. intros Hc Hs. rewrite !Split_single. by apply split_rune_encode. Qed.

(** The byte tests of line 94 agree with the rune model: an ASCII
    separator occurs in the bytes iff it occurs in the runes, and
    [ContainsAny] with ASCII characters answers the same on both. *)
Theorem Contains_bytes (s chars : list Z) (c : Z) :
  0 <= c <= 127 -> Forall (fun d => 0 <= d <= 127) chars -> Forall int32_range s ->
  Contains (encode s) [c] = Contains s [c] /\
  ContainsAny (encode s) chars = ContainsAny s chars.
Proof.
  intros Hc Hchars Hs. split; [by apply Contains_encode | by apply ContainsAny_encode].
Qed.

(** Round trip: decoding the UTF-8 encoding of valid runes gives the
    runes back. *)
Theorem decode_encode (s : list Z) :
  Forall valid_rune s -> decode (encode s) = s.
Proof.
  induction 1 as [|r s Hr Hs IH]; [done|].
  rewrite encode_cons, (EncodeRune_valid r Hr). unfold valid_rune, MaxRune in Hr.
  destruct (Z.leb_spec r 127).
  { simpl app. rewrite decode_ascii by lia. by rewrite IH. }
  destruct (Z.leb_spec r 2047).
  { simpl app. rewrite decode_2 by (Z.div_mod_to_equations; lia). rewrite IH.
    f_equal. Z.div_mod_to_equations. lia. }
  destruct (Z.leb_spec r 65535).
  { simpl app. rewrite decode_3 by (Z.div_mod_to_equations; lia). rewrite IH.
    f_equal. Z.div_mod_to_equations. lia. }
  simpl app. rewrite decode_4 by (Z.div_mod_to_equations; lia). rewrite IH.
  f_equal. Z.div_mod_to_equations. lia.
Qed.

(** C35. Bounds of [utf8.EncodeRune] on an [int32] rune: every byte is
    in [0, 256); a valid rune takes one byte up to U+007F, two up to
    U+07FF, three up to U+FFFF and four above; and a negative rune, a
    surrogate or a rune above [MaxRune] is written as the three bytes of
    [RuneError]. *)
Theorem EncodeRune_bytes (r : Z) :
  int32_range r ->
  Forall (fun b => 0 <= b < 256) (EncodeRune r) /\
  (valid_rune r -> length (EncodeRune r) =
     if r <=? 127 then 1%nat else if r <=? 2047 then 2%nat else if r <=? 65535 then 3%nat else 4%nat) /\
  (~ valid_rune r -> EncodeRune r = [239; 191; 189]).
Proof.
  intros Hr. split; [|split; [|by apply EncodeRune_invalid]].
  - destruct (decide (valid_rune r)) as [Hv|Hv].
    + rewrite (EncodeRune_valid r Hv). unfold valid_rune, MaxRune in Hv.
      zcase; repeat constructor; Z.div_mod_to_equations; lia.
    + rewrite (EncodeRune_invalid r Hr Hv). repeat constructor; lia.
  - intros Hv. rewrite (EncodeRune_valid r Hv). by zcase.
Qed.

(** ** Worked examples *)

(** ["café.example€😀"]: one-, two-, three- and four-byte runes. *)
Definition sample_runes : list Z := gs "caf" ++ [233] ++ gs ".example" ++ [8364; 128512].

Example encode_sample :
  encode sample_runes =
    gs "caf" ++ [195; 169] ++ gs ".example" ++ [226; 130; 172; 240; 159; 152; 128].
Proof. reflexivity. Qed.

(** A negative rune and a surrogate both encode as [RuneError]. *)
Example encode_invalid : EncodeRune (-1) = [239; 191; 189] /\ EncodeRune 55296 = [239; 191; 189].
Proof. split; reflexivity. Qed.

Lemma sample_valid : Forall valid_rune sample_runes.
Proof. solve_valid_runes. Qed.

Lemma sample_int32 : Forall int32_range sample_runes.
Proof.
  eapply Forall_impl; [exact sample_valid|].
  unfold valid_rune, int32_range, MaxRune. intros x Hx. lia.
Qed.

Lemma EncodeRune_bytes_witness :
  int32_range 55296 /\ ~ valid_rune 55296 /\ EncodeRune 55296 = [239; 191; 189] /\
  int32_range 128512 /\ valid_rune 128512 /\ length (EncodeRune 128512) = 4%nat.
Proof.
  assert (Hr : int32_range 55296) by (unfold int32_range; lia).
  assert (Hv : ~ valid_rune 55296) by (unfold valid_rune, MaxRune, surrogateMin, surrogateMax; lia).
  assert (Hr' : int32_range 128512) by (unfold int32_range; lia).
  assert (Hv' : valid_rune 128512) by (unfold valid_rune, MaxRune, surrogateMin, surrogateMax; lia).
  split; [exact Hr|]. split; [exact Hv|]. split; [exact (proj2 (proj2 (EncodeRune_bytes _ Hr)) Hv)|].
  split; [exact Hr'|]. split; [exact Hv'|]. exact (proj1 (proj2 (EncodeRune_bytes _ Hr')) Hv').
Defined.

Lemma decode_encode_witness :
  Forall valid_rune sample_runes /\ decode (encode sample_runes) = sample_runes.
Proof.
  split; [exact sample_valid | apply (decode_encode _ sample_valid)].
Defined.

Lemma Split_bytes_witness :
  0 <= 46 <= 127 /\ Forall int32_range sample_runes /\
  Split (encode sample_runes) [46] = map encode (Split sample_runes [46]).
Proof.
  split; [lia|]. split; [exact sample_int32|].
  apply Split_bytes; [lia | exact sample_int32].
Defined.

Lemma Contains_bytes_witness :
  0 <= 46 <= 127 /\ Forall (fun d => 0 <= d <= 127) [32; 38] /\
  Forall int32_range sample_runes /\
  Contains (encode sample_runes) [46] = Contains sample_runes [46] /\
  ContainsAny (encode sample_runes) [32; 38] = ContainsAny sample_runes [32; 38].
Proof.
  assert (Hch : Forall (fun d => 0 <= d <= 127) [32; 38]) by (repeat constructor; lia).
  split; [lia|]. split; [exact Hch|]. split; [exact sample_int32|].
  apply Contains_bytes; [lia | exact Hch | exact sample_int32].
Defined.

End Utf8.
