(* ===== verification/Utf8Decode.v ===== *)
(** * Utf8Decode: Go's [utf8.DecodeRune] and [utf8.DecodeLastRune]

    The strings functions of [crtRecon.go] that are not ASCII-only on their
    arguments ([strings.TrimSpace] at line 93 and [strings.ToLower] at line
    93) read their byte string rune by rune, forwards with
    [utf8.DecodeRune] (the decoding of [for i, r := range s]) and backwards
    with [utf8.DecodeLastRune].  This file models both from Go's
    [unicode/utf8] source, the 256-entry [first] table and the
    [acceptRanges] table written out as Go writes them, and proves:
    a decoded rune re-encodes to exactly the bytes consumed (no overlong
    forms, no surrogates), decoding the encoding of a valid rune gives it
    back with its width, and the width bounds. *)

From Stdlib Require Import ZArith.
From S2P Require Import Prelude GoStrings Utf8.

Open Scope Z_scope.

Module Utf8Decode.
Import Utf8.

Definition RuneSelf : Z := 128.
Definition UTFMax : nat := 4.

(** The classes of a first byte: [xx] invalid, [as_] ASCII, [s1]..[s7]
    multi-byte with the accept range in the high nibble and the size in the
    low three bits. *)
Definition xx : Z := 241.
Definition as_ : Z := 240.
Definition s1 : Z := 2.
Definition s2 : Z := 19.
Definition s3 : Z := 3.
Definition s4 : Z := 35.
Definition s5 : Z := 52.
Definition s6 : Z := 4.
Definition s7 : Z := 68.

(** [first]: the class of each possible first byte, row by row as in
    [unicode/utf8/utf8.go]. *)
Definition first_table : list Z :=
  [as_; as_; as_; as_; as_; as_; as_; as_; as_; as_; as_; as_; as_; as_; as_; as_;
     as_; as_; as_; as_; as_; as_; as_; as_; as_; as_; as_; as_; as_; as_; as_; as_;
     as_; as_; as_; as_; as_; as_; as_; as_; as_; as_; as_; as_; as_; as_; as_; as_;
     as_; as_; as_; as_; as_; as_; as_; as_; as_; as_; as_; as_; as_; as_; as_; as_;
     as_; as_; as_; as_; as_; as_; as_; as_; as_; as_; as_; as_; as_; as_; as_; as_;
     as_; as_; as_; as_; as_; as_; as_; as_; as_; as_; as_; as_; as_; as_; as_; as_;
     as_; as_; as_; as_; as_; as_; as_; as_; as_; as_; as_; as_; as_; as_; as_; as_;
     as_; as_; as_; as_; as_; as_; as_; as_; as_; as_; as_; as_; as_; as_; as_; as_;
     xx; xx; xx; xx; xx; xx; xx; xx; xx; xx; xx; xx; xx; xx; xx; xx;
     xx; xx; xx; xx; xx; xx; xx; xx; xx; xx; xx; xx; xx; xx; xx; xx;
     xx; xx; xx; xx; xx; xx; xx; xx; xx; xx; xx; xx; xx; xx; xx; xx;
     xx; xx; xx; xx; xx; xx; xx; xx; xx; xx; xx; xx; xx; xx; xx; xx;
     xx; xx; s1; s1; s1; s1; s1; s1; s1; s1; s1; s1; s1; s1; s1; s1;
     s1; s1; s1; s1; s1; s1; s1; s1; s1; s1; s1; s1; s1; s1; s1; s1;
     s2; s3; s3; s3; s3; s3; s3; s3; s3; s3; s3; s3; s3; s4; s3; s3;
     s5; s6; s6; s6; s7; xx; xx; xx; xx; xx; xx; xx; xx; xx; xx; xx].

Definition first (b : Z) : Z := nth (Z.to_nat b) first_table xx.

Definition locb : Z := 128.
Definition hicb : Z := 191.

(** [acceptRanges]: the range of the second byte for each class; the
    entries Go leaves out are the zero [acceptRange]. *)
Definition acceptRanges_table : list (Z * Z) :=
  [(locb, hicb); (160, hicb); (locb, 159); (144, hicb); (locb, 143)]
  ++ replicate 11 (0, 0).

Definition acceptRanges (i : Z) : Z * Z := nth (Z.to_nat i) acceptRanges_table (0, 0).

Definition mask2 : Z := 31.
Definition mask3 : Z := 15.
Definition mask4 : Z := 7.

(** Go's [rune(x) << 31 >> 31] on an [int32]: the low bit of [x] spread
    over the word, [0] or [-1]. *)
Definition int32_wrap (z : Z) : Z := (z + 2 ^ 31) mod 2 ^ 32 - 2 ^ 31.

Definition spread_low_bit (x : Z) : Z := Z.shiftr (int32_wrap (Z.shiftl x 31)) 31.

(** [utf8.DecodeRune]: the first rune of [p] and its width.  The [n < sz]
    test makes the indexing of [p[1]], [p[2]], [p[3]] safe; the branches for
    a list too short are unreachable and return what that test returns. *)
Definition DecodeRune (p : list Z) : Z * nat :=
  match p with
  | [] => (RuneError, 0%nat)
  | p0 :: ps =>
      let x := first p0 in
      if as_ <=? x then
        let mask := spread_low_bit x in
        (Z.lor (Z.land p0 (Z.lnot mask)) (Z.land RuneError mask), 1%nat)
      else
        let sz := Z.land x 7 in
        let accept := acceptRanges (Z.shiftr x 4) in
        if Z.of_nat (length p) <? sz then (RuneError, 1%nat)
        else match ps with
        | [] => (RuneError, 1%nat)
        | b1 :: ps1 =>
            if (b1 <? accept.1) || (accept.2 <? b1) then (RuneError, 1%nat)
            else if sz <=? 2 then
              (Z.lor (Z.shiftl (Z.land p0 mask2) 6) (Z.land b1 maskx), 2%nat)
            else match ps1 with
            | [] => (RuneError, 1%nat)
            | b2 :: ps2 =>
                if (b2 <? locb) || (hicb <? b2) then (RuneError, 1%nat)
                else if sz <=? 3 then
                  (Z.lor (Z.lor (Z.shiftl (Z.land p0 mask3) 12)
                                (Z.shiftl (Z.land b1 maskx) 6)) (Z.land b2 maskx), 3%nat)
                else match ps2 with
                | [] => (RuneError, 1%nat)
                | b3 :: _ =>
                    if (b3 <? locb) || (hicb <? b3) then (RuneError, 1%nat)
                    else
                      (Z.lor (Z.lor (Z.lor (Z.shiftl (Z.land p0 mask4) 18)
                                           (Z.shiftl (Z.land b1 maskx) 12))
                                    (Z.shiftl (Z.land b2 maskx) 6))
                             (Z.land b3 maskx), 4%nat)
                end
            end
        end
  end.

(** [utf8.RuneStart]: [b] is not a continuation byte [10xxxxxx]. *)
Definition RuneStart (b : Z) : bool := negb (Z.land b 192 =? 128).

(** The backward scan of [DecodeLastRune]:
    [for start--; start >= lim; start-- { if RuneStart(p[start]) { break } }],
    entered with [start] already decremented.  [lim] is at least
    [len(p) - UTFMax], so the loop runs at most three times and [UTFMax]
    is enough fuel ([scan_back_fuel]). *)
Fixpoint scan_back (fuel : nat) (p : list Z) (start lim : Z) : Z :=
  match fuel with
  | O => start
  | S fuel' =>
      if start <? lim then start
      else if RuneStart (nth (Z.to_nat start) p 0) then start
      else scan_back fuel' p (start - 1) lim
  end.

(** [lim := end - UTFMax; if lim < 0 { lim = 0 }]: no rune is longer
    than [UTFMax] bytes, so the scan looks no further back. *)
Definition scan_limit (end_ : Z) : Z :=
  let lim := end_ - Z.of_nat UTFMax in
  if lim <? 0 then 0 else lim.

(** [utf8.DecodeLastRune] (and [DecodeLastRuneInString]): the last rune of
    [p] and its width. *)
Definition DecodeLastRune (p : list Z) : Z * nat :=
  let end_ := Z.of_nat (length p) in
  if end_ =? 0 then (RuneError, 0%nat)
  else
    let start := end_ - 1 in
    let r := nth (Z.to_nat start) p 0 in
    if r <? RuneSelf then (r, 1%nat)
    else
      let start := scan_back UTFMax p (start - 1) (scan_limit end_) in
      let start := if start <? 0 then 0 else start in
      let '(r, size) := DecodeRune (drop (Z.to_nat start) p) in
      if negb (start + Z.of_nat size =? end_) then (RuneError, 1%nat)
      else (r, size).

(** One step of [for i, r := range s]: an ASCII byte is its own rune,
    anything else goes through the decoder. *)
Definition range_step (p : list Z) : Z * nat :=
  match p with
  | [] => (RuneError, 0%nat)
  | c :: _ => if c <? RuneSelf then (c, 1%nat) else DecodeRune p
  end.

(** The runes [for _, r := range s] visits, with one unit of fuel per
    byte: each step consumes at least one. *)
Fixpoint range_runes (fuel : nat) (p : list Z) : list Z :=
  match fuel, p with
  | O, _ | _, [] => []
  | S fuel', _ =>
      let '(r, w) := range_step p in r :: range_runes fuel' (drop w p)
  end.

(** The runes of a byte string, as [for _, r := range s] (and the
    conversion [[]rune(s)]) visit them. *)
Definition runes_of (p : list Z) : list Z := range_runes (length p) p.

(** A Go [byte]: in [0, 256). *)
Definition is_byte (b : Z) : Prop := 0 <= b < 256.

(** The [first] table as a formula on the byte's range. *)
Definition first_class (b : Z) : Z :=
  if b <? 128 then as_ else if b <? 194 then xx else if b <? 224 then s1
  else if b =? 224 then s2 else if b =? 237 then s4 else if b <? 240 then s3
  else if b =? 240 then s5 else if b <? 244 then s6 else if b =? 244 then s7
  else xx.

(** The range of the second byte after a lead byte, as [acceptRanges]
    gives it. *)
Definition second_range (p0 : Z) : Z * Z :=
  if p0 =? 224 then (160, 191) else if p0 =? 237 then (128, 159)
  else if p0 =? 240 then (144, 191) else if p0 =? 244 then (128, 143)
  else (128, 191).

(** The width a lead byte announces. *)
Definition lead_width (p0 : Z) : nat :=
  if p0 <? 224 then 2 else if p0 <? 240 then 3 else 4.

(** ** The tables and the bits *)

Lemma first_spec (b : Z) : 0 <= b < 256 -> first b = first_class b.
Proof.
  intros Hb. apply Z.eqb_eq. revert b Hb.
  apply (Z_range_check (fun b => first b =? first_class b) 256).
  vm_compute. reflexivity.
Qed.

Lemma lor_shiftl (a b k : Z) :
  0 <= k -> 0 <= b < 2 ^ k -> Z.lor (Z.shiftl a k) b = a * 2 ^ k + b.
Proof.
  intros Hk Hb. rewrite Z.shiftl_mul_pow2 by lia.
  apply (lor_add _ _ k); [lia | lia |]. apply Z.mod_mul, Z.pow_nonzero; lia.
Qed.

Lemma payload2 (a b : Z) : 0 <= b < 64 -> Z.lor (Z.shiftl a 6) b = a * 64 + b.
Proof. intros. rewrite lor_shiftl; pow_lia. Qed.

Lemma payload3 (a b c : Z) :
  0 <= b < 64 -> 0 <= c < 64 ->
  Z.lor (Z.lor (Z.shiftl a 12) (Z.shiftl b 6)) c = a * 4096 + b * 64 + c.
Proof.
  intros Hb Hc. rewrite (Z.shiftl_mul_pow2 b 6), lor_shiftl by pow_lia.
  rewrite (lor_add _ _ 6); pow_lia.
Qed.

Lemma payload4 (a b c d : Z) :
  0 <= b < 64 -> 0 <= c < 64 -> 0 <= d < 64 ->
  Z.lor (Z.lor (Z.lor (Z.shiftl a 18) (Z.shiftl b 12)) (Z.shiftl c 6)) d =
    a * 262144 + b * 4096 + c * 64 + d.
Proof.
  intros Hb Hc Hd. rewrite (Z.shiftl_mul_pow2 b 12), lor_shiftl by pow_lia.
  rewrite (Z.shiftl_mul_pow2 c 6), (lor_add (a * 2 ^ 18 + b * 2 ^ 12) _ 12) by pow_lia.
  rewrite (lor_add _ _ 6); pow_lia.
Qed.

Lemma maskx_mod (b : Z) : Z.land b maskx = b mod 64.
Proof. unfold maskx. change 63 with (Z.ones 6). by rewrite land_ones_mod. Qed.

Lemma mask2_mod (b : Z) : Z.land b mask2 = b mod 32.
Proof. unfold mask2. change 31 with (Z.ones 5). by rewrite land_ones_mod. Qed.

Lemma mask3_mod (b : Z) : Z.land b mask3 = b mod 16.
Proof. unfold mask3. change 15 with (Z.ones 4). by rewrite land_ones_mod. Qed.

Lemma mask4_mod (b : Z) : Z.land b mask4 = b mod 8.
Proof. unfold mask4. change 7 with (Z.ones 3). by rewrite land_ones_mod. Qed.

#[export] Hint Rewrite maskx_mod mask2_mod mask3_mod mask4_mod : gostr_rw.

(** ** [DecodeRune] by the class of the first byte *)

Ltac class_of p0 :=
  unfold DecodeRune; rewrite first_spec by lia; unfold first_class;
  zcase_on p0; try lia;
  cbv [as_ xx s1 s2 s3 s4 s5 s6 s7 acceptRanges acceptRanges_table locb hicb
       spread_low_bit int32_wrap]; simpl; eval_closed.

Ltac multi_byte :=
  rewrite (proj2 (Z.ltb_ge _ _)) by lia; rewrite !if_or_range;
  range_split; try done; autorewrite with gostr_rw.

Lemma DecodeRune_ascii (p0 : Z) (ps : list Z) :
  0 <= p0 < 128 -> DecodeRune (p0 :: ps) = (p0, 1%nat).
Proof. intros Hp. class_of p0. by rewrite Z.land_m1_r, Z.lor_0_r. Qed.

Lemma DecodeRune_bad_lead (p0 : Z) (ps : list Z) :
  128 <= p0 < 194 \/ 245 <= p0 < 256 -> DecodeRune (p0 :: ps) = (RuneError, 1%nat).
Proof. intros Hp. class_of p0. all: by rewrite Z.land_0_r. Qed.

Lemma DecodeRune_short (p0 : Z) (ps : list Z) :
  194 <= p0 < 245 -> (length ps < lead_width p0 - 1)%nat ->
  DecodeRune (p0 :: ps) = (RuneError, 1%nat).
Proof.
  intros Hp. unfold lead_width. class_of p0.
  all: intros Hl; by rewrite (proj2 (Z.ltb_lt _ _)) by lia.
Qed.

Lemma DecodeRune_2 (p0 b1 : Z) (ps : list Z) :
  194 <= p0 < 224 ->
  DecodeRune (p0 :: b1 :: ps) =
    if (128 <=? b1) && (b1 <=? 191) then (p0 mod 32 * 64 + b1 mod 64, 2%nat)
    else (RuneError, 1%nat).
Proof. intros Hp. class_of p0. multi_byte. by rewrite payload2 by pow_lia. Qed.

Lemma DecodeRune_3 (p0 b1 b2 : Z) (ps : list Z) :
  224 <= p0 < 240 ->
  DecodeRune (p0 :: b1 :: b2 :: ps) =
    if ((second_range p0).1 <=? b1) && (b1 <=? (second_range p0).2)
       && (128 <=? b2) && (b2 <=? 191)
    then (p0 mod 16 * 4096 + b1 mod 64 * 64 + b2 mod 64, 3%nat)
    else (RuneError, 1%nat).
Proof.
  intros Hp. class_of p0. all: unfold second_range; zcase_on p0; try lia; simpl.
  all: multi_byte; by rewrite payload3 by pow_lia.
Qed.

Lemma DecodeRune_4 (p0 b1 b2 b3 : Z) (ps : list Z) :
  240 <= p0 < 245 ->
  DecodeRune (p0 :: b1 :: b2 :: b3 :: ps) =
    if ((second_range p0).1 <=? b1) && (b1 <=? (second_range p0).2)
       && (128 <=? b2) && (b2 <=? 191) && (128 <=? b3) && (b3 <=? 191)
    then (p0 mod 8 * 262144 + b1 mod 64 * 4096 + b2 mod 64 * 64 + b3 mod 64, 4%nat)
    else (RuneError, 1%nat).
Proof.
  intros Hp. class_of p0. all: unfold second_range; zcase_on p0; try lia; simpl.
  all: multi_byte; by rewrite payload4 by pow_lia.
Qed.

(** ** Decoding and encoding agree *)

Ltac cond_true :=
  match goal with
  | |- context [if ?c then _ else _] =>
      replace c with true
        by (symmetry; rewrite ?andb_true_iff, ?Z.leb_le; repeat split; pow_lia)
  end.

(** The bytes of a valid rune decode to it, whatever follows them. *)
Lemma DecodeRune_EncodeRune (r : Z) (rest : list Z) :
  valid_rune r -> DecodeRune (EncodeRune r ++ rest) = (r, length (EncodeRune r)).
Proof.
  intros Hv. rewrite (EncodeRune_valid r Hv).
  unfold valid_rune, MaxRune, surrogateMin, surrogateMax in Hv.
  destruct (Z.leb_spec r 127); [simpl; apply DecodeRune_ascii; lia|].
  destruct (Z.leb_spec r 2047).
  { simpl app. rewrite DecodeRune_2 by pow_lia. cond_true. f_equal. pow_lia. }
  destruct (Z.leb_spec r 65535).
  { simpl app. rewrite DecodeRune_3 by pow_lia. unfold second_range.
    zcase_on (224 + r / 4096); simpl; cond_true; f_equal; pow_lia. }
  simpl app. rewrite DecodeRune_4 by pow_lia. unfold second_range.
  zcase_on (240 + r / 262144); simpl; cond_true; f_equal; pow_lia.
Qed.

(** A decoded rune that is not an error re-encodes to the bytes read. *)
Ltac reencode :=
  right; rewrite EncodeRune_valid
    by (unfold valid_rune, MaxRune, surrogateMin, surrogateMax; pow_lia);
  zcase; try pow_lia; simpl; rewrite ?take_0; (split; [unfold valid_rune, MaxRune, surrogateMin, surrogateMax; pow_lia|]);
  split; [done|]; repeat f_equal; pow_lia.

Lemma DecodeRune_sound_multi (p0 : Z) (ps : list Z) (r : Z) (n : nat) :
  194 <= p0 < 245 -> DecodeRune (p0 :: ps) = (r, n) ->
  (r = RuneError /\ n = 1%nat) \/
  (valid_rune r /\ n = length (EncodeRune r) /\ EncodeRune r = take n (p0 :: ps)).
Proof.
  intros Hp Hd. destruct (decide (length ps < lead_width p0 - 1)%nat) as [Hs|Hs].
  { rewrite DecodeRune_short in Hd by done. left. by injection Hd. }
  unfold lead_width in Hs. revert Hd.
  destruct (Z.ltb_spec p0 224).
  { destruct ps as [|b1 ps]; [simpl in Hs; lia|].
    rewrite DecodeRune_2 by lia. range_split; intros Hd; injection Hd as <- <-; [reencode|left; split; reflexivity]. }
  destruct (Z.ltb_spec p0 240).
  { destruct ps as [|b1 [|b2 ps]]; [simpl in Hs; lia..|].
    rewrite DecodeRune_3 by lia. unfold second_range. zcase_on p0; try lia; simpl;
      range_split; intros Hd; injection Hd as <- <-; first [left; split; reflexivity | reencode]. }
  destruct ps as [|b1 [|b2 [|b3 ps]]]; [simpl in Hs; lia..|].
  rewrite DecodeRune_4 by lia. unfold second_range. zcase_on p0; try lia; simpl;
    range_split; intros Hd; injection Hd as <- <-; first [left; split; reflexivity | reencode].
Qed.

(** Every answer of [DecodeRune] on bytes: the error rune with width one
    (zero on empty input), or a valid rune whose encoding is exactly the
    bytes consumed. *)
Lemma DecodeRune_spec (p : list Z) (r : Z) (n : nat) :
  Forall is_byte p -> DecodeRune p = (r, n) ->
  (r = RuneError /\ n = Nat.min 1 (length p)) \/
  (valid_rune r /\ n = length (EncodeRune r) /\ EncodeRune r = take n p).
Proof.
  intros Hp Hd. destruct p as [|p0 ps]; [left; by injection Hd as <- <-|].
  apply Forall_cons in Hp as [Hb _]. unfold is_byte in Hb.
  destruct (Z.ltb_spec p0 128).
  { rewrite DecodeRune_ascii in Hd by lia. injection Hd as <- <-. right.
    assert (Hv : valid_rune p0)
      by (unfold valid_rune, MaxRune, surrogateMin, surrogateMax; lia).
    rewrite (EncodeRune_valid _ Hv). destruct (Z.leb_spec p0 127); [|lia]. done. }
  destruct (decide (p0 < 194 \/ 245 <= p0)).
  { rewrite DecodeRune_bad_lead in Hd by lia. injection Hd as <- <-. by left. }
  destruct (DecodeRune_sound_multi p0 ps r n) as [[-> ->]|?]; [lia|done|by left|by right].
Qed.

Lemma EncodeRune_length (r : Z) : valid_rune r -> (1 <= length (EncodeRune r) <= 4)%nat.
Proof. intros Hv. rewrite (EncodeRune_valid r Hv). zcase; simpl; lia. Qed.

Lemma EncodeRune_ascii (a : Z) : valid_rune a -> a <= 127 -> EncodeRune a = [a].
Proof.
  intros Hv Ha. rewrite (EncodeRune_valid a Hv). by destruct (Z.leb_spec a 127); [|lia].
Qed.

Lemma ascii_valid (c : Z) : 0 <= c <= 127 -> valid_rune c.
Proof. unfold valid_rune, MaxRune, surrogateMin, surrogateMax. lia. Qed.

(** The width [DecodeRune] reports is at most what is left. *)
Lemma DecodeRune_width_le (p : list Z) :
  Forall is_byte p -> ((DecodeRune p).2 <= length p)%nat.
Proof.
  intros Hp. destruct (DecodeRune p) as [r n] eqn:Hd. simpl.
  destruct (DecodeRune_spec p r n Hp Hd) as [[_ ->]|(_ & -> & Henc)]; [lia|].
  rewrite Henc, length_take. lia.
Qed.

(** ** Going backwards: [DecodeLastRune] *)

Lemma RuneStart_spec (b : Z) :
  0 <= b < 256 -> RuneStart b = negb ((128 <=? b) && (b <? 192)).
Proof.
  intros Hb. apply Bool.eqb_prop. revert b Hb.
  apply (Z_range_check (fun b => Bool.eqb (RuneStart b) (negb ((128 <=? b) && (b <? 192)))) 256).
  vm_compute. reflexivity.
Qed.

(** The bytes of a valid rune above ASCII: a lead byte, then continuation
    bytes, at most three. *)
Lemma EncodeRune_split (r : Z) :
  valid_rune r -> 127 < r ->
  exists lead conts clast,
    EncodeRune r = lead :: conts ++ [clast] /\ 192 <= lead < 248 /\
    Forall (fun b => 128 <= b < 192) (conts ++ [clast]) /\ (length conts <= 2)%nat.
Proof.
  intros Hv Hr. rewrite (EncodeRune_valid r Hv). unfold valid_rune, MaxRune in Hv.
  destruct (Z.leb_spec r 127); [lia|].
  destruct (Z.leb_spec r 2047); [|destruct (Z.leb_spec r 65535)].
  - exists (192 + r / 64), [], (128 + r mod 64).
    split; [done|]. split; [pow_lia|]. split; [repeat constructor; pow_lia | simpl; lia].
  - exists (224 + r / 4096), [128 + (r / 64) mod 64], (128 + r mod 64).
    split; [done|]. split; [pow_lia|]. split; [repeat constructor; pow_lia | simpl; lia].
  - exists (240 + r / 262144), [128 + (r / 4096) mod 64; 128 + (r / 64) mod 64], (128 + r mod 64).
    split; [done|]. split; [pow_lia|]. split; [repeat constructor; pow_lia | simpl; lia].
Qed.

Lemma EncodeRune_is_byte (r : Z) : valid_rune r -> Forall is_byte (EncodeRune r).
Proof.
  intros Hv. rewrite (EncodeRune_valid r Hv). unfold valid_rune, MaxRune in Hv.
  unfold is_byte. zcase; repeat constructor; pow_lia.
Qed.

(** The bytes of a Go literal written with [gs] are bytes. *)
Lemma gs_is_byte (s : string) : Forall is_byte (gs s).
Proof.
  apply Forall_forall. intros x (a & -> & _)%list_elem_of_fmap.
  pose proof (Ascii.nat_ascii_bounded a). unfold is_byte. lia.
Qed.

(** [solve_bytes] proves [Forall is_byte] of byte lists and literals. *)
Ltac solve_bytes :=
  repeat first [ apply Forall_app_2 | apply gs_is_byte | apply Forall_nil_2
               | apply Forall_cons_2; [unfold is_byte; lia|] ].

Lemma nth_app_length (pre l : list Z) (j : nat) (d : Z) :
  nth (length pre + j) (pre ++ l) d = nth j l d.
Proof. rewrite app_nth2 by lia. f_equal. lia. Qed.

Lemma nth_app_length0 (pre l : list Z) (d : Z) : nth (length pre) (pre ++ l) d = nth 0 l d.
Proof. rewrite <- (nth_app_length pre l 0). f_equal. lia. Qed.

(** The backward scan stops at the lead byte of the last rune. *)
Lemma scan_back_lead (fuel : nat) (pre conts post : list Z) (lead lim : Z) :
  RuneStart lead = true -> Forall (fun b => RuneStart b = false) conts ->
  lim <= Z.of_nat (length pre) -> (length conts < fuel)%nat ->
  scan_back fuel (pre ++ lead :: conts ++ post) (Z.of_nat (length pre + length conts)) lim
    = Z.of_nat (length pre).
Proof.
  revert fuel post. induction conts as [|c conts IH] using rev_ind; intros fuel post Hl Hc Hlim Hf.
  - destruct fuel as [|fuel]; [simpl in Hf; lia|]. simpl.
    destruct (Z.ltb_spec (Z.of_nat (length pre + 0)) lim); [lia|].
    rewrite Nat2Z.id, (nth_app_length pre _ 0). simpl. rewrite Hl. f_equal. lia.
  - rewrite length_app in *. simpl in Hf. apply Forall_app in Hc as [Hc Hcl].
    inversion Hcl as [|? ? Hcc]; subst.
    destruct fuel as [|fuel]; [lia|]. simpl.
    destruct (Z.ltb_spec (Z.of_nat (length pre + (length conts + 1))) lim); [lia|].
    rewrite Nat2Z.id, <- app_assoc.
    replace (length pre + (length conts + 1))%nat with (length pre + S (length conts))%nat by lia.
    rewrite nth_app_length. simpl. rewrite nth_middle, Hcc.
    replace (Z.of_nat (length pre + S (length conts)) - 1)
      with (Z.of_nat (length pre + length conts)) by lia.
    apply IH; [done | done | lia | lia].
Qed.

Lemma scan_limit_le (end_ l : Z) : end_ - 4 <= l -> 0 <= l -> scan_limit end_ <= l.
Proof. unfold scan_limit, UTFMax. simpl Z.of_nat. zcase; lia. Qed.

(** The bytes of a valid rune decode backwards to it, whatever precedes
    them. *)
Lemma DecodeLastRune_EncodeRune (pre : list Z) (r : Z) :
  valid_rune r -> DecodeLastRune (pre ++ EncodeRune r) = (r, length (EncodeRune r)).
Proof.
  intros Hv. pose proof (DecodeRune_EncodeRune r [] Hv) as Hd. rewrite app_nil_r in Hd.
  unfold DecodeLastRune. rewrite (proj2 (Z.eqb_neq _ _))
    by (pose proof (EncodeRune_length r Hv); rewrite length_app; lia).
  destruct (Z.leb_spec r 127) as [Ha|Ha].
  - assert (He : EncodeRune r = [r])
      by (rewrite (EncodeRune_valid r Hv); by destruct (Z.leb_spec r 127); [|lia]).
    rewrite He. replace (Z.to_nat _) with (length pre + 0)%nat by (rewrite length_app; simpl; lia).
    rewrite nth_app_length. simpl. unfold valid_rune in Hv.
    destruct (Z.ltb_spec r RuneSelf); [done | unfold RuneSelf in *; lia].
  - destruct (EncodeRune_split r Hv Ha) as (lead & conts & clast & Henc & Hlead & Hcs & Hlen).
    rewrite Henc. replace (Z.to_nat _) with (length pre + S (length conts))%nat
      by (rewrite length_app; simpl; rewrite length_app; simpl; lia).
    rewrite nth_app_length. simpl nth. rewrite nth_middle.
    apply Forall_app in Hcs as [Hcs Hcl]. inversion Hcl; subst.
    destruct (Z.ltb_spec clast RuneSelf); [unfold RuneSelf in *; lia|]. cbv zeta.
    replace (Z.of_nat (length (pre ++ lead :: conts ++ [clast])) - 1 - 1)
      with (Z.of_nat (length pre + length conts))
      by (rewrite length_app; simpl; rewrite length_app; simpl; lia).
    rewrite scan_back_lead.
    + destruct (Z.ltb_spec (Z.of_nat (length pre)) 0); [lia|].
      rewrite Nat2Z.id, drop_app_length, <- Henc, Hd.
      rewrite (proj2 (Z.eqb_eq _ _)); [done|]. rewrite Henc, !length_app. simpl.
      rewrite length_app. simpl. lia.
    + rewrite RuneStart_spec by lia. zcase; try lia; done.
    + eapply Forall_impl; [exact Hcs|]. intros b Hb. simpl in Hb. rewrite RuneStart_spec by lia.
      zcase; try lia; done.
    + apply scan_limit_le; rewrite ?length_app; simpl; rewrite ?length_app; simpl; lia.
    + unfold UTFMax. lia.
Qed.

(** ** The [range] loop *)

Lemma encode_app (s t : list Z) : encode (s ++ t) = encode s ++ encode t.
Proof. unfold encode. by rewrite map_app, concat_app. Qed.

Lemma encode_nil : encode [] = [].
Proof. reflexivity. Qed.

#[export] Hint Rewrite encode_app encode_cons encode_nil : gostr_rw.

Lemma range_step_EncodeRune (r : Z) (rest : list Z) :
  valid_rune r -> range_step (EncodeRune r ++ rest) = (r, length (EncodeRune r)).
Proof.
  intros Hv. rewrite <- (DecodeRune_EncodeRune r rest Hv).
  pose proof (EncodeRune_is_byte r Hv) as Hb. pose proof (EncodeRune_length r Hv) as Hl.
  destruct (EncodeRune r) as [|c l]; [simpl in Hl; lia|].
  rewrite <- app_comm_cons. unfold range_step.
  apply Forall_cons in Hb as [Hc _]. unfold is_byte in Hc.
  destruct (Z.ltb_spec c RuneSelf); [|done].
  rewrite DecodeRune_ascii; [done | unfold RuneSelf in *; lia].
Qed.

Lemma range_runes_cons (fuel : nat) (p : list Z) :
  p <> [] ->
  range_runes (S fuel) p = let '(r, w) := range_step p in r :: range_runes fuel (drop w p).
Proof. by destruct p. Qed.

Lemma length_encode_ge (s : list Z) :
  Forall valid_rune s -> (length s <= length (encode s))%nat.
Proof.
  induction 1 as [|r s Hr _ IH]; [done|]. rewrite encode_cons, length_app.
  pose proof (EncodeRune_length r Hr). simpl. lia.
Qed.

Lemma range_runes_encode (s : list Z) (fuel : nat) :
  Forall valid_rune s -> (length (encode s) <= fuel)%nat ->
  range_runes fuel (encode s) = s.
Proof.
  intros Hs. revert fuel. induction Hs as [|r s Hr Hs IH]; intros fuel Hf.
  - by destruct fuel.
  - pose proof (EncodeRune_length r Hr). rewrite encode_cons, length_app in Hf.
    destruct fuel as [|fuel]; [lia|].
    rewrite encode_cons, range_runes_cons
      by (destruct (EncodeRune r); simpl in *; [lia|done]).
    rewrite range_step_EncodeRune, drop_app_length by done.
    f_equal. apply IH. lia.
Qed.

Lemma DecodeRune_valid (p : list Z) : Forall is_byte p -> valid_rune (DecodeRune p).1.
Proof.
  intros Hp. destruct (DecodeRune p) as [rr n] eqn:E. simpl.
  destruct (DecodeRune_spec p rr n Hp E) as [[-> _]|[? _]]; [|done].
  unfold valid_rune, RuneError, MaxRune, surrogateMin, surrogateMax. lia.
Qed.

(** Every rune [for range] visits in a byte string is valid. *)
Lemma range_runes_valid (fuel : nat) (p : list Z) :
  Forall is_byte p -> Forall valid_rune (range_runes fuel p).
Proof.
  revert p. induction fuel as [|fuel IH]; intros p Hp; [destruct p; constructor|].
  destruct p as [|c rest]; [constructor|]. rewrite range_runes_cons by done.
  destruct (range_step (c :: rest)) as [r w] eqn:E. constructor.
  - unfold range_step in E. destruct (c <? RuneSelf) eqn:Ec.
    + injection E as <- _. apply Forall_cons in Hp as [Hc _].
      unfold is_byte, RuneSelf in *. unfold valid_rune, MaxRune, surrogateMin, surrogateMax.
      apply Z.ltb_lt in Ec. lia.
    + pose proof (DecodeRune_valid (c :: rest) Hp) as Hv. by rewrite E in Hv.
  - apply IH. rewrite Forall_forall in Hp |- *. intros x Hx. by apply Hp, (subseteq_drop w).
Qed.

Lemma runes_of_nil (p : list Z) : runes_of p = [] <-> p = [].
Proof.
  split; [|by intros ->]. unfold runes_of. destruct p as [|c rest]; [done|].
  simpl length. rewrite range_runes_cons by done. by destruct (range_step _).
Qed.

(** ** Theorems *)

(** C16. What [utf8.DecodeRune] accepts is canonical UTF-8: unless it
    reports the error rune with width one, the rune is valid (no surrogate,
    at most [MaxRune]) and its encoding is exactly the bytes consumed, so
    overlong forms are refused. *)
Theorem DecodeRune_canonical (p : list Z) (r : Z) (n : nat) :
  Forall is_byte p -> DecodeRune p = (r, n) -> (1 < n)%nat \/ r <> RuneError ->
  valid_rune r /\ take n p = EncodeRune r.
Proof.
  intros Hp Hd Hn. destruct (DecodeRune_spec p r n Hp Hd) as [[-> ->]|(Hv & _ & ->)].
  - destruct Hn as [Hn|Hn]; [lia | done].
  - done.
Qed.

(** C17. Round trip through the [range] loop: the runes [for _, r := range]
    visits in the UTF-8 encoding of valid runes are those runes. *)
Theorem runes_of_encode (s : list Z) : Forall valid_rune s -> runes_of (encode s) = s.
Proof. intros Hs. by apply range_runes_encode. Qed.

(** ** Examples *)

(** An overlong encoding of ['/'] and a surrogate are refused byte by
    byte; a truncated rune too. *)
Example DecodeRune_refuses :
  DecodeRune [192; 175] = (RuneError, 1%nat) /\
  DecodeRune [237; 160; 128] = (RuneError, 1%nat) /\
  DecodeRune [226; 130] = (RuneError, 1%nat).
Proof. vm_compute. auto. Qed.

(** Backwards: the euro sign after ASCII, and a stray continuation byte. *)
Example DecodeLastRune_examples :
  DecodeLastRune [97; 226; 130; 172] = (8364, 3%nat) /\
  DecodeLastRune [97; 130] = (RuneError, 1%nat).
Proof. vm_compute. auto. Qed.

Lemma DecodeRune_canonical_witness :
  Forall is_byte [226; 130; 172] /\ DecodeRune [226; 130; 172] = (8364, 3%nat) /\
  valid_rune 8364 /\ take 3 [226; 130; 172] = EncodeRune 8364.
Proof.
  assert (Hb : Forall is_byte [226; 130; 172]) by (repeat constructor; unfold is_byte; lia).
  assert (Hd : DecodeRune [226; 130; 172] = (8364, 3%nat)) by reflexivity.
  split; [exact Hb|]. split; [exact Hd|].
  apply (DecodeRune_canonical _ _ _ Hb Hd). left. lia.
Defined.

Lemma runes_of_encode_witness :
  Forall valid_rune sample_runes /\ runes_of (encode sample_runes) = sample_runes.
Proof. split; [exact sample_valid | apply (runes_of_encode _ sample_valid)]. Defined.

End Utf8Decode.
