(* ===== verification/JsonString.v ===== *)
(** * JsonString: how [encoding/json] decodes a string literal

    [json.Unmarshal(body, &certificates)] (crtRecon.go:56) fills
    [CommonName] and [NameValue] with [unquoteBytes] of the literal's
    bytes.  This file models [unquoteBytes] and its helpers [getu4],
    [utf16.IsSurrogate] and [utf16.DecodeRune] from Go's
    [encoding/json/decode.go] and [unicode/utf16]: the fast path that hands
    back the literal's own bytes when nothing needs unquoting, and the
    copying loop for escapes, [\u] escapes with surrogate pairs, and bytes
    that are not UTF-8.  The theorem: whatever [unquoteBytes] accepts, its
    result is the UTF-8 encoding of valid runes; so every string the decoder
    stores satisfies the hypothesis of [ExtractBytes.collect_bytes]. *)

From Stdlib Require Import ZArith.
From S2P Require Import Prelude GoStrings Utf8 Utf8Decode.

Open Scope Z_scope.

Module JsonString.
Import Utf8 Utf8Decode.

(** The byte literals of [unquoteBytes]. *)
Definition bQUOTE : Z := 34.
Definition bBACKSLASH : Z := 92.
Definition bSPACE : Z := 32.

(** [unicode/utf16]: the surrogate ranges and [unicode.ReplacementChar]. *)
Definition surr1 : Z := 55296.
Definition surr2 : Z := 56320.
Definition surr3 : Z := 57344.
Definition surrSelf : Z := 65536.
Definition ReplacementChar : Z := 65533.

(** [utf16.IsSurrogate]. *)
Definition IsSurrogate (r : Z) : bool := (surr1 <=? r) && (r <? surr3).

(** [utf16.DecodeRune]: [(r1-surr1)<<10 | (r2-surr2) + surrSelf] for a
    high and a low surrogate ([|] and [+] bind equally in Go, left to
    right), [ReplacementChar] otherwise. *)
Definition utf16_DecodeRune (r1 r2 : Z) : Z :=
  if (surr1 <=? r1) && (r1 <? surr2) && (surr2 <=? r2) && (r2 <? surr3)
  then Z.lor (Z.shiftl (r1 - surr1) 10) (r2 - surr2) + surrSelf
  else ReplacementChar.

(** One hexadecimal digit of [getu4]. *)
Definition hex_digit (c : Z) : option Z :=
  if (48 <=? c) && (c <=? 57) then Some (c - 48)
  else if (97 <=? c) && (c <=? 102) then Some (c - 97 + 10)
  else if (65 <=? c) && (c <=? 70) then Some (c - 65 + 10)
  else None.

(** [getu4]: the value of [\uXXXX] at the start of [s], or [-1]. *)
Definition getu4 (s : list Z) : Z :=
  match s with
  | c0 :: c1 :: c2 :: c3 :: c4 :: c5 :: _ =>
      if negb (c0 =? bBACKSLASH) || negb (c1 =? 117) then -1
      else
        match hex_digit c2, hex_digit c3, hex_digit c4, hex_digit c5 with
        | Some d2, Some d3, Some d4, Some d5 => ((d2 * 16 + d3) * 16 + d4) * 16 + d5
        | _, _, _, _ => -1
        end
  | _ => -1
  end.

(** The check for unusual characters: the offset of the first quote,
    backslash, control byte or byte that is not UTF-8, or the length. *)
Fixpoint unquote_scan (fuel : nat) (s : list Z) (r : nat) : nat :=
  match fuel with
  | O => r
  | S fuel' =>
      if (r <? length s)%nat then
        let c := nth r s 0 in
        if (c =? bBACKSLASH) || (c =? bQUOTE) || (c <? bSPACE) then r
        else if c <? RuneSelf then unquote_scan fuel' s (S r)
        else
          let '(rr, size) := DecodeRune (drop r s) in
          if (rr =? RuneError) && (size =? 1)%nat then r
          else unquote_scan fuel' s (r + size)
      else r
  end.

(** The copying loop: [b] is what has been written, [r] the read offset.
    Go's buffer grows when it runs out of room, which copies [b[0:w]] and
    is not observable: appending models it. *)
Fixpoint unquote_loop (fuel : nat) (s : list Z) (r : nat) (b : list Z) : option (list Z) :=
  match fuel with
  | O => Some b
  | S fuel' =>
      if (r <? length s)%nat then
        let c := nth r s 0 in
        if c =? bBACKSLASH then
          let r := S r in
          if (length s <=? r)%nat then None
          else
            let e := nth r s 0 in
            if (e =? bQUOTE) || (e =? bBACKSLASH) || (e =? 47) || (e =? 39) then
              unquote_loop fuel' s (S r) (b ++ [e])
            else if e =? 98 then unquote_loop fuel' s (S r) (b ++ [8])
            else if e =? 102 then unquote_loop fuel' s (S r) (b ++ [12])
            else if e =? 110 then unquote_loop fuel' s (S r) (b ++ [10])
            else if e =? 114 then unquote_loop fuel' s (S r) (b ++ [13])
            else if e =? 116 then unquote_loop fuel' s (S r) (b ++ [9])
            else if e =? 117 then
              let r := (r - 1)%nat in
              let rr := getu4 (drop r s) in
              if rr <? 0 then None
              else
                let r := (r + 6)%nat in
                if IsSurrogate rr then
                  let rr1 := getu4 (drop r s) in
                  let dec := utf16_DecodeRune rr rr1 in
                  if negb (dec =? ReplacementChar) then
                    unquote_loop fuel' s (r + 6) (b ++ EncodeRune dec)
                  else unquote_loop fuel' s r (b ++ EncodeRune ReplacementChar)
                else unquote_loop fuel' s r (b ++ EncodeRune rr)
            else None
        else if (c =? bQUOTE) || (c <? bSPACE) then None
        else if c <? RuneSelf then unquote_loop fuel' s (S r) (b ++ [c])
        else
          let '(rr, size) := DecodeRune (drop r s) in
          unquote_loop fuel' s (r + size) (b ++ EncodeRune rr)
      else Some b
  end.

(** [unquoteBytes]: [None] is Go's [ok == false]. *)
Definition unquoteBytes (s : list Z) : option (list Z) :=
  if (length s <? 2)%nat || negb (nth 0 s 0 =? bQUOTE)
     || negb (nth (length s - 1) s 0 =? bQUOTE)
  then None
  else
    let s := take (length s - 2) (drop 1 s) in
    let r := unquote_scan (length s) s 0 in
    if (r =? length s)%nat then Some s
    else unquote_loop (length s) s r (take r s).

(** ** Specification *)

(** A byte string that is the UTF-8 encoding of valid runes. *)
Definition utf8_valid (b : list Z) : Prop := exists rs, Forall valid_rune rs /\ b = encode rs.

(** ** Building valid UTF-8 *)

Lemma utf8_valid_nil : utf8_valid [].
Proof. by exists []. Qed.

Lemma utf8_valid_app_rune (b : list Z) (r : Z) :
  utf8_valid b -> valid_rune r -> utf8_valid (b ++ EncodeRune r).
Proof.
  intros (rs & Hrs & ->) Hr. exists (rs ++ [r]). split; [by apply Forall_app; auto|].
  by rewrite encode_app, encode_cons, encode_nil, app_nil_r.
Qed.

Lemma utf8_valid_app_ascii (b : list Z) (c : Z) :
  utf8_valid b -> 0 <= c <= 127 -> utf8_valid (b ++ [c]).
Proof.
  intros Hb Hc. rewrite <- EncodeRune_ascii by (apply ascii_valid || idtac; lia).
  apply utf8_valid_app_rune; [done|]. by apply ascii_valid.
Qed.

Lemma hex_digit_range (c d : Z) : hex_digit c = Some d -> 0 <= d <= 15.
Proof. unfold hex_digit. zcase; intros; simplify_eq; lia. Qed.

Lemma getu4_range (s : list Z) : getu4 s = -1 \/ 0 <= getu4 s <= 65535.
Proof.
  unfold getu4. repeat case_match; auto. right.
  repeat match goal with H : hex_digit _ = Some _ |- _ => apply hex_digit_range in H end.
  lia.
Qed.

(** [utf16.DecodeRune] always gives a valid rune: a supplementary one
    for a pair, [ReplacementChar] otherwise. *)
Lemma utf16_DecodeRune_valid (r1 r2 : Z) : valid_rune (utf16_DecodeRune r1 r2).
Proof.
  unfold utf16_DecodeRune, valid_rune, MaxRune, surrogateMin, surrogateMax, ReplacementChar.
  destruct (_ && _) eqn:E; [|lia]. bool_cases. unfold surr1, surr2, surr3, surrSelf in *.
  rewrite lor_shiftl by pow_lia. pow_lia.
Qed.

Lemma Forall_subseteq_is_byte (s t : list Z) : Forall is_byte s -> t ⊆ s -> Forall is_byte t.
Proof. rewrite !Forall_forall. intros Hs Ht x Hx. by apply Hs, Ht. Qed.

Lemma Forall_is_byte_drop (s : list Z) (n : nat) : Forall is_byte s -> Forall is_byte (drop n s).
Proof. intros Hs. rewrite Forall_forall in Hs |- *. intros x Hx. by apply Hs, (subseteq_drop n). Qed.

Lemma nth_is_byte (s : list Z) (n : nat) : Forall is_byte s -> 0 <= nth n s 0 < 256.
Proof.
  intros Hs. destruct (decide (n < length s)%nat) as [Hn|Hn].
  - rewrite Forall_forall in Hs. apply Hs, list_elem_of_In, nth_In. lia.
  - rewrite nth_overflow by lia. lia.
Qed.

(** ** The two loops produce valid UTF-8 *)

(** The fast scan stops after a prefix that is valid UTF-8. *)
Lemma unquote_scan_valid (fuel : nat) (s : list Z) (r : nat) :
  Forall is_byte s -> utf8_valid (take r s) -> utf8_valid (take (unquote_scan fuel s r) s).
Proof.
  revert r. induction fuel as [|fuel IH]; intros r Hs Hr; [done|]. simpl.
  destruct (Nat.ltb_spec r (length s)); [|done].
  pose proof (nth_is_byte s r Hs) as Hc.
  destruct (_ || _) eqn:Hbreak; [done|]. bool_facts.
  destruct (Z.ltb_spec (nth r s 0) RuneSelf).
  - apply IH; [done|]. rewrite (take_S_r _ _ (nth r s 0)).
    + apply utf8_valid_app_ascii; [done|]. unfold RuneSelf in *. lia.
    + destruct (nth_lookup_or_length s r 0); [done | lia].
  - destruct (DecodeRune (drop r s)) as [rr size] eqn:Hd.
    destruct (_ && _) eqn:Herr; [done|]. apply IH; [done|].
    destruct (DecodeRune_spec (drop r s) rr size (Forall_is_byte_drop s r Hs) Hd)
      as [[-> ->]|(Hv & _ & Henc)].
    + rewrite length_drop, Z.eqb_refl in Herr. simpl in Herr.
      destruct (length s - r)%nat eqn:?; [lia|]. done.
    + rewrite <- take_take_drop, <- Henc. by apply utf8_valid_app_rune.
Qed.

Lemma unquote_loop_valid (fuel : nat) (s : list Z) (r : nat) (b t : list Z) :
  Forall is_byte s -> utf8_valid b -> unquote_loop fuel s r b = Some t -> utf8_valid t.
Proof.
  revert r b. induction fuel as [|fuel IH]; intros r b Hs Hb H;
    cbn [unquote_loop] in H; [by injection H as <-|].
  pose proof (nth_is_byte s r Hs). pose proof (nth_is_byte s (S r) Hs).
  pose proof (getu4_range (drop r s)).
  repeat case_match; simplify_eq; try done; bool_facts; subst;
    (eapply IH; [done| |eassumption]); rewrite ?Nat.sub_succ, ?Nat.sub_0_r in *.
  all: first [ apply utf8_valid_app_ascii;
                 [done | unfold bQUOTE, bBACKSLASH, bSPACE, RuneSelf in *; lia]
             | apply utf8_valid_app_rune; [done|] ].
  all: first
    [ apply utf16_DecodeRune_valid
    | unfold valid_rune, ReplacementChar, MaxRune, surrogateMin, surrogateMax; lia
    | match goal with
      | Hd : DecodeRune _ = (?z, _) |- valid_rune ?z =>
          pose proof (DecodeRune_valid _ (Forall_is_byte_drop s r Hs)) as Hv;
          rewrite Hd in Hv; exact Hv
      end
    | unfold IsSurrogate, surr1, surr3 in *; bool_facts;
      unfold valid_rune, MaxRune, surrogateMin, surrogateMax; lia ].
Qed.

Lemma unquoteBytes_utf8 (s t : list Z) :
  Forall is_byte s -> unquoteBytes s = Some t -> utf8_valid t.
Proof.
  intros Hs. unfold unquoteBytes.
  destruct (_ || _); [done|]. cbv zeta.
  set (inner := take (length s - 2) (drop 1 s)).
  assert (Hi : Forall is_byte inner)
    by (apply (Forall_subseteq_is_byte s); [done|]; subst inner;
        etransitivity; [apply subseteq_take | apply subseteq_drop]).
  pose proof (unquote_scan_valid (length inner) inner 0 Hi utf8_valid_nil) as Hscan.
  destruct (Nat.eqb_spec (unquote_scan (length inner) inner 0) (length inner)) as [E|E].
  - intros [= <-]. by rewrite E, firstn_all in Hscan.
  - by apply unquote_loop_valid.
Qed.

(** A valid UTF-8 byte string is the encoding of the runes [for range]
    visits in it. *)
Lemma utf8_valid_runes_of (b : list Z) :
  utf8_valid b -> encode (runes_of b) = b /\ Forall valid_rune (runes_of b).
Proof. intros (rs & Hrs & ->). unfold runes_of. by rewrite range_runes_encode. Qed.

(** ** Termination *)

Lemma unquote_loop_S (fuel : nat) (s : list Z) (r : nat) (b : list Z) :
  unquote_loop (S fuel) s r b =
    if (r <? length s)%nat then
      let c := nth r s 0 in
      if c =? bBACKSLASH then
        let r := S r in
        if (length s <=? r)%nat then None
        else
          let e := nth r s 0 in
          if (e =? bQUOTE) || (e =? bBACKSLASH) || (e =? 47) || (e =? 39) then
            unquote_loop fuel s (S r) (b ++ [e])
          else if e =? 98 then unquote_loop fuel s (S r) (b ++ [8])
          else if e =? 102 then unquote_loop fuel s (S r) (b ++ [12])
          else if e =? 110 then unquote_loop fuel s (S r) (b ++ [10])
          else if e =? 114 then unquote_loop fuel s (S r) (b ++ [13])
          else if e =? 116 then unquote_loop fuel s (S r) (b ++ [9])
          else if e =? 117 then
            let r := (r - 1)%nat in
            let rr := getu4 (drop r s) in
            if rr <? 0 then None
            else
              let r := (r + 6)%nat in
              if IsSurrogate rr then
                let rr1 := getu4 (drop r s) in
                let dec := utf16_DecodeRune rr rr1 in
                if negb (dec =? ReplacementChar) then
                  unquote_loop fuel s (r + 6) (b ++ EncodeRune dec)
                else unquote_loop fuel s r (b ++ EncodeRune ReplacementChar)
              else unquote_loop fuel s r (b ++ EncodeRune rr)
          else None
      else if (c =? bQUOTE) || (c <? bSPACE) then None
      else if c <? RuneSelf then unquote_loop fuel s (S r) (b ++ [c])
      else
        let '(rr, size) := DecodeRune (drop r s) in
        unquote_loop fuel s (r + size) (b ++ EncodeRune rr)
    else Some b.
Proof. reflexivity. Qed.

(** [DecodeRune] consumes at least one byte of a non-empty input. *)
Lemma DecodeRune_width_pos (p : list Z) :
  Forall is_byte p -> p <> [] -> (1 <= (DecodeRune p).2)%nat.
Proof.
  intros Hp Hne. destruct (DecodeRune p) as [rr n] eqn:E. simpl.
  destruct (DecodeRune_spec p rr n Hp E) as [[_ ->]|(Hv & -> & _)].
  - destruct p; [done|]. simpl. lia.
  - pose proof (EncodeRune_length rr Hv). lia.
Qed.

(** Every iteration reads at least one byte, so fuel of the number of
    unread bytes is never the limit. *)
Lemma unquote_loop_fuel (fuel : nat) (s : list Z) (r : nat) (b : list Z) :
  Forall is_byte s -> (length s - r <= fuel)%nat ->
  unquote_loop fuel s r b = unquote_loop (S fuel) s r b.
Proof.
  revert r b. induction fuel as [|fuel IH]; intros r b Hs Hf.
  { rewrite unquote_loop_S. case_match; [apply Nat.ltb_lt in H; lia | done]. }
  rewrite (unquote_loop_S (S fuel) s r b), (unquote_loop_S fuel s r b). cbv zeta.
  repeat case_match; try done; apply IH; try done;
    repeat match goal with
    | H : (_ <? _)%nat = true |- _ => apply Nat.ltb_lt in H
    | H : (_ <=? _)%nat = false |- _ => apply Nat.leb_gt in H
    end; try lia.
  match goal with Hd : DecodeRune (drop r s) = (_, ?n) |- _ =>
    pose proof (DecodeRune_width_pos (drop r s) (Forall_is_byte_drop s r Hs)) as Hw;
    rewrite Hd in Hw; simpl in Hw end.
  assert (Hne : drop r s <> []) by (intros Hd0; apply (f_equal length) in Hd0;
    rewrite length_drop in Hd0; simpl in Hd0; lia).
  specialize (Hw Hne). lia.
Qed.

(** ** Theorems *)

(** C14. Every string [encoding/json] stores is valid UTF-8: whatever
    [unquoteBytes] accepts, on any bytes, its result is the UTF-8 encoding
    of valid runes (escapes, [\u] escapes with or without a surrogate
    pair, and bytes that are not UTF-8, which become U+FFFD). *)
Theorem unquoteBytes_valid (s t : list Z) :
  Forall is_byte s -> unquoteBytes s = Some t -> utf8_valid t.
Proof. apply unquoteBytes_utf8. Qed.

(** C18. Termination of the copying loop: every iteration of the loop
    at decode.go's [for r < len(s)] consumes at least one byte, so from
    read offset [r] the loop has finished after [len(s) - r] iterations;
    any more fuel gives the same result, and the fuel [unquoteBytes]
    passes ([len(s)]) is enough. *)
Theorem unquote_loop_terminates (s : list Z) (r : nat) (b : list Z) (k : nat) :
  Forall is_byte s ->
  unquote_loop (length s - r + k) s r b = unquote_loop (length s - r) s r b.
Proof.
  intros Hs. induction k as [|k IH]; [by rewrite Nat.add_0_r|].
  rewrite Nat.add_succ_r, <- IH. symmetry. apply unquote_loop_fuel; [done | lia].
Qed.

(** ** Examples and witnesses *)

(** ["caf\u00e9"] decodes to the two bytes of [é]; a surrogate pair
    [\ud83d\ude00] to the four bytes of U+1F600; a lone surrogate and a
    byte that is not UTF-8 to U+FFFD; an unknown escape and a raw newline
    are refused. *)
Example unquoteBytes_examples :
  unquoteBytes (([34] ++ gs "caf\u00e9" ++ [34])) = Some (gs "caf" ++ [195; 169]) /\
  unquoteBytes (([34] ++ gs "\ud83d\ude00" ++ [34])) = Some [240; 159; 152; 128] /\
  unquoteBytes (([34] ++ gs "\ud83dx" ++ [34])) = Some ([239; 191; 189] ++ gs "x") /\
  unquoteBytes ([34; 97; 255; 34]) = Some [97; 239; 191; 189] /\
  unquoteBytes (([34] ++ gs "plain.example" ++ [34])) = Some (gs "plain.example") /\
  unquoteBytes (([34] ++ gs "\q" ++ [34])) = None /\
  unquoteBytes [34; 10; 34] = None.
Proof. vm_compute. repeat split. Qed.

Lemma unquoteBytes_valid_witness :
  Forall is_byte (([34] ++ gs "caf\u00e9" ++ [34])) /\
  unquoteBytes (([34] ++ gs "caf\u00e9" ++ [34])) = Some (gs "caf" ++ [195; 169]) /\
  utf8_valid (gs "caf" ++ [195; 169]).
Proof.
  assert (Hb : Forall is_byte (([34] ++ gs "caf\u00e9" ++ [34]))) by solve_bytes.
  assert (Hu : unquoteBytes (([34] ++ gs "caf\u00e9" ++ [34])) = Some (gs "caf" ++ [195; 169]))
    by (vm_compute; reflexivity).
  split; [exact Hb|]. split; [exact Hu|].
  exact (unquoteBytes_valid _ _ Hb Hu).
Defined.

Lemma unquote_loop_terminates_witness :
  Forall is_byte (gs "\u00e9") /\
  unquote_loop (length (gs "\u00e9") - 0 + 3) (gs "\u00e9") 0 [] =
    unquote_loop (length (gs "\u00e9") - 0) (gs "\u00e9") 0 [].
Proof.
  assert (Hb : Forall is_byte (gs "\u00e9")) by solve_bytes.
  split; [exact Hb|]. exact (unquote_loop_terminates _ 0 [] 3 Hb).
Defined.

End JsonString.
