(* ===== verification/ByteStrings.v ===== *)
(** * ByteStrings: [strings.TrimSpace] and [strings.ToLower] on bytes

    [addDomainsToSet] (crtRecon.go:93) runs
    [strings.ToLower(strings.TrimSpace(domain))] on the byte string that
    [json.Unmarshal] stored.  Both functions have an ASCII fast path that
    works byte by byte and a Unicode path that decodes runes
    ([TrimFunc] with [unicode.IsSpace] through [indexFunc] and
    [lastIndexFunc]; [strings.Map] with [unicode.ToLower]).  This file models
    them as Go writes them, on [list Z] bytes, and proves that on the UTF-8
    encoding of valid runes they compute the encoding of the rune-level
    functions of [GoStrings] that the rest of the development uses. *)

From Stdlib Require Import ZArith.
From S2P Require Import Prelude GoStrings Utf8 Utf8Decode.

Open Scope Z_scope.

Module ByteStrings.
Import Unicode Utf8 Utf8Decode.

(** [indexFunc(s, f, truth)]: [for i, r := range s { if f(r) == truth
    { return i } }; return -1].  [i] is the byte offset of the suffix [p];
    one unit of fuel per byte. *)
Fixpoint index_func_loop (fuel : nat) (f : Z -> bool) (truth : bool) (i : nat) (p : list Z)
    : Z :=
  match fuel, p with
  | O, _ | _, [] => -1
  | S fuel', _ =>
      let '(r, w) := range_step p in
      if Bool.eqb (f r) truth then Z.of_nat i
      else index_func_loop fuel' f truth (i + w) (drop w p)
  end.

Definition indexFunc (s : list Z) (f : Z -> bool) (truth : bool) : Z :=
  index_func_loop (length s) f truth 0 s.

(** [lastIndexFunc(s, f, truth)]:
    [for i := len(s); i > 0; { r, size := utf8.DecodeLastRuneInString(s[0:i]);
    i -= size; if f(r) == truth { return i } }; return -1]. *)
Fixpoint last_index_loop (fuel : nat) (f : Z -> bool) (truth : bool) (s : list Z) (i : Z)
    : Z :=
  match fuel with
  | O => -1
  | S fuel' =>
      if 0 <? i then
        let '(r, size) := DecodeLastRune (take (Z.to_nat i) s) in
        let i := i - Z.of_nat size in
        if Bool.eqb (f r) truth then i else last_index_loop fuel' f truth s i
      else -1
  end.

Definition lastIndexFunc (s : list Z) (f : Z -> bool) (truth : bool) : Z :=
  last_index_loop (length s) f truth s (Z.of_nat (length s)).

(** [strings.TrimLeftFunc]: [i := indexFunc(s, f, false); if i == -1
    { return "" }; return s[i:]]. *)
Definition TrimLeftFunc (s : list Z) (f : Z -> bool) : list Z :=
  let i := indexFunc s f false in
  if i =? -1 then [] else drop (Z.to_nat i) s.

(** [strings.TrimRightFunc]: [i := lastIndexFunc(s, f, false)]; past a
    non-ASCII last rune by its width, else by one; [return s[0:i]]. *)
Definition TrimRightFunc (s : list Z) (f : Z -> bool) : list Z :=
  let i := lastIndexFunc s f false in
  let i :=
    if (0 <=? i) && (RuneSelf <=? nth (Z.to_nat i) s 0)
    then i + Z.of_nat (DecodeRune (drop (Z.to_nat i) s)).2
    else i + 1 in
  take (Z.to_nat i) s.

(** [strings.TrimFunc]. *)
Definition TrimFunc (s : list Z) (f : Z -> bool) : list Z :=
  TrimRightFunc (TrimLeftFunc s f) f.

(** [asciiSpace]: [[256]uint8{'\t': 1, '\n': 1, '\v': 1, '\f': 1, '\r': 1, ' ': 1}]. *)
Definition asciiSpace (c : Z) : Z :=
  if existsb (Z.eqb c) [9; 10; 11; 12; 13; 32] then 1 else 0.

(** How a scanning loop of [TrimSpace] ends: by returning a string, or at
    an index. *)
Inductive scan := Return (s : list Z) | At (i : nat).

(** [for ; start < len(s); start++ { c := s[start]; if c >= utf8.RuneSelf
    { return TrimFunc(s[start:], unicode.IsSpace) }; if asciiSpace[c] == 0
    { break } }]. *)
Fixpoint trim_space_left (fuel : nat) (s : list Z) (start : nat) : scan :=
  match fuel with
  | O => At start
  | S fuel' =>
      if (start <? length s)%nat then
        let c := nth start s 0 in
        if RuneSelf <=? c then Return (TrimFunc (drop start s) IsSpace)
        else if asciiSpace c =? 0 then At start
        else trim_space_left fuel' s (S start)
      else At start
  end.

(** [for ; stop > start; stop-- { c := s[stop-1]; if c >= utf8.RuneSelf
    { return TrimRightFunc(s[start:stop], unicode.IsSpace) };
    if asciiSpace[c] == 0 { break } }]. *)
Fixpoint trim_space_right (fuel : nat) (s : list Z) (start stop : nat) : scan :=
  match fuel with
  | O => At stop
  | S fuel' =>
      if (start <? stop)%nat then
        let c := nth (stop - 1) s 0 in
        if RuneSelf <=? c then Return (TrimRightFunc (take (stop - start) (drop start s)) IsSpace)
        else if asciiSpace c =? 0 then At stop
        else trim_space_right fuel' s start (stop - 1)
      else At stop
  end.

(** [strings.TrimSpace]: the two ASCII scans, then [s[start:stop]]. *)
Definition TrimSpace (s : list Z) : list Z :=
  match trim_space_left (S (length s)) s 0 with
  | Return t => t
  | At start =>
      match trim_space_right (S (length s)) s start (length s) with
      | Return t => t
      | At stop => take (stop - start) (drop start s)
      end
  end.

(** [utf8.RuneLen]: the number of bytes of a rune's encoding, [-1] for a
    rune UTF-8 cannot encode. *)
Definition RuneLen (r : Z) : Z :=
  if r <? 0 then -1
  else if r <=? 127 then 1
  else if r <=? 2047 then 2
  else if (surrogateMin <=? r) && (r <=? surrogateMax) then -1
  else if r <=? 65535 then 3
  else if r <=? MaxRune then 4
  else -1.

(** The first loop of [strings.Map]: [for i, c := range s], skipping the
    runes the mapping keeps; at the first rune it changes, the output is
    [s[:i]] and the mapped rune, and [s] becomes [s[i+width:]].  [None]:
    the loop ended without writing, and [Map] returns [s] itself.  [p] is
    [s[i:]]. *)
Fixpoint map_first (fuel : nat) (mapping : Z -> Z) (s : list Z) (i : nat) (p : list Z)
    : option (list Z * list Z) :=
  match fuel, p with
  | O, _ | _, [] => None
  | S fuel', _ =>
      let '(c, w) := range_step p in
      let r := mapping c in
      if (r =? c) && negb (c =? RuneError) then map_first fuel' mapping s (i + w) (drop w p)
      else
        let '(c, width, skip) :=
          if c =? RuneError then
            let '(c', width) := DecodeRune p in (c', width, negb (width =? 1)%nat && (r =? c'))
          else (c, Z.to_nat (RuneLen c), false) in
        if skip then map_first fuel' mapping s (i + w) (drop w p)
        else Some (take i s ++ (if 0 <=? r then EncodeRune r else []), drop (i + width) s)
  end.

(** The second loop of [strings.Map]: [for _, c := range s], writing each
    mapped rune, ASCII ones by [WriteByte]. *)
Fixpoint map_rest (fuel : nat) (mapping : Z -> Z) (p b : list Z) : list Z :=
  match fuel, p with
  | O, _ | _, [] => b
  | S fuel', _ =>
      let '(c, w) := range_step p in
      let r := mapping c in
      let b :=
        if 0 <=? r then (if r <? RuneSelf then b ++ [byte r] else b ++ EncodeRune r) else b in
      map_rest fuel' mapping (drop w p) b
  end.

(** [strings.Map]. *)
Definition Map (mapping : Z -> Z) (s : list Z) : list Z :=
  match map_first (length s) mapping s 0 s with
  | None => s
  | Some (b, rest) => map_rest (length rest) mapping rest b
  end.

(** The first loop of [strings.ToLower]: [isASCII] and [hasUpper]. *)
Fixpoint ascii_scan (p : list Z) (hasUpper : bool) : bool * bool :=
  match p with
  | [] => (true, hasUpper)
  | c :: p' =>
      if RuneSelf <=? c then (false, hasUpper)
      else ascii_scan p' (hasUpper || ((65 <=? c) && (c <=? 90)))
  end.

(** The ASCII loop of [strings.ToLower]: at each upper-case byte, write
    [s[pos:i]] and the lower-case byte, and set [pos = i + 1]. *)
Fixpoint lower_ascii (s : list Z) (i : nat) (p : list Z) (pos : nat) (b : list Z)
    : list Z * nat :=
  match p with
  | [] => (b, pos)
  | c :: p' =>
      if (65 <=? c) && (c <=? 90) then
        let c := c + (97 - 65) in
        let b := if (pos <? i)%nat then b ++ take (i - pos) (drop pos s) else b in
        lower_ascii s (S i) p' (S i) (b ++ [c])
      else lower_ascii s (S i) p' pos b
  end.

(** [strings.ToLower]: unchanged ASCII, the ASCII loop, or
    [Map(unicode.ToLower, s)]. *)
Definition ToLower `{CaseTable} (s : list Z) : list Z :=
  let '(isASCII, hasUpper) := ascii_scan s false in
  if isASCII then
    if negb hasUpper then s
    else
      let '(b, pos) := lower_ascii s 0 s 0 [] in
      if (pos <? length s)%nat then b ++ drop pos s else b
  else Map Unicode.ToLower s.

(** Upper-case ASCII, as the ASCII loop of [strings.ToLower] tests it. *)
Definition is_upper (c : Z) : bool := (65 <=? c) && (c <=? 90).

(** The runes the ASCII scans of [TrimSpace] step over. *)
Definition ascii_space (r : Z) : bool :=
  (0 <=? r) && (r <? RuneSelf) && (asciiSpace r =? 1).

(** ** Rune-level facts *)

Lemma TrimLeftFunc_split (f : Z -> bool) (s : list Z) :
  exists P, s = P ++ Strings.TrimLeftFunc f s.
Proof.
  induction s as [|r s [P HP]]; [by exists []|]. simpl.
  destruct (f r); [exists (r :: P); simpl; by f_equal | by exists []].
Qed.

Lemma TrimRightFunc_snoc (f : Z -> bool) (s : list Z) (r : Z) :
  Strings.TrimRightFunc f (s ++ [r]) = if f r then Strings.TrimRightFunc f s else s ++ [r].
Proof.
  unfold Strings.TrimRightFunc. rewrite rev_app_distr. simpl.
  destruct (f r); [done|]. simpl. by rewrite rev_involutive.
Qed.

Lemma TrimRightFunc_split (f : Z -> bool) (s : list Z) :
  exists Q, s = Strings.TrimRightFunc f s ++ Q.
Proof.
  induction s as [|r s [Q HQ]] using rev_ind; [by exists []|].
  rewrite TrimRightFunc_snoc. destruct (f r).
  - exists (Q ++ [r]). by rewrite app_assoc, <- HQ.
  - exists []. by rewrite app_nil_r.
Qed.

Lemma length_encode_TrimLeftFunc (f : Z -> bool) (s : list Z) :
  (length (encode (Strings.TrimLeftFunc f s)) <= length (encode s))%nat.
Proof.
  induction s as [|r s IH]; simpl; [lia|].
  destruct (f r); rewrite ?encode_cons, ?length_app; [lia | done].
Qed.

(** The first byte of a valid rune's encoding is ASCII iff the rune is. *)
Lemma EncodeRune_head (r : Z) (rest : list Z) :
  valid_rune r -> (RuneSelf <=? nth 0 (EncodeRune r ++ rest) 0) = negb (r <=? 127).
Proof.
  intros Hv. rewrite (EncodeRune_valid r Hv). unfold valid_rune, MaxRune in Hv.
  unfold RuneSelf. zcase; try done; exfalso; pow_lia.
Qed.

(** ** [indexFunc] and [TrimLeftFunc] *)

Lemma index_func_loop_cons (fuel : nat) (f : Z -> bool) (truth : bool) (i : nat) (p : list Z) :
  p <> [] ->
  index_func_loop (S fuel) f truth i p =
    let '(r, w) := range_step p in
    if Bool.eqb (f r) truth then Z.of_nat i
    else index_func_loop fuel f truth (i + w) (drop w p).
Proof. by destruct p. Qed.

Lemma EncodeRune_app_nonempty (r : Z) (rest : list Z) :
  valid_rune r -> EncodeRune r ++ rest <> [].
Proof.
  intros Hv. pose proof (EncodeRune_length r Hv). by destruct (EncodeRune r); simpl in *; [lia|].
Qed.

(** The range loop stops at the byte offset of the first rune [f]
    rejects. *)
Lemma index_func_loop_encode (f : Z -> bool) (s : list Z) (i fuel : nat) :
  Forall valid_rune s -> (length (encode s) <= fuel)%nat ->
  index_func_loop fuel f false i (encode s) =
    match Strings.TrimLeftFunc f s with
    | [] => -1
    | _ => Z.of_nat (i + (length (encode s) - length (encode (Strings.TrimLeftFunc f s))))
    end.
Proof.
  intros Hs. revert i fuel. induction Hs as [|r s Hr Hs IH]; intros i fuel Hf.
  - by destruct fuel.
  - pose proof (EncodeRune_length r Hr). rewrite encode_cons, length_app in Hf.
    destruct fuel as [|fuel]; [lia|].
    rewrite encode_cons, index_func_loop_cons by by apply EncodeRune_app_nonempty.
    rewrite range_step_EncodeRune by done. cbn [Strings.TrimLeftFunc].
    destruct (f r); simpl.
    + rewrite drop_app_length, IH by lia.
      pose proof (length_encode_TrimLeftFunc f s).
      destruct (Strings.TrimLeftFunc f s); [done|]. rewrite length_app. f_equal. lia.
    + rewrite encode_cons, length_app. f_equal. lia.
Qed.

Lemma TrimLeftFunc_encode (f : Z -> bool) (s : list Z) :
  Forall valid_rune s -> TrimLeftFunc (encode s) f = encode (Strings.TrimLeftFunc f s).
Proof.
  intros Hs. unfold TrimLeftFunc, indexFunc. rewrite index_func_loop_encode by done.
  destruct (TrimLeftFunc_split f s) as [P HP].
  destruct (Strings.TrimLeftFunc f s) as [|z l] eqn:ET; [done|].
  rewrite (proj2 (Z.eqb_neq _ _)) by lia. rewrite Nat2Z.id.
  rewrite HP, encode_app, length_app.
  replace (0 + (length (encode P) + length (encode (z :: l)) - length (encode (z :: l))))%nat
    with (length (encode P)) by lia.
  apply drop_app_length.
Qed.

(** ** [lastIndexFunc] and [TrimRightFunc] *)

Lemma last_index_loop_S (fuel : nat) (f : Z -> bool) (truth : bool) (s : list Z) (i : Z) :
  last_index_loop (S fuel) f truth s i =
    if 0 <? i then
      let '(r, size) := DecodeLastRune (take (Z.to_nat i) s) in
      let i := i - Z.of_nat size in
      if Bool.eqb (f r) truth then i else last_index_loop fuel f truth s i
    else -1.
Proof. reflexivity. Qed.

(** The backward loop stops at the byte offset of the last rune [f]
    rejects. *)
Lemma last_index_loop_encode (f : Z -> bool) (s post B : list Z) (fuel : nat) :
  Forall valid_rune s -> (length s <= fuel)%nat -> B = encode s ++ post ->
  last_index_loop fuel f false B (Z.of_nat (length (encode s))) =
    match Strings.TrimRightFunc f s with
    | [] => -1
    | _ :: _ => Z.of_nat (length (encode (removelast (Strings.TrimRightFunc f s))))
    end.
Proof.
  revert post fuel B. induction s as [|r s IH] using rev_ind; intros post fuel B Hs Hf ->.
  - by destruct fuel.
  - apply Forall_app in Hs as [Hs Hr]. inversion Hr as [|? ? Hv _]; subst.
    pose proof (EncodeRune_length r Hv).
    rewrite length_app in Hf. simpl in Hf. destruct fuel as [|fuel]; [lia|].
    rewrite TrimRightFunc_snoc, encode_app, encode_cons, encode_nil, app_nil_r.
    rewrite last_index_loop_S, length_app. destruct (Z.ltb_spec 0 (Z.of_nat (length (encode s) + length (EncodeRune r))));
      [|lia].
    rewrite <- app_assoc, Nat2Z.id, app_assoc, take_app_length', DecodeLastRune_EncodeRune
      by (rewrite ?length_app; lia || done).
    replace (Z.of_nat (length (encode s) + length (EncodeRune r)) - Z.of_nat (length (EncodeRune r)))
      with (Z.of_nat (length (encode s))) by lia.
    destruct (f r); cbn [Bool.eqb].
    + apply (IH (EncodeRune r ++ post)); [done | lia | by rewrite app_assoc].
    + rewrite removelast_last. by destruct s.
Qed.

Lemma TrimRightFunc_encode (f : Z -> bool) (s : list Z) :
  Forall valid_rune s -> TrimRightFunc (encode s) f = encode (Strings.TrimRightFunc f s).
Proof.
  intros Hs. unfold TrimRightFunc, lastIndexFunc.
  rewrite (last_index_loop_encode f s [] (encode s)) by (rewrite ?app_nil_r; done || by apply length_encode_ge).
  destruct (TrimRightFunc_split f s) as [Q HQ].
  destruct (Strings.TrimRightFunc f s) as [|z l] eqn:ET; [done|].
  destruct (exists_last (l := z :: l)) as (T0 & r & HT); [done|]. rewrite HT in HQ |- *.
  rewrite removelast_last.
  assert (Hall : Forall valid_rune (T0 ++ [r] ++ Q)) by (by rewrite app_assoc, <- HQ).
  apply Forall_app in Hall as [_ Hall]. simpl in Hall. apply Forall_cons in Hall as [Hv _].
  rewrite HQ, !encode_app, encode_cons, encode_nil, app_nil_r, <- app_assoc.
  rewrite Nat2Z.id, nth_app_length0, EncodeRune_head by done.
  destruct (Z.leb_spec 0 (Z.of_nat (length (encode T0)))); [|lia].
  destruct (Z.leb_spec r 127) as [Ha|Ha]; simpl.
  - assert (He : EncodeRune r = [r])
      by (rewrite (EncodeRune_valid r Hv); by destruct (Z.leb_spec r 127); [|lia]).
    rewrite He. replace (Z.to_nat (Z.of_nat (length (encode T0)) + 1))
      with (length (encode T0 ++ [r])) by (rewrite length_app; simpl; lia).
    by rewrite app_assoc, take_app_length.
  - rewrite drop_app_length, DecodeRune_EncodeRune by done. simpl.
    replace (Z.to_nat (Z.of_nat (length (encode T0)) + Z.of_nat (length (EncodeRune r))))
      with (length (encode T0 ++ EncodeRune r)) by (rewrite length_app; lia).
    by rewrite app_assoc, take_app_length.
Qed.

Lemma TrimFunc_encode (f : Z -> bool) (s : list Z) :
  Forall valid_rune s -> TrimFunc (encode s) f = encode (Strings.TrimFunc f s).
Proof.
  intros Hs. unfold TrimFunc, Strings.TrimFunc.
  rewrite TrimLeftFunc_encode by done. rewrite TrimRightFunc_encode; [done|].
  destruct (TrimLeftFunc_split f s) as [P HP]. rewrite HP in Hs.
  by apply Forall_app in Hs as [_ ?].
Qed.

(** ** Trimming with a weaker predicate first *)

Lemma TrimLeftFunc_sub (f g : Z -> bool) (s : list Z) :
  (forall r, f r = true -> g r = true) ->
  Strings.TrimLeftFunc g (Strings.TrimLeftFunc f s) = Strings.TrimLeftFunc g s.
Proof.
  intros Hfg. induction s as [|r s IH]; [done|]. simpl.
  destruct (f r) eqn:Hf; [by rewrite (Hfg r Hf) | done].
Qed.

Lemma TrimRightFunc_sub (f g : Z -> bool) (s : list Z) :
  (forall r, f r = true -> g r = true) ->
  Strings.TrimRightFunc g (Strings.TrimRightFunc f s) = Strings.TrimRightFunc g s.
Proof.
  intros Hfg. unfold Strings.TrimRightFunc. rewrite rev_involutive.
  by rewrite TrimLeftFunc_sub.
Qed.

Lemma IsSpace_ascii (r : Z) : 0 <= r < 128 -> IsSpace r = (asciiSpace r =? 1).
Proof.
  intros Hr. apply Bool.eqb_prop. revert r Hr.
  apply (Z_range_check (fun r => Bool.eqb (IsSpace r) (asciiSpace r =? 1)) 128).
  vm_compute. reflexivity.
Qed.

Lemma ascii_space_IsSpace (r : Z) : ascii_space r = true -> IsSpace r = true.
Proof.
  unfold ascii_space, RuneSelf. intros H. bool_cases. rewrite IsSpace_ascii by lia. by apply Z.eqb_eq.
Qed.

Lemma asciiSpace_cases (c : Z) : asciiSpace c = 0 \/ asciiSpace c = 1.
Proof. unfold asciiSpace. destruct (existsb _ _); auto. Qed.

(** ** The ASCII scans of [TrimSpace] *)

Lemma trim_space_left_S (fuel : nat) (s : list Z) (start : nat) :
  trim_space_left (S fuel) s start =
    if (start <? length s)%nat then
      let c := nth start s 0 in
      if RuneSelf <=? c then Return (TrimFunc (drop start s) IsSpace)
      else if asciiSpace c =? 0 then At start
      else trim_space_left fuel s (S start)
    else At start.
Proof. reflexivity. Qed.

(** The forward scan steps over the leading ASCII white space and stops at
    the first other rune: an ASCII one gives its offset, a non-ASCII one
    hands the rest to [TrimFunc]. *)
Lemma trim_space_left_encode (pre s : list Z) (fuel : nat) :
  Forall valid_rune s -> (length (encode s) < fuel)%nat ->
  trim_space_left fuel (pre ++ encode s) (length pre) =
    match Strings.TrimLeftFunc ascii_space s with
    | [] => At (length pre + length (encode s))
    | r :: _ =>
        if RuneSelf <=? r
        then Return (TrimFunc (encode (Strings.TrimLeftFunc ascii_space s)) IsSpace)
        else At (length pre + (length (encode s)
                               - length (encode (Strings.TrimLeftFunc ascii_space s))))
    end.
Proof.
  intros Hs. revert pre fuel. induction Hs as [|a s Ha Hs IH]; intros pre fuel Hf;
    (destruct fuel as [|fuel]; [lia|]); rewrite trim_space_left_S.
  - rewrite app_nil_r, Nat.ltb_irrefl. f_equal. simpl. lia.
  - pose proof (EncodeRune_length a Ha). rewrite encode_cons, length_app in Hf |- *.
    rewrite (proj2 (Nat.ltb_lt _ _)) by (rewrite !length_app; lia).
    cbv zeta. rewrite nth_app_length0, EncodeRune_head by done.
    cbn [Strings.TrimLeftFunc]. unfold valid_rune in Ha.
    destruct (Z.leb_spec a 127) as [Hle|Hgt]; simpl negb; cbv iota.
    + rewrite (EncodeRune_ascii a Ha Hle). simpl nth.
      destruct (asciiSpace_cases a) as [H0|H1].
      * assert (Hs0 : ascii_space a = false)
          by (unfold ascii_space; rewrite H0; by rewrite andb_false_r).
        rewrite Hs0, H0. simpl.
        rewrite (proj2 (Z.leb_gt RuneSelf a)) by (unfold RuneSelf; lia).
        rewrite encode_cons, EncodeRune_ascii by done. simpl. f_equal. lia.
      * assert (Hs1 : ascii_space a = true)
          by (unfold ascii_space, RuneSelf; rewrite H1; zcase; lia || done).
        rewrite Hs1, H1. simpl.
        replace (pre ++ a :: encode s) with ((pre ++ [a]) ++ encode s) by by rewrite <- app_assoc.
        replace (S (length pre)) with (length (pre ++ [a])) by (rewrite length_app; simpl; lia).
        rewrite IH by lia. pose proof (length_encode_TrimLeftFunc ascii_space s).
        rewrite length_app. simpl.
        destruct (Strings.TrimLeftFunc ascii_space s); [f_equal; lia|].
        destruct (RuneSelf <=? _); [done|]. f_equal. lia.
    + assert (Hs0 : ascii_space a = false)
        by (unfold ascii_space, RuneSelf; rewrite (proj2 (Z.ltb_ge a 128)) by lia;
            by rewrite andb_false_r).
      rewrite Hs0. rewrite (proj2 (Z.leb_le RuneSelf a)) by (unfold RuneSelf; lia).
      by rewrite drop_app_length, encode_cons.
Qed.

Lemma trim_space_right_S (fuel : nat) (s : list Z) (start stop : nat) :
  trim_space_right (S fuel) s start stop =
    if (start <? stop)%nat then
      let c := nth (stop - 1) s 0 in
      if RuneSelf <=? c then Return (TrimRightFunc (take (stop - start) (drop start s)) IsSpace)
      else if asciiSpace c =? 0 then At stop
      else trim_space_right fuel s start (stop - 1)
    else At stop.
Proof. reflexivity. Qed.

Lemma ascii_space_false (a : Z) : 127 < a -> ascii_space a = false.
Proof.
  intros Ha. unfold ascii_space, RuneSelf.
  rewrite (proj2 (Z.ltb_ge a 128)) by lia. by rewrite andb_false_r.
Qed.

Lemma ascii_space_asciiSpace (a : Z) :
  0 <= a <= 127 -> ascii_space a = (asciiSpace a =? 1).
Proof.
  intros Ha. unfold ascii_space, RuneSelf.
  rewrite (proj2 (Z.leb_le 0 a)), (proj2 (Z.ltb_lt a 128)) by lia. done.
Qed.

(** The backward scan steps over the trailing ASCII white space of the
    runes after [start] and stops at the last other rune. *)
Lemma trim_space_right_encode (pre t post : list Z) (fuel : nat) :
  Forall valid_rune t -> (length (encode t) < fuel)%nat ->
  trim_space_right fuel (pre ++ encode t ++ post) (length pre) (length pre + length (encode t)) =
    match Strings.TrimRightFunc ascii_space t with
    | [] => At (length pre)
    | _ :: _ =>
        if RuneSelf <=? List.last (Strings.TrimRightFunc ascii_space t) 0
        then Return (TrimRightFunc (encode (Strings.TrimRightFunc ascii_space t)) IsSpace)
        else At (length pre + length (encode (Strings.TrimRightFunc ascii_space t)))
    end.
Proof.
  revert post fuel. induction t as [|a t IH] using rev_ind; intros post fuel Ht Hf;
    (destruct fuel as [|fuel]; [lia|]); rewrite trim_space_right_S.
  - simpl. rewrite Nat.add_0_r, Nat.ltb_irrefl. done.
  - apply Forall_app in Ht as [Ht Ha]. apply Forall_cons in Ha as [Ha _].
    pose proof (EncodeRune_length a Ha).
    rewrite encode_app, encode_cons, encode_nil, app_nil_r, length_app in Hf.
    rewrite TrimRightFunc_snoc, encode_app, encode_cons, encode_nil, app_nil_r, length_app.
    rewrite (proj2 (Nat.ltb_lt _ _)) by lia. cbv zeta.
    destruct (Z.leb_spec a 127) as [Hle|Hgt].
    + rewrite (EncodeRune_ascii a Ha Hle) in Hf |- *. unfold valid_rune in Ha.
      replace (length pre + (length (encode t) + length [a]) - 1)%nat
        with (length (pre ++ encode t)) by (rewrite length_app; simpl; lia).
      replace (pre ++ (encode t ++ [a]) ++ post) with ((pre ++ encode t) ++ a :: post)
        by by rewrite <- !app_assoc.
      rewrite nth_app_length0. simpl nth.
      rewrite (proj2 (Z.leb_gt RuneSelf a)) by (unfold RuneSelf; lia).
      rewrite ascii_space_asciiSpace by lia.
      destruct (asciiSpace_cases a) as [H0|H1]; rewrite ?H0, ?H1; simpl.
      * rewrite match_snoc, List.last_last.
        rewrite (proj2 (Z.leb_gt RuneSelf a)) by (unfold RuneSelf; lia).
        rewrite encode_app, length_app, encode_cons, encode_nil, app_nil_r.
        rewrite EncodeRune_ascii by (done || lia). try (f_equal; simpl; lia).
      * rewrite <- !app_assoc. replace (length (pre ++ encode t)) with (length pre + length (encode t))%nat
          by (rewrite length_app; lia).
        apply IH; [done | simpl in Hf; lia].
    + destruct (EncodeRune_split a Ha Hgt) as (lead & conts & clast & Henc & Hlead & Hcs & Hlen).
      apply Forall_app in Hcs as [_ Hcl]. apply Forall_cons in Hcl as [Hcl _].
      replace (length pre + (length (encode t) + length (EncodeRune a)) - 1)%nat
        with (length (pre ++ encode t ++ lead :: conts))
        by (rewrite !length_app, Henc; simpl; rewrite length_app; simpl; lia).
      replace (pre ++ (encode t ++ EncodeRune a) ++ post)
        with ((pre ++ encode t ++ lead :: conts) ++ clast :: post)
        by (rewrite Henc; rewrite <- !app_assoc; simpl; by rewrite <- app_assoc).
      rewrite nth_app_length0. simpl nth.
      rewrite (proj2 (Z.leb_le RuneSelf clast)) by (unfold RuneSelf; lia).
      rewrite ascii_space_false by done.
      rewrite match_snoc, List.last_last.
      rewrite (proj2 (Z.leb_le RuneSelf a)) by (unfold RuneSelf; lia).
      rewrite <- app_assoc, drop_app_length. do 2 f_equal.
      transitivity (take (length (encode (t ++ [a]))) (encode (t ++ [a]) ++ post));
        [|apply take_app_length].
      rewrite encode_app, encode_cons, encode_nil, app_nil_r, length_app, Henc.
      f_equal; [rewrite <- Henc; lia | rewrite <- !app_assoc; simpl; by rewrite <- !app_assoc].
Qed.

Lemma TrimRightFunc_last_false (f : Z -> bool) (s : list Z) :
  Strings.TrimRightFunc f s <> [] -> f (List.last (Strings.TrimRightFunc f s) 0) = false.
Proof.
  induction s as [|r s IH] using rev_ind; [done|].
  rewrite TrimRightFunc_snoc. destruct (f r) eqn:Hr; [done|].
  intros _. by rewrite List.last_last.
Qed.

Lemma TrimRightFunc_keep (f : Z -> bool) (t : list Z) :
  t <> [] -> f (List.last t 0) = false -> Strings.TrimRightFunc f t = t.
Proof.
  intros Ht. destruct (exists_last Ht) as (t0 & x & ->).
  rewrite List.last_last, TrimRightFunc_snoc. intros ->. done.
Qed.

Lemma Forall_TrimRightFunc (P : Z -> Prop) (f : Z -> bool) (t : list Z) :
  Forall P t -> Forall P (Strings.TrimRightFunc f t).
Proof.
  intros Ht. destruct (TrimRightFunc_split f t) as [Q HQ].
  rewrite HQ in Ht. by apply Forall_app in Ht as [? _].
Qed.

Lemma Forall_TrimLeftFunc (P : Z -> Prop) (f : Z -> bool) (t : list Z) :
  Forall P t -> Forall P (Strings.TrimLeftFunc f t).
Proof.
  intros Ht. destruct (TrimLeftFunc_split f t) as [Q HQ].
  rewrite HQ in Ht. by apply Forall_app in Ht as [_ ?].
Qed.

(** The backward scan and the slice that ends [TrimSpace], from the offset
    the forward scan stopped at: the encoding of the rune-level right
    trim. *)
Lemma TrimSpace_right_part (P t : list Z) :
  Forall valid_rune t ->
  match trim_space_right (S (length (encode P ++ encode t))) (encode P ++ encode t)
          (length (encode P)) (length (encode P ++ encode t)) with
  | Return u => u
  | At stop => take (stop - length (encode P)) (drop (length (encode P)) (encode P ++ encode t))
  end = encode (Strings.TrimRightFunc IsSpace t).
Proof.
  intros Ht. rewrite length_app.
  pose proof (trim_space_right_encode (encode P) t [] (S (length (encode P) + length (encode t))) Ht)
    as Hr.
  rewrite app_nil_r in Hr. rewrite Hr by lia. clear Hr.
  rewrite drop_app_length.
  rewrite <- (TrimRightFunc_sub ascii_space IsSpace t ascii_space_IsSpace).
  destruct (TrimRightFunc_split ascii_space t) as [Q HQ].
  pose proof (TrimRightFunc_last_false ascii_space t) as Hlast.
  pose proof (Forall_TrimRightFunc _ ascii_space t Ht) as HT.
  destruct (Strings.TrimRightFunc ascii_space t) as [|z l] eqn:ET.
  { rewrite Nat.sub_diag. done. }
  specialize (Hlast ltac:(done)).
  destruct (RuneSelf <=? List.last (z :: l) 0) eqn:Hx.
  - by rewrite TrimRightFunc_encode.
  - rewrite TrimRightFunc_keep; [|done|].
    + replace (length (encode P) + length (encode (z :: l)) - length (encode P))%nat
        with (length (encode (z :: l))) by lia.
      rewrite HQ, encode_app. apply take_app_length.
    + assert (Hv : valid_rune (List.last (z :: l) 0))
        by (rewrite Forall_forall in HT; by apply HT, last_elem).
      unfold valid_rune in Hv. apply Z.leb_gt in Hx. unfold RuneSelf in Hx.
      rewrite ascii_space_asciiSpace in Hlast by lia.
      by rewrite IsSpace_ascii by lia.
Qed.

Lemma TrimLeftFunc_head_false (f : Z -> bool) (s t : list Z) (r : Z) :
  Strings.TrimLeftFunc f s = r :: t -> f r = false.
Proof.
  induction s as [|a s IH]; simpl; [done|].
  destruct (f a) eqn:Ha; [done|]. by intros [= <- _].
Qed.

(** An ASCII rune that the scans do not step over is not white space. *)
Lemma ascii_not_space (r : Z) :
  valid_rune r -> (RuneSelf <=? r) = false -> ascii_space r = false -> IsSpace r = false.
Proof.
  unfold valid_rune, RuneSelf. intros Hv Hr%Z.leb_gt Hs.
  rewrite ascii_space_asciiSpace in Hs by lia. by rewrite IsSpace_ascii by lia.
Qed.

(** ** [strings.Map] *)

Lemma RuneLen_valid (r : Z) : valid_rune r -> RuneLen r = Z.of_nat (length (EncodeRune r)).
Proof.
  intros Hv. rewrite (EncodeRune_valid r Hv). unfold valid_rune, MaxRune, surrogateMin,
    surrogateMax in Hv. unfold RuneLen, MaxRune, surrogateMin, surrogateMax. zcase; lia.
Qed.

Lemma byte_ascii (r : Z) : 0 <= r < 128 -> [byte r] = EncodeRune r.
Proof.
  intros Hr. rewrite byte_mod, Z.mod_small by lia. symmetry. apply EncodeRune_ascii; [|lia].
  unfold valid_rune, MaxRune, surrogateMin, surrogateMax. lia.
Qed.

Lemma encode_single (r : Z) : encode [r] = EncodeRune r.
Proof. by rewrite encode_cons, encode_nil, app_nil_r. Qed.

Lemma RuneError_valid : valid_rune RuneError.
Proof. unfold valid_rune, RuneError, MaxRune, surrogateMin, surrogateMax. lia. Qed.

Section Map.
Variable mapping : Z -> Z.
(** The mapping sends valid runes to valid runes, as [unicode.ToLower]
    does. *)
Hypothesis mapping_valid : forall r, valid_rune r -> valid_rune (mapping r).

Lemma map_rest_cons (fuel : nat) (p b : list Z) :
  p <> [] ->
  map_rest (S fuel) mapping p b =
    let '(c, w) := range_step p in
    let r := mapping c in
    let b := if 0 <=? r then (if r <? RuneSelf then b ++ [byte r] else b ++ EncodeRune r) else b in
    map_rest fuel mapping (drop w p) b.
Proof. by destruct p. Qed.

Lemma map_first_cons (fuel : nat) (s : list Z) (i : nat) (p : list Z) :
  p <> [] ->
  map_first (S fuel) mapping s i p =
    let '(c, w) := range_step p in
    let r := mapping c in
    if (r =? c) && negb (c =? RuneError) then map_first fuel mapping s (i + w) (drop w p)
    else
      let '(c, width, skip) :=
        if c =? RuneError then
          let '(c', width) := DecodeRune p in (c', width, negb (width =? 1)%nat && (r =? c'))
        else (c, Z.to_nat (RuneLen c), false) in
      if skip then map_first fuel mapping s (i + w) (drop w p)
      else Some (take i s ++ (if 0 <=? r then EncodeRune r else []), drop (i + width) s).
Proof. by destruct p. Qed.

(** The second loop writes the encodings of the mapped runes. *)
Lemma map_rest_encode (s b : list Z) (fuel : nat) :
  Forall valid_rune s -> (length (encode s) <= fuel)%nat ->
  map_rest fuel mapping (encode s) b = b ++ encode (map mapping s).
Proof.
  intros Hs. revert b fuel. induction Hs as [|c s Hc Hs IH]; intros b fuel Hf.
  - destruct fuel; by rewrite app_nil_r.
  - pose proof (EncodeRune_length c Hc). rewrite encode_cons, length_app in Hf.
    destruct fuel as [|fuel]; [lia|].
    rewrite encode_cons, map_rest_cons by by apply EncodeRune_app_nonempty.
    rewrite range_step_EncodeRune, drop_app_length by done. cbv zeta.
    pose proof (mapping_valid c Hc) as Hr. unfold valid_rune in Hr.
    rewrite (proj2 (Z.leb_le 0 (mapping c))) by lia.
    rewrite IH by lia. cbn [map]. rewrite encode_cons, !app_assoc.
    destruct (Z.ltb_spec (mapping c) RuneSelf); [|done].
    rewrite byte_ascii by (unfold RuneSelf in *; lia). done.
Qed.

(** A rune the mapping keeps is skipped, [RuneError] included: its width
    is three, not the one of an invalid byte. *)
Lemma map_first_keep (fuel : nat) (src : list Z) (i : nat) (a : Z) (t : list Z) :
  valid_rune a -> mapping a = a ->
  map_first (S fuel) mapping src i (EncodeRune a ++ t) =
    map_first fuel mapping src (i + length (EncodeRune a)) t.
Proof.
  intros Ha Hm. rewrite map_first_cons by by apply EncodeRune_app_nonempty.
  rewrite range_step_EncodeRune, drop_app_length by done. cbv zeta.
  rewrite Hm, Z.eqb_refl. destruct (Z.eqb_spec a RuneError) as [->|]; [|done].
  cbn [negb andb].
  rewrite DecodeRune_EncodeRune by apply RuneError_valid. cbn [negb andb].
  rewrite Z.eqb_refl. replace (length (EncodeRune RuneError)) with 3%nat by reflexivity. done.
Qed.

(** A string whose runes the mapping all keeps ends the first loop without
    output. *)
Lemma map_first_same (src : list Z) (s : list Z) (i fuel : nat) :
  Forall valid_rune s -> Forall (fun c => mapping c = c) s ->
  map_first fuel mapping src i (encode s) = None.
Proof.
  intros Hs. revert i fuel. induction Hs as [|a s Ha Hs IH]; intros i fuel Hsame;
    (destruct fuel as [|fuel]; [by destruct (encode _)|]); [done|].
  apply Forall_cons in Hsame as [Hm Hsame].
  rewrite encode_cons, map_first_keep by done. by apply IH.
Qed.

(** At the first rune it changes, the first loop has written the runes
    before it and the mapped rune, and leaves the runes after it. *)
Lemma map_first_change (P pre rest : list Z) (c : Z) (fuel : nat) :
  Forall valid_rune (pre ++ c :: rest) -> Forall (fun a => mapping a = a) pre ->
  mapping c <> c -> (length (encode (pre ++ c :: rest)) <= fuel)%nat ->
  map_first fuel mapping (encode P ++ encode (pre ++ c :: rest)) (length (encode P))
    (encode (pre ++ c :: rest)) =
  Some (encode P ++ encode pre ++ EncodeRune (mapping c), encode rest).
Proof.
  revert P fuel. induction pre as [|a pre IH]; intros P fuel Hv Hsame Hc Hf; simpl in *.
  - apply Forall_cons in Hv as [Hcv Hrest].
    pose proof (EncodeRune_length c Hcv). rewrite encode_cons, length_app in Hf.
    destruct fuel as [|fuel]; [lia|].
    rewrite encode_cons, map_first_cons by by apply EncodeRune_app_nonempty.
    rewrite range_step_EncodeRune, drop_app_length by done. cbv zeta.
    rewrite (proj2 (Z.eqb_neq _ _) Hc). simpl.
    pose proof (mapping_valid c Hcv) as Hm. unfold valid_rune in Hm.
    rewrite (proj2 (Z.leb_le 0 (mapping c))) by lia.
    assert (Hw : forall w, w = length (EncodeRune c) ->
      Some (take (length (encode P)) (encode P ++ EncodeRune c ++ encode rest)
              ++ EncodeRune (mapping c),
            drop (length (encode P) + w) (encode P ++ EncodeRune c ++ encode rest)) =
      Some (encode P ++ EncodeRune (mapping c), encode rest)).
    { intros w ->. rewrite take_app_length, app_assoc, drop_app_length'; [done|].
      by rewrite length_app. }
    destruct (Z.eqb_spec c RuneError) as [->|Hne]; cbn [negb andb].
    + rewrite DecodeRune_EncodeRune by apply RuneError_valid. cbn [negb andb].
      rewrite (proj2 (Z.eqb_neq _ _) Hc). by apply Hw.
    + apply Hw. rewrite RuneLen_valid by done. lia.
  - apply Forall_cons in Hv as [Hav Hv]. apply Forall_cons in Hsame as [Ham Hsame].
    pose proof (EncodeRune_length a Hav). rewrite encode_cons, length_app in Hf.
    destruct fuel as [|fuel]; [lia|].
    rewrite encode_cons, map_first_keep by done.
    replace (encode P ++ EncodeRune a ++ encode (pre ++ c :: rest))
      with (encode (P ++ [a]) ++ encode (pre ++ c :: rest))
      by (by rewrite encode_app, encode_single, <- app_assoc).
    replace (length (encode P) + length (EncodeRune a))%nat with (length (encode (P ++ [a])))
      by (by rewrite encode_app, encode_single, length_app).
    rewrite IH by (done || lia). by rewrite encode_app, encode_single, encode_cons, <- !app_assoc.
Qed.

Lemma first_change (s : list Z) :
  Forall (fun c => mapping c = c) s \/
  exists pre c rest, s = pre ++ c :: rest /\ Forall (fun a => mapping a = a) pre /\ mapping c <> c.
Proof.
  induction s as [|a s [IH|(pre & c & rest & -> & Hpre & Hc)]]; [by left|..].
  - destruct (decide (mapping a = a)); [left; by constructor|].
    right. exists [], a, s. split; [done|]. split; [constructor | done].
  - destruct (decide (mapping a = a)).
    + right. exists (a :: pre), c, rest. split; [done|]. split; [by constructor | done].
    + right. exists [], a, (pre ++ c :: rest). split; [done|]. split; [constructor | done].
Qed.

(** [strings.Map] on valid UTF-8 is the encoding of the rune map. *)
Lemma Map_encode (s : list Z) :
  Forall valid_rune s -> Map mapping (encode s) = encode (map mapping s).
Proof.
  intros Hs. unfold Map. destruct (first_change s) as [Hsame|(pre & c & rest & -> & Hpre & Hc)].
  - rewrite map_first_same by done. by rewrite Forall_map_id.
  - pose proof (map_first_change [] pre rest c (length (encode (pre ++ c :: rest))) Hs Hpre Hc)
      as Hm. simpl in Hm. rewrite Hm by lia.
    apply Forall_app in Hs as [_ Hs]. apply Forall_cons in Hs as [_ Hrest].
    rewrite map_rest_encode by (done || lia).
    rewrite map_app, encode_app. cbn [map]. rewrite encode_cons, !app_assoc.
    by rewrite (Forall_map_id _ pre Hpre).
Qed.

End Map.

(** ** [strings.ToLower] *)

Lemma ascii_scan_fst (p : list Z) (h : bool) :
  (ascii_scan p h).1 = forallb (fun c => c <? RuneSelf) p.
Proof.
  revert h. induction p as [|c p IH]; intros h; [done|]. simpl.
  destruct (Z.leb_spec RuneSelf c), (Z.ltb_spec c RuneSelf); simpl; try lia; auto.
Qed.

Lemma ascii_scan_snd (p : list Z) (h : bool) :
  forallb (fun c => c <? RuneSelf) p = true -> (ascii_scan p h).2 = h || existsb is_upper p.
Proof.
  revert h. induction p as [|c p IH]; intros h; simpl; [by rewrite orb_false_r|].
  intros [Hc%Z.ltb_lt Hp]%andb_true_iff.
  destruct (Z.leb_spec RuneSelf c); [lia|]. rewrite IH by done. unfold is_upper.
  by rewrite orb_assoc.
Qed.

Lemma encode_ascii (s : list Z) : Forall (fun r => 0 <= r <= 127) s -> encode s = s.
Proof.
  induction 1 as [|r s Hr _ IH]; [done|]. rewrite encode_cons, IH, EncodeRune_ascii; [done| |lia].
  unfold valid_rune, MaxRune, surrogateMin, surrogateMax. lia.
Qed.

(** The bytes of valid runes are all ASCII exactly when the runes are. *)
Lemma forallb_ascii_encode (s : list Z) :
  Forall valid_rune s ->
  forallb (fun c => c <? RuneSelf) (encode s) = true -> Forall (fun r => 0 <= r <= 127) s.
Proof.
  induction 1 as [|r s Hr Hs IH]; [done|]. rewrite encode_cons, forallb_app.
  intros [Hb Hrest]%andb_true_iff. rewrite forallb_forall in Hb. constructor; [|by apply IH].
  destruct (Z.leb_spec r 127); [unfold valid_rune in Hr; lia|].
  destruct (EncodeRune_split r Hr ltac:(lia)) as (lead & conts & clast & Henc & Hlead & _).
  specialize (Hb lead). rewrite Henc in Hb. unfold RuneSelf in Hb.
  assert (Hl : (lead <? 128) = true) by (apply Hb; simpl; auto). apply Z.ltb_lt in Hl. lia.
Qed.

Lemma take_S_drop (s : list Z) (i pos : nat) (c : Z) (p : list Z) :
  drop i s = c :: p -> (pos <= i)%nat ->
  take (S i - pos) (drop pos s) = take (i - pos) (drop pos s) ++ [c].
Proof.
  intros Hd Hpos. replace (S i - pos)%nat with (S (i - pos)) by lia.
  apply take_S_r. rewrite lookup_drop. replace (pos + (i - pos))%nat with i by lia.
  by rewrite <- (Nat.add_0_r i), <- lookup_drop, Hd.
Qed.

Lemma take_S_of_drop (s : list Z) (i : nat) (c : Z) (p : list Z) :
  drop i s = c :: p -> take (S i) s = take i s ++ [c].
Proof.
  intros Hd. apply take_S_r. by rewrite <- (Nat.add_0_r i), <- lookup_drop, Hd.
Qed.

Section ToLower.
Context `{CT : CaseTable}.

Lemma ToLower_ascii (c : Z) : c <= 127 -> Unicode.ToLower c = if is_upper c then c + 32 else c.
Proof. intros Hc. unfold Unicode.ToLower, MaxASCII, is_upper. by destruct (Z.leb_spec c 127); [|lia]. Qed.

(** The ASCII loop: [b] followed by the unread part [s[pos:]] is the
    lower-cased string. *)
Lemma lower_ascii_spec (s : list Z) (i : nat) (p : list Z) (pos : nat) (b : list Z) :
  Forall (fun r => 0 <= r <= 127) s -> drop i s = p -> (pos <= i <= length s)%nat ->
  b ++ take (i - pos) (drop pos s) = map Unicode.ToLower (take i s) ->
  let '(b', pos') := lower_ascii s i p pos b in
  (pos' <= length s)%nat /\ b' ++ drop pos' s = map Unicode.ToLower s.
Proof.
  intros Hs. revert i pos b. induction p as [|c p IH]; intros i pos b Hd Hi Hb; simpl.
  - assert (i = length s) by (apply (f_equal length) in Hd; rewrite length_drop in Hd; simpl in Hd; lia).
    subst i. rewrite firstn_all in Hb. split; [lia|]. rewrite <- Hb. f_equal.
    rewrite take_ge; [done|]. rewrite length_drop. lia.
  - assert (Hlt : (i < length s)%nat)
      by (apply (f_equal length) in Hd; rewrite length_drop in Hd; simpl in Hd; lia).
    assert (Hc : 0 <= c <= 127).
    { rewrite Forall_forall in Hs. apply Hs, (subseteq_drop i). rewrite Hd. by left. }
    assert (Hd' : drop (S i) s = p)
      by (replace (S i) with (i + 1)%nat by lia; by rewrite <- drop_drop, Hd).
    assert (Hmap : map Unicode.ToLower (take (S i) s) =
                   map Unicode.ToLower (take i s) ++ [Unicode.ToLower c])
      by (by rewrite (take_S_of_drop s i c p Hd), map_app).
    rewrite ToLower_ascii in Hmap by lia. fold (is_upper c).
    destruct (is_upper c) eqn:Hu.
    + apply IH; [done | lia|]. rewrite Nat.sub_diag. simpl. rewrite app_nil_r, Hmap, <- Hb.
      destruct (Nat.ltb_spec pos i); [done|].
      replace (i - pos)%nat with 0%nat by lia. simpl. by rewrite app_nil_r.
    + apply IH; [done | lia|]. rewrite (take_S_drop s i pos c p Hd) by lia.
      by rewrite app_assoc, Hb, Hmap.
Qed.

Lemma ToLower_ascii_range (s : list Z) :
  Forall (fun r => 0 <= r <= 127) s -> Forall (fun r => 0 <= r <= 127) (map Unicode.ToLower s).
Proof.
  intros Hs. apply Forall_map. eapply Forall_impl; [exact Hs|]. intros c Hc. simpl in Hc.
  rewrite ToLower_ascii by lia. unfold is_upper. zcase; lia.
Qed.

Lemma ToLower_no_upper (s : list Z) :
  Forall (fun r => 0 <= r <= 127) s -> existsb is_upper s = false -> map Unicode.ToLower s = s.
Proof.
  intros Hs Hu. apply Forall_map_id. rewrite existsb_false_iff in Hu.
  rewrite Forall_forall in Hs |- *. intros c Hc.
  specialize (Hs c Hc). simpl in Hs. rewrite ToLower_ascii by lia. by rewrite Hu.
Qed.

End ToLower.

(** ** The two routines of line 93 on bytes *)

(** [strings.ToLower] as Go runs it on bytes (the scan for non-ASCII and
    upper-case bytes, the ASCII loop that copies slices and lower-cases
    upper-case bytes, and [strings.Map(unicode.ToLower, s)] otherwise)
    returns the UTF-8 encoding of the rune-level [ToLower], for any case
    table that maps valid runes to valid runes. *)
Lemma ToLower_encode `{CT : CaseTable} (s : list Z) :
  (forall r, valid_rune r -> valid_rune (Unicode.ToLower r)) ->
  Forall valid_rune s -> ToLower (encode s) = encode (Strings.ToLower s).
Proof.
  intros Hvalid Hs. unfold ToLower, Strings.ToLower.
  pose proof (ascii_scan_fst (encode s) false) as Hf.
  destruct (ascii_scan (encode s) false) as [[|] hasUpper] eqn:Hscan; simpl in Hf.
  - pose proof (forallb_ascii_encode s Hs (eq_sym Hf)) as Hasc.
    pose proof (ascii_scan_snd (encode s) false (eq_sym Hf)) as Hu.
    rewrite Hscan in Hu. simpl in Hu. rewrite encode_ascii in Hu |- * by done.
    rewrite (encode_ascii (map _ s)) by (by apply ToLower_ascii_range). subst hasUpper.
    destruct (existsb is_upper s) eqn:Hup; simpl; [|by rewrite ToLower_no_upper].
    pose proof (lower_ascii_spec s 0 s 0 [] Hasc eq_refl ltac:(lia) eq_refl) as Hl.
    destruct (lower_ascii s 0 s 0 []) as [b pos]. destruct Hl as [Hpos Hb].
    destruct (Nat.ltb_spec pos (length s)); [done|].
    rewrite drop_ge, app_nil_r in Hb by lia. done.
  - by apply Map_encode.
Qed.


(** [strings.TrimSpace] as Go runs it on bytes, its ASCII fast path and
    its [TrimFunc]/[TrimRightFunc] fallbacks included, returns the UTF-8
    encoding of the rune-level [TrimSpace]. *)
Lemma TrimSpace_encode (s : list Z) :
  Forall valid_rune s -> TrimSpace (encode s) = encode (Strings.TrimSpace s).
Proof.
  intros Hs. unfold TrimSpace.
  pose proof (trim_space_left_encode [] s (S (length (encode s))) Hs ltac:(lia)) as HL.
  cbn [app length] in HL. rewrite HL. clear HL.
  destruct (TrimLeftFunc_split ascii_space s) as [P HP].
  unfold Strings.TrimSpace, Strings.TrimFunc.
  rewrite <- (TrimLeftFunc_sub ascii_space IsSpace s ascii_space_IsSpace).
  pose proof (Forall_TrimLeftFunc _ ascii_space s Hs) as Hv.
  pose proof (TrimLeftFunc_head_false ascii_space s) as Hhead.
  destruct (Strings.TrimLeftFunc ascii_space s) as [|r t] eqn:EL.
  - by rewrite Nat.add_0_l, trim_space_right_S, Nat.ltb_irrefl, Nat.sub_diag.
  - destruct (RuneSelf <=? r) eqn:Hr; [by rewrite TrimFunc_encode|].
    apply Forall_cons in Hv as [Hr' Ht].
    cbn [Strings.TrimLeftFunc]. rewrite (ascii_not_space r Hr' Hr (Hhead _ _ eq_refl)).
    rewrite HP, encode_app, length_app, Nat.add_0_l.
    replace (length (encode P) + length (encode (r :: t)) - length (encode (r :: t)))%nat
      with (length (encode P)) by lia.
    rewrite <- length_app. apply TrimSpace_right_part. by constructor.
Qed.

(** The excerpt of the case table maps valid runes to valid runes. *)
Lemma latin1_ToLower_valid (r : Z) :
  valid_rune r -> valid_rune (Unicode.ToLower (H := latin1_case) r).
Proof.
  intros Hv. destruct (latin1_ToLower_table r) as [-> | Hin]; [done|].
  assert (F : Forall (fun r => valid_rune (Unicode.ToLower (H := latin1_case) r)) (case_runes CaseRanges)).
  { unfold valid_rune, MaxRune, surrogateMin, surrogateMax.
    apply (bool_decide_unpack _). vm_compute. reflexivity. }
  by apply (proj1 (Forall_forall _ _) F).
Qed.

(** ** Theorems *)

(** C15. Line 93 on bytes: [strings.ToLower(strings.TrimSpace(domain))] as
    Go runs it on the bytes of a valid UTF-8 string (both ASCII fast paths,
    the [TrimFunc] fallback and [strings.Map]) is the UTF-8 encoding of the
    rune-level [ToLower (TrimSpace s)] the other files reason about. *)
Theorem normalize_bytes `{CT : CaseTable} (s : list Z) :
  (forall r, valid_rune r -> valid_rune (Unicode.ToLower r)) ->
  Forall valid_rune s ->
  ToLower (TrimSpace (encode s)) = encode (Strings.ToLower (Strings.TrimSpace s)).
Proof.
  intros Hvalid Hs. rewrite TrimSpace_encode by done. apply ToLower_encode; [done|].
  rewrite Forall_forall in Hs |- *. intros r Hr. by apply Hs, (StringsFacts.TrimFunc_subseteq IsSpace).
Qed.

(** ** Examples *)

(** A no-break space and a tab around ["CafÉ"]: the fast path meets
    the non-ASCII byte and falls back to [TrimFunc], which trims U+00A0;
    the upper-case [C] and [É] go through [strings.Map]. *)
Definition sample_name : list Z := [32; 160] ++ gs "Caf" ++ [201; 9].

Example normalize_sample :
  ToLower (H := latin1_case) (TrimSpace (encode sample_name)) = gs "caf" ++ [195; 169].
Proof. vm_compute. reflexivity. Qed.

(** Pure ASCII takes the two fast paths: the scans and the copying loop. *)
Example normalize_ascii :
  ToLower (H := latin1_case) (TrimSpace (gs " WWW.Example.COM" ++ [10])) = gs "www.example.com".
Proof. vm_compute. reflexivity. Qed.

Lemma normalize_bytes_witness :
  (forall r, valid_rune r -> valid_rune (Unicode.ToLower (H := latin1_case) r)) /\
  Forall valid_rune sample_name /\
  ToLower (H := latin1_case) (TrimSpace (encode sample_name)) =
    encode (Strings.ToLower (H := latin1_case) (Strings.TrimSpace sample_name)).
Proof.
  assert (Hs : Forall valid_rune sample_name) by solve_valid_runes.
  split; [exact latin1_ToLower_valid|]. split; [exact Hs|].
  apply (normalize_bytes (CT := latin1_case)); [exact latin1_ToLower_valid | exact Hs].
Defined.

End ByteStrings.
