(* ===== verification/Extract.v ===== *)
(** * Extract: the name extractor of [crtRecon.go]

    The [Certificate] struct (crtRecon.go:13-16), [addDomainsToSet]
    (lines 92-97) and the loop of [main] that feeds it (lines 61-74).  Go's
    [map[string]struct{}] used as a set is a [gset gostring]; the pointer
    the function receives is modelled by returning the updated set.  The
    theorems give the set the loop builds (a refinement of the spec's
    [extract] contract), the output guarantee as an invariant, and the
    order independence and case/whitespace collapsing the spec lists. *)

From Stdlib Require Import ZArith.
From S2P Require Import Prelude GoStrings.

Module Extract.
Import Unicode Strings StringsFacts.

(** [type Certificate struct { CommonName; NameValue }]; the JSON tags
    [common_name] and [name_value] are used by the decoder. *)
Record Certificate := {
  CommonName : gostring;
  NameValue : gostring;
}.

(** The spec's two query modes; the code tells them apart by
    [*domainArg != ""] (line 66). *)
Inductive QueryMode := DomainQuery | OrgQuery.

Definition mode_of (domainArg : gostring) : QueryMode :=
  if bool_decide (domainArg <> []) then DomainQuery else OrgQuery.

Section with_case.
Context `{CaseTable}.

(** The condition of line 94:
    [domain != "" && !strings.ContainsAny(domain, " &") &&
     strings.Contains(domain, ".")]. *)
Definition accept (domain : gostring) : bool :=
  bool_decide (domain <> []) && negb (ContainsAny domain (gs " &"))
  && Contains domain (gs ".").

(** [func addDomainsToSet(set *map[string]struct{}, domain string)]:
    line 93 normalises, lines 94-96 insert when the filter accepts. *)
Definition addDomainsToSet (set : gset gostring) (domain : gostring) : gset gostring :=
  let domain := Strings.ToLower (TrimSpace domain) in
  if accept domain then {[ domain ]} ∪ set else set.

(** One iteration of the loop of lines 64-74: a domain query adds each
    line of [NameValue], an organization query adds [CommonName]. *)
Definition add_certificate (domainArg : gostring) (set : gset gostring)
    (cert : Certificate) : gset gostring :=
  if bool_decide (domainArg <> []) then
    fold_left addDomainsToSet (Split (NameValue cert) [rNL]) set
  else addDomainsToSet set (CommonName cert).

(** Lines 62-74: [domainSet := make(map[string]struct{})] and the loop
    over the decoded certificates. *)
Definition collect (domainArg : gostring) (certificates : list Certificate)
    : gset gostring :=
  fold_left (add_certificate domainArg) certificates ∅.

(** ** Abstract specification *)

(** The normalisation step of the spec (trim, then lower-case). *)
Definition normalize (s : gostring) : gostring := Strings.ToLower (TrimSpace s).

(** The raw tokens the spec's [extract(records, mode)] feeds to the
    normalisation step. *)
Definition raw_tokens (mode : QueryMode) (certificates : list Certificate)
    : list gostring :=
  match mode with
  | DomainQuery => concat (map (fun c => Split (NameValue c) [rNL]) certificates)
  | OrgQuery => map CommonName certificates
  end.

(** What the spec promises of every member of the candidate set. *)
Definition valid_name (x : gostring) : Prop :=
  x <> [] /\ ContainsAny x [rSP; rAMP] = false /\ Contains x [rDOT] = true /\
  TrimSpace x = x /\ Strings.ToLower x = x.

End with_case.

(** ** The set the loop builds *)
Section facts.
Context `{CaseTable}.

Lemma addDomainsToSet_union (set : gset gostring) (t : gostring) :
  addDomainsToSet set t = addDomainsToSet ∅ t ∪ set.
Proof. unfold addDomainsToSet. destruct (accept _); set_solver. Qed.

Lemma elem_of_addDomainsToSet (set : gset gostring) (t x : gostring) :
  x ∈ addDomainsToSet set t <-> x ∈ set \/ (x = normalize t /\ accept x = true).
Proof.
  unfold addDomainsToSet, normalize.
  destruct (accept _) eqn:E; rewrite ?elem_of_union, ?elem_of_singleton.
  - split; [intros [->|?]|intros [?|[-> ?]]]; auto.
  - split; [auto|intros [?|[-> ?]]]; [done|congruence].
Qed.

Lemma add_certificate_union (domainArg : gostring) (set : gset gostring)
    (c : Certificate) :
  add_certificate domainArg set c = add_certificate domainArg ∅ c ∪ set.
Proof.
  unfold add_certificate. case_bool_decide.
  - rewrite <- (app_nil_l (Split _ _)) at 1.
    rewrite (fold_left_union_app _ _ addDomainsToSet_union). set_solver.
  - apply addDomainsToSet_union.
Qed.

Lemma elem_of_add_certificate (domainArg : gostring) (c : Certificate) (x : gostring) :
  x ∈ add_certificate domainArg ∅ c <->
  exists t, t ∈ raw_tokens (mode_of domainArg) [c] /\ x = normalize t /\ accept x = true.
Proof.
  unfold add_certificate, mode_of, raw_tokens. case_bool_decide.
  - rewrite (fold_left_union_elem _ _ addDomainsToSet_union).
    simpl. rewrite app_nil_r. setoid_rewrite elem_of_addDomainsToSet. set_solver.
  - rewrite elem_of_addDomainsToSet. simpl. setoid_rewrite list_elem_of_singleton.
    set_solver.
Qed.

Lemma raw_tokens_nil (mode : QueryMode) : raw_tokens mode [] = [].
Proof. by destruct mode. Qed.

Lemma raw_tokens_cons (mode : QueryMode) (c : Certificate) (cs : list Certificate) :
  raw_tokens mode (c :: cs) = raw_tokens mode [c] ++ raw_tokens mode cs.
Proof. destruct mode; simpl; [by rewrite app_nil_r | done]. Qed.

Lemma elem_of_raw_tokens (mode : QueryMode) (certificates : list Certificate)
    (t : gostring) :
  t ∈ raw_tokens mode certificates <->
  exists c, c ∈ certificates /\ t ∈ raw_tokens mode [c].
Proof.
  induction certificates as [|c cs IH].
  - rewrite raw_tokens_nil. set_solver.
  - rewrite raw_tokens_cons, elem_of_app, IH. set_solver.
Qed.

Lemma lower_lower `{!CaseTableLaws} (s : gostring) :
  Strings.ToLower (Strings.ToLower s) = Strings.ToLower s.
Proof.
  unfold Strings.ToLower. rewrite map_map. apply map_ext, ToLower_idem.
Qed.

Lemma trim_lower `{!CaseTableLaws} (s : gostring) :
  TrimSpace (Strings.ToLower s) = Strings.ToLower (TrimSpace s).
Proof. apply TrimFunc_map, IsSpace_ToLower. Qed.

(** An accepted, normalised token meets the output guarantee. *)
Lemma accept_normalize_valid `{!CaseTableLaws} (t : gostring) :
  accept (normalize t) = true -> valid_name (normalize t).
Proof.
  unfold accept, valid_name, normalize. intros Hacc. bool_to_prop.
  repeat split; try done.
  - by rewrite trim_lower, TrimSpace_idem.
  - apply lower_lower.
Qed.

End facts.

#[export] Hint Rewrite @raw_tokens_nil @raw_tokens_cons : gostr_rw.
#[export] Hint Rewrite @trim_lower @lower_lower using typeclasses eauto : gostr_rw.

(** ** Theorems *)
Section theorems.
Context `{CaseTable}.

(** C1. Refinement of the spec's [extract] contract: a string is in the
    set the loop of lines 61-74 builds exactly when it is the
    normalisation (trim, then lower-case) of a raw token of the query's
    mode (a line of some [NameValue] for a domain query, some
    [CommonName] for an organization query) and passes the filter of
    line 94. *)
Theorem collect_spec (domainArg : gostring) (certificates : list Certificate)
    (x : gostring) :
  x ∈ collect domainArg certificates <->
  exists t, t ∈ raw_tokens (mode_of domainArg) certificates /\
            x = normalize t /\ accept x = true.
Proof.
  unfold collect.
  rewrite (fold_left_union_elem _ _ (add_certificate_union domainArg)).
  setoid_rewrite elem_of_add_certificate.
  setoid_rewrite elem_of_raw_tokens. set_solver.
Qed.

(** C2. The output guarantee of the spec, as an invariant: with a case
    table that is idempotent and keeps white space, every member of the
    set is non-empty, holds neither [' '] nor ['&'], holds a ['.'], and
    is its own [TrimSpace] and its own [ToLower]. *)
Theorem collect_valid `{!CaseTableLaws} (domainArg : gostring)
    (certificates : list Certificate) :
  set_Forall valid_name (collect domainArg certificates).
Proof.
  intros x (t & _ & -> & Hacc)%collect_spec.
  by apply accept_normalize_valid.
Qed.

(** Normalisation is idempotent: trimming and lower-casing a token
    that is already trimmed and lower-cased gives it back. *)
Theorem normalize_idem `{!CaseTableLaws} (t : gostring) :
  normalize (normalize t) = normalize t.
Proof.
  unfold normalize. by autorewrite with gostr_rw.
Qed.

(** Tokens that differ only in case or in surrounding white space
    collapse: once one is added, adding the other leaves the set as it
    is. *)
Theorem addDomainsToSet_collapse (set : gset gostring) (t1 t2 : gostring) :
  normalize t1 = normalize t2 ->
  addDomainsToSet (addDomainsToSet set t1) t2 = addDomainsToSet set t1.
Proof.
  unfold addDomainsToSet. fold (normalize t1) (normalize t2). intros <-.
  destruct (accept (normalize t1)); set_solver.
Qed.

(** C27. The set does not depend on the order of the certificates in
    the response, only on which certificates it holds. *)
Theorem collect_perm (domainArg : gostring) (c1 c2 : list Certificate) :
  c1 ≡ₚ c2 -> collect domainArg c1 = collect domainArg c2.
Proof.
  intros Hp. unfold collect.
  by apply (fold_left_union_perm _ _ (add_certificate_union domainArg)).
Qed.

End theorems.

(** ** Worked examples, with the [latin1_case] excerpt of the case table *)

Open Scope go_scope.

(** A certificate whose [NameValue] lists two names, one upper-case. *)
Definition cert_sub_example : Certificate :=
  {| CommonName := gs "Example Inc";
     NameValue := gs "sub.example.com" +nl+ gs "EXAMPLE.COM" |}.

Definition cert_free_text : Certificate :=
  {| CommonName := gs "Example Corp & Co"; NameValue := gs "example.net" |}.

(** Spec scenario 1: a domain query over a certificate listing
    ["sub.example.com\nEXAMPLE.COM"] yields exactly the two lower-case
    names. *)
Example collect_scenario_domain :
  collect (gs "example.com") [cert_sub_example] =
    {[ gs "sub.example.com"; gs "example.com" ]}.
Proof. vm_compute. reflexivity. Qed.

(** Spec scenario 2: an organization query whose common name is the
    free text ["Example Corp & Co"] yields the empty set. *)
Example collect_scenario_org_free_text :
  collect [] [cert_free_text] = ∅.
Proof. vm_compute. reflexivity. Qed.

(** Spec scenarios 3 and 4: a host name as common name is kept, and an
    empty response gives the empty set. *)
Example collect_scenario_org_host :
  collect [] [{| CommonName := gs "example.com"; NameValue := [] |}] = {[ gs "example.com" ]}.
Proof. vm_compute. reflexivity. Qed.

Example collect_scenario_empty : collect (gs "example.com") [] = ∅.
Proof. reflexivity. Qed.

(** Line 94 rejects only the space U+0020: a common name with an
    inner tab, or an inner no-break space, passes the filter and is kept
    with it (the spec says the names hold no embedded spaces). *)
Example collect_inner_tab_kept :
  collect [] [{| CommonName := gs "www" ++ [9%Z] ++ gs "example.com"; NameValue := [] |};
              {| CommonName := gs "mail" ++ [160%Z] ++ gs "example.com"; NameValue := [] |}] =
    {[ gs "www" ++ [9%Z] ++ gs "example.com"; gs "mail" ++ [160%Z] ++ gs "example.com" ]}.
Proof. vm_compute. reflexivity. Qed.

Lemma collect_valid_witness :
  set_Forall valid_name (collect (gs "example.com") [cert_sub_example; cert_free_text]).
Proof. apply collect_valid. Defined.

Lemma normalize_idem_witness :
  normalize (normalize (gs "  WWW.Example.ORG ")) = normalize (gs "  WWW.Example.ORG ").
Proof. apply normalize_idem. Defined.

Lemma addDomainsToSet_collapse_witness :
  normalize (gs " Example.COM") = normalize (gs "example.com  ") /\
  addDomainsToSet (addDomainsToSet ∅ (gs " Example.COM")) (gs "example.com  ") =
    addDomainsToSet ∅ (gs " Example.COM").
Proof.
  split; [reflexivity|].
  apply addDomainsToSet_collapse. reflexivity.
Defined.

Lemma collect_perm_witness :
  [cert_sub_example; cert_free_text] ≡ₚ [cert_free_text; cert_sub_example] /\
  collect (gs "example.com") [cert_sub_example; cert_free_text] =
    collect (gs "example.com") [cert_free_text; cert_sub_example].
Proof.
  split; [apply perm_swap|].
  apply collect_perm, perm_swap.
Defined.

End Extract.
