(* ===== verification/ExtractBytes.v ===== *)
(** * ExtractBytes: the name extractor on the bytes Go holds

    Go strings are byte strings and [map[string]struct{}] compares keys
    byte by byte.  [Extract] reads the certificates as runes; this file runs
    [addDomainsToSet] (crtRecon.go:92-97) and the loop of lines 61-74 on
    the bytes: line 93 is the byte-level [strings.ToLower] and
    [strings.TrimSpace] of [ByteStrings], the tests of line 94 and the
    split of line 67 are the byte searches Go runs (the rune-level
    [ContainsAny], [Contains] and [Split] applied to byte lists, which is
    what Go computes for their ASCII arguments).  The theorem: on the UTF-8
    bytes of valid runes, the byte-level loop builds exactly the set of the
    encodings of the rune-level set. *)

From Stdlib Require Import ZArith.
From S2P Require Import Prelude GoStrings Utf8 Utf8Decode JsonString ByteStrings Extract.

Open Scope Z_scope.

Module ExtractBytes.
Import Unicode Strings StringsFacts Utf8 Utf8Decode JsonString Extract.

Section with_case.
Context `{CaseTable}.

(** [addDomainsToSet] on bytes. *)
Definition addDomainsToSet (set : gset (list Z)) (domain : list Z) : gset (list Z) :=
  let domain := ByteStrings.ToLower (ByteStrings.TrimSpace domain) in
  if accept domain then {[ domain ]} ∪ set else set.

(** One iteration of the loop of lines 64-74 on bytes. *)
Definition add_certificate (domainArg : list Z) (set : gset (list Z)) (cert : Certificate)
    : gset (list Z) :=
  if bool_decide (domainArg <> []) then
    fold_left addDomainsToSet (Split (NameValue cert) [rNL]) set
  else addDomainsToSet set (CommonName cert).

(** Lines 62-74 on bytes. *)
Definition collect (domainArg : list Z) (certificates : list Certificate) : gset (list Z) :=
  fold_left (add_certificate domainArg) certificates ∅.

End with_case.

(** The certificate [json.Unmarshal] stores: the UTF-8 bytes of its
    fields. *)
Definition encode_cert (c : Certificate) : Certificate :=
  {| CommonName := encode (CommonName c); NameValue := encode (NameValue c) |}.

Definition cert_valid (c : Certificate) : Prop :=
  Forall valid_rune (CommonName c) /\ Forall valid_rune (NameValue c).

(** The runes of a certificate's fields, as [for range] reads them. *)
Definition decode_cert (c : Certificate) : Certificate :=
  {| CommonName := runes_of (CommonName c); NameValue := runes_of (NameValue c) |}.

(** A certificate as [json.Unmarshal] fills it: each field is what
    [unquoteBytes] returns for the bytes of a string literal. *)
Definition unmarshalled (c : Certificate) : Prop :=
  exists cn nv, Forall is_byte cn /\ Forall is_byte nv /\
    unquoteBytes cn = Some (CommonName c) /\ unquoteBytes nv = Some (NameValue c).

(** ** From runes to bytes, step by step *)

Lemma valid_int32 (s : list Z) : Forall valid_rune s -> Forall int32_range s.
Proof.
  intros Hs. eapply Forall_impl; [exact Hs|].
  unfold valid_rune, int32_range, MaxRune. intros r Hr. lia.
Qed.

Lemma encode_nil_iff (s : list Z) : Forall valid_rune s -> encode s = [] <-> s = [].
Proof.
  intros Hs. split; [|by intros ->]. destruct Hs as [|r s Hr _]; [done|].
  rewrite encode_cons. pose proof (EncodeRune_length r Hr).
  by destruct (EncodeRune r); simpl in *; [lia|].
Qed.

Lemma accept_encode `{CaseTable} (x : list Z) :
  Forall valid_rune x -> accept (encode x) = accept x.
Proof.
  intros Hx. unfold accept. pose proof (valid_int32 x Hx) as Hi.
  assert (Hchars : Forall (fun d => 0 <= d <= 127) (gs " &"))
    by (change (gs " &") with [32; 38]; repeat constructor; lia).
  change (gs ".") with [46].
  rewrite (ContainsAny_encode x _ Hchars Hi), (Contains_encode x 46 ltac:(lia) Hi).
  f_equal. f_equal. apply bool_decide_ext. by rewrite encode_nil_iff.
Qed.

Lemma split_rune_subseteq (c : Z) (s p : list Z) : p ∈ split_rune c s -> p ⊆ s.
Proof.
  revert p. induction s as [|r s IH]; intros p; cbn [split_rune].
  - intros ->%list_elem_of_singleton. set_solver.
  - destruct (r =? c).
    + intros [->|Hp]%elem_of_cons; [set_solver|]. apply IH in Hp. set_solver.
    + destruct (split_rune c s) as [|q qs] eqn:E.
      * intros ->%list_elem_of_singleton. set_solver.
      * intros [->|Hp]%elem_of_cons.
        -- assert (q ⊆ s) by (apply IH; try rewrite E; set_solver). set_solver.
        -- assert (p ⊆ s) by (apply IH; try rewrite E; set_solver). set_solver.
Qed.

Lemma Forall_subseteq (P : Z -> Prop) (p s : list Z) : p ⊆ s -> Forall P s -> Forall P p.
Proof. rewrite !Forall_forall. intros Hps Hs x Hx. by apply Hs, Hps. Qed.

Lemma Split_encode (s : list Z) :
  Forall valid_rune s ->
  Split (encode s) [rNL] = map encode (Split s [rNL]) /\ Forall (Forall valid_rune) (Split s [rNL]).
Proof.
  intros Hs. rewrite !Split_single. split.
  - apply split_rune_encode; [unfold rNL; lia | by apply valid_int32].
  - apply Forall_forall. intros p Hp.
    apply (Forall_subseteq _ p s); [by apply (split_rune_subseteq rNL) | done].
Qed.

Section refinement.
Context `{CaseTable}.
(** The case table maps valid runes to valid runes. *)
Hypothesis ToLower_valid : forall r, valid_rune r -> valid_rune (Unicode.ToLower r).

Lemma normalize_valid (t : list Z) : Forall valid_rune t -> Forall valid_rune (normalize t).
Proof.
  intros Ht. unfold normalize, Strings.ToLower. apply Forall_map.
  apply (Forall_subseteq _ _ t); [apply TrimFunc_subseteq|].
  eapply Forall_impl; [exact Ht|]. intros r Hr. by apply ToLower_valid.
Qed.

Lemma normalize_encode (t : list Z) :
  Forall valid_rune t ->
  ByteStrings.ToLower (ByteStrings.TrimSpace (encode t)) = encode (normalize t).
Proof.
  intros Ht. rewrite ByteStrings.TrimSpace_encode by done.
  apply ByteStrings.ToLower_encode; [done|].
  apply (Forall_subseteq _ _ t); [apply TrimFunc_subseteq | done].
Qed.

Lemma addDomainsToSet_encode (S : gset (list Z)) (t : list Z) :
  Forall valid_rune t ->
  addDomainsToSet (set_map encode S) (encode t) = set_map encode (Extract.addDomainsToSet S t).
Proof.
  intros Ht. unfold addDomainsToSet, Extract.addDomainsToSet. fold (normalize t).
  rewrite normalize_encode, accept_encode by (done || by apply normalize_valid).
  destruct (accept _); [|done]. by rewrite set_map_union_L, set_map_singleton_L.
Qed.

Lemma fold_addDomainsToSet_encode (ts : list (list Z)) (S : gset (list Z)) :
  Forall (Forall valid_rune) ts ->
  fold_left addDomainsToSet (map encode ts) (set_map encode S) =
    set_map encode (fold_left Extract.addDomainsToSet ts S).
Proof.
  intros Hts. revert S. induction Hts as [|t ts Ht _ IH]; intros S; [done|]. simpl.
  by rewrite addDomainsToSet_encode, IH.
Qed.

Lemma add_certificate_encode (domainArg : list Z) (S : gset (list Z)) (c : Certificate) :
  Forall valid_rune domainArg -> cert_valid c ->
  add_certificate (encode domainArg) (set_map encode S) (encode_cert c) =
    set_map encode (Extract.add_certificate domainArg S c).
Proof.
  intros Hd [Hcn Hnv]. unfold add_certificate, Extract.add_certificate.
  cbn [NameValue CommonName encode_cert].
  rewrite (bool_decide_ext _ _ (not_iff_compat (encode_nil_iff domainArg Hd))).
  case_bool_decide; [|by apply addDomainsToSet_encode].
  destruct (Split_encode _ Hnv) as [-> Hpieces]. by apply fold_addDomainsToSet_encode.
Qed.

Lemma fold_add_certificate_encode (domainArg : list Z) (cs : list Certificate)
    (S : gset (list Z)) :
  Forall valid_rune domainArg -> Forall cert_valid cs ->
  fold_left (add_certificate (encode domainArg)) (map encode_cert cs) (set_map encode S) =
    set_map encode (fold_left (Extract.add_certificate domainArg) cs S).
Proof.
  intros Hd Hcs. revert S. induction Hcs as [|c cs Hc _ IH]; intros S; [done|]. simpl.
  by rewrite add_certificate_encode, IH.
Qed.

Lemma collect_encode (domainArg : list Z) (certificates : list Certificate) :
  Forall valid_rune domainArg -> Forall cert_valid certificates ->
  collect (encode domainArg) (map encode_cert certificates) =
    set_map encode (Extract.collect domainArg certificates).
Proof.
  intros Hd Hcs. unfold collect, Extract.collect.
  pose proof (fold_add_certificate_encode domainArg certificates ∅ Hd Hcs) as E.
  by rewrite set_map_empty in E.
Qed.

End refinement.

(** The loop reads [domainArg] only through the test [domainArg != ""]. *)
Lemma collect_domain `{CaseTable} (d1 d2 : list Z) (certificates : list Certificate) :
  (d1 = [] <-> d2 = []) -> collect d1 certificates = collect d2 certificates.
Proof.
  intros Hd. unfold collect, add_certificate.
  by rewrite (bool_decide_ext (d1 <> []) (d2 <> [])) by (by apply not_iff_compat).
Qed.

Lemma unmarshalled_decode (certificates : list Certificate) :
  Forall unmarshalled certificates ->
  map encode_cert (map decode_cert certificates) = certificates /\
  Forall cert_valid (map decode_cert certificates).
Proof.
  induction 1 as [|c cs (cn & nv & Hcn & Hnv & Ecn & Env) _ [IHe IHv]]; [done|].
  destruct (utf8_valid_runes_of _ (unquoteBytes_utf8 _ _ Hcn Ecn)) as [Ec Vc].
  destruct (utf8_valid_runes_of _ (unquoteBytes_utf8 _ _ Hnv Env)) as [En Vn].
  split; [|by constructor]. cbn [map]. rewrite IHe. f_equal.
  destruct c as [x y]. unfold encode_cert, decode_cert. cbn in *. by rewrite Ec, En.
Qed.

(** ** Theorems *)

(** C12. Refinement on bytes: for certificates whose fields are valid
    UTF-8, the loop of lines 61-74 run on the bytes Go holds (byte-level
    [TrimSpace], [ToLower], [ContainsAny], [Contains], [Split] and a map
    keyed by byte strings) builds the set of the UTF-8 encodings of the
    names of the rune-level [Extract.collect]. *)
Theorem collect_bytes `{CaseTable} (domainArg : list Z) (certificates : list Certificate) :
  (forall r, valid_rune r -> valid_rune (Unicode.ToLower r)) ->
  Forall valid_rune domainArg -> Forall cert_valid certificates ->
  collect (encode domainArg) (map encode_cert certificates) =
    set_map encode (Extract.collect domainArg certificates).
Proof.
  intros Hvalid. by apply collect_encode.
Qed.

(** C13. End to end on bytes: for any bytes [domainArg] and certificates
    as [json.Unmarshal] fills them (line 56), the loop of lines 61-74 run
    on Go's byte strings builds the set of the UTF-8 encodings of the
    names that the rune-level [Extract.collect] finds in the runes
    [for range] reads from the same bytes.  No validity hypothesis is
    left on the data: [unquoteBytes] only produces valid UTF-8. *)
Theorem collect_unmarshalled `{CaseTable} (domainArg : list Z) (certificates : list Certificate) :
  (forall r, valid_rune r -> valid_rune (Unicode.ToLower r)) ->
  Forall is_byte domainArg -> Forall unmarshalled certificates ->
  collect domainArg certificates =
    set_map encode (Extract.collect (runes_of domainArg) (map decode_cert certificates)).
Proof.
  intros Hvalid Hd Hcs. destruct (unmarshalled_decode _ Hcs) as [Ec Vc].
  pose proof (range_runes_valid (length domainArg) domainArg Hd) as Vd. fold (runes_of domainArg) in Vd.
  rewrite <- (collect_encode Hvalid _ _ Vd Vc), Ec. apply collect_domain.
  rewrite encode_nil_iff by done. symmetry. apply runes_of_nil.
Qed.

(** ** Witness *)

(** A certificate with non-ASCII names: an org-mode [CommonName] and a
    [NameValue] of two lines, one with [é], one in capitals. *)
Definition cert_cafe : Certificate :=
  {| CommonName := gs "Caf" ++ [201];
     NameValue := gs "caf" ++ [233] ++ gs ".example" ++ [10] ++ gs "WWW.Example.com" |}.

Lemma collect_bytes_witness :
  (forall r, valid_rune r -> valid_rune (Unicode.ToLower (H := latin1_case) r)) /\
  Forall valid_rune (gs "example") /\ Forall cert_valid [cert_cafe] /\
  collect (H := latin1_case) (encode (gs "example")) (map encode_cert [cert_cafe]) =
    set_map encode (Extract.collect (H := latin1_case) (gs "example") [cert_cafe]).
Proof.
  assert (Hd : Forall valid_rune (gs "example")) by solve_valid_runes.
  assert (Hc : Forall cert_valid [cert_cafe]).
  { constructor; [|constructor]. split; simpl; solve_valid_runes. }
  split; [exact ByteStrings.latin1_ToLower_valid|]. split; [exact Hd|]. split; [exact Hc|].
  apply (collect_bytes (H := latin1_case)); [exact ByteStrings.latin1_ToLower_valid | exact Hd | exact Hc].
Defined.

(** The certificate [json.Unmarshal] fills from
    [{"common_name":"caf\u00e9","name_value":"WWW.Example.com"}]. *)
Definition cert_json : Certificate :=
  {| CommonName := gs "caf" ++ [195; 169]; NameValue := gs "WWW.Example.com" |}.

Lemma collect_unmarshalled_witness :
  (forall r, valid_rune r -> valid_rune (Unicode.ToLower (H := latin1_case) r)) /\
  Forall is_byte (gs "example") /\ Forall unmarshalled [cert_json] /\
  collect (H := latin1_case) (gs "example") [cert_json] =
    set_map encode (Extract.collect (H := latin1_case) (runes_of (gs "example"))
                      (map decode_cert [cert_json])).
Proof.
  assert (Hd : Forall is_byte (gs "example")) by solve_bytes.
  assert (Hc : Forall unmarshalled [cert_json]).
  { constructor; [|constructor].
    exists ([34] ++ gs "caf\u00e9" ++ [34]), ([34] ++ gs "WWW.Example.com" ++ [34]).
    split; [solve_bytes|]. split; [solve_bytes|]. split; vm_compute; reflexivity. }
  split; [exact ByteStrings.latin1_ToLower_valid|]. split; [exact Hd|]. split; [exact Hc|].
  apply (collect_unmarshalled (H := latin1_case)); [exact ByteStrings.latin1_ToLower_valid | exact Hd | exact Hc].
Defined.

(** On that certificate the set is the lower-cased name, on bytes. *)
Example collect_unmarshalled_sample :
  elements (collect (H := latin1_case) (gs "example") [cert_json]) = [gs "www.example.com"].
Proof. vm_compute. reflexivity. Qed.

End ExtractBytes.
