(* ===== verification/Decode.v ===== *)
(** * Decode: [json.Unmarshal(body, &certificates)] (crtRecon.go:55-59)

    [encoding/json] first checks and parses the text (the check is
    [JsonScan.checkValid]; building the value is not modelled: [parse]
    below is that library step, an interface), then walks
    the parsed value into [var certificates []Certificate] by reflection.
    This file models that walk on a JSON value: an array fills the slice
    element by element, [null] leaves it nil, an object element fills the
    struct through its tags [json:"common_name"] and [json:"name_value"]
    (exact key first, then Go's case-folded key), unknown keys are skipped,
    [null] leaves a field as it is, and a value of the wrong JSON kind saves
    an [UnmarshalTypeError] while decoding goes on; [Unmarshal] returns the
    first saved error. *)

From Stdlib Require Import ZArith.
From S2P Require Import Prelude GoStrings Extract.

#[local] Set Warnings "-register-all".

Module Decode.
Import Unicode Extract.

(** A parsed JSON value; strings are already unescaped runes. *)
Inductive JSON :=
| JNull
| JBool (b : bool)
| JNumber (literal : gostring)
| JString (s : gostring)
| JArray (elems : list JSON)
| JObject (members : list (gostring * JSON)).

(** The errors [json.Unmarshal] returns. *)
Inductive DecodeError :=
| SyntaxError
| UnmarshalTypeError (value : gostring).

(** The name [UnmarshalTypeError.Value] gives each kind of value. *)
Definition kind_name (v : JSON) : gostring :=
  match v with
  | JNull => gs "null"
  | JBool _ => gs "bool"
  | JNumber _ => gs "number"
  | JString _ => gs "string"
  | JArray _ => gs "array"
  | JObject _ => gs "object"
  end.

(** [decodeState.saveError]: only the first error is kept. *)
Definition saveError (saved : option DecodeError) (err : DecodeError)
    : option DecodeError :=
  match saved with
  | None => Some err
  | Some _ => saved
  end.

(** The two fields of [Certificate] that carry a tag. *)
Inductive Field := FCommonName | FNameValue.

Definition tag (f : Field) : gostring :=
  match f with
  | FCommonName => gs "common_name"
  | FNameValue => gs "name_value"
  end.

Section with_case.
Context `{CaseTable}.

(** [foldName]: ASCII letters to upper case, other runes to
    [unicode.ToUpper(unicode.ToLower(r))]. *)
Definition fold_rune (r : rune) : rune :=
  if r <? 128 then (if (97 <=? r) && (r <=? 122) then r - 32 else r)
  else ToUpper (Unicode.ToLower r).

Definition foldName (key : gostring) : gostring := map fold_rune key.

(** The field a member key selects: [fields.byExactName[key]], then
    [fields.byFoldedName[foldName(key)]]. *)
Definition field_of_key (key : gostring) : option Field :=
  if decide (key = tag FCommonName) then Some FCommonName
  else if decide (key = tag FNameValue) then Some FNameValue
  else if decide (foldName key = foldName (tag FCommonName)) then Some FCommonName
  else if decide (foldName key = foldName (tag FNameValue)) then Some FNameValue
  else None.
End with_case.

Definition get_field (c : Certificate) (f : Field) : gostring :=
  match f with
  | FCommonName => CommonName c
  | FNameValue => NameValue c
  end.

Definition set_field (c : Certificate) (f : Field) (s : gostring) : Certificate :=
  match f with
  | FCommonName => {| CommonName := s; NameValue := NameValue c |}
  | FNameValue => {| CommonName := CommonName c; NameValue := s |}
  end.

(** The zero [Certificate] a new slice element starts from. *)
Definition zero_certificate : Certificate := {| CommonName := []; NameValue := [] |}.

(** Decoding into a [string] field: a JSON string is stored, [null] is
    ignored, any other kind is an [UnmarshalTypeError]. *)
Definition decode_string (v : JSON) (cur : gostring) (saved : option DecodeError)
    : gostring * option DecodeError :=
  match v with
  | JString s => (s, saved)
  | JNull => (cur, saved)
  | _ => (cur, saveError saved (UnmarshalTypeError (kind_name v)))
  end.

Section with_case2.
Context `{CaseTable}.

(** [decodeState.object] on a struct: the members in order, a later
    duplicate key overwriting an earlier one. *)
Fixpoint decode_members (members : list (gostring * JSON)) (c : Certificate)
    (saved : option DecodeError) : Certificate * option DecodeError :=
  match members with
  | [] => (c, saved)
  | (key, v) :: rest =>
      match field_of_key key with
      | None => decode_members rest c saved
      | Some f =>
          let '(s, saved') := decode_string v (get_field c f) saved in
          decode_members rest (set_field c f s) saved'
      end
  end.

(** One slice element: an object fills the zero struct, [null] leaves
    it zero, any other kind is an [UnmarshalTypeError]. *)
Definition decode_certificate (v : JSON) (saved : option DecodeError)
    : Certificate * option DecodeError :=
  match v with
  | JObject members => decode_members members zero_certificate saved
  | JNull => (zero_certificate, saved)
  | _ => (zero_certificate, saveError saved (UnmarshalTypeError (kind_name v)))
  end.

(** [decodeState.array] on the slice: every element is decoded. *)
Fixpoint decode_elements (elems : list JSON) (saved : option DecodeError)
    : list Certificate * option DecodeError :=
  match elems with
  | [] => ([], saved)
  | v :: rest =>
      let '(c, saved') := decode_certificate v saved in
      let '(cs, saved'') := decode_elements rest saved' in
      (c :: cs, saved'')
  end.

(** [decodeState.value] on [*[]Certificate]: an array is decoded,
    [null] sets the slice to nil, any other kind is an error. *)
Definition decode_certificates (v : JSON) : list Certificate * option DecodeError :=
  match v with
  | JArray elems => decode_elements elems None
  | JNull => ([], None)
  | _ => ([], Some (UnmarshalTypeError (kind_name v)))
  end.

(** [json.Unmarshal(body, &certificates)], with [parse] the library's
    syntax check and parser: the slice it leaves and its error. *)
Definition Unmarshal (parse : list Z -> option JSON) (body : list Z)
    : list Certificate * option DecodeError :=
  match parse body with
  | None => ([], Some SyntaxError)
  | Some v => decode_certificates v
  end.
(** ** Shapes that decode without error *)

(** A member is fine when its key selects no field, or its value is a
    string or [null]. *)
Definition member_ok (m : gostring * JSON) : bool :=
  match field_of_key m.1, m.2 with
  | None, _ => true
  | Some _, (JString _ | JNull) => true
  | Some _, _ => false
  end.

Definition element_ok (v : JSON) : bool :=
  match v with
  | JObject members => forallb member_ok members
  | JNull => true
  | _ => false
  end.

Definition shape_ok (v : JSON) : bool :=
  match v with
  | JArray elems => forallb element_ok elems
  | JNull => true
  | _ => false
  end.

(** A crt.sh record: some members the struct has no field for, then the
    two tagged ones. *)
Definition crtsh_record (extra : list (gostring * JSON)) (c : Certificate) : JSON :=
  JObject (extra ++ [(gs "common_name", JString (CommonName c));
                     (gs "name_value", JString (NameValue c))]).

End with_case2.

Section facts.
Context `{CaseTable}.

Lemma saveError_Some (saved : option DecodeError) (err : DecodeError) :
  saveError saved err <> None.
Proof. by destruct saved. Qed.

Lemma decode_members_ok (members : list (gostring * JSON)) (c : Certificate)
    (saved : option DecodeError) :
  (decode_members members c saved).2 = None <->
  saved = None /\ forallb member_ok members = true.
Proof.
  revert c saved; induction members as [|[key v] rest IH]; intros c saved; simpl.
  - split; [by split | by intros []].
  - unfold member_ok; simpl. destruct (field_of_key key) as [f|]; [|apply IH].
    destruct v; cbn [decode_string]; rewrite IH; simpl;
      first [done | split; [intros [?%saveError_Some _]; done | intros [_ [=]]]].
Qed.

Lemma decode_certificate_ok (v : JSON) (saved : option DecodeError) :
  (decode_certificate v saved).2 = None <-> saved = None /\ element_ok v = true.
Proof.
  destruct v; simpl; try apply decode_members_ok;
    first [split; [by split | by intros []]
          | split; [intros ?%saveError_Some; done | intros [_ [=]]]].
Qed.

Lemma decode_elements_ok (elems : list JSON) (saved : option DecodeError) :
  (decode_elements elems saved).2 = None <->
  saved = None /\ forallb element_ok elems = true.
Proof.
  revert saved; induction elems as [|v rest IH]; intros saved; simpl; [naive_solver|].
  destruct (decode_certificate v saved) as [c saved'] eqn:Ec.
  destruct (decode_elements rest saved') as [cs saved''] eqn:Er. simpl.
  rewrite andb_true_iff.
  pose proof (decode_certificate_ok v saved) as Hc. rewrite Ec in Hc. simpl in Hc.
  specialize (IH saved'). rewrite Er in IH. simpl in IH. naive_solver.
Qed.

Lemma decode_elements_length (elems : list JSON) (saved : option DecodeError) :
  length (decode_elements elems saved).1 = length elems.
Proof.
  revert saved; induction elems as [|v rest IH]; intros saved; simpl; [done|].
  destruct (decode_certificate v saved) as [c saved'].
  specialize (IH saved'). destruct (decode_elements rest saved'). simpl in *. lia.
Qed.

Lemma decode_members_skip (extra rest : list (gostring * JSON)) (c : Certificate)
    (saved : option DecodeError) :
  (forall m, m ∈ extra -> field_of_key m.1 = None) ->
  decode_members (extra ++ rest) c saved = decode_members rest c saved.
Proof.
  intros Hx. induction extra as [|[key v] extra IH]; simpl; [done|].
  pose proof (Hx (key, v) (list_elem_of_here _ _)) as Hk. simpl in Hk. rewrite Hk.
  apply IH. intros m Hm. apply Hx. by apply list_elem_of_further.
Qed.

Lemma field_of_key_tag (f : Field) : field_of_key (tag f) = Some f.
Proof. destruct f; vm_compute; reflexivity. Qed.

Lemma decode_crtsh_record (extra : list (gostring * JSON)) (c : Certificate)
    (saved : option DecodeError) :
  (forall m, m ∈ extra -> field_of_key m.1 = None) ->
  decode_certificate (crtsh_record extra c) saved = (c, saved).
Proof.
  intros Hx. unfold crtsh_record, decode_certificate.
  rewrite decode_members_skip by done.
  pose proof (field_of_key_tag FCommonName) as Hc.
  pose proof (field_of_key_tag FNameValue) as Hn.
  cbn [decode_members tag] in *. rewrite Hc, Hn. by destruct c.
Qed.

Lemma decode_crtsh_records (extra : list (gostring * JSON)) (certificates : list Certificate) :
  (forall m, m ∈ extra -> field_of_key m.1 = None) ->
  decode_certificates (JArray (map (crtsh_record extra) certificates)) = (certificates, None).
Proof.
  intros Hx. unfold decode_certificates.
  induction certificates as [|c cs IH]; [done|].
  cbn [map decode_elements]. by rewrite decode_crtsh_record, IH.
Qed.

End facts.

(** ** Theorems *)
Section theorems.
Context `{CaseTable}.

(** C9. Round trip: a response that lists crt.sh records, each with
    members the struct has no field for and the two tagged members,
    decodes without error to exactly the certificates it lists, in
    order. *)
Theorem decode_certificates_roundtrip (extra : list (gostring * JSON))
    (certificates : list Certificate) :
  (forall m, m ∈ extra -> field_of_key m.1 = None) ->
  decode_certificates (JArray (map (crtsh_record extra) certificates)) =
    (certificates, None).
Proof. apply decode_crtsh_records. Qed.

(** C10. Error path: [json.Unmarshal] into [[]Certificate] reports no
    error exactly when the value is [null] or an array whose elements
    are [null] or objects whose tagged members hold strings or [null]. *)
Theorem decode_certificates_ok (v : JSON) :
  (decode_certificates v).2 = None <-> shape_ok v = true.
Proof.
  destruct v as [| | | |elems|]; simpl; try (split; intros [=]; fail).
  - split; done.
  - rewrite decode_elements_ok. split; [by intros [_ ?] | by split].
Qed.

(** Every element of the array gives one certificate, error or not. *)
Theorem decode_certificates_length (elems : list JSON) :
  length (decode_certificates (JArray elems)).1 = length elems.
Proof. apply decode_elements_length. Qed.

End theorems.

(** ** Worked examples *)

(** Keys match case-insensitively, a later duplicate wins, [null] keeps
    the field, unknown keys are skipped. *)
Example decode_folded_keys :
  decode_certificates
    (JArray [JObject [(gs "COMMON_NAME", JString (gs "a.example"));
                      (gs "id", JNumber (gs "42"));
                      (gs "Name_Value", JString (gs "b.example"));
                      (gs "name_value", JString (gs "c.example"));
                      (gs "common_name", JNull)]]) =
    ([{| CommonName := gs "a.example"; NameValue := gs "c.example" |}], None).
Proof. vm_compute. reflexivity. Qed.

(** A number where a string is expected: the error is saved, decoding
    goes on, and the element keeps its zero field. *)
Example decode_type_error :
  decode_certificates
    (JArray [JObject [(gs "common_name", JNumber (gs "7"))];
             JObject [(gs "common_name", JString (gs "x.example"))]]) =
    ([zero_certificate; {| CommonName := gs "x.example"; NameValue := [] |}],
     Some (UnmarshalTypeError (gs "number"))).
Proof. vm_compute. reflexivity. Qed.

Lemma decode_certificates_roundtrip_witness :
  (forall m, m ∈ [(gs "id", JNumber (gs "1")); (gs "issuer_name", JString (gs "CA"))] ->
             field_of_key m.1 = None) /\
  decode_certificates
    (JArray (map (crtsh_record [(gs "id", JNumber (gs "1"));
                                (gs "issuer_name", JString (gs "CA"))])
                 [cert_sub_example])) = ([cert_sub_example], None).
Proof.
  assert (Hx : forall m, m ∈ [(gs "id", JNumber (gs "1"));
                             (gs "issuer_name", JString (gs "CA"))] ->
                        field_of_key m.1 = None).
  { intros m Hm. repeat (apply elem_of_cons in Hm as [->|Hm]); [vm_compute; reflexivity ..|].
    by apply elem_of_nil in Hm. }
  split; [exact Hx|]. apply (decode_certificates_roundtrip _ _ Hx).
Defined.

End Decode.
