(* ===== verification/JsonScan.v ===== *)
(** * JsonScan: the syntax check [json.Unmarshal] runs on the body

    [json.Unmarshal(body, &certificates)] (crtRecon.go:56) starts with
    [checkValid(data, &d.scan)]: Go's [encoding/json] scanner
    ([scanner.go]) reads the body byte by byte and stops at the first
    syntax error, which [Unmarshal] returns before decoding anything.  The
    scanner is a state machine: [scanner.step] is the function that reads
    the next byte (one constructor of [stepFn] per [state...] function of
    [scanner.go]), [parseState] the stack of the containers that are open
    (the top of Go's slice is the head of the list), [endTop] whether the
    top-level value is complete, [err] the saved [SyntaxError] and [bytes]
    the count of bytes read (Go's [int64], never near its bound: a body is a
    Go slice).  Each [state...] function returns the scanner after the byte
    and the [scan...] code, as the Go function mutates [*scanner] and
    returns an [int].  The message of a [SyntaxError] is kept as the byte
    and the context string Go formats it from. *)

From Stdlib Require Import ZArith.
From S2P Require Import Prelude GoStrings Utf8 Decode.

Open Scope Z_scope.

Module JsonScan.
Import Utf8 Decode.

(** The results of a step: [scanContinue] ... [scanError]. *)
Inductive scanCode :=
| scanContinue | scanBeginLiteral | scanBeginObject | scanObjectKey
| scanObjectValue | scanEndObject | scanBeginArray | scanArrayValue
| scanEndArray | scanSkipSpace | scanEnd | scanError.

(** What an open container is waiting for. *)
Inductive parseKind := parseObjectKey | parseObjectValue | parseArrayValue.

(** The value of [scanner.step]: which [state...] function reads the
    next byte. *)
Inductive stepFn :=
| BeginValueOrEmpty | BeginValue | BeginStringOrEmpty | BeginString
| EndValue | EndTop | InString | InStringEsc | InStringEscU | InStringEscU1
| InStringEscU12 | InStringEscU123 | Neg | One | Zero | Dot | Dot0 | E
| ESign | E0 | T | Tr | Tru | F | Fa | Fal | Fals | N | Nu | Nul | Error.

(** ["invalid character " + quoteChar(c) + " " + context] and
    ["unexpected end of JSON input"]. *)
Inductive errMsg :=
| InvalidCharacter (c : Z) (context : list Z)
| UnexpectedEnd.

Record SyntaxError := { msg : errMsg; Offset : Z }.

Record scanner := {
  step : stepFn;
  endTop : bool;
  parseState : list parseKind;
  err : option SyntaxError;
  bytes : Z }.

#[export] Instance scanCode_eq_dec : EqDecision scanCode.
Proof. solve_decision. Defined.
#[export] Instance parseKind_eq_dec : EqDecision parseKind.
Proof. solve_decision. Defined.
#[export] Instance stepFn_eq_dec : EqDecision stepFn.
Proof. solve_decision. Defined.

Definition set_step (s : scanner) (f : stepFn) : scanner :=
  {| step := f; endTop := endTop s; parseState := parseState s; err := err s; bytes := bytes s |}.
Definition set_endTop (s : scanner) (b : bool) : scanner :=
  {| step := step s; endTop := b; parseState := parseState s; err := err s; bytes := bytes s |}.
Definition set_parseState (s : scanner) (ps : list parseKind) : scanner :=
  {| step := step s; endTop := endTop s; parseState := ps; err := err s; bytes := bytes s |}.
Definition set_err (s : scanner) (e : option SyntaxError) : scanner :=
  {| step := step s; endTop := endTop s; parseState := parseState s; err := e; bytes := bytes s |}.
Definition set_bytes (s : scanner) (n : Z) : scanner :=
  {| step := step s; endTop := endTop s; parseState := parseState s; err := err s; bytes := n |}.

Definition maxNestingDepth : Z := 10000.

Definition isSpace (c : Z) : bool :=
  (c <=? 32) && ((c =? 32) || (c =? 9) || (c =? 13) || (c =? 10)).

Definition is_digit (c : Z) : bool := (48 <=? c) && (c <=? 57).

(** [s.error(c, context)]. *)
Definition error (s : scanner) (c : Z) (context : list Z) : scanner * scanCode :=
  (set_err (set_step s Error) (Some {| msg := InvalidCharacter c context; Offset := bytes s |}),
   scanError).

(** [s.pushParseState(c, newParseState, successState)]. *)
Definition pushParseState (s : scanner) (c : Z) (newParseState : parseKind)
    (successState : scanCode) : scanner * scanCode :=
  let s := set_parseState s (newParseState :: parseState s) in
  if Z.of_nat (length (parseState s)) <=? maxNestingDepth then (s, successState)
  else error s c (gs "exceeded max depth").

(** [s.popParseState()]; it is only called with a container open (on an
    empty stack Go's slice expression would panic). *)
Definition popParseState (s : scanner) : scanner :=
  let s := set_parseState s (tail (parseState s)) in
  if (length (parseState s) =? 0)%nat then set_endTop (set_step s EndTop) true
  else set_step s EndValue.

(** [s.parseState[n-1] = p]. *)
Definition set_top (s : scanner) (p : parseKind) : scanner :=
  set_parseState s (match parseState s with [] => [] | _ :: ps => p :: ps end).

Definition stateEndTop (s : scanner) (c : Z) : scanner * scanCode :=
  if negb (isSpace c) then ((error s c (gs "after top-level value")).1, scanEnd)
  else (s, scanEnd).

Definition stateEndValue (s : scanner) (c : Z) : scanner * scanCode :=
  match parseState s with
  | [] => stateEndTop (set_endTop (set_step s EndTop) true) c
  | ps :: _ =>
      if isSpace c then (set_step s EndValue, scanSkipSpace)
      else match ps with
      | parseObjectKey =>
          if c =? 58 then (set_step (set_top s parseObjectValue) BeginValue, scanObjectKey)
          else error s c (gs "after object key")
      | parseObjectValue =>
          if c =? 44 then (set_step (set_top s parseObjectKey) BeginString, scanObjectValue)
          else if c =? 125 then (popParseState s, scanEndObject)
          else error s c (gs "after object key:value pair")
      | parseArrayValue =>
          if c =? 44 then (set_step s BeginValue, scanArrayValue)
          else if c =? 93 then (popParseState s, scanEndArray)
          else error s c (gs "after array element")
      end
  end.

Definition stateBeginValue (s : scanner) (c : Z) : scanner * scanCode :=
  if isSpace c then (s, scanSkipSpace)
  else if c =? 123 then pushParseState (set_step s BeginStringOrEmpty) c parseObjectKey scanBeginObject
  else if c =? 91 then pushParseState (set_step s BeginValueOrEmpty) c parseArrayValue scanBeginArray
  else if c =? 34 then (set_step s InString, scanBeginLiteral)
  else if c =? 45 then (set_step s Neg, scanBeginLiteral)
  else if c =? 48 then (set_step s Zero, scanBeginLiteral)
  else if c =? 116 then (set_step s T, scanBeginLiteral)
  else if c =? 102 then (set_step s F, scanBeginLiteral)
  else if c =? 110 then (set_step s N, scanBeginLiteral)
  else if (49 <=? c) && (c <=? 57) then (set_step s One, scanBeginLiteral)
  else error s c (gs "looking for beginning of value").

Definition stateBeginValueOrEmpty (s : scanner) (c : Z) : scanner * scanCode :=
  if isSpace c then (s, scanSkipSpace)
  else if c =? 93 then stateEndValue s c
  else stateBeginValue s c.

Definition stateBeginString (s : scanner) (c : Z) : scanner * scanCode :=
  if isSpace c then (s, scanSkipSpace)
  else if c =? 34 then (set_step s InString, scanBeginLiteral)
  else error s c (gs "looking for beginning of object key string").

Definition stateBeginStringOrEmpty (s : scanner) (c : Z) : scanner * scanCode :=
  if isSpace c then (s, scanSkipSpace)
  else if c =? 125 then stateEndValue (set_top s parseObjectValue) c
  else stateBeginString s c.

Definition stateInString (s : scanner) (c : Z) : scanner * scanCode :=
  if c =? 34 then (set_step s EndValue, scanContinue)
  else if c =? 92 then (set_step s InStringEsc, scanContinue)
  else if c <? 32 then error s c (gs "in string literal")
  else (s, scanContinue).

Definition stateInStringEsc (s : scanner) (c : Z) : scanner * scanCode :=
  if (c =? 98) || (c =? 102) || (c =? 110) || (c =? 114) || (c =? 116)
     || (c =? 92) || (c =? 47) || (c =? 34) then (set_step s InString, scanContinue)
  else if c =? 117 then (set_step s InStringEscU, scanContinue)
  else error s c (gs "in string escape code").

Definition is_hex (c : Z) : bool :=
  is_digit c || ((97 <=? c) && (c <=? 102)) || ((65 <=? c) && (c <=? 70)).

(** [stateInStringEscU], [...U1], [...U12] and [...U123]: one hex digit
    each, [next] the state after it. *)
Definition stateInStringEscU_ (next : stepFn) (s : scanner) (c : Z) : scanner * scanCode :=
  if is_hex c then (set_step s next, scanContinue)
  else error s c (gs "in \u hexadecimal character escape").

Definition stateNeg (s : scanner) (c : Z) : scanner * scanCode :=
  if c =? 48 then (set_step s Zero, scanContinue)
  else if (49 <=? c) && (c <=? 57) then (set_step s One, scanContinue)
  else error s c (gs "in numeric literal").

Definition state0 (s : scanner) (c : Z) : scanner * scanCode :=
  if c =? 46 then (set_step s Dot, scanContinue)
  else if (c =? 101) || (c =? 69) then (set_step s E, scanContinue)
  else stateEndValue s c.

Definition state1 (s : scanner) (c : Z) : scanner * scanCode :=
  if is_digit c then (set_step s One, scanContinue) else state0 s c.

Definition stateDot (s : scanner) (c : Z) : scanner * scanCode :=
  if is_digit c then (set_step s Dot0, scanContinue)
  else error s c (gs "after decimal point in numeric literal").

Definition stateDot0 (s : scanner) (c : Z) : scanner * scanCode :=
  if is_digit c then (s, scanContinue)
  else if (c =? 101) || (c =? 69) then (set_step s E, scanContinue)
  else stateEndValue s c.

Definition stateESign (s : scanner) (c : Z) : scanner * scanCode :=
  if is_digit c then (set_step s E0, scanContinue)
  else error s c (gs "in exponent of numeric literal").

Definition stateE (s : scanner) (c : Z) : scanner * scanCode :=
  if (c =? 43) || (c =? 45) then (set_step s ESign, scanContinue) else stateESign s c.

Definition stateE0 (s : scanner) (c : Z) : scanner * scanCode :=
  if is_digit c then (s, scanContinue) else stateEndValue s c.

(** The letters of [true], [false] and [null]: [stateT] ... [stateNul]
    each expect one byte. *)
Definition expect (want : Z) (next : stepFn) (context : list Z) (s : scanner) (c : Z)
    : scanner * scanCode :=
  if c =? want then (set_step s next, scanContinue) else error s c context.

Definition stateT := expect 114 Tr (gs "in literal true (expecting 'r')").
Definition stateTr := expect 117 Tru (gs "in literal true (expecting 'u')").
Definition stateTru := expect 101 EndValue (gs "in literal true (expecting 'e')").
Definition stateF := expect 97 Fa (gs "in literal false (expecting 'a')").
Definition stateFa := expect 108 Fal (gs "in literal false (expecting 'l')").
Definition stateFal := expect 115 Fals (gs "in literal false (expecting 's')").
Definition stateFals := expect 101 EndValue (gs "in literal false (expecting 'e')").
Definition stateN := expect 117 Nu (gs "in literal null (expecting 'u')").
Definition stateNu := expect 108 Nul (gs "in literal null (expecting 'l')").
Definition stateNul := expect 108 EndValue (gs "in literal null (expecting 'l')").

Definition stateError (s : scanner) (c : Z) : scanner * scanCode := (s, scanError).

(** [s.step(s, c)]. *)
Definition scan_step (s : scanner) (c : Z) : scanner * scanCode :=
  match step s with
  | BeginValueOrEmpty => stateBeginValueOrEmpty s c
  | BeginValue => stateBeginValue s c
  | BeginStringOrEmpty => stateBeginStringOrEmpty s c
  | BeginString => stateBeginString s c
  | EndValue => stateEndValue s c
  | EndTop => stateEndTop s c
  | InString => stateInString s c
  | InStringEsc => stateInStringEsc s c
  | InStringEscU => stateInStringEscU_ InStringEscU1 s c
  | InStringEscU1 => stateInStringEscU_ InStringEscU12 s c
  | InStringEscU12 => stateInStringEscU_ InStringEscU123 s c
  | InStringEscU123 => stateInStringEscU_ InString s c
  | Neg => stateNeg s c
  | One => state1 s c
  | Zero => state0 s c
  | Dot => stateDot s c
  | Dot0 => stateDot0 s c
  | E => stateE s c
  | ESign => stateESign s c
  | E0 => stateE0 s c
  | T => stateT s c
  | Tr => stateTr s c
  | Tru => stateTru s c
  | F => stateF s c
  | Fa => stateFa s c
  | Fal => stateFal s c
  | Fals => stateFals s c
  | N => stateN s c
  | Nu => stateNu s c
  | Nul => stateNul s c
  | Error => stateError s c
  end.

(** [s.reset()]: [bytes] is not reset. *)
Definition reset (s : scanner) : scanner :=
  {| step := BeginValue; endTop := false; parseState := []; err := None; bytes := bytes s |}.

(** The zero [scanner] of a fresh [decodeState]. *)
Definition zero_scanner : scanner :=
  {| step := BeginValue; endTop := false; parseState := []; err := None; bytes := 0 |}.

(** The loop of [checkValid]: [scan.bytes++], then the step; it stops at
    the first [scanError] with [scan.err]. *)
Fixpoint scan_bytes (s : scanner) (data : list Z) : scanner + option SyntaxError :=
  match data with
  | [] => inl s
  | c :: data' =>
      let '(s, op) := scan_step (set_bytes s (bytes s + 1)) c in
      match op with
      | scanError => inr (err s)
      | _ => scan_bytes s data'
      end
  end.

(** [s.eof()]. *)
Definition eof (s : scanner) : scanner * scanCode :=
  match err s with
  | Some _ => (s, scanError)
  | None =>
      if endTop s then (s, scanEnd)
      else
        let s := (scan_step s 32).1 in
        if endTop s then (s, scanEnd)
        else
          let s := match err s with
                   | None => set_err s (Some {| msg := UnexpectedEnd; Offset := bytes s |})
                   | Some _ => s
                   end in
          (s, scanError)
  end.

(** [checkValid(data, scan)]: [None] is a [nil] error. *)
Definition checkValid (data : list Z) (scan : scanner) : option SyntaxError :=
  match scan_bytes (reset scan) data with
  | inr e => e
  | inl s =>
      let '(s, op) := eof s in
      match op with scanError => err s | _ => None end
  end.

(** ** The scanner's invariant *)

(** The states [checkValid] can reach: from [reset], one byte at a time,
    as long as no step answered [scanError]. *)
Inductive reachable : scanner -> Prop :=
| reachable_reset (s : scanner) : reachable (reset s)
| reachable_step (s s' : scanner) (c : Z) (op : scanCode) :
    reachable s -> scan_step (set_bytes s (bytes s + 1)) c = (s', op) ->
    op <> scanError -> reachable s'.

(** What holds of every scanner state: the error state and the saved
    error go together; without an error at most [maxNestingDepth]
    containers are open; the top-level value is complete only with no
    container open; the object-key states have an object on top of the
    stack and the empty-array state an array. *)
Record scanner_inv (s : scanner) : Prop := {
  inv_err : err s = None <-> step s <> Error;
  inv_depth : err s = None -> Z.of_nat (length (parseState s)) <= maxNestingDepth;
  inv_endTop : endTop s = true -> parseState s = [];
  inv_EndTop : step s = EndTop -> endTop s = true;
  inv_top_step : endTop s = true -> step s = EndTop \/ step s = Error;
  inv_obj : step s = BeginStringOrEmpty \/ step s = BeginString ->
            head (parseState s) = Some parseObjectKey;
  inv_arr : step s = BeginValueOrEmpty -> head (parseState s) = Some parseArrayValue }.

(** ** Lemmas *)

Ltac unfold_states :=
  unfold stateBeginValueOrEmpty, stateBeginValue, stateBeginStringOrEmpty,
    stateBeginString, stateEndValue, stateEndTop, stateInString, stateInStringEsc,
    stateInStringEscU_, stateNeg, state1, state0, stateDot, stateDot0, stateE,
    stateESign, stateE0, stateT, stateTr, stateTru, stateF, stateFa, stateFal,
    stateFals, stateN, stateNu, stateNul, stateError, expect, error,
    pushParseState, popParseState, set_top, set_step, set_endTop,
    set_parseState, set_err, set_bytes in *.

(** [inv_close] discharges the six fields of [scanner_inv] after a
    step, from the fields before it ([I1] ... [I7]). *)
Ltac inv_close I3 I4 I5 I6 :=
  constructor; cbn; intros; bool_facts;
  repeat match goal with H : Nat.eqb _ _ = true |- _ => apply Nat.eqb_eq, length_zero_iff_nil in H end;
  try (split; intros; congruence);
  repeat match goal with H : _ \/ _ |- _ => destruct H end;
  simplify_eq; cbn in *; try done; try lia;
  first [ by apply I3 | by apply I4 | by apply I5; auto | by apply I6 | by left | by right ].

Lemma scan_step_inv (s : scanner) (c : Z) : scanner_inv s -> scanner_inv (scan_step s c).1.
Proof.
  destruct s as [st et ps e n]. intros [I1 I2 I3 I4 I7 I5 I6]; cbn in *.
  destruct (decide (st = Error)) as [->|Hst]; [by constructor|].
  assert (e = None) as -> by (by apply I1). specialize (I2 eq_refl).
  unfold scan_step; destruct st; cbn [step]; unfold_states; unfold_states; cbn;
    try (assert (et = false) as -> by (destruct et; [destruct (I7 eq_refl); discriminate | done]));
    repeat case_match; inv_close I3 I4 I5 I6.
Qed.

Lemma set_bytes_inv (s : scanner) (n : Z) : scanner_inv s -> scanner_inv (set_bytes s n).
Proof. by destruct 1; constructor. Qed.

Lemma reset_inv (s : scanner) : scanner_inv (reset s).
Proof. constructor; cbn; intros; try done; try lia; try (destruct H; discriminate); split; congruence. Qed.

(** A step answers [scanError] only with an error saved. *)
Lemma scan_step_error (s : scanner) (c : Z) :
  scanner_inv s -> (scan_step s c).2 = scanError -> err (scan_step s c).1 <> None.
Proof.
  destruct s as [st et ps e n]. intros [I1 _ _ _ _ _ _]; cbn in *.
  destruct (decide (st = Error)) as [->|Hst].
  { intros _. cbn. intros He. by apply I1 in He. }
  unfold scan_step; destruct st; cbn [step]; unfold_states; unfold_states; cbn;
    repeat case_match; cbn; congruence.
Qed.

Lemma scan_bytes_error (s : scanner) (data : list Z) (e : option SyntaxError) :
  scanner_inv s -> scan_bytes s data = inr e -> e <> None.
Proof.
  revert s. induction data as [|c data IH]; intros s Hs; cbn [scan_bytes]; [done|].
  pose proof (set_bytes_inv s (bytes s + 1) Hs) as Hs1.
  pose proof (scan_step_inv _ c Hs1) as Hs2. pose proof (scan_step_error _ c Hs1) as He.
  destruct (scan_step (set_bytes s (bytes s + 1)) c) as [s1 op]; cbn in *.
  destruct op; try (by apply IH). intros [= <-]. by apply He.
Qed.

Lemma eof_error (s : scanner) : (eof s).2 = scanError -> err (eof s).1 <> None.
Proof.
  unfold eof. repeat case_match; cbn; intros; congruence.
Qed.

(** Rule induction on [reachable]. *)
Lemma reachable_scanner_inv (s : scanner) : reachable s -> scanner_inv s.
Proof.
  induction 1 as [s|s s' c op _ IH E _]; [apply reset_inv|].
  pose proof (scan_step_inv _ c (set_bytes_inv s (bytes s + 1) IH)) as H. by rewrite E in H.
Qed.

(** A run of [scan_bytes] that ends without error stays reachable (it
    may have saved an error: [stateEndTop] saves one and answers
    [scanEnd]). *)
Lemma scan_bytes_reachable (s s' : scanner) (data : list Z) :
  reachable s -> scan_bytes s data = inl s' -> reachable s'.
Proof.
  revert s. induction data as [|c data IH]; intros s Hr E; cbn [scan_bytes] in E; [by injection E as <-|].
  destruct (scan_step (set_bytes s (bytes s + 1)) c) as [s1 op] eqn:Es.
  destruct (decide (op = scanError)) as [->|Hop]; [done|].
  apply (IH s1); [by apply (reachable_step s s1 c op) | by destruct op].
Qed.

(** ** Theorems *)

(** C21. The scanner's invariant: in every state [checkValid] reaches,
    the error state goes with a saved error, without an error at most
    [maxNestingDepth] containers are open, a complete top-level value
    leaves no container open, and the key and empty-container states have
    the container they expect on top of the stack (so Go's
    [s.parseState[n-1]] never indexes an empty slice). *)
Theorem reachable_inv (s : scanner) : reachable s -> scanner_inv s.
Proof. apply reachable_scanner_inv. Qed.

(** C22. [checkValid] returns [nil] exactly when every byte is accepted and
    the end of the input completes the value: whenever the scan fails,
    the error it returns is a saved [SyntaxError], never [nil]. *)
Theorem checkValid_nil_iff (data : list Z) (scan : scanner) :
  checkValid data scan = None <->
  exists s, scan_bytes (reset scan) data = inl s /\ (eof s).2 <> scanError.
Proof.
  unfold checkValid. split.
  - destruct (scan_bytes (reset scan) data) as [s|e] eqn:E.
    + destruct (eof s) as [s' op] eqn:Eo. intros Hn. exists s. split; [done|].
      rewrite Eo. cbn. intros ->. pose proof (eof_error s) as He. rewrite Eo in He. by apply He.
    + intros ->. by apply (scan_bytes_error _ _ _ (reset_inv scan)) in E.
  - intros (s & -> & Hop). destruct (eof s) as [s' op]. cbn in Hop. by destruct op.
Qed.

(** ** Witnesses *)

(** The state after the first byte of ["[1,]"]. *)
Lemma reachable_inv_witness :
  reachable (scan_step (set_bytes (reset zero_scanner) (bytes (reset zero_scanner) + 1)) 91).1 /\
  scanner_inv (scan_step (set_bytes (reset zero_scanner) (bytes (reset zero_scanner) + 1)) 91).1.
Proof.
  assert (R : reachable (scan_step (set_bytes (reset zero_scanner) (bytes (reset zero_scanner) + 1)) 91).1).
  { eapply (reachable_step (reset zero_scanner) _ 91 scanBeginArray);
      [apply reachable_reset | reflexivity | discriminate]. }
  split; [exact R | exact (reachable_inv _ R)].
Defined.

(** Go's answers on short inputs: a missing end, trailing bytes, a bad
    literal, an empty body.  A literal cut short is reported as the
    space [eof] feeds the scanner, not as an unexpected end. *)
Example checkValid_examples :
  checkValid (gs "[1") zero_scanner = Some {| msg := UnexpectedEnd; Offset := 2 |} /\
  checkValid (gs "[1] x") zero_scanner =
    Some {| msg := InvalidCharacter 120 (gs "after top-level value"); Offset := 5 |} /\
  checkValid (gs "nul") zero_scanner =
    Some {| msg := InvalidCharacter 32 (gs "in literal null (expecting 'l')"); Offset := 3 |} /\
  checkValid (gs "tru3") zero_scanner =
    Some {| msg := InvalidCharacter 51 (gs "in literal true (expecting 'e')"); Offset := 4 |} /\
  checkValid [] zero_scanner = Some {| msg := UnexpectedEnd; Offset := 0 |} /\
  checkValid (gs " [ ] ") zero_scanner = None.
Proof. vm_compute. repeat split. Qed.

End JsonScan.
