(* ===== verification/JsonText.v ===== *)
(** * JsonText: the scanner accepts every JSON text

    The specification of the input [json.Unmarshal] (crtRecon.go:56)
    reads: the JSON texts of RFC 8259 that a server such as crt.sh sends,
    written by [json_text] from a [Decode.JSON] value.  The theorem is
    the scanner's completeness: [checkValid] of [JsonScan] accepts the
    text of every well-formed value nested at most [maxNestingDepth]
    deep.  The proofs run the scanner over the text piece by piece:
    strings, numbers, literals, then arrays and objects by induction on
    the value. *)

From Stdlib Require Import ZArith.
From S2P Require Import Prelude GoStrings Utf8 Decode JsonScan.

Open Scope Z_scope.

Module JsonText.
Import Utf8 Decode JsonScan.

(** ** JSON texts

    The texts a JSON server such as crt.sh sends: a specification of the
    input, not code of the program.  A number is written as the grammar of
    RFC 8259 allows ([-]? int frac? exp?), a string with its quote,
    backslash and control characters escaped and every other rune in
    UTF-8, arrays and objects with [,] and [:] and no spaces. *)

Record num_lit := {
  n_neg : bool;
  n_int : list Z;
  n_frac : list Z;
  n_exp : option (Z * list Z * list Z) }.

Definition frac_text (f : list Z) : list Z := match f with [] => [] | _ => 46 :: f end.

Definition exp_text (x : option (Z * list Z * list Z)) : list Z :=
  match x with None => [] | Some (e, sg, ds) => e :: sg ++ ds end.

Definition num_text (m : num_lit) : list Z :=
  (if n_neg m then [45] else []) ++ n_int m ++ frac_text (n_frac m) ++ exp_text (n_exp m).

Definition digits (ds : list Z) : Prop := Forall (fun d => is_digit d = true) ds.

Definition num_ok (m : num_lit) : Prop :=
  (n_int m = [48] \/ exists d ds, n_int m = d :: ds /\ 49 <= d <= 57 /\ digits ds) /\
  digits (n_frac m) /\
  match n_exp m with
  | None => True
  | Some (e, sg, ds) => (e = 101 \/ e = 69) /\ (sg = [] \/ sg = [43] \/ sg = [45]) /\
                        ds <> [] /\ digits ds
  end.

(** A hex digit in lower case. *)
Definition hexd (d : Z) : Z := if d <? 10 then 48 + d else 87 + d.

Definition esc (r : Z) : list Z :=
  if r =? 34 then [92; 34]
  else if r =? 92 then [92; 92]
  else if r <? 32 then [92; 117; 48; 48; hexd (r / 16); hexd (r mod 16)]
  else EncodeRune r.

Definition str_text (s : list Z) : list Z := [34] ++ concat (map esc s) ++ [34].

Definition sep_by (ts : list (list Z)) : list Z :=
  match ts with [] => [] | t :: ts => t ++ concat (map (cons 44) ts) end.

Fixpoint json_text (v : JSON) : list Z :=
  match v with
  | JNull => gs "null"
  | JBool true => gs "true"
  | JBool false => gs "false"
  | JNumber lit => lit
  | JString s => str_text s
  | JArray es => [91] ++ sep_by (map json_text es) ++ [93]
  | JObject ms => [123] ++ sep_by (map (fun m => str_text m.1 ++ [58] ++ json_text m.2) ms) ++ [125]
  end.

Fixpoint json_ok (v : JSON) : Prop :=
  match v with
  | JNull | JBool _ => True
  | JNumber lit => exists m, num_ok m /\ lit = num_text m
  | JString s => Forall valid_rune s
  | JArray es => fold_right (fun e P => json_ok e /\ P) True es
  | JObject ms => fold_right (fun m P => Forall valid_rune m.1 /\ json_ok m.2 /\ P) True ms
  end.

(** The number of containers open at the deepest point. *)
Fixpoint depth (v : JSON) : nat :=
  match v with
  | JArray es => S (fold_right (fun e d => Nat.max (depth e) d) 0%nat es)
  | JObject ms => S (fold_right (fun m d => Nat.max (depth m.2) d) 0%nat ms)
  | _ => 0%nat
  end.

(** Induction on JSON values with hypotheses on the elements and the
    member values. *)
Definition JSON_deep_ind (P : JSON -> Prop)
    (fnull : P JNull) (fbool : forall b, P (JBool b)) (fnum : forall l, P (JNumber l))
    (fstr : forall s, P (JString s))
    (farr : forall es, Forall P es -> P (JArray es))
    (fobj : forall ms, Forall (fun m => P m.2) ms -> P (JObject ms)) : forall v, P v :=
  fix F (v : JSON) : P v :=
    match v with
    | JNull => fnull
    | JBool b => fbool b
    | JNumber l => fnum l
    | JString s => fstr s
    | JArray es => farr es ((fix G (es : list JSON) : Forall P es :=
        match es with [] => @List.Forall_nil _ _ | e :: es => @List.Forall_cons _ P e es (F e) (G es) end) es)
    | JObject ms => fobj ms ((fix G (ms : list (list Z * JSON)) : Forall (fun m => P m.2) ms :=
        match ms with [] => @List.Forall_nil _ _ | m :: ms => @List.Forall_cons _ (fun m => P m.2) m ms (F m.2) (G ms) end) ms)
    end.

(** A scanner with no error, before the end of the top-level value. *)
Definition mk_scanner (st : stepFn) (ps : list parseKind) (n : Z) : scanner :=
  {| step := st; endTop := false; parseState := ps; err := None; bytes := n |}.

(** The states that end a value: the next byte goes to [stateEndValue]. *)
Definition ends_value (st : stepFn) : bool :=
  match st with EndValue | Zero | One | Dot0 | E0 => true | _ => false end.

(** [moves st c st1]: from [st], the byte [c] leads to [st1] without an
    error and without touching the stack. *)
Definition moves (st : stepFn) (c : Z) (st1 : stepFn) : Prop :=
  forall ps m, (scan_step (mk_scanner st ps m) c).1 = mk_scanner st1 ps m /\
               (scan_step (mk_scanner st ps m) c).2 <> scanError.

(** The scanner once the top-level value is complete. *)
Definition top_done (n : Z) : scanner :=
  {| step := EndTop; endTop := true; parseState := []; err := None; bytes := n |}.

(** After [popParseState]: the enclosing container waits for its next
    byte, or the top-level value is complete. *)
Definition closed (ps : list parseKind) (n : Z) : scanner :=
  match ps with [] => top_done n | _ => mk_scanner EndValue ps n end.

(** The states a value can leave the scanner in. *)
Definition after_value (ps : list parseKind) (n : Z) (s : scanner) : Prop :=
  (exists st, ends_value st = true /\ s = mk_scanner st ps n) \/ (ps = [] /\ s = top_done n).

(** The scanner reads the text of [v] from the start of a value. *)
Definition scans_value (v : JSON) : Prop :=
  forall st ps n, st = BeginValue \/ st = BeginValueOrEmpty -> json_ok v ->
  (Z.of_nat (length ps + depth v) <= maxNestingDepth)%Z ->
  exists s, scan_bytes (mk_scanner st ps n) (json_text v) = inl s /\
            after_value ps (n + Z.of_nat (length (json_text v))) s.

(** [k+1] arrays, one inside the other. *)
Fixpoint nested (k : nat) : JSON :=
  match k with O => JArray [] | S k => JArray [nested k] end.

(** ** Scanning JSON texts *)

Lemma scan_bytes_app (s : scanner) (l1 l2 : list Z) :
  scan_bytes s (l1 ++ l2) =
    match scan_bytes s l1 with inl s' => scan_bytes s' l2 | inr e => inr e end.
Proof.
  revert s. induction l1 as [|c l1 IH]; intros s; [done|]. cbn.
  destruct (scan_step _ c) as [s1 op]. by destruct op.
Qed.

Lemma scan_bytes_app_inl (s s1 : scanner) (l1 l2 : list Z) :
  scan_bytes s l1 = inl s1 -> scan_bytes s (l1 ++ l2) = scan_bytes s1 l2.
Proof. intros E. by rewrite scan_bytes_app, E. Qed.

Lemma scan_bytes_one (s s1 : scanner) (c : Z) (op : scanCode) :
  scan_step (set_bytes s (bytes s + 1)) c = (s1, op) -> op <> scanError ->
  scan_bytes s [c] = inl s1.
Proof. intros E Hop. cbn. rewrite E. by destruct op. Qed.

(** Two runs chained. *)
Lemma scan_bytes_trans (s s1 s2 : scanner) (l1 l2 : list Z) :
  scan_bytes s l1 = inl s1 -> scan_bytes s1 l2 = inl s2 -> scan_bytes s (l1 ++ l2) = inl s2.
Proof. intros E1 E2. by rewrite (scan_bytes_app_inl _ _ _ _ E1). Qed.

Lemma mk_scanner_bytes (st : stepFn) (ps : list parseKind) (n : Z) :
  set_bytes (mk_scanner st ps n) (bytes (mk_scanner st ps n) + 1) = mk_scanner st ps (n + 1).
Proof. reflexivity. Qed.

(** A byte that ends a value, from a state that ends one. *)
Lemma ends_value_step (st : stepFn) (ps : list parseKind) (n c : Z) :
  ends_value st = true -> c = 44 \/ c = 93 \/ c = 125 \/ c = 58 ->
  scan_step (mk_scanner st ps n) c = stateEndValue (mk_scanner EndValue ps n) c.
Proof.
  intros Hst Hc. destruct st; try discriminate; unfold scan_step; cbn [step mk_scanner];
    unfold state1, state0, stateDot0, stateE0, is_digit;
    destruct Hc as [-> | [-> | [-> | ->]]]; reflexivity.
Qed.

(** A run of plain string bytes stays in the string. *)
Lemma scan_in_string (bs : list Z) (ps : list parseKind) (n : Z) :
  Forall (fun b => 32 <= b /\ b <> 34 /\ b <> 92) bs ->
  scan_bytes (mk_scanner InString ps n) bs = inl (mk_scanner InString ps (n + Z.of_nat (length bs))).
Proof.
  revert n. induction bs as [|b bs IH]; intros n Hbs; [by rewrite Z.add_0_r|].
  apply Forall_cons in Hbs as [[Hb1 [Hb2 Hb3]] Hbs].
  replace (n + Z.of_nat (length (b :: bs))) with (n + 1 + Z.of_nat (length bs))
    by (rewrite length_cons; lia).
  apply (scan_bytes_trans _ (mk_scanner InString ps (n + 1)) _ [b] bs); [|by apply IH].
  apply (scan_bytes_one _ _ _ scanContinue); [|done]. rewrite mk_scanner_bytes. unfold scan_step; cbn [step mk_scanner].
  unfold stateInString. by zcase_on b; try lia.
Qed.

(** [scan_done] closes a goal [scan_bytes ... = inl (mk_scanner ...)] on
    concrete bytes by computation, up to the arithmetic of [bytes]. *)
Ltac scan_done := cbv -[Z.add]; f_equal; f_equal; lia.

Lemma hexd_hex (d : Z) : 0 <= d < 16 -> is_hex (hexd d) = true.
Proof.
  intros Hd. unfold hexd, is_hex, is_digit.
  destruct (Z.ltb_spec d 10); zcase; try lia; try reflexivity; by rewrite ?orb_true_r.
Qed.

Lemma scan_hex4 (h1 h2 h3 h4 : Z) (ps : list parseKind) (n : Z) :
  is_hex h1 = true -> is_hex h2 = true -> is_hex h3 = true -> is_hex h4 = true ->
  scan_bytes (mk_scanner InStringEscU ps n) [h1; h2; h3; h4] = inl (mk_scanner InString ps (n + 4)).
Proof.
  intros H1 H2 H3 H4.
  do 4 (cbn -[is_hex]; unfold stateInStringEscU_; rewrite ?H1, ?H2, ?H3, ?H4). scan_done.
Qed.

(** The escape of one rune keeps the scanner in the string. *)
Lemma scan_esc (r : Z) (ps : list parseKind) (n : Z) :
  valid_rune r ->
  scan_bytes (mk_scanner InString ps n) (esc r) =
    inl (mk_scanner InString ps (n + Z.of_nat (length (esc r)))).
Proof.
  intros Hr. unfold esc.
  destruct (Z.eqb_spec r 34); [scan_done|].
  destruct (Z.eqb_spec r 92); [scan_done|].
  destruct (Z.ltb_spec r 32).
  - assert (0 <= r) by (unfold valid_rune in Hr; lia).
    change [92; 117; 48; 48; hexd (r / 16); hexd (r mod 16)]
      with ([92; 117] ++ [48; 48; hexd (r / 16); hexd (r mod 16)]).
    rewrite (scan_bytes_app_inl _ (mk_scanner InStringEscU ps (n + 2))) by scan_done.
    rewrite scan_hex4 by (done || apply hexd_hex; Z.div_mod_to_equations; lia).
    cbn. do 2 f_equal. lia.
  - apply scan_in_string.
    assert (Hi : int32_range r) by (unfold valid_rune, MaxRune, int32_range in *; lia).
    destruct (EncodeRune_shape r Hi) as [[_ ->] | [_ Hb]].
    + constructor; [lia | constructor].
    + eapply Forall_impl; [exact Hb|]. intros x Hx; cbn in Hx; lia.
Qed.

Lemma scan_str_body (str : list Z) (ps : list parseKind) (n : Z) :
  Forall valid_rune str ->
  scan_bytes (mk_scanner InString ps n) (concat (map esc str)) =
    inl (mk_scanner InString ps (n + Z.of_nat (length (concat (map esc str))))).
Proof.
  revert n. induction str as [|r str IH]; intros n Hs; [by rewrite Z.add_0_r|].
  apply Forall_cons in Hs as [Hr Hs]. cbn [map concat].
  erewrite scan_bytes_trans; [done | by apply scan_esc |].
  rewrite IH by done. rewrite length_app. do 2 f_equal. lia.
Qed.

Lemma scan_bytes_cons_mk (st st' : stepFn) (ps : list parseKind) (n c : Z) (l : list Z)
    (op : scanCode) :
  scan_step (mk_scanner st ps (n + 1)) c = (mk_scanner st' ps (n + 1), op) -> op <> scanError ->
  scan_bytes (mk_scanner st ps n) (c :: l) = scan_bytes (mk_scanner st' ps (n + 1)) l.
Proof. intros E Hop. cbn [scan_bytes]. rewrite mk_scanner_bytes, E. by destruct op. Qed.

Lemma scan_str_text (st : stepFn) (ps : list parseKind) (n : Z) (str : list Z) :
  st = BeginValue \/ st = BeginValueOrEmpty \/ st = BeginString \/ st = BeginStringOrEmpty ->
  Forall valid_rune str ->
  scan_bytes (mk_scanner st ps n) (str_text str) =
    inl (mk_scanner EndValue ps (n + Z.of_nat (length (str_text str)))).
Proof.
  intros Hst Hs. unfold str_text. cbn [app].
  rewrite (scan_bytes_cons_mk st InString _ _ _ _ scanBeginLiteral)
    by (done || by destruct Hst as [-> | [-> | [-> | ->]]]).
  rewrite scan_bytes_app, scan_str_body by done.
  rewrite (scan_bytes_one _ (mk_scanner EndValue ps (n + 1 + Z.of_nat (length (concat (map esc str))) + 1))
             _ scanContinue) by done.
  rewrite length_cons, length_app. cbn [length]. do 2 f_equal. lia.
Qed.

Lemma scan_digits (st : stepFn) (ps : list parseKind) (n : Z) (ds : list Z) :
  st = One \/ st = Dot0 \/ st = E0 -> digits ds ->
  scan_bytes (mk_scanner st ps n) ds = inl (mk_scanner st ps (n + Z.of_nat (length ds))).
Proof.
  intros Hst Hds. revert n. induction Hds as [|d ds Hd _ IH]; intros n; [by rewrite Z.add_0_r|].
  rewrite (scan_bytes_cons_mk st st _ _ _ _ scanContinue).
  - rewrite IH, length_cons. do 2 f_equal. lia.
  - destruct Hst as [-> | [-> | ->]]; unfold scan_step; cbn [step mk_scanner];
      unfold state1, stateDot0, stateE0; rewrite Hd; reflexivity.
  - done.
Qed.

(** [zsplit] splits on the comparisons of the goal, dropping at once the
    branches the hypotheses contradict. *)
Ltac zsplit :=
  repeat match goal with
  | |- context [Z.leb ?a ?b] => destruct (Z.leb_spec a b); try (exfalso; lia)
  | |- context [Z.ltb ?a ?b] => destruct (Z.ltb_spec a b); try (exfalso; lia)
  | |- context [Z.eqb ?a ?b] => destruct (Z.eqb_spec a b); try (exfalso; lia)
  end; cbn.

Ltac moves_tac :=
  intros ?ps ?m; unfold scan_step; cbn [step mk_scanner]; unfold_states;
  unfold isSpace, is_digit in *; bool_facts; zsplit; (split; [reflexivity | discriminate]).

(** One byte, then a run: the bytes counted once. *)
Lemma scan_then_run (st st1 st2 : stepFn) (ps : list parseKind) (n c : Z) (l : list Z) :
  moves st c st1 ->
  scan_bytes (mk_scanner st1 ps (n + 1)) l = inl (mk_scanner st2 ps (n + 1 + Z.of_nat (length l))) ->
  scan_bytes (mk_scanner st ps n) (c :: l) = inl (mk_scanner st2 ps (n + Z.of_nat (length (c :: l)))).
Proof.
  intros Hm R. destruct (Hm ps (n + 1)) as [E1 E2].
  destruct (scan_step (mk_scanner st ps (n + 1)) c) as [s1 op] eqn:E. cbn in E1, E2. subst s1.
  rewrite (scan_bytes_cons_mk st st1 _ _ _ _ op E E2), R, length_cons.
  do 2 f_equal. lia.
Qed.

Lemma scan_then_run_nil (st st1 : stepFn) (ps : list parseKind) (n c : Z) :
  moves st c st1 ->
  scan_bytes (mk_scanner st ps n) [c] = inl (mk_scanner st1 ps (n + Z.of_nat (length [c]))).
Proof. intros Hm. apply (scan_then_run _ st1); [done|]. by rewrite Z.add_0_r. Qed.

Lemma moves_begin_number (st : stepFn) (d : Z) :
  st = BeginValue \/ st = BeginValueOrEmpty \/ st = Neg ->
  (d = 48 -> moves st d Zero) /\ (49 <= d <= 57 -> moves st d One).
Proof.
  intros Hst; split; intros Hd; [subst d|]; destruct Hst as [-> | [-> | ->]]; moves_tac.
Qed.

Lemma moves_digit (st : stepFn) (d : Z) :
  is_digit d = true -> (st = One \/ st = Dot \/ st = ESign \/ st = E) ->
  moves st d (match st with One => One | Dot => Dot0 | _ => E0 end).
Proof. intros Hd Hst. destruct Hst as [-> | [-> | [-> | ->]]]; moves_tac. Qed.

Lemma scan_int_digits (st : stepFn) (ps : list parseKind) (n : Z) (int : list Z) :
  st = BeginValue \/ st = BeginValueOrEmpty \/ st = Neg ->
  (int = [48] \/ exists d ds, int = d :: ds /\ 49 <= d <= 57 /\ digits ds) ->
  exists st1, (st1 = Zero \/ st1 = One) /\
    scan_bytes (mk_scanner st ps n) int = inl (mk_scanner st1 ps (n + Z.of_nat (length int))).
Proof.
  intros Hst [->|(d & ds & -> & Hd & Hds)].
  - exists Zero. split; [by left|]. apply scan_then_run_nil. by apply (moves_begin_number st 48 Hst).
  - exists One. split; [by right|]. apply (scan_then_run _ One); [by apply (moves_begin_number st d Hst)|].
    apply scan_digits; [by left | done].
Qed.

Lemma scan_frac (st1 : stepFn) (ps : list parseKind) (n : Z) (f : list Z) :
  st1 = Zero \/ st1 = One -> digits f ->
  exists st2, (st2 = Zero \/ st2 = One \/ st2 = Dot0) /\
    scan_bytes (mk_scanner st1 ps n) (frac_text f) =
      inl (mk_scanner st2 ps (n + Z.of_nat (length (frac_text f)))).
Proof.
  intros Hst Hf. destruct f as [|d f].
  { exists st1. split; [naive_solver|]. cbn. by rewrite Z.add_0_r. }
  apply Forall_cons in Hf as [Hd Hf]. exists Dot0. split; [by right; right|]. unfold frac_text.
  apply (scan_then_run _ Dot); [destruct Hst as [-> | ->]; moves_tac|].
  apply (scan_then_run _ Dot0); [by apply (moves_digit Dot); [|right; left]|].
  apply scan_digits; [by right; left | done].
Qed.

Lemma scan_exp (st2 : stepFn) (ps : list parseKind) (n : Z) (x : option (Z * list Z * list Z)) :
  st2 = Zero \/ st2 = One \/ st2 = Dot0 ->
  match x with
  | None => True
  | Some (e, sg, ds) => (e = 101 \/ e = 69) /\ (sg = [] \/ sg = [43] \/ sg = [45]) /\
                        ds <> [] /\ digits ds
  end ->
  exists st3, ends_value st3 = true /\
    scan_bytes (mk_scanner st2 ps n) (exp_text x) =
      inl (mk_scanner st3 ps (n + Z.of_nat (length (exp_text x)))).
Proof.
  intros Hst Hx. destruct x as [[[e sg] ds]|].
  2:{ exists st2. split; [by destruct Hst as [-> | [-> | ->]]|]. cbn. by rewrite Z.add_0_r. }
  destruct Hx as (He & Hsg & Hne & Hds). destruct ds as [|d ds]; [done|].
  apply Forall_cons in Hds as [Hd Hds]. exists E0. split; [done|]. unfold exp_text.
  apply (scan_then_run _ E); [destruct He as [-> | ->]; destruct Hst as [-> | [-> | ->]]; moves_tac|].
  destruct Hsg as [-> | [-> | ->]]; cbn [app].
  - apply (scan_then_run _ E0); [by apply (moves_digit E); [|right; right; right]|].
    apply scan_digits; [by right; right | done].
  - apply (scan_then_run _ ESign); [moves_tac|].
    apply (scan_then_run _ E0); [by apply (moves_digit ESign); [|right; right; left]|].
    apply scan_digits; [by right; right | done].
  - apply (scan_then_run _ ESign); [moves_tac|].
    apply (scan_then_run _ E0); [by apply (moves_digit ESign); [|right; right; left]|].
    apply scan_digits; [by right; right | done].
Qed.

(** A number, from the start of a value. *)
Lemma scan_num (st : stepFn) (ps : list parseKind) (n : Z) (m : num_lit) :
  st = BeginValue \/ st = BeginValueOrEmpty -> num_ok m ->
  exists st', ends_value st' = true /\
    scan_bytes (mk_scanner st ps n) (num_text m) =
      inl (mk_scanner st' ps (n + Z.of_nat (length (num_text m)))).
Proof.
  intros Hst (Hint & Hf & Hx). unfold num_text.
  assert (Hsign : exists st0, (st0 = BeginValue \/ st0 = BeginValueOrEmpty \/ st0 = Neg) /\
     scan_bytes (mk_scanner st ps n) (if n_neg m then [45] else []) =
       inl (mk_scanner st0 ps (n + Z.of_nat (length (if n_neg m then [45] else []))))).
  { destruct (n_neg m).
    - exists Neg. split; [by right; right|]. apply scan_then_run_nil.
      destruct Hst as [-> | ->]; moves_tac.
    - exists st. split; [destruct Hst; auto|]. cbn. by rewrite Z.add_0_r. }
  destruct Hsign as (st0 & Hst0 & R0).
  set (n0 := n + Z.of_nat (length (if n_neg m then [45] else []))) in R0.
  destruct (scan_int_digits st0 ps n0 _ Hst0 Hint) as (st1 & Hst1 & R1).
  set (n1 := n0 + Z.of_nat (length (n_int m))) in R1.
  destruct (scan_frac st1 ps n1 _ Hst1 Hf) as (st2 & Hst2 & R2).
  set (n2 := n1 + Z.of_nat (length (frac_text (n_frac m)))) in R2.
  destruct (scan_exp st2 ps n2 _ Hst2 Hx) as (st3 & Hst3 & R3).
  exists st3. split; [done|].
  rewrite (scan_bytes_app_inl _ _ _ _ R0), (scan_bytes_app_inl _ _ _ _ R1),
    (scan_bytes_app_inl _ _ _ _ R2), R3, !length_app. subst n0 n1 n2. do 2 f_equal. lia.
Qed.

(** ** Containers *)

Lemma closed_after (ps : list parseKind) (n : Z) : after_value ps n (closed ps n).
Proof. destruct ps; [by right | left; by exists EndValue]. Qed.

Lemma scan_open (st : stepFn) (ps : list parseKind) (n : Z) :
  st = BeginValue \/ st = BeginValueOrEmpty -> (Z.of_nat (length ps) < maxNestingDepth)%Z ->
  scan_bytes (mk_scanner st ps n) [91] =
    inl (mk_scanner BeginValueOrEmpty (parseArrayValue :: ps) (n + 1)) /\
  scan_bytes (mk_scanner st ps n) [123] =
    inl (mk_scanner BeginStringOrEmpty (parseObjectKey :: ps) (n + 1)).
Proof.
  intros Hst Hd.
  destruct Hst as [-> | ->]; split; cbn [scan_bytes]; rewrite mk_scanner_bytes; unfold scan_step;
    cbn [step mk_scanner]; unfold stateBeginValueOrEmpty, stateBeginValue, pushParseState;
    cbn -[Z.of_nat maxNestingDepth];
    (match goal with |- context [Z.leb ?a ?b] => destruct (Z.leb_spec a b) end;
     [reflexivity | exfalso; lia]).
Qed.

Lemma scan_after_byte (st : stepFn) (k : parseKind) (ps : list parseKind) (n c : Z) :
  ends_value st = true -> c = 44 \/ c = 93 \/ c = 125 \/ c = 58 ->
  scan_bytes (mk_scanner st (k :: ps) n) [c] =
    scan_bytes (mk_scanner EndValue (k :: ps) n) [c].
Proof.
  intros Hst Hc. cbn [scan_bytes]. rewrite !mk_scanner_bytes, ends_value_step by done.
  unfold scan_step. by cbn [step mk_scanner].
Qed.

Lemma scan_array_close (ps : list parseKind) (n : Z) :
  scan_bytes (mk_scanner EndValue (parseArrayValue :: ps) n) [93] = inl (closed ps (n + 1)) /\
  scan_bytes (mk_scanner BeginValueOrEmpty (parseArrayValue :: ps) n) [93] = inl (closed ps (n + 1)).
Proof. by destruct ps. Qed.

Lemma scan_object_close (ps : list parseKind) (n : Z) :
  scan_bytes (mk_scanner EndValue (parseObjectValue :: ps) n) [125] = inl (closed ps (n + 1)) /\
  scan_bytes (mk_scanner BeginStringOrEmpty (parseObjectKey :: ps) n) [125] = inl (closed ps (n + 1)).
Proof. by destruct ps. Qed.

Lemma scan_separators (ps : list parseKind) (n : Z) :
  scan_bytes (mk_scanner EndValue (parseArrayValue :: ps) n) [44] =
    inl (mk_scanner BeginValue (parseArrayValue :: ps) (n + 1)) /\
  scan_bytes (mk_scanner EndValue (parseObjectValue :: ps) n) [44] =
    inl (mk_scanner BeginString (parseObjectKey :: ps) (n + 1)) /\
  scan_bytes (mk_scanner EndValue (parseObjectKey :: ps) n) [58] =
    inl (mk_scanner BeginValue (parseObjectValue :: ps) (n + 1)).
Proof. done. Qed.

Lemma depth_elem (es : list JSON) (v : JSON) :
  v ∈ es -> (depth v <= fold_right (fun e d => Nat.max (depth e) d) 0 es)%nat.
Proof.
  induction es as [|e es IH]; [by intros ?%elem_of_nil|].
  intros [->|Hv]%elem_of_cons; cbn; [lia|]. specialize (IH Hv). lia.
Qed.

Lemma depth_member (ms : list (list Z * JSON)) (m : list Z * JSON) :
  m ∈ ms -> (depth m.2 <= fold_right (fun m d => Nat.max (depth m.2) d) 0 ms)%nat.
Proof.
  induction ms as [|m' ms IH]; [by intros ?%elem_of_nil|].
  intros [->|Hm]%elem_of_cons; cbn; [lia|]. specialize (IH Hm). lia.
Qed.

Lemma after_value_cons (k : parseKind) (ps : list parseKind) (n : Z) (s : scanner) :
  after_value (k :: ps) n s -> exists st, ends_value st = true /\ s = mk_scanner st (k :: ps) n.
Proof. by intros [?|[? _]]. Qed.

(** The text of one member of an object. *)
Definition member_text (m : list Z * JSON) : list Z := str_text m.1 ++ [58] ++ json_text m.2.

Lemma scan_member (st : stepFn) (ps : list parseKind) (n : Z) (m : list Z * JSON) :
  st = BeginString \/ st = BeginStringOrEmpty -> Forall valid_rune m.1 -> json_ok m.2 ->
  scans_value m.2 -> (Z.of_nat (length (parseObjectValue :: ps) + depth m.2) <= maxNestingDepth)%Z ->
  exists st', ends_value st' = true /\
    scan_bytes (mk_scanner st (parseObjectKey :: ps) n) (member_text m) =
      inl (mk_scanner st' (parseObjectValue :: ps) (n + Z.of_nat (length (member_text m)))).
Proof.
  intros Hst Hk Hv IH Hd. unfold member_text.
  rewrite (scan_bytes_app_inl _ _ _ _ (scan_str_text st _ n _ ltac:(naive_solver) Hk)).
  rewrite (scan_bytes_app_inl _ _ _ _ (proj2 (proj2 (scan_separators ps _)))).
  destruct (IH BeginValue (parseObjectValue :: ps) (n + Z.of_nat (length (str_text m.1)) + 1)
    ltac:(by left) Hv Hd) as (s' & R & Ha).
  apply after_value_cons in Ha as (st' & Hst' & ->). exists st'. split; [done|].
  rewrite R, !length_app. cbn [length]. do 2 f_equal. lia.
Qed.

(** The elements after the first, then [']']. *)
Lemma scan_array_rest (ps : list parseKind) (vs : list JSON) (st : stepFn) (n : Z) :
  ends_value st = true -> Forall scans_value vs ->
  fold_right (fun e P => json_ok e /\ P) True vs ->
  (forall v, v ∈ vs -> Z.of_nat (length (parseArrayValue :: ps) + depth v) <= maxNestingDepth)%Z ->
  let t := concat (map (cons 44) (map json_text vs)) ++ [93] in
  scan_bytes (mk_scanner st (parseArrayValue :: ps) n) t = inl (closed ps (n + Z.of_nat (length t))).
Proof.
  revert st n. induction vs as [|v vs IH]; intros st n Hst Hsc Hok Hd t; subst t.
  { cbn [map concat app]. rewrite scan_after_byte by (done || naive_solver).
    rewrite (proj1 (scan_array_close ps n)). do 2 f_equal; try (cbn; lia). }
  apply Forall_cons in Hsc as [Hv Hsc]. destruct Hok as [Hok1 Hok].
  cbn [map concat]. rewrite <- !app_assoc.
  change (44 :: json_text v) with ([44] ++ json_text v). rewrite <- !app_assoc.
  rewrite scan_bytes_app, scan_after_byte, (proj1 (scan_separators ps n)) by (done || naive_solver).
  destruct (Hv BeginValue (parseArrayValue :: ps) (n + 1) ltac:(by left) Hok1
    (Hd v ltac:(set_solver))) as (s' & R & Ha).
  apply after_value_cons in Ha as (st' & Hst' & ->).
  rewrite (scan_bytes_app_inl _ _ _ _ R), (IH st') by (done || (intros; apply Hd; set_solver)).
  rewrite !length_app. cbn [length]. do 2 f_equal. lia.
Qed.

(** The members after the first, then ['}']. *)
Lemma scan_object_rest (ps : list parseKind) (ms : list (list Z * JSON)) (st : stepFn) (n : Z) :
  ends_value st = true -> Forall (fun m => scans_value m.2) ms ->
  fold_right (fun m P => Forall valid_rune m.1 /\ json_ok m.2 /\ P) True ms ->
  (forall m, m ∈ ms -> Z.of_nat (length (parseObjectValue :: ps) + depth m.2) <= maxNestingDepth)%Z ->
  let t := concat (map (cons 44) (map member_text ms)) ++ [125] in
  scan_bytes (mk_scanner st (parseObjectValue :: ps) n) t = inl (closed ps (n + Z.of_nat (length t))).
Proof.
  revert st n. induction ms as [|m ms IH]; intros st n Hst Hsc Hok Hd t; subst t.
  { cbn [map concat app]. rewrite scan_after_byte by (done || naive_solver).
    rewrite (proj1 (scan_object_close ps n)). do 2 f_equal; try (cbn; lia). }
  apply Forall_cons in Hsc as [Hv Hsc]. destruct Hok as (Hk & Hok1 & Hok).
  cbn [map concat]. rewrite <- !app_assoc.
  change (44 :: member_text m) with ([44] ++ member_text m). rewrite <- !app_assoc.
  rewrite scan_bytes_app, scan_after_byte, (proj1 (proj2 (scan_separators ps n)))
    by (done || naive_solver).
  destruct (scan_member BeginString ps (n + 1) m ltac:(by left) Hk Hok1 Hv
    (Hd m ltac:(set_solver))) as (st' & Hst' & R).
  rewrite (scan_bytes_app_inl _ _ _ _ R), (IH st') by (done || (intros; apply Hd; set_solver)).
  rewrite !length_app. cbn [length]. do 2 f_equal. lia.
Qed.

(** ** Every value *)

Lemma literal_texts :
  json_text JNull = [110; 117; 108; 108] /\ json_text (JBool true) = [116; 114; 117; 101] /\
  json_text (JBool false) = [102; 97; 108; 115; 101].
Proof. vm_compute. repeat split. Qed.

Lemma scan_literal (st : stepFn) (ps : list parseKind) (n : Z) (v : JSON) :
  st = BeginValue \/ st = BeginValueOrEmpty -> v = JNull \/ (exists b, v = JBool b) ->
  scan_bytes (mk_scanner st ps n) (json_text v) =
    inl (mk_scanner EndValue ps (n + Z.of_nat (length (json_text v)))).
Proof.
  destruct literal_texts as (E1 & E2 & E3).
  intros Hst [-> | [[|] ->]]; [rewrite E1 | rewrite E2 | rewrite E3];
    destruct Hst as [-> | ->]; scan_done.
Qed.

Lemma scan_value_all (v : JSON) : scans_value v.
Proof.
  induction v as [| b | l | str | es IH | ms IH] using JSON_deep_ind;
    intros st ps n Hst Hok Hd.
  - eexists; split; [apply scan_literal; naive_solver | left; by exists EndValue].
  - eexists; split; [apply scan_literal; naive_solver | left; by exists EndValue].
  - destruct Hok as (m & Hm & ->).
    destruct (scan_num st ps n m Hst Hm) as (st' & Hst' & R).
    eexists; split; [exact R | left; by exists st'].
  - eexists; split; [apply scan_str_text; [naive_solver | done] | left; by exists EndValue].
  - cbn [depth] in Hd. cbn [json_text].
    destruct (scan_open st ps n Hst ltac:(lia)) as [Ro _].
    rewrite (scan_bytes_app_inl _ _ _ _ Ro).
    destruct es as [|v vs].
    + exists (closed ps (n + Z.of_nat (length ([91] ++ sep_by (map json_text []) ++ [93])))).
      split; [|apply closed_after]. cbn [map sep_by app].
      rewrite (proj2 (scan_array_close ps (n + 1))). do 2 f_equal; try (cbn; lia).
    + apply Forall_cons in IH as [IHv IHvs]. destruct Hok as [Hv Hvs].
      assert (Hdv : forall e, e ∈ v :: vs ->
        (Z.of_nat (length (parseArrayValue :: ps) + depth e) <= maxNestingDepth)%Z).
      { intros e He. pose proof (depth_elem (v :: vs) e He). cbn [length]. lia. }
      destruct (IHv BeginValueOrEmpty (parseArrayValue :: ps) (n + 1) ltac:(by right) Hv
        (Hdv v ltac:(set_solver))) as (s' & R & Ha).
      apply after_value_cons in Ha as (st' & Hst' & ->).
      cbn [map sep_by]. rewrite <- !app_assoc, (scan_bytes_app_inl _ _ _ _ R).
      rewrite (scan_array_rest ps vs st') by (done || (intros; apply Hdv; set_solver)).
      eexists; split; [reflexivity|]. rewrite !length_app. cbn [length].
      replace (n + 1 + Z.of_nat (length (json_text v)) +
               Z.of_nat (length (concat (map (cons 44) (map json_text vs))) + 1))
        with (n + Z.of_nat (1 + (length (json_text v) +
               (length (concat (map (cons 44) (map json_text vs))) + 1)))) by lia.
      apply closed_after.
  - cbn [depth] in Hd. cbn [json_text].
    destruct (scan_open st ps n Hst ltac:(lia)) as [_ Ro].
    rewrite (scan_bytes_app_inl _ _ _ _ Ro).
    change (map (fun m => str_text m.1 ++ [58] ++ json_text m.2) ms) with (map member_text ms).
    destruct ms as [|m ms].
    + exists (closed ps (n + Z.of_nat (length ([123] ++ sep_by (map member_text []) ++ [125])))).
      split; [|apply closed_after]. cbn [map sep_by app].
      rewrite (proj2 (scan_object_close ps (n + 1))). do 2 f_equal; try (cbn; lia).
    + apply Forall_cons in IH as [IHm IHms]. destruct Hok as (Hk & Hv & Hms).
      assert (Hdm : forall m', m' ∈ m :: ms ->
        (Z.of_nat (length (parseObjectValue :: ps) + depth m'.2) <= maxNestingDepth)%Z).
      { intros m' Hm'. pose proof (depth_member (m :: ms) m' Hm'). cbn [length]. lia. }
      destruct (scan_member BeginStringOrEmpty ps (n + 1) m ltac:(by right) Hk Hv IHm
        (Hdm m ltac:(set_solver))) as (st' & Hst' & R).
      cbn [map sep_by]. rewrite <- !app_assoc, (scan_bytes_app_inl _ _ _ _ R).
      rewrite (scan_object_rest ps ms st') by (done || (intros; apply Hdm; set_solver)).
      eexists; split; [reflexivity|]. rewrite !length_app. cbn [length].
      replace (n + 1 + Z.of_nat (length (member_text m)) +
               Z.of_nat (length (concat (map (cons 44) (map member_text ms))) + 1))
        with (n + Z.of_nat (1 + (length (member_text m) +
               (length (concat (map (cons 44) (map member_text ms))) + 1)))) by lia.
      apply closed_after.
Qed.

Lemma eof_after (m : Z) (s : scanner) : after_value [] m s -> eof s = (fst (eof s), scanEnd).
Proof.
  intros [(st & Hst & ->)|[_ ->]]; [|reflexivity].
  destruct st; try discriminate; reflexivity.
Qed.

Lemma checkValid_text (v : JSON) :
  json_ok v -> Z.of_nat (depth v) <= maxNestingDepth ->
  checkValid (json_text v) zero_scanner = None.
Proof.
  intros Hok Hd. unfold checkValid. change (reset zero_scanner) with (mk_scanner BeginValue [] 0).
  destruct (scan_value_all v BeginValue [] 0 ltac:(by left) Hok ltac:(done)) as (s & -> & Ha).
  rewrite (eof_after _ _ Ha). by destruct (eof s).
Qed.

(** ** Nesting *)

Lemma repeat_snoc_app {A} (a : A) (k : nat) (l : list A) :
  repeat a k ++ a :: l = a :: repeat a k ++ l.
Proof. induction k as [|k IH]; [done|]. cbn. by rewrite IH. Qed.

Lemma scan_open_brackets (st : stepFn) (ps : list parseKind) (n : Z) (k : nat) :
  st = BeginValue \/ st = BeginValueOrEmpty ->
  (Z.of_nat (length ps + S k) <= maxNestingDepth)%Z ->
  scan_bytes (mk_scanner st ps n) (repeat 91 (S k)) =
    inl (mk_scanner BeginValueOrEmpty (repeat parseArrayValue (S k) ++ ps) (n + Z.of_nat (S k))).
Proof.
  revert st ps n. induction k as [|k IH]; intros st ps n Hst Hd.
  { change (repeat 91 1) with [91]. by rewrite (proj1 (scan_open st ps n Hst ltac:(lia))). }
  change (repeat 91 (S (S k))) with ([91] ++ repeat 91 (S k)).
  rewrite (scan_bytes_app_inl _ _ _ _ (proj1 (scan_open st ps n Hst ltac:(lia)))).
  rewrite IH by (by right) || (cbn [length] in *; lia).
  rewrite repeat_snoc_app. do 2 f_equal. lia.
Qed.

Lemma scan_too_deep (ps : list parseKind) (n : Z) :
  Z.of_nat (length ps) = maxNestingDepth ->
  scan_bytes (mk_scanner BeginValueOrEmpty ps n) [91] =
    inr (Some {| msg := InvalidCharacter 91 (gs "exceeded max depth"); Offset := n + 1 |}).
Proof.
  intros Hd. cbn [scan_bytes]. rewrite mk_scanner_bytes. unfold scan_step.
  cbn [step mk_scanner]. unfold stateBeginValueOrEmpty, stateBeginValue, pushParseState.
  cbn -[Z.of_nat maxNestingDepth gs].
  destruct (Z.leb_spec (Z.of_nat (S (length ps))) maxNestingDepth); [lia|]. reflexivity.
Qed.


Lemma nested_text (k : nat) : json_text (nested k) = repeat 91 (S k) ++ repeat 93 (S k).
Proof.
  induction k as [|k IH]; [done|]. cbn [nested json_text map sep_by concat].
  rewrite IH, app_nil_r.
  change (repeat 91 (S (S k))) with (91 :: repeat 91 (S k)).
  change (repeat 93 (S (S k))) with (93 :: repeat 93 (S k)).
  rewrite <- !app_assoc, (repeat_snoc_app 93 (S k) []), app_nil_r. done.
Qed.

Lemma nested_ok (k : nat) : json_ok (nested k) /\ depth (nested k) = S k.
Proof.
  induction k as [|k [IH1 IH2]]; [done|]. cbn [nested json_ok depth fold_right].
  split; [tauto | rewrite IH2; lia].
Qed.

(** [k] opening brackets beyond [maxNestingDepth]: the error at the
    first one too many, whatever follows. *)
Lemma checkValid_brackets (k : nat) (rest : list Z) :
  (Z.to_nat maxNestingDepth < k)%nat ->
  checkValid (repeat 91 k ++ rest) zero_scanner =
    Some {| msg := InvalidCharacter 91 (gs "exceeded max depth"); Offset := maxNestingDepth + 1 |}.
Proof.
  intros Hk. assert (HD : Z.of_nat (Z.to_nat maxNestingDepth) = maxNestingDepth)
    by (unfold maxNestingDepth; lia).
  destruct (Z.to_nat maxNestingDepth) as [|D] eqn:ED; [unfold maxNestingDepth in HD; lia|].
  assert (exists j, k = (S D + S j)%nat) as [j ->] by (exists (k - S (S D))%nat; lia).
  rewrite repeat_app, <- app_assoc. unfold checkValid.
  change (reset zero_scanner) with (mk_scanner BeginValue [] 0).
  rewrite (scan_bytes_app_inl _ _ _ _ (scan_open_brackets BeginValue [] 0 D ltac:(by left)
    ltac:(cbn [length plus]; lia))).
  change (repeat 91 (S j) ++ rest) with ([91] ++ (repeat 91 j ++ rest)).
  rewrite scan_bytes_app, scan_too_deep; [do 4 f_equal; lia|].
  rewrite length_app, repeat_length. cbn [length]. lia.
Qed.

(** ** Theorems *)

(** C19. Completeness of Go's scanner: [checkValid], the first step of
    [json.Unmarshal] at line 56, accepts the text of every well-formed JSON
    value (numbers as RFC 8259 writes them, strings of valid runes with
    escapes, arrays and objects of any length) nested at most
    [maxNestingDepth] deep. *)
Theorem checkValid_accepts (v : JSON) :
  json_ok v -> Z.of_nat (depth v) <= maxNestingDepth ->
  checkValid (json_text v) zero_scanner = None.
Proof. apply checkValid_text. Qed.

(** C20. The nesting bound is exact: [k] nested arrays are accepted when
    [k <= maxNestingDepth] (10000) and otherwise rejected with
    ["exceeded max depth"] at the bracket one too deep, byte 10001. *)
Theorem checkValid_nesting (k : nat) :
  (1 <= k)%nat ->
  checkValid (repeat 91 k ++ repeat 93 k) zero_scanner =
    if (k <=? Z.to_nat maxNestingDepth)%nat then None
    else Some {| msg := InvalidCharacter 91 (gs "exceeded max depth"); Offset := maxNestingDepth + 1 |}.
Proof.
  intros Hk. destruct k as [|k]; [lia|].
  destruct (Nat.leb_spec (S k) (Z.to_nat maxNestingDepth)) as [Hle|Hgt].
  - rewrite <- nested_text. destruct (nested_ok k) as [Hok Hd].
    apply checkValid_text; [done|]. rewrite Hd. unfold maxNestingDepth in *. lia.
  - by apply checkValid_brackets.
Qed.

(** ** Witnesses *)

(** A crt.sh record: two names on two lines, and an [id]. *)
Definition crtsh_sample : JSON :=
  JArray [JObject [(gs "common_name", JString (gs "example.com"));
                   (gs "name_value", JString (gs "a.example.com" ++ [10] ++ gs "b.example.com"));
                   (gs "id", JNumber (gs "123"))]].

Lemma crtsh_sample_ok :
  json_ok crtsh_sample /\ Z.of_nat (depth crtsh_sample) <= maxNestingDepth.
Proof.
  split; [|vm_compute; discriminate].
  cbn. repeat split; try solve_valid_runes.
  exists {| n_neg := false; n_int := [49; 50; 51]; n_frac := []; n_exp := None |}.
  split; [|reflexivity]. split; [right; exists 49, [50; 51]; repeat split; try lia; repeat constructor|].
  split; [constructor | done].
Qed.

Lemma checkValid_accepts_witness :
  json_ok crtsh_sample /\ Z.of_nat (depth crtsh_sample) <= maxNestingDepth /\
  checkValid (json_text crtsh_sample) zero_scanner = None.
Proof.
  destruct crtsh_sample_ok as [Hok Hd].
  split; [exact Hok|]. split; [exact Hd|]. exact (checkValid_accepts _ Hok Hd).
Defined.

Lemma checkValid_nesting_witness :
  (1 <= 3)%nat /\ checkValid (repeat 91 3 ++ repeat 93 3) zero_scanner = None.
Proof. split; [lia|]. exact (checkValid_nesting 3 ltac:(lia)). Defined.

End JsonText.
