(* ===== verification/JsonComplete.v ===== *)
(** * JsonComplete: the prefixes [checkValid] can still accept

    [checkValid] (file [JsonScan]) reads the body one byte at a time.
    This file shows that the scanner never gives up early: after any
    prefix that has saved no error, the bytes [completion] computes from
    the scanner's state (the rest of the current token, then one closing
    byte per open container) make a text [checkValid] accepts; and once
    an error is saved, no continuation is accepted.  Together: a prefix
    extends to a valid JSON text exactly when the scanner has saved no
    error.  A saved error is not the same as a rejected byte: Go's
    [stateEndTop] saves ["after top-level value"] for a non-space byte
    after a complete value and still answers [scanEnd], so the error
    only surfaces at the next byte or at [eof]. *)

From Stdlib Require Import ZArith.
From S2P Require Import Prelude GoStrings Utf8 Decode JsonScan JsonText.

Open Scope Z_scope.

Module JsonComplete.
Import JsonScan JsonText.

(** ** Completing a prefix *)

(** The bytes that finish the token the scanner is in: a digit for a
    value or a number that needs one, an empty key, the end of a string
    or of an escape, the rest of a literal. *)
Definition finish_token (st : stepFn) : list Z :=
  match st with
  | BeginValueOrEmpty | BeginValue | Neg | Dot | E | ESign => [48]
  | BeginStringOrEmpty | BeginString => [34; 34]
  | InString => [34]
  | InStringEsc => [110; 34]
  | InStringEscU => [48; 48; 48; 48; 34]
  | InStringEscU1 => [48; 48; 48; 34]
  | InStringEscU12 => [48; 48; 34]
  | InStringEscU123 => [48; 34]
  | T => [114; 117; 101] | Tr => [117; 101] | Tru => [101]
  | F => [97; 108; 115; 101] | Fa => [108; 115; 101] | Fal => [115; 101] | Fals => [101]
  | N => [117; 108; 108] | Nu => [108; 108] | Nul => [108]
  | EndValue | EndTop | One | Zero | Dot0 | E0 | Error => []
  end.

(** The state [finish_token] leaves the scanner in. *)
Definition finish_state (st : stepFn) : stepFn :=
  match st with
  | BeginValueOrEmpty | BeginValue | Neg | Zero => Zero
  | One => One
  | Dot | Dot0 => Dot0
  | E | ESign | E0 => E0
  | _ => EndValue
  end.

(** One closing byte per open container, innermost first; a key waits
    for [:0] before its object closes. *)
Definition close_byte (k : parseKind) : list Z :=
  match k with
  | parseArrayValue => [93]
  | parseObjectValue => [125]
  | parseObjectKey => [58; 48; 125]
  end.

Definition close_text (ps : list parseKind) : list Z := concat (map close_byte ps).

Definition completion (s : scanner) : list Z := finish_token (step s) ++ close_text (parseState s).

(** ** Lemmas *)

Lemma finish_run (st : stepFn) (ps : list parseKind) (n : Z) :
  st <> Error -> st <> EndTop ->
  scan_bytes (mk_scanner st ps n) (finish_token st) =
    inl (mk_scanner (finish_state st) ps (n + Z.of_nat (length (finish_token st)))).
Proof. intros H1 H2. destruct st; try congruence; scan_done. Qed.

Lemma finish_state_ends (st : stepFn) :
  st <> Error -> st <> EndTop -> ends_value (finish_state st) = true.
Proof. intros H1 H2. by destruct st. Qed.

(** From a state that ends a value, [close_text] closes every open
    container and completes the top-level value. *)
Lemma close_run (ps : list parseKind) :
  forall st n, ends_value st = true ->
  exists s' m, scan_bytes (mk_scanner st ps n) (close_text ps) = inl s' /\ after_value [] m s'.
Proof.
  induction ps as [|k ps IH]; intros st n Hst.
  { exists (mk_scanner st [] n), n. split; [done | left; by exists st]. }
  assert (Hcl : forall m, exists s' m', scan_bytes (closed ps m) (close_text ps) = inl s' /\
                                        after_value [] m' s').
  { intros m. destruct ps as [|k' ps']; [exists (top_done m), m; split; [done | by right]|].
    apply IH. done. }
  unfold close_text. cbn [map concat]. fold (close_text ps).
  destruct k; cbn [close_byte].
  - destruct (Hcl (n + 1 + 1 + 1)) as (s' & m' & E & Ha). exists s', m'. split; [|done].
    change [58; 48; 125] with ([58] ++ [48] ++ [125]). rewrite <- !app_assoc.
    apply (scan_bytes_trans _ (mk_scanner BeginValue (parseObjectValue :: ps) (n + 1))).
    { rewrite scan_after_byte by (auto || tauto). apply scan_separators. }
    apply (scan_bytes_trans _ (mk_scanner Zero (parseObjectValue :: ps) (n + 1 + 1))); [scan_done|].
    apply (scan_bytes_trans _ (closed ps (n + 1 + 1 + 1))); [|done].
    rewrite scan_after_byte by (auto || tauto). apply scan_object_close.
  - destruct (Hcl (n + 1)) as (s' & m' & E & Ha). exists s', m'. split; [|done].
    apply (scan_bytes_trans _ (closed ps (n + 1))); [|done].
    rewrite scan_after_byte by (auto || tauto). apply scan_object_close.
  - destruct (Hcl (n + 1)) as (s' & m' & E & Ha). exists s', m'. split; [|done].
    apply (scan_bytes_trans _ (closed ps (n + 1))); [|done].
    rewrite scan_after_byte by (auto || tauto). apply scan_array_close.
Qed.

(** A scanner that has saved an error rejects whatever follows. *)
Lemma scan_bytes_after_error (s : scanner) (rest : list Z) :
  scanner_inv s -> err s <> None ->
  match scan_bytes s rest with inl s' => err s' = err s | inr e => e = err s end.
Proof.
  intros Hi He. destruct rest as [|c rest]; [done|].
  assert (Hst : step s = Error) by (destruct (decide (step s = Error)); [done|]; by apply (inv_err s Hi) in n).
  destruct s as [st et ps e b]; cbn in *; subst st. reflexivity.
Qed.

(** ** Theorems *)

(** C25. Liveness of the syntax check: after any prefix of a body that
    the scanner has read without saving an error, the bytes
    [completion] computes from its state (the rest of the current token,
    then one closing byte per open container) complete it to a text
    [checkValid] accepts, so the scanner never rejects a prefix that can
    still be completed; and once an error is saved, no continuation is
    accepted. *)
Theorem checkValid_prefix (pre : list Z) (s : scanner) :
  scan_bytes (reset zero_scanner) pre = inl s ->
  (err s = None -> checkValid (pre ++ completion s) zero_scanner = None) /\
  (err s <> None -> forall rest, checkValid (pre ++ rest) zero_scanner <> None).
Proof.
  intros E.
  assert (Hr : reachable s) by (apply (scan_bytes_reachable (reset zero_scanner) s pre); [constructor | done]).
  pose proof (reachable_scanner_inv s Hr) as Hi.
  unfold checkValid. rewrite scan_bytes_app, E. split.
  - intros He. destruct Hi as [I1 _ I3 I4 I5 _ _].
    destruct s as [st et ps e n]; cbn in *; subst e.
    assert (Hst : st <> Error) by (by apply I1).
    destruct et.
    + rewrite (I3 eq_refl). destruct (I5 eq_refl) as [-> | ->]; [reflexivity | done].
    + assert (Hst' : st <> EndTop) by (intros ->; by specialize (I4 eq_refl)).
      unfold completion. cbn [step parseState].
      change {| step := st; endTop := false; parseState := ps; err := None; bytes := n |}
        with (mk_scanner st ps n).
      rewrite scan_bytes_app, finish_run by done.
      destruct (close_run ps (finish_state st) (n + Z.of_nat (length (finish_token st))))
        as (s' & m & E' & Ha); [by apply finish_state_ends|].
      rewrite E', (eof_after _ _ Ha). by destruct (eof s').
  - intros He rest. rewrite scan_bytes_app, E. pose proof (scan_bytes_after_error s rest Hi He) as Ha.
    destruct (scan_bytes s rest) as [s'|e]; [|by rewrite Ha].
    assert (Hs' : err s' <> None) by congruence.
    unfold eof. destruct (err s') as [e'|] eqn:Es; [|done]. cbn. by rewrite Es.
Qed.

(** ** Witnesses *)

(** The body [[{"a":tr] read so far: [completion] is [ue}]]. *)
Definition sample_prefix : list Z := [91; 123; 34; 97; 34; 58; 116; 114].

Definition sample_state : scanner :=
  match scan_bytes (reset zero_scanner) sample_prefix with inl s => s | inr _ => zero_scanner end.

Lemma checkValid_prefix_witness :
  scan_bytes (reset zero_scanner) sample_prefix = inl sample_state /\
  err sample_state = None /\
  checkValid (sample_prefix ++ completion sample_state) zero_scanner = None.
Proof.
  assert (E : scan_bytes (reset zero_scanner) sample_prefix = inl sample_state) by (vm_compute; reflexivity).
  assert (He : err sample_state = None) by (vm_compute; reflexivity).
  split; [exact E|]. split; [exact He|]. exact (proj1 (checkValid_prefix _ _ E) He).
Defined.

(** ** Examples *)

(** The completion of the sample prefix; after [1 x] the scanner has
    saved ["after top-level value"] although every byte answered
    without [scanError], and no continuation is accepted. *)
Example completion_examples :
  completion sample_state = [117; 101; 125; 93] /\
  match scan_bytes (reset zero_scanner) [49; 32; 120] with
  | inl s => err s = Some {| msg := InvalidCharacter 120 (gs "after top-level value"); Offset := 3 |}
  | inr _ => False
  end.
Proof. vm_compute. split; reflexivity. Qed.

End JsonComplete.
