(* ===== verification/JsonDecode.v ===== *)
(** * JsonDecode: how [json.Unmarshal] reads the value after the check

    After [checkValid] (file [JsonScan]), [json.Unmarshal(body,
    &certificates)] (crtRecon.go:56) walks the body a second time with the
    same scanner: [decodeState.value] dispatches on the last scan code,
    [decodeState.array] and [decodeState.object] loop over elements and
    members with [scanWhile] and [scanNext], and a literal is re-read by
    [rescanLiteral] without the scanner, its string contents unquoted by
    [unquoteBytes] (file [JsonString]).  Go stores what it reads into the
    [reflect.Value] of [[]Certificate] as it goes; this file models the
    traversal and returns the value it reads, a [Decode.JSON], which
    [Decode.decode_certificates] stores (strings as the runes [for range]
    reads from the bytes).  A [panic(phasePanicMsg)] of Go, which cannot
    happen after [checkValid] succeeded, and running out of fuel are
    [None], which [Unmarshal] reports as an error; the theorems show
    neither happens on the text of a value. *)

From Stdlib Require Import ZArith.
From S2P Require Import Prelude GoStrings Utf8 Utf8Decode JsonString ByteStrings Extract Decode JsonScan JsonText.

Open Scope Z_scope.

Module JsonDecode.
Import Unicode Utf8 Utf8Decode JsonString Extract Decode JsonScan JsonText.

(** The fields of [decodeState] the traversal uses. *)
Record decodeState := {
  data : list Z;
  off : nat;
  opcode : scanCode;
  scan : scanner }.

Definition with_scan (d : decodeState) (s : scanner) (op : scanCode) (o : nat) : decodeState :=
  {| data := data d; off := o; opcode := op; scan := s |}.

(** [d.readIndex()]. *)
Definition readIndex (d : decodeState) : nat := (off d - 1)%nat.

(** [d.scanNext()]. *)
Definition scanNext (d : decodeState) : decodeState :=
  if (off d <? length (data d))%nat then
    let '(s, op) := scan_step (scan d) (nth (off d) (data d) 0) in
    with_scan d s op (S (off d))
  else
    let '(s, op) := JsonScan.eof (scan d) in
    with_scan d s op (S (length (data d))).

(** The loop of [d.scanWhile(op)] from offset [i]. *)
Fixpoint scan_while_loop (fuel : nat) (op : scanCode) (d : decodeState) (s : scanner) (i : nat)
    : decodeState :=
  match fuel with
  | O => let '(s, op') := JsonScan.eof s in with_scan d s op' (S (length (data d)))
  | S fuel =>
      if (i <? length (data d))%nat then
        let '(s, newOp) := scan_step s (nth i (data d) 0) in
        if decide (newOp = op) then scan_while_loop fuel op d s (S i)
        else with_scan d s newOp (S i)
      else let '(s, op') := JsonScan.eof s in with_scan d s op' (S (length (data d)))
  end.

(** [d.scanWhile(op)]. *)
Definition scanWhile (op : scanCode) (d : decodeState) : decodeState :=
  scan_while_loop (length (data d)) op d (scan d) (off d).

Definition is_number_byte (c : Z) : bool :=
  is_digit c || (c =? 46) || (c =? 101) || (c =? 69) || (c =? 43) || (c =? 45).

(** The loop of [rescanLiteral] over a string: the offset after the
    closing quote. *)
Fixpoint rescan_string (fuel : nat) (data : list Z) (i : nat) : nat :=
  match fuel with
  | O => i
  | S fuel =>
      if (i <? length data)%nat then
        let c := nth i data 0 in
        if c =? 92 then rescan_string fuel data (S (S i))
        else if c =? 34 then S i
        else rescan_string fuel data (S i)
      else i
  end.

(** The loop of [rescanLiteral] over a number. *)
Fixpoint rescan_number (fuel : nat) (data : list Z) (i : nat) : nat :=
  match fuel with
  | O => i
  | S fuel =>
      if (i <? length data)%nat then
        if is_number_byte (nth i data 0) then rescan_number fuel data (S i) else i
      else i
  end.

(** The [Switch] of [d.rescanLiteral()]: the offset just past the
    literal whose first byte is at [i - 1]. *)
Definition literal_end (data : list Z) (i : nat) : nat :=
  let c := nth (i - 1) data 0 in
  if c =? 34 then rescan_string (length data) data i
  else if (c =? 45) || is_digit c then rescan_number (length data) data i
  else if c =? 116 then (i + 3)%nat
  else if c =? 102 then (i + 4)%nat
  else if c =? 110 then (i + 3)%nat
  else i.

(** [d.rescanLiteral()]. *)
Definition rescanLiteral (d : decodeState) : decodeState :=
  let i := literal_end (data d) (off d) in
  if (i <? length (data d))%nat then
    let '(s, op) := stateEndValue (scan d) (nth i (data d) 0) in
    with_scan d s op (S i)
  else with_scan d (set_endTop (scan d) true) scanEnd (S i).

(** [d.data[start:end]]. *)
Definition slice (l : list Z) (start stop : nat) : list Z := take (stop - start) (drop start l).

(** What [literalStore] reads from a literal's bytes. *)
Definition literal_value (item : list Z) : option JSON :=
  match item with
  | [] => None
  | c :: _ =>
      if c =? 110 then Some JNull
      else if c =? 116 then Some (JBool true)
      else if c =? 102 then Some (JBool false)
      else if c =? 34 then
        match unquoteBytes item with
        | Some s => Some (JString (runes_of s))
        | None => None
        end
      else if (c =? 45) || is_digit c then Some (JNumber item)
      else None
  end.

Definition is_op (op : scanCode) (d : decodeState) : bool := bool_decide (opcode d = op).

(** [d.value(v)], [d.array(v)] and [d.object(v)]: the value read and the
    state after it. *)
Fixpoint value (fuel : nat) (d : decodeState) : option (JSON * decodeState) :=
  match fuel with
  | O => None
  | S fuel =>
      match opcode d with
      | scanBeginArray =>
          match array fuel d [] with
          | Some (es, d) => Some (JArray es, scanNext d)
          | None => None
          end
      | scanBeginObject =>
          match object fuel d [] with
          | Some (ms, d) => Some (JObject ms, scanNext d)
          | None => None
          end
      | scanBeginLiteral =>
          let start := readIndex d in
          let d := rescanLiteral d in
          match literal_value (slice (data d) start (readIndex d)) with
          | Some v => Some (v, d)
          | None => None
          end
      | _ => None
      end
  end
with array (fuel : nat) (d : decodeState) (acc : list JSON) : option (list JSON * decodeState) :=
  match fuel with
  | O => None
  | S fuel =>
      let d := scanWhile scanSkipSpace d in
      if is_op scanEndArray d then Some (acc, d)
      else
        match value fuel d with
        | None => None
        | Some (e, d) =>
            let d := if is_op scanSkipSpace d then scanWhile scanSkipSpace d else d in
            if is_op scanEndArray d then Some (acc ++ [e], d)
            else if is_op scanArrayValue d then array fuel d (acc ++ [e])
            else None
        end
  end
with object (fuel : nat) (d : decodeState) (acc : list (list Z * JSON))
    : option (list (list Z * JSON) * decodeState) :=
  match fuel with
  | O => None
  | S fuel =>
      let d := scanWhile scanSkipSpace d in
      if is_op scanEndObject d then Some (acc, d)
      else if negb (is_op scanBeginLiteral d) then None
      else
        let start := readIndex d in
        let d := rescanLiteral d in
        match unquoteBytes (slice (data d) start (readIndex d)) with
        | None => None
        | Some key =>
            let d := if is_op scanSkipSpace d then scanWhile scanSkipSpace d else d in
            if negb (is_op scanObjectKey d) then None
            else
              let d := scanWhile scanSkipSpace d in
              match value fuel d with
              | None => None
              | Some (v, d) =>
                  let acc := acc ++ [(runes_of key, v)] in
                  let d := if is_op scanSkipSpace d then scanWhile scanSkipSpace d else d in
                  if is_op scanEndObject d then Some (acc, d)
                  else if is_op scanObjectValue d then object fuel d acc
                  else None
              end
        end
  end.

(** [d.unmarshal]: [d.scan.reset()], [d.scanWhile(scanSkipSpace)], then
    [d.value]; the scanner's [bytes] still counts the body from
    [checkValid]. *)
Definition unmarshal_value (body : list Z) : option JSON :=
  let d := {| data := body; off := 0; opcode := scanContinue;
              scan := reset (set_bytes zero_scanner (Z.of_nat (length body))) |} in
  option_map fst (value (S (length body)) (scanWhile scanSkipSpace d)).

Section with_case.
Context `{CaseTable}.

(** [json.Unmarshal(body, &certificates)]: the syntax check, then the
    value read and stored by [Decode.decode_certificates].  Where the
    decoder cannot read a body the check accepted, Go's [decodeState]
    panics with [phasePanicMsg] and nothing is stored; this is reported
    as an error here, as [EndToEnd.go_json_parse] does, and
    [unmarshal_value_text] shows the decoder reads every well-formed
    text, so the case does not arise on those. *)
Definition Unmarshal (body : list Z) : list Certificate * option DecodeError :=
  match checkValid body zero_scanner with
  | Some _ => ([], Some Decode.SyntaxError)
  | None =>
      match unmarshal_value body with
      | Some v => decode_certificates v
      | None => ([], Some Decode.SyntaxError)
      end
  end.

End with_case.

(** A decoder state, for the statements of the lemmas. *)
Definition dst (D : list Z) (i : nat) (op : scanCode) (s : scanner) : decodeState :=
  {| data := D; off := i; opcode := op; scan := s |}.

(** ** Unquoting the text of a string *)

Lemma nth_app_S (pre l : list Z) (d : Z) : nth (S (length pre)) (pre ++ l) d = nth 1 l d.
Proof. rewrite <- (nth_app_length pre l 1). f_equal. lia. Qed.

Lemma hex_digit_hexd (d : Z) : 0 <= d < 16 -> hex_digit (hexd d) = Some d.
Proof.
  intros Hd. unfold hexd, hex_digit.
  destruct (Z.ltb_spec d 10); zcase; try lia; do 2 f_equal; lia.
Qed.

Lemma getu4_esc (x : Z) (post : list Z) :
  0 <= x < 32 -> getu4 (92 :: 117 :: 48 :: 48 :: hexd (x / 16) :: hexd (x mod 16) :: post) = x.
Proof.
  intros Hx. cbn [getu4]. rewrite !hex_digit_hexd by (Z.div_mod_to_equations; lia).
  cbn. Z.div_mod_to_equations. lia.
Qed.

(** A rune written without an escape: its first byte is neither a
    backslash, a quote nor a control byte, and below [RuneSelf] exactly
    when the rune is ASCII. *)
Lemma plain_head (x : Z) (post : list Z) :
  valid_rune x -> 32 <= x -> x <> 34 -> x <> 92 ->
  let h := nth 0 (EncodeRune x ++ post) 0 in
  h <> 92 /\ h <> 34 /\ 32 <= h /\ ((h <? RuneSelf) = (x <=? 127)).
Proof.
  intros Hv H32 H34 H92 h. subst h. pose proof (ByteStrings.EncodeRune_head x post Hv) as Hh.
  destruct (Z.leb_spec x 127).
  - rewrite (EncodeRune_ascii x Hv) by lia. cbn. unfold RuneSelf. zcase; lia.
  - destruct (EncodeRune_split x Hv ltac:(lia)) as (lead & conts & clast & -> & Hl & _).
    cbn. unfold RuneSelf. zcase; lia.
Qed.

(** [nat_cmp] settles the comparisons of offsets in the goal. *)
Ltac nat_cmp :=
  repeat match goal with
  | |- context [Nat.ltb ?a ?b] => destruct (Nat.ltb_spec a b); try (exfalso; lia)
  | |- context [Nat.leb ?a ?b] => destruct (Nat.leb_spec a b); try (exfalso; lia)
  | |- context [Nat.eqb ?a ?b] => destruct (Nat.eqb_spec a b); try (exfalso; lia)
  end.

(** One rune of the text: the copying loop writes its UTF-8 encoding. *)
Lemma unquote_loop_esc (F : nat) (pre post b : list Z) (x : Z) :
  valid_rune x ->
  unquote_loop (S F) (pre ++ esc x ++ post) (length pre) b =
    unquote_loop F (pre ++ esc x ++ post) (length pre + length (esc x)) (b ++ EncodeRune x).
Proof.
  intros Hx. rewrite unquote_loop_S. cbv zeta.
  rewrite nth_app_length0, nth_app_S.
  assert (Hlen : length (pre ++ esc x ++ post) = (length pre + length (esc x) + length post)%nat)
    by (rewrite !length_app; lia).
  rewrite Hlen. unfold esc.
  destruct (Z.eqb_spec x 34) as [->|H34].
  { cbn [length app nth]. nat_cmp. cbn. f_equal. lia. }
  destruct (Z.eqb_spec x 92) as [->|H92].
  { cbn [length app nth]. nat_cmp. cbn. f_equal. lia. }
  destruct (Z.ltb_spec x 32) as [H32|H32].
  - assert (0 <= x) by (unfold valid_rune in Hx; lia).
    cbn [nth app length]. nat_cmp. cbn -[hexd getu4 IsSurrogate EncodeRune].
    rewrite ?Nat.sub_0_r, drop_app_length, getu4_esc by done.
    destruct (Z.ltb_spec x 0); [lia|].
    assert (IsSurrogate x = false) as -> by (unfold IsSurrogate, surr1; zcase; lia).
    cbn. f_equal; lia.
  - destruct (plain_head x post Hx H32 H34 H92) as (Hb & Hq & Hc & Hs).
    destruct (Nat.ltb_spec (length pre) (length pre + length (EncodeRune x) + length post))
      as [_|Hn]; [|pose proof (EncodeRune_length x Hx); lia].
    destruct (Z.eqb_spec (nth 0 (EncodeRune x ++ post) 0) bBACKSLASH) as [E|_];
      [unfold bBACKSLASH in E; lia|].
    replace ((nth 0 (EncodeRune x ++ post) 0 =? bQUOTE) || (nth 0 (EncodeRune x ++ post) 0 <? bSPACE))
      with false by (unfold bQUOTE, bSPACE; zcase; lia).
    rewrite Hs. destruct (Z.leb_spec x 127).
    + rewrite (EncodeRune_ascii x Hx) by lia. cbn. f_equal. lia.
    + rewrite drop_app_length, DecodeRune_EncodeRune by done. reflexivity.
Qed.

Lemma unquote_loop_escs (F : nat) (pre b str : list Z) :
  Forall valid_rune str -> (length str <= F)%nat ->
  unquote_loop F (pre ++ concat (map esc str)) (length pre) b = Some (b ++ encode str).
Proof.
  revert F pre b. induction str as [|x str IH]; intros F pre b Hs HF.
  { cbn. rewrite !app_nil_r. destruct F; [done|]. rewrite unquote_loop_S. nat_cmp. done. }
  apply Forall_cons in Hs as [Hx Hs]. destruct F as [|F]; [cbn in HF; lia|].
  cbn [map concat]. rewrite unquote_loop_esc by done.
  rewrite app_assoc, <- length_app, IH by (done || cbn in HF; lia).
  by rewrite encode_cons, app_assoc.
Qed.

(** The first loop of [unquoteBytes] passes the runes written without
    an escape and stops at the first backslash. *)
Lemma unquote_scan_plain (F : nat) (pre post : list Z) (x : Z) :
  valid_rune x -> 32 <= x -> x <> 34 -> x <> 92 ->
  unquote_scan (S F) (pre ++ EncodeRune x ++ post) (length pre) =
    unquote_scan F (pre ++ EncodeRune x ++ post) (length pre + length (EncodeRune x)).
Proof.
  intros Hx H32 H34 H92. cbn [unquote_scan]. rewrite nth_app_length0.
  destruct (plain_head x post Hx H32 H34 H92) as (Hb & Hq & Hc & Hs).
  rewrite !length_app. pose proof (EncodeRune_length x Hx). nat_cmp.
  replace ((nth 0 (EncodeRune x ++ post) 0 =? bBACKSLASH) || (nth 0 (EncodeRune x ++ post) 0 =? bQUOTE)
           || (nth 0 (EncodeRune x ++ post) 0 <? bSPACE))
    with false by (unfold bBACKSLASH, bQUOTE, bSPACE; zcase; lia).
  rewrite Hs. destruct (Z.leb_spec x 127).
  - rewrite (EncodeRune_ascii x Hx) by lia. cbn. f_equal. lia.
  - rewrite drop_app_length, DecodeRune_EncodeRune by done.
    replace ((x =? RuneError) && (length (EncodeRune x) =? 1)%nat) with false; [done|].
    destruct (EncodeRune_split x Hx ltac:(lia)) as (lead & conts & clast & -> & _).
    rewrite length_cons, length_app. cbn. destruct (x =? RuneError); [|done].
    symmetry. apply Nat.eqb_neq. lia.
Qed.

Lemma unquote_scan_escaped (F : nat) (pre post : list Z) (x : Z) :
  x = 34 \/ x = 92 \/ x < 32 -> unquote_scan (S F) (pre ++ esc x ++ post) (length pre) = length pre.
Proof.
  intros Hx. cbn [unquote_scan]. rewrite nth_app_length0, !length_app.
  assert (Hh : nth 0 (esc x ++ post) 0 = 92 /\ (1 <= length (esc x))%nat).
  { unfold esc. destruct Hx as [->|[->|Hx]]; [cbn; split; lia | cbn; split; lia |].
    zcase; try lia; cbn; split; lia. }
  destruct Hh as [-> Hl]. nat_cmp. done.
Qed.

Lemma esc_length (x : Z) : valid_rune x -> (1 <= length (esc x))%nat.
Proof.
  intros Hx. unfold esc. pose proof (EncodeRune_length x Hx). zcase; cbn; lia.
Qed.

Lemma escs_length (str : list Z) :
  Forall valid_rune str -> (length str <= length (concat (map esc str)))%nat.
Proof.
  induction 1 as [|x str Hx _ IH]; [done|]. cbn [map concat]. rewrite length_app.
  pose proof (esc_length x Hx). cbn. lia.
Qed.

Lemma unquote_scan_escs (str pre : list Z) (F : nat) :
  Forall valid_rune str -> (length (concat (map esc str)) <= F)%nat ->
  let t := pre ++ concat (map esc str) in
  (unquote_scan F t (length pre) = length t -> concat (map esc str) = encode str) /\
  (unquote_scan F t (length pre) <> length t -> forall F', (length str <= F')%nat ->
     unquote_loop F' t (unquote_scan F t (length pre)) (take (unquote_scan F t (length pre)) t) =
       Some (pre ++ encode str)).
Proof.
  revert pre F. induction str as [|x str IH]; intros pre F Hs HF t; subst t.
  { cbn [map concat]. rewrite app_nil_r.
    assert (E : unquote_scan F pre (length pre) = length pre)
      by (destruct F; [done|]; cbn [unquote_scan]; nat_cmp; done).
    rewrite E. split; [done | congruence]. }
  apply Forall_cons in Hs as [Hx Hs]. cbn [map concat] in *.
  pose proof (esc_length x Hx) as Hlx. rewrite length_app in HF.
  destruct F as [|F]; [lia|].
  destruct (decide (32 <= x /\ x <> 34 /\ x <> 92)) as [(H32 & H34 & H92)|Hesc].
  - assert (Ee : esc x = EncodeRune x).
    { unfold esc. destruct (Z.eqb_spec x 34); [lia|]. destruct (Z.eqb_spec x 92); [lia|].
      destruct (Z.ltb_spec x 32); [lia | reflexivity]. }
    rewrite Ee in *. rewrite unquote_scan_plain by done.
    rewrite app_assoc, <- length_app.
    destruct (IH (pre ++ EncodeRune x) F Hs ltac:(lia)) as [IH1 IH2]. split.
    + intros E. rewrite encode_cons, (IH1 E). done.
    + intros E F' HF'. rewrite IH2 by (done || cbn in HF'; lia). by rewrite encode_cons, app_assoc.
  - assert (Hk : x = 34 \/ x = 92 \/ x < 32) by lia.
    rewrite unquote_scan_escaped by done. split.
    + rewrite !length_app. intros E. assert (2 <= length (esc x))%nat; [|lia].
      unfold esc. destruct Hk as [->|[->|Hk]]; [cbn; lia | cbn; lia |]. zcase; try lia; cbn; lia.
    + intros _ F' HF'. rewrite take_app_length.
      pose proof (unquote_loop_escs F' pre pre (x :: str) ltac:(by constructor) HF') as L.
      cbn [map concat] in L. exact L.
Qed.

(** [unquoteBytes] gives back the UTF-8 bytes of the runes of a string
    literal. *)
Lemma unquoteBytes_str_text (str : list Z) :
  Forall valid_rune str -> unquoteBytes (str_text str) = Some (encode str).
Proof.
  intros Hs. unfold unquoteBytes, str_text.
  set (inner := concat (map esc str)).
  assert (Hl : length ([34] ++ inner ++ [34]) = (S (S (length inner)))%nat)
    by (rewrite !length_app; cbn; lia).
  rewrite Hl. cbn [Nat.ltb Nat.leb].
  replace (nth (S (S (length inner)) - 1) ([34] ++ inner ++ [34]) 0) with 34
    by (replace (S (S (length inner)) - 1)%nat with (length ([34] ++ inner)) by (rewrite length_app; cbn; lia);
        rewrite app_assoc, nth_app_length0; done).
  cbn -[unquote_scan unquote_loop]. replace (S (length inner) - 1)%nat with (length inner) by lia.
  rewrite Nat.sub_0_r, drop_0, take_app_length.
  destruct (unquote_scan_escs str [] (length inner) Hs ltac:(done)) as [P1 P2].
  cbn [app length] in P1, P2. fold inner in P1, P2.
  destruct (Nat.eqb_spec (unquote_scan (length inner) inner 0) (length inner)) as [E|E].
  - by rewrite P1.
  - apply P2; [done|]. by apply escs_length.
Qed.

(** ** Steps of the scanner on the bytes of a text *)

Lemma step_open (st : stepFn) (ps : list parseKind) (B : Z) :
  st = BeginValue \/ st = BeginValueOrEmpty -> (Z.of_nat (length ps) < maxNestingDepth)%Z ->
  scan_step (mk_scanner st ps B) 91 = (mk_scanner BeginValueOrEmpty (parseArrayValue :: ps) B, scanBeginArray) /\
  scan_step (mk_scanner st ps B) 123 = (mk_scanner BeginStringOrEmpty (parseObjectKey :: ps) B, scanBeginObject).
Proof.
  intros Hst Hd. destruct Hst as [-> | ->]; split; unfold scan_step;
    cbn [step mk_scanner]; unfold stateBeginValueOrEmpty, stateBeginValue, pushParseState;
    cbn -[Z.of_nat maxNestingDepth];
    (match goal with |- context [Z.leb ?a ?b] => destruct (Z.leb_spec a b) end;
     [reflexivity | exfalso; lia]).
Qed.

Lemma step_literal (st : stepFn) (ps : list parseKind) (B c : Z) :
  st = BeginValue \/ st = BeginValueOrEmpty ->
  c = 34 \/ c = 45 \/ (48 <= c <= 57) \/ c = 116 \/ c = 102 \/ c = 110 ->
  exists st1, scan_step (mk_scanner st ps B) c = (mk_scanner st1 ps B, scanBeginLiteral).
Proof.
  intros Hst Hc. unfold scan_step.
  destruct Hst as [-> | ->]; cbn [step mk_scanner];
    unfold stateBeginValueOrEmpty, stateBeginValue, isSpace; zsplit; eexists; reflexivity.
Qed.

(** [stateEndValue] does not read [scanner.step]. *)
Lemma stateEndValue_step (st : stepFn) (ps : list parseKind) (B c : Z) :
  stateEndValue (mk_scanner st ps B) c = stateEndValue (mk_scanner EndValue ps B) c.
Proof. destruct ps as [|[] ps]; reflexivity. Qed.

Lemma step_end_element (ps : list parseKind) (B : Z) :
  stateEndValue (mk_scanner EndValue (parseArrayValue :: ps) B) 44 =
    (mk_scanner BeginValue (parseArrayValue :: ps) B, scanArrayValue) /\
  stateEndValue (mk_scanner EndValue (parseArrayValue :: ps) B) 93 = (closed ps B, scanEndArray) /\
  stateEndValue (mk_scanner EndValue (parseObjectValue :: ps) B) 44 =
    (mk_scanner BeginString (parseObjectKey :: ps) B, scanObjectValue) /\
  stateEndValue (mk_scanner EndValue (parseObjectValue :: ps) B) 125 = (closed ps B, scanEndObject) /\
  stateEndValue (mk_scanner EndValue (parseObjectKey :: ps) B) 58 =
    (mk_scanner BeginValue (parseObjectValue :: ps) B, scanObjectKey).
Proof. destruct ps; repeat split. Qed.

Lemma step_empty (ps : list parseKind) (B : Z) :
  scan_step (mk_scanner BeginValueOrEmpty (parseArrayValue :: ps) B) 93 = (closed ps B, scanEndArray) /\
  scan_step (mk_scanner BeginStringOrEmpty (parseObjectKey :: ps) B) 125 = (closed ps B, scanEndObject) /\
  scan_step (mk_scanner BeginStringOrEmpty (parseObjectKey :: ps) B) 34 =
    (mk_scanner InString (parseObjectKey :: ps) B, scanBeginLiteral) /\
  scan_step (mk_scanner BeginString (parseObjectKey :: ps) B) 34 =
    (mk_scanner InString (parseObjectKey :: ps) B, scanBeginLiteral).
Proof. destruct ps; repeat split. Qed.

Lemma step_closed (ps : list parseKind) (B c : Z) :
  ps <> [] -> scan_step (closed ps B) c = stateEndValue (mk_scanner EndValue ps B) c.
Proof. by destruct ps. Qed.

(** ** The decoder's reads *)

Lemma scanWhile_step (D : list Z) (i : nat) (op : scanCode) (s : scanner) (c : Z) :
  nth i D 0 = c -> (i < length D)%nat -> (scan_step s c).2 <> scanSkipSpace ->
  scanWhile scanSkipSpace (dst D i op s) = dst D (S i) (scan_step s c).2 (scan_step s c).1.
Proof.
  intros Hc Hi Hop. unfold scanWhile, dst. cbn [data off scan].
  destruct (length D) as [|n] eqn:HD; [lia|]. cbn [scan_while_loop data]. rewrite HD.
  nat_cmp. rewrite Hc. destruct (scan_step s c) as [s1 op1]. cbn in Hop.
  by destruct (decide (op1 = scanSkipSpace)).
Qed.

Lemma scanNext_step (D : list Z) (i : nat) (op : scanCode) (s : scanner) (c : Z) :
  nth i D 0 = c -> (i < length D)%nat ->
  scanNext (dst D i op s) = dst D (S i) (scan_step s c).2 (scan_step s c).1.
Proof.
  intros Hc Hi. unfold scanNext, dst. cbn [data off scan]. nat_cmp. rewrite Hc.
  by destruct (scan_step s c).
Qed.

(** ** Finding the end of a literal *)

Lemma rescan_string_run (F : nat) (pre l post : list Z) :
  Forall (fun b => b <> 34 /\ b <> 92) l ->
  rescan_string (length l + F) (pre ++ l ++ post) (length pre) =
    rescan_string F (pre ++ l ++ post) (length pre + length l).
Proof.
  revert pre. induction l as [|b l IH]; intros pre Hl; [by rewrite Nat.add_0_r|].
  apply Forall_cons in Hl as [[H34 H92] Hl]. cbn [length Nat.add rescan_string].
  rewrite nth_app_length0, !length_app. cbn [nth app length]. nat_cmp.
  destruct (Z.eqb_spec b 92); [lia|]. destruct (Z.eqb_spec b 34); [lia|].
  pose proof (IH (pre ++ [b]) Hl) as E. rewrite <- !app_assoc, !length_app in E. cbn in E.
  rewrite Nat.add_1_r in E. rewrite E. f_equal. lia.
Qed.

(** The bytes of an escape or of a rune's encoding, after its first. *)
Lemma esc_plain_bytes (x : Z) :
  valid_rune x -> 32 <= x -> x <> 34 -> x <> 92 -> Forall (fun b => b <> 34 /\ b <> 92) (EncodeRune x).
Proof.
  intros Hx H32 H34 H92.
  assert (Hi : int32_range x) by (unfold valid_rune, MaxRune, int32_range in *; lia).
  destruct (EncodeRune_shape x Hi) as [[_ ->] | [_ Hb]].
  - constructor; [lia | constructor].
  - eapply Forall_impl; [exact Hb|]. intros b Hb'; cbn in Hb'; lia.
Qed.

Lemma rescan_string_esc (pre post : list Z) (x : Z) :
  valid_rune x -> exists k, (k <= length (esc x))%nat /\ forall F,
  rescan_string (k + F) (pre ++ esc x ++ post) (length pre) =
    rescan_string F (pre ++ esc x ++ post) (length pre + length (esc x)).
Proof.
  intros Hx. unfold esc.
  assert (Hesc : forall y F, rescan_string (S F) (pre ++ [92; y] ++ post) (length pre) =
                             rescan_string F (pre ++ [92; y] ++ post) (length pre + 2)).
  { intros y F. cbn [rescan_string]. rewrite nth_app_length0, !length_app.
    cbn [nth app length]. nat_cmp. cbn [Z.eqb Pos.eqb]. f_equal. lia. }
  destruct (Z.eqb_spec x 34); [exists 1%nat; split; [cbn; lia | apply Hesc]|].
  destruct (Z.eqb_spec x 92); [exists 1%nat; split; [cbn; lia | apply Hesc]|].
  destruct (Z.ltb_spec x 32).
  - assert (0 <= x) by (unfold valid_rune in Hx; lia). exists 5%nat. split; [cbn; lia|]. intros F.
    set (tl := [48; 48; hexd (x / 16); hexd (x mod 16)]).
    assert (Htl : Forall (fun b => b <> 34 /\ b <> 92) tl).
    { unfold tl, hexd. repeat constructor; zcase; Z.div_mod_to_equations; lia. }
    change [92; 117; 48; 48; hexd (x / 16); hexd (x mod 16)] with ([92; 117] ++ tl).
    assert (E1 : rescan_string (S (length tl + F)) (pre ++ 92 :: 117 :: tl ++ post) (length pre) =
                 rescan_string (length tl + F) (pre ++ 92 :: 117 :: tl ++ post) (length pre + 2)).
    { cbn [rescan_string]. rewrite nth_app_length0, !length_app. cbn [nth app length]. nat_cmp.
      cbn [Z.eqb Pos.eqb]. f_equal. lia. }
    pose proof (rescan_string_run F (pre ++ [92; 117]) tl post Htl) as E2.
    rewrite <- app_assoc, length_app in E2. cbn [length app] in E2 |- *.
    change (5 + F)%nat with (S (length tl + F)). rewrite E1. cbn [app] in E2. rewrite E2.
    f_equal. lia.
  - exists (length (EncodeRune x)). split; [lia|]. intros F.
    by apply rescan_string_run, esc_plain_bytes.
Qed.

(** The loop over a string literal stops just past its closing quote. *)
Lemma rescan_string_body (str pre rest : list Z) (F : nat) :
  Forall valid_rune str ->
  (length (concat (map esc str) ++ 34%Z :: rest) <= F)%nat ->
  rescan_string F (pre ++ concat (map esc str) ++ 34 :: rest) (length pre) =
    S (length pre + length (concat (map esc str))).
Proof.
  revert pre F. induction str as [|x str IH]; intros pre F Hs HF.
  - destruct F as [|F]; [cbn in HF; lia|]. cbn [map concat app rescan_string].
    rewrite nth_app_length0, length_app. cbn [nth app length]. nat_cmp.
    cbn [Z.eqb Pos.eqb]. cbn [length]. lia.
  - apply Forall_cons in Hs as [Hx Hs]. cbn [map concat] in *. rewrite !length_app in HF.
    destruct (rescan_string_esc pre (concat (map esc str) ++ 34 :: rest) x Hx) as (k & Hk & E).
    replace F with (k + (F - k))%nat by lia. rewrite <- app_assoc, E.
    rewrite app_assoc, <- length_app, IH by (done || rewrite length_app in *; lia).
    rewrite !length_app. lia.
Qed.

(** The loop over a number stops at the first byte that is not part of
    it. *)
Lemma rescan_number_run (F : nat) (pre l post : list Z) :
  Forall (fun b => is_number_byte b = true) l ->
  rescan_number (length l + F) (pre ++ l ++ post) (length pre) =
    rescan_number F (pre ++ l ++ post) (length pre + length l).
Proof.
  revert pre. induction l as [|b l IH]; intros pre Hl; [by rewrite Nat.add_0_r|].
  apply Forall_cons in Hl as [Hb Hl]. cbn [length Nat.add rescan_number].
  rewrite nth_app_length0, !length_app. cbn [nth app length]. nat_cmp. rewrite Hb.
  pose proof (IH (pre ++ [b]) Hl) as E. rewrite <- !app_assoc, !length_app in E. cbn in E.
  rewrite Nat.add_1_r in E. rewrite E. f_equal. lia.
Qed.

Lemma rescan_number_stop (F : nat) (D : list Z) (i : nat) :
  ((i < length D)%nat -> is_number_byte (nth i D 0) = false) -> rescan_number F D i = i.
Proof.
  intros Hs. destruct F; [done|]. cbn [rescan_number].
  destruct (Nat.ltb_spec i (length D)) as [Hi|]; [by rewrite (Hs Hi) | done].
Qed.



Lemma digits_number (ds : list Z) : digits ds -> Forall (fun b => is_number_byte b = true) ds.
Proof.
  intros Hd. eapply Forall_impl; [exact Hd|]. intros b Hb. unfold is_number_byte. by rewrite Hb.
Qed.

(** A number's text starts with a sign or a digit; all its bytes are
    bytes of numbers. *)
Lemma num_text_shape (m : num_lit) :
  num_ok m -> exists c0 tl, num_text m = c0 :: tl /\ (c0 = 45 \/ 48 <= c0 <= 57) /\
                            Forall (fun b => is_number_byte b = true) tl.
Proof.
  intros (Hint & Hf & Hx).
  assert (Hi : exists d ds, n_int m = d :: ds /\ 48 <= d <= 57 /\
                            Forall (fun b => is_number_byte b = true) ds).
  { destruct Hint as [-> | (d & ds & -> & Hd & Hds)]; [exists 48, (@nil Z); split_and!; first [done | lia | constructor]|].
    exists d, ds. split_and!; first [done | lia | by apply digits_number]. }
  destruct Hi as (d & ds & Eint & Hd & Hds).
  assert (Hrest : Forall (fun b => is_number_byte b = true) (frac_text (n_frac m) ++ exp_text (n_exp m))).
  { apply Forall_app. split.
    - destruct (n_frac m); [constructor|]. constructor; [done|]. by apply digits_number.
    - destruct (n_exp m) as [[[e sg] ds']|]; [|constructor].
      destruct Hx as (He & Hsg & _ & Hds'). cbn. constructor.
      + unfold is_number_byte. destruct He as [-> | ->]; reflexivity.
      + apply Forall_app. split; [|by apply digits_number].
        destruct Hsg as [-> | [-> | ->]]; repeat constructor. }
  unfold num_text. rewrite Eint. destruct (n_neg m).
  - exists 45, (d :: ds ++ frac_text (n_frac m) ++ exp_text (n_exp m)). split_and!; [done | by left |].
    constructor; [unfold is_number_byte, is_digit; zcase; lia|]. by apply Forall_app.
  - exists d, (ds ++ frac_text (n_frac m) ++ exp_text (n_exp m)). split_and!; [done | by right |].
    by apply Forall_app.
Qed.

(** A scalar: a value written as one literal. *)
Definition is_scalar (v : JSON) : bool :=
  match v with JArray _ | JObject _ => false | _ => true end.

(** What may follow a value or a key inside a container: [,], [\]], [}]
    or [:]. *)
Definition value_follows (rest : list Z) : Prop :=
  rest = [] \/ exists c r, rest = c :: r /\ (c = 44 \/ c = 93 \/ c = 125 \/ c = 58).

(** [rescanLiteral] finds the end of the text of every scalar. *)
Lemma literal_end_text (v : JSON) (pre rest : list Z) :
  is_scalar v = true -> json_ok v -> value_follows rest ->
  literal_end (pre ++ json_text v ++ rest) (S (length pre)) = (length pre + length (json_text v))%nat.
Proof.
  intros Hs Hok Hf. unfold literal_end. rewrite Nat.sub_1_r, Nat.pred_succ, nth_app_length0.
  destruct literal_texts as (E1 & E2 & E3).
  destruct v as [| [|] | lit | str | |]; try discriminate.
  - rewrite E1. cbn -[rescan_string rescan_number]. lia.
  - rewrite E2. cbn -[rescan_string rescan_number]. lia.
  - rewrite E3. cbn -[rescan_string rescan_number]. lia.
  - destruct Hok as (m & Hm & ->). destruct (num_text_shape m Hm) as (c0 & tl & -> & Hc0 & Htl).
    cbn [json_text nth app]. replace (c0 =? 34) with false by (symmetry; apply Z.eqb_neq; lia).
    replace ((c0 =? 45) || is_digit c0) with true by (unfold is_digit; zcase; lia).
    replace (pre ++ c0 :: tl ++ rest) with ((pre ++ [c0]) ++ tl ++ rest) by (by rewrite <- app_assoc).
    replace (S (length pre)) with (length (pre ++ [c0])) by (rewrite length_app; cbn; lia).
    replace (length ((pre ++ [c0]) ++ tl ++ rest)) with (length tl + length (pre ++ [c0] ++ rest))%nat
      by (rewrite !length_app; lia).
    rewrite rescan_number_run by done. rewrite rescan_number_stop.
    + rewrite length_app; cbn; lia.
    + intros Hi. rewrite <- length_app, app_assoc, nth_app_length0.
      destruct Hf as [-> | (c & r & -> & Hc)]; [rewrite !length_app in Hi; cbn in Hi; lia|].
      cbn. destruct Hc as [-> | [-> | [-> | ->]]]; reflexivity.
  - cbn [json_ok] in Hok. cbn [json_text]. unfold str_text.
    change (nth 0 (([34] ++ concat (map esc str) ++ [34]) ++ rest) 0) with 34. rewrite Z.eqb_refl.
    replace (pre ++ ([34] ++ concat (map esc str) ++ [34]) ++ rest)
      with ((pre ++ [34]) ++ concat (map esc str) ++ 34 :: rest) by (by rewrite <- !app_assoc).
    replace (S (length pre)) with (length (pre ++ [34])) by (rewrite length_app; cbn; lia).
    rewrite rescan_string_body by (done || rewrite !length_app; lia).
    rewrite !length_app. cbn. lia.
Qed.

Lemma scalar_head (v : JSON) :
  is_scalar v = true -> json_ok v -> exists c0 tl, json_text v = c0 :: tl /\
    (c0 = 34 \/ c0 = 45 \/ (48 <= c0 <= 57) \/ c0 = 116 \/ c0 = 102 \/ c0 = 110).
Proof.
  intros Hs Hok. destruct literal_texts as (E1 & E2 & E3).
  destruct v as [| [|] | lit | str | |]; try discriminate.
  - rewrite E1. eexists _, _. split; [reflexivity | tauto].
  - rewrite E2. eexists _, _. split; [reflexivity | tauto].
  - rewrite E3. eexists _, _. split; [reflexivity | tauto].
  - destruct Hok as (m & Hm & ->). destruct (num_text_shape m Hm) as (c0 & tl & E & Hc0 & _).
    cbn [json_text]. rewrite E. exists c0, tl. split; [done | lia].
  - eexists _, _. split; [reflexivity | tauto].
Qed.

(** [literalStore] reads back the value of a scalar's text. *)
Lemma literal_value_text (v : JSON) :
  is_scalar v = true -> json_ok v -> literal_value (json_text v) = Some v.
Proof.
  intros Hs Hok. destruct literal_texts as (E1 & E2 & E3).
  destruct v as [| [|] | lit | str | |]; try discriminate.
  - by rewrite E1.
  - by rewrite E2.
  - by rewrite E3.
  - destruct Hok as (m & Hm & ->). destruct (num_text_shape m Hm) as (c0 & tl & E & Hc0 & _).
    cbn [json_text]. rewrite E. cbn [literal_value].
    replace (c0 =? 110) with false by (symmetry; apply Z.eqb_neq; lia).
    replace (c0 =? 116) with false by (symmetry; apply Z.eqb_neq; lia).
    replace (c0 =? 102) with false by (symmetry; apply Z.eqb_neq; lia).
    replace (c0 =? 34) with false by (symmetry; apply Z.eqb_neq; lia).
    replace ((c0 =? 45) || is_digit c0) with true by (unfold is_digit; zcase; lia).
    by rewrite <- E.
  - cbn [json_ok] in Hok. cbn [json_text]. pose proof (unquoteBytes_str_text str Hok) as U.
    assert (Eh : str_text str = 34 :: concat (map esc str) ++ [34]) by reflexivity.
    rewrite Eh. cbn -[unquoteBytes concat map app]. rewrite <- Eh, U. unfold runes_of. by rewrite range_runes_encode.
Qed.

Lemma slice_mid (pre t rest : list Z) :
  slice (pre ++ t ++ rest) (length pre) (length pre + length t) = t.
Proof.
  unfold slice. rewrite drop_app_length. replace (length pre + length t - length pre)%nat
    with (length t) by lia. by rewrite take_app_length.
Qed.

(** Where [d.value] leaves the decoder when the value is followed by
    [c]: the byte after [c] is next, and [c] went to [stateEndValue]. *)
Definition value_end (D : list Z) (j : nat) (ps : list parseKind) (B : Z) (rest : list Z)
    (d : decodeState) : Prop :=
  forall c r, rest = c :: r -> ps <> [] ->
  d = dst D (S j) (stateEndValue (mk_scanner EndValue ps B) c).2
                  (stateEndValue (mk_scanner EndValue ps B) c).1.

(** [d.rescanLiteral()] after a literal [t] that it finds the end of. *)
Lemma rescanLiteral_end (pre t rest : list Z) (op : scanCode) (st : stepFn)
    (ps : list parseKind) (B : Z) :
  literal_end (pre ++ t ++ rest) (S (length pre)) = (length pre + length t)%nat ->
  let d := rescanLiteral (dst (pre ++ t ++ rest) (S (length pre)) op (mk_scanner st ps B)) in
  readIndex d = (length pre + length t)%nat /\ data d = pre ++ t ++ rest /\
  value_end (pre ++ t ++ rest) (length pre + length t) ps B rest d.
Proof.
  intros Hj d. subst d. unfold rescanLiteral. cbn [data off scan dst]. rewrite Hj.
  destruct rest as [|c r].
  - rewrite app_nil_r, length_app, Nat.ltb_irrefl. split_and!; [| done | by intros ? ? ?].
    unfold readIndex. cbn. lia.
  - rewrite !length_app. cbn [length]. nat_cmp.
    rewrite app_assoc, <- (length_app pre t), nth_app_length0, <- app_assoc. cbn [nth].
    rewrite stateEndValue_step. destruct (stateEndValue _ c) as [s1 op1] eqn:E.
    split_and!; [unfold readIndex; cbn; lia | done |]. intros c' r' [= <- <-] _. by rewrite E.
Qed.


(** ** Reading values *)

Lemma value_literal_step (F : nat) (D : list Z) (i : nat) (s : scanner) :
  value (S F) (dst D (S i) scanBeginLiteral s) =
    let d := rescanLiteral (dst D (S i) scanBeginLiteral s) in
    match literal_value (slice (data d) i (readIndex d)) with Some v => Some (v, d) | None => None end.
Proof.
  cbn [value opcode dst]. unfold readIndex at 1.
  change (off (dst D (S i) scanBeginLiteral s) - 1)%nat with (i - 0)%nat. by rewrite Nat.sub_0_r.
Qed.

(** The first byte of a value, from [BeginValue] or [BeginValueOrEmpty]. *)
Lemma scanWhile_first (pre t rest : list Z) (c0 : Z) (op : scanCode) (s : scanner) :
  t = c0 :: tail t -> (scan_step s c0).2 <> scanSkipSpace ->
  scanWhile scanSkipSpace (dst (pre ++ t ++ rest) (length pre) op s) =
    dst (pre ++ t ++ rest) (S (length pre)) (scan_step s c0).2 (scan_step s c0).1.
Proof.
  intros Ht Hop. apply scanWhile_step; [|rewrite !length_app, Ht; cbn; lia|done].
  by rewrite nth_app_length0, Ht.
Qed.

(** [d.value] reads the value whose text starts at the decoder's
    offset, and leaves the decoder after the byte that follows it. *)
Definition reads_value (v : JSON) : Prop :=
  forall F pre rest op st ps B,
  st = BeginValue \/ st = BeginValueOrEmpty -> json_ok v ->
  (Z.of_nat (length ps + depth v) <= maxNestingDepth)%Z -> value_follows rest ->
  (length (json_text v) < F)%nat ->
  exists op1 s1 d1,
    scanWhile scanSkipSpace (dst (pre ++ json_text v ++ rest) (length pre) op (mk_scanner st ps B)) =
      dst (pre ++ json_text v ++ rest) (S (length pre)) op1 s1 /\
    op1 <> scanEndArray /\ op1 <> scanEndObject /\
    value F (dst (pre ++ json_text v ++ rest) (S (length pre)) op1 s1) = Some (v, d1) /\
    value_end (pre ++ json_text v ++ rest) (length pre + length (json_text v)) ps B rest d1.

Lemma reads_scalar (v : JSON) : is_scalar v = true -> reads_value v.
Proof.
  intros Hs F pre rest op st ps B Hst Hok _ Hf HF.
  destruct (scalar_head v Hs Hok) as (c0 & tl & Ht & Hc0).
  destruct (step_literal st ps B c0 Hst Hc0) as [st1 E].
  exists scanBeginLiteral, (mk_scanner st1 ps B).
  eexists. split_and!; [| done | done | |].
  - rewrite (scanWhile_first pre (json_text v) rest c0); [by rewrite E | by rewrite Ht | by rewrite E].
  - destruct F as [|F]; [lia|]. rewrite value_literal_step. cbv zeta.
    destruct (rescanLiteral_end pre (json_text v) rest scanBeginLiteral st1 ps B
                (literal_end_text v pre rest Hs Hok Hf)) as (Hr & Hd & He).
    rewrite Hr, Hd, slice_mid, literal_value_text by done. reflexivity.
  - exact (proj2 (proj2 (rescanLiteral_end pre (json_text v) rest scanBeginLiteral st1 ps B
                (literal_end_text v pre rest Hs Hok Hf)))).
Qed.

Lemma sep_by_cons (t : list Z) (ts : list (list Z)) :
  sep_by (t :: ts) = t ++ match ts with [] => [] | _ => 44 :: sep_by ts end.
Proof. by destruct ts. Qed.

Lemma is_op_dst (op op' : scanCode) (D : list Z) (i : nat) (s : scanner) :
  is_op op (dst D i op' s) = bool_decide (op' = op).
Proof. reflexivity. Qed.

(** [ops] settles the tests of [d.opcode] in the goal. *)
Ltac ops :=
  repeat first
    [ rewrite is_op_dst
    | match goal with
      | |- context [bool_decide (?a = ?b)] =>
          first [rewrite (bool_decide_true (a = b)) by congruence
                | rewrite (bool_decide_false (a = b)) by congruence]
      end
    | progress cbn [negb]
    | progress cbv beta iota zeta ].

(** [d.array(v)] reads the elements up to the closing bracket. *)
Lemma array_loop (es : list JSON) :
  Forall reads_value es ->
  forall F D i pre rest acc st op ps B,
  D = pre ++ sep_by (map json_text es) ++ [93] ++ rest -> i = length pre ->
  st = BeginValueOrEmpty \/ (st = BeginValue /\ es <> []) -> Forall json_ok es ->
  (forall e, e ∈ es -> (Z.of_nat (S (length ps) + depth e) <= maxNestingDepth)%Z) ->
  (S (length (sep_by (map json_text es))) < F)%nat ->
  array F (dst D i op (mk_scanner st (parseArrayValue :: ps) B)) acc =
    Some (acc ++ es, dst D (S (i + length (sep_by (map json_text es)))) scanEndArray (closed ps B)).
Proof.
  induction 1 as [|e es He _ IH]; intros F D i pre rest acc st op ps B -> -> Hst Hok Hd HF;
    destruct F as [|F]; try lia; cbn [array].
  - destruct Hst as [-> | [_ []]]; [|done]. cbn [map sep_by app].
    destruct (step_empty ps B) as (E & _).
    rewrite (scanWhile_first pre [93] rest 93) by (done || by rewrite E).
    rewrite E. cbn [fst snd]. ops. by rewrite app_nil_r, Nat.add_0_r.
  - apply Forall_cons in Hok as [Hoke Hok]. cbn [map]. rewrite sep_by_cons.
    set (rest_e := match map json_text es with [] => [] | _ => 44 :: sep_by (map json_text es) end
                   ++ [93] ++ rest).
    rewrite <- !app_assoc. fold rest_e.
    assert (Hf : value_follows rest_e).
    { right. subst rest_e. destruct es; cbn; eauto 6. }
    cbn [map] in HF. rewrite sep_by_cons, length_app in HF.
    destruct (He F pre rest_e op st (parseArrayValue :: ps) B) as (op1 & s1 & d1 & Hw & Hn1 & _ & Hv & Hend);
      [destruct Hst as [-> | [-> _]]; auto | done | apply Hd; left | done | lia |].
    rewrite Hw. ops. rewrite Hv. cbv beta iota zeta.
    destruct es as [|e2 es2]; cbn [map] in *; subst rest_e.
    + rewrite (Hend 93 rest eq_refl ltac:(done)), (proj1 (proj2 (step_end_element ps B))).
      cbn [fst snd]. ops. rewrite !app_nil_r. reflexivity.
    + rewrite (Hend 44 _ eq_refl ltac:(done)), (proj1 (step_end_element ps B)). cbn [fst snd]. ops.
      erewrite (IH F _ _ (pre ++ json_text e ++ [44]) rest (acc ++ [e]) BeginValue scanArrayValue ps B);
        [| by rewrite <- !app_assoc | rewrite !length_app; cbn; lia | by right | done
         | intros; apply Hd; by right | cbn [length] in HF; lia].
      rewrite <- app_assoc, !length_app. cbn [length app]. do 3 f_equal. lia.
Qed.

Lemma readIndex_dst (D : list Z) (i : nat) (op : scanCode) (s : scanner) :
  readIndex (dst D (S i) op s) = i.
Proof. unfold readIndex. cbn. lia. Qed.

(** [d.object(v)] reads the members up to the closing brace. *)
Lemma object_loop (ms : list (list Z * JSON)) :
  Forall (fun m => reads_value m.2) ms ->
  forall F D i pre rest acc st op ps B,
  D = pre ++ sep_by (map member_text ms) ++ [125] ++ rest -> i = length pre ->
  st = BeginStringOrEmpty \/ (st = BeginString /\ ms <> []) ->
  Forall (fun m => Forall valid_rune m.1 /\ json_ok m.2) ms ->
  (forall m, m ∈ ms -> (Z.of_nat (S (length ps) + depth m.2) <= maxNestingDepth)%Z) ->
  (S (length (sep_by (map member_text ms))) < F)%nat ->
  object F (dst D i op (mk_scanner st (parseObjectKey :: ps) B)) acc =
    Some (acc ++ ms, dst D (S (i + length (sep_by (map member_text ms)))) scanEndObject (closed ps B)).
Proof.
  induction 1 as [|[k v] ms Hv _ IH]; intros F D i pre rest acc st op ps B -> -> Hst Hok Hd HF;
    destruct F as [|F]; try lia; cbn [object].
  - destruct Hst as [-> | [_ []]]; [|done]. cbn [map sep_by app].
    destruct (step_empty ps B) as (_ & E & _).
    rewrite (scanWhile_first pre [125] rest 125) by (done || by rewrite E).
    rewrite E. cbn [fst snd]. ops. by rewrite app_nil_r, Nat.add_0_r.
  - apply Forall_cons in Hok as [[Hk Hokv] Hok]. cbn [map] in *. rewrite sep_by_cons in *.
    change (member_text (k, v)) with (str_text k ++ [58] ++ json_text v) in *.
    rewrite !length_app in HF.
    set (R := match map member_text ms with [] => [] | _ => 44 :: sep_by (map member_text ms) end
              ++ [125] ++ rest) in *.
    rewrite <- !app_assoc. fold R.
    (* the key *)
    assert (Ek : scan_step (mk_scanner st (parseObjectKey :: ps) B) 34 =
                 (mk_scanner InString (parseObjectKey :: ps) B, scanBeginLiteral))
      by (destruct Hst as [-> | [-> _]]; apply (step_empty ps B)).
    rewrite (scanWhile_first pre (str_text k) ([58] ++ json_text v ++ R) 34) by (done || by rewrite Ek).
    rewrite Ek. cbn [fst snd]. ops. rewrite readIndex_dst.
    destruct (rescanLiteral_end pre (str_text k) ([58] ++ json_text v ++ R) scanBeginLiteral InString
                (parseObjectKey :: ps) B) as (_ & _ & Hend);
      [apply (literal_end_text (JString k)); [done | exact Hk | right; exists 58, (json_text v ++ R); split; [done | lia]]|].
    rewrite (Hend 58 _ eq_refl ltac:(done)), (proj2 (proj2 (proj2 (proj2 (step_end_element ps B))))).
    cbn [fst snd]. rewrite readIndex_dst. cbn [data dst]. rewrite slice_mid, unquoteBytes_str_text by done.
    ops. unfold runes_of. rewrite range_runes_encode by done.
    (* the value *)
    replace (pre ++ str_text k ++ [58] ++ json_text v ++ R)
      with ((pre ++ str_text k ++ [58]) ++ json_text v ++ R) by (by rewrite <- !app_assoc).
    replace (S (length pre + length (str_text k))) with (length (pre ++ str_text k ++ [58]))
      by (rewrite !length_app; cbn; lia).
    assert (Hf : value_follows R) by (right; subst R; destruct (map member_text ms); cbn; eauto 7).
    destruct (Hv F (pre ++ str_text k ++ [58]) R scanObjectKey BeginValue (parseObjectValue :: ps) B)
      as (op1 & s1 & d1 & Hw & _ & _ & Hval & Hend');
      [by left | done | apply Hd; left | done | cbn [length snd] in HF |- *; lia |].
    cbn [snd] in Hw, Hval, Hend'. rewrite Hw, Hval. ops.
    destruct ms as [|m2 ms2]; cbn [map] in *; subst R.
    + rewrite (Hend' 125 rest eq_refl ltac:(done)), (proj1 (proj2 (proj2 (proj2 (step_end_element ps B))))).
      cbn [fst snd]. ops. rewrite !length_app. cbn [length]. do 3 f_equal. lia.
    + rewrite (Hend' 44 _ eq_refl ltac:(done)), (proj1 (proj2 (proj2 (step_end_element ps B)))).
      cbn [fst snd]. ops.
      erewrite (IH F _ _ (pre ++ str_text k ++ [58] ++ json_text v ++ [44]) rest (acc ++ [(k, v)])
                   BeginString scanObjectValue ps B);
        [| by rewrite <- !app_assoc | rewrite !length_app; cbn; lia | by right | done
         | intros; apply Hd; by right | cbn [length] in HF; lia].
      rewrite <- app_assoc, !length_app. cbn [length app]. do 3 f_equal. lia.
Qed.

Lemma json_ok_array (es : list JSON) : json_ok (JArray es) <-> Forall json_ok es.
Proof.
  cbn. induction es as [|e es IH]; [split; constructor|].
  cbn. rewrite Forall_cons. tauto.
Qed.

Lemma json_ok_object (ms : list (list Z * JSON)) :
  json_ok (JObject ms) <-> Forall (fun m => Forall valid_rune m.1 /\ json_ok m.2) ms.
Proof.
  cbn. induction ms as [|m ms IH]; [split; constructor|].
  cbn. rewrite Forall_cons. tauto.
Qed.

(** After the closing bracket or brace, [d.value] calls [d.scanNext]. *)
Lemma scanNext_closed (pre t rest : list Z) (ps : list parseKind) (B : Z) (op : scanCode) :
  value_end (pre ++ t ++ rest) (length pre + length t) ps B rest
    (scanNext (dst (pre ++ t ++ rest) (length pre + length t) op (closed ps B))).
Proof.
  intros c r -> Hps. rewrite (scanNext_step _ _ _ _ c).
  - by rewrite step_closed.
  - by rewrite app_assoc, <- length_app, nth_app_length0.
  - rewrite !length_app. cbn. lia.
Qed.

Lemma reads_array (es : list JSON) : Forall reads_value es -> reads_value (JArray es).
Proof.
  intros IH F pre rest op st ps B Hst Hok Hd _ HF.
  assert (Hp : (Z.of_nat (length ps) < maxNestingDepth)%Z) by (cbn [depth] in Hd; lia).
  destruct (step_open st ps B Hst Hp) as [Eo _].
  assert (Et : json_text (JArray es) = [91] ++ sep_by (map json_text es) ++ [93]) by reflexivity.
  assert (Hl : length (json_text (JArray es)) = (S (length (sep_by (map json_text es))) + 1)%nat)
    by (rewrite Et, !length_app; cbn; lia).
  exists scanBeginArray, (mk_scanner BeginValueOrEmpty (parseArrayValue :: ps) B). eexists.
  split_and!; [| done | done | |].
  - rewrite (scanWhile_first pre (json_text (JArray es)) rest 91); [by rewrite Eo | done | by rewrite Eo].
  - destruct F as [|F]; [lia|]. cbn [value opcode dst].
    rewrite (array_loop es IH F _ _ (pre ++ [91]) rest [] BeginValueOrEmpty scanBeginArray ps B);
      [reflexivity | by rewrite Et, <- !app_assoc | rewrite length_app; cbn; lia | by left
      | by apply json_ok_array
      | intros e He; cbn [depth] in Hd; pose proof (depth_elem es e He); lia | lia].
  - replace (S (S (length pre) + length (sep_by (map json_text es))))
      with (length pre + length (json_text (JArray es)))%nat by lia.
    apply scanNext_closed.
Qed.

Lemma reads_object (ms : list (list Z * JSON)) :
  Forall (fun m => reads_value m.2) ms -> reads_value (JObject ms).
Proof.
  intros IH F pre rest op st ps B Hst Hok Hd _ HF.
  assert (Hp : (Z.of_nat (length ps) < maxNestingDepth)%Z) by (cbn [depth] in Hd; lia).
  destruct (step_open st ps B Hst Hp) as [_ Eo].
  assert (Et : json_text (JObject ms) = [123] ++ sep_by (map member_text ms) ++ [125]) by reflexivity.
  assert (Hl : length (json_text (JObject ms)) = (S (length (sep_by (map member_text ms))) + 1)%nat)
    by (rewrite Et, !length_app; cbn; lia).
  exists scanBeginObject, (mk_scanner BeginStringOrEmpty (parseObjectKey :: ps) B). eexists.
  split_and!; [| done | done | |].
  - rewrite (scanWhile_first pre (json_text (JObject ms)) rest 123); [by rewrite Eo | done | by rewrite Eo].
  - destruct F as [|F]; [lia|]. cbn [value opcode dst].
    rewrite (object_loop ms IH F _ _ (pre ++ [123]) rest [] BeginStringOrEmpty scanBeginObject ps B);
      [reflexivity | by rewrite Et, <- !app_assoc | rewrite length_app; cbn; lia | by left
      | by apply json_ok_object
      | intros m Hm; cbn [depth] in Hd; pose proof (depth_member ms m Hm); lia | lia].
  - replace (S (S (length pre) + length (sep_by (map member_text ms))))
      with (length pre + length (json_text (JObject ms)))%nat by lia.
    apply scanNext_closed.
Qed.

Lemma reads_all (v : JSON) : reads_value v.
Proof.
  induction v as [| b | l | str | es IH | ms IH] using JSON_deep_ind;
    [by apply reads_scalar .. | by apply reads_array | by apply reads_object].
Qed.

(** The decoder on the whole text of a value. *)
Lemma unmarshal_value_json (v : JSON) :
  json_ok v -> Z.of_nat (depth v) <= maxNestingDepth -> unmarshal_value (json_text v) = Some v.
Proof.
  intros Hok Hd. unfold unmarshal_value.
  destruct (reads_all v (S (length (json_text v))) [] [] scanContinue BeginValue []
              (Z.of_nat (length (json_text v))))
    as (op1 & s1 & d1 & Hw & _ & _ & Hv & _); [by left | done | done | by left | lia |].
  rewrite app_nil_r in Hw, Hv. cbn [app length] in Hw, Hv.
  change {| data := json_text v; off := 0; opcode := scanContinue;
            scan := reset (set_bytes zero_scanner (Z.of_nat (length (json_text v)))) |}
    with (dst (json_text v) 0 scanContinue (mk_scanner BeginValue [] (Z.of_nat (length (json_text v))))).
  by rewrite Hw, Hv.
Qed.

(** ** What the decoder returns on any bytes *)

Section stores.
Context `{CaseTable}.

End stores.

(** ** Theorems *)

(** C23. Round trip: the decoder of [json.Unmarshal] ([d.value] after
    [d.scanWhile(scanSkipSpace)], with [rescanLiteral], [unquoteBytes]
    and the array and object loops) reads back every well-formed value
    nested at most [maxNestingDepth] deep from its text. *)
Theorem unmarshal_value_text (v : JSON) :
  json_ok v -> Z.of_nat (depth v) <= maxNestingDepth -> unmarshal_value (json_text v) = Some v.
Proof. apply unmarshal_value_json. Qed.

Section theorems.
Context `{CaseTable}.

(** C24. Refinement: on the text of a well-formed value, the
    [json.Unmarshal(body, &certificates)] of line 56 (the syntax check,
    then the decoder) stores what [Decode.decode_certificates] gives for
    the value: the library implements the abstract decoding the rest of
    the development assumes. *)
Theorem Unmarshal_text (v : JSON) :
  json_ok v -> Z.of_nat (depth v) <= maxNestingDepth ->
  Unmarshal (json_text v) = decode_certificates v.
Proof.
  intros Hok Hd. unfold Unmarshal. by rewrite checkValid_text, unmarshal_value_json.
Qed.

End theorems.

(** ** Witnesses *)

Lemma unmarshal_value_text_witness :
  json_ok crtsh_sample /\ Z.of_nat (depth crtsh_sample) <= maxNestingDepth /\
  unmarshal_value (json_text crtsh_sample) = Some crtsh_sample.
Proof.
  destruct crtsh_sample_ok as [Hok Hd].
  split; [exact Hok|]. split; [exact Hd|]. exact (unmarshal_value_text _ Hok Hd).
Defined.

Lemma Unmarshal_text_witness :
  json_ok crtsh_sample /\ Z.of_nat (depth crtsh_sample) <= maxNestingDepth /\
  Unmarshal (json_text crtsh_sample) = decode_certificates crtsh_sample.
Proof.
  destruct crtsh_sample_ok as [Hok Hd].
  split; [exact Hok|]. split; [exact Hd|]. exact (Unmarshal_text _ Hok Hd).
Defined.

(** A body with an invalid byte (255) inside a name. *)
Definition sample_body : list Z :=
  gs "[{" ++ [34] ++ gs "name_value" ++ [34] ++ gs ":" ++ [34] ++ gs "a.example.com" ++ [255] ++ [34] ++ gs "}]".

(** ** Examples *)

(** White space between the tokens, which [json_text] never writes, is
    skipped by [scanWhile(scanSkipSpace)] and by [stateEndValue]; an
    escaped quote and a [\u] escape are unquoted. *)
Example unmarshal_value_spaces :
  unmarshal_value (gs " [ {" ++ [34] ++ gs "id" ++ [34] ++ gs " : 12 , " ++ [34] ++ gs "k" ++ [34] ++
                   gs ":" ++ [34; 97; 92; 34; 92; 117; 48; 48; 52; 49; 34] ++ gs " } , null ] ") =
    Some (JArray [JObject [(gs "id", JNumber (gs "12")); (gs "k", JString [97; 34; 65])]; JNull]).
Proof. vm_compute. reflexivity. Qed.

(** The whole of line 56 on a crt.sh answer: the two names of the
    record are stored, a syntax error stores nothing. *)
Example Unmarshal_examples :
  Unmarshal (json_text crtsh_sample) =
    ([{| CommonName := gs "example.com";
         NameValue := gs "a.example.com" ++ [10] ++ gs "b.example.com" |}], None) /\
  Unmarshal (gs "[1,]") = ([], Some Decode.SyntaxError).
Proof. vm_compute. split; reflexivity. Qed.

(** The invalid byte of [sample_body] is stored as U+FFFD (65533). *)
Example Unmarshal_replacement :
  Unmarshal sample_body =
    ([{| CommonName := []; NameValue := gs "a.example.com" ++ [65533] |}], None).
Proof. vm_compute. reflexivity. Qed.

End JsonDecode.
