(* ===== verification/FlagParse.v ===== *)
(** * FlagParse: [flag.Parse()] of the three flags of [crtRecon.go]

    Lines 20-23 declare the string flags [-d], [-org] and [-o] on Go's
    [flag.CommandLine] and call [flag.Parse()], which walks [os.Args[1:]]
    with [FlagSet.parseOne] until the first argument that is not a flag, a
    ["--"], or an error.  [CommandLine] uses [ExitOnError]: [-h] or [-help]
    prints the usage and exits 0, any other error prints its message and the
    usage and exits 2.  Arguments are read as rune lists; every test
    [parseOne] makes is on an ASCII byte (['-'], ['=']) at the start of the
    argument or of the flag name, so it gives the same answer on the runes. *)

From Stdlib Require Import ZArith.
From S2P Require Import Prelude GoStrings.

Module FlagParse.
Import Strings.

(** The values of the three flags, all defaulting to [""]. *)
Record Flags := {
  domainArg : gostring;
  orgArg : gostring;
  outputFile : gostring;
}.

Definition default_flags : Flags := {| domainArg := []; orgArg := []; outputFile := [] |}.

(** The flags the program defines ([f.formal]). *)
Inductive FlagName := Fd | Forg | Fo.

Definition formal (name : gostring) : option FlagName :=
  if decide (name = gs "d") then Some Fd
  else if decide (name = gs "org") then Some Forg
  else if decide (name = gs "o") then Some Fo
  else None.

(** [flag.Value.Set] of a [*string] flag: store the value, never fails. *)
Definition set_flag (fl : Flags) (n : FlagName) (v : gostring) : Flags :=
  match n with
  | Fd => {| domainArg := v; orgArg := orgArg fl; outputFile := outputFile fl |}
  | Forg => {| domainArg := domainArg fl; orgArg := v; outputFile := outputFile fl |}
  | Fo => {| domainArg := domainArg fl; orgArg := orgArg fl; outputFile := v |}
  end.

Definition rMINUS : rune := 45%Z.
Definition rEQ : rune := 61%Z.

(** The errors of [parseOne]; [ErrHelp] is the [-h]/[-help] case. *)
Inductive ParseError :=
| BadSyntax (arg : gostring)
| NotDefined (name : gostring)
| NeedsArgument (name : gostring)
| ErrHelp.

(** What one call of [parseOne] does: stop (with the arguments left),
    consume a flag, or fail. *)
Inductive Step :=
| Stop (args : list gostring)
| Seen (fl : Flags) (args : list gostring)
| Fail (err : ParseError).

(** The loop [for i := 1; i < len(name); i++ { if name[i] == '=' ... }]:
    the first ['='] after the first rune splits the name from its value. *)
Fixpoint split_at_eq (rest : gostring) : gostring * option gostring :=
  match rest with
  | [] => ([], None)
  | r :: rest' =>
      if Z.eqb r rEQ then ([], Some rest')
      else let '(n, v) := split_at_eq rest' in (r :: n, v)
  end.

Definition split_name (name : gostring) : gostring * option gostring :=
  match name with
  | [] => ([], None)
  | r :: rest => let '(n, v) := split_at_eq rest in (r :: n, v)
  end.

(** [FlagSet.parseOne]. *)
Definition parseOne (fl : Flags) (args : list gostring) : Step :=
  match args with
  | [] => Stop []
  | s :: args' =>
      match s with
      | r0 :: r1 :: rest =>
          if negb (Z.eqb r0 rMINUS) then Stop args
          else
            let dashdash := Z.eqb r1 rMINUS in
            if dashdash && bool_decide (rest = []) then Stop args'
            else
              let name := if dashdash then rest else r1 :: rest in
              match name with
              | [] => Fail (BadSyntax s)
              | c :: _ =>
                  if Z.eqb c rMINUS || Z.eqb c rEQ then Fail (BadSyntax s)
                  else
                    let '(n, value) := split_name name in
                    match formal n with
                    | None =>
                        if bool_decide (n = gs "help") || bool_decide (n = gs "h") then Fail ErrHelp
                        else Fail (NotDefined n)
                    | Some fn =>
                        match value, args' with
                        | Some v, _ => Seen (set_flag fl fn v) args'
                        | None, v :: args'' => Seen (set_flag fl fn v) args''
                        | None, [] => Fail (NeedsArgument n)
                        end
                    end
            end
      | _ => Stop args
      end
  end.

(** [FlagSet.Parse]: call [parseOne] until it does not consume a flag.
    [fuel] bounds the iterations; [Parse] gives one more than the number of
    arguments, which [parse_loop_fuel] shows is never used up. *)
Fixpoint parse_loop (fuel : nat) (fl : Flags) (args : list gostring)
    : (Flags * list gostring) + ParseError :=
  match fuel with
  | O => inl (fl, args)
  | S fuel' =>
      match parseOne fl args with
      | Stop rest => inl (fl, rest)
      | Seen fl' rest => parse_loop fuel' fl' rest
      | Fail e => inr e
      end
  end.

Definition Parse (args : list gostring) : (Flags * list gostring) + ParseError :=
  parse_loop (S (length args)) default_flags args.

(** The same loop without fuel, as Go runs it:
    [for { seen, err := f.parseOne(); if seen { continue }; if err == nil
    { break }; ... }].  A derivation is a finished run: a loop that went
    on for ever has none. *)
Inductive parse_run : Flags -> list gostring -> (Flags * list gostring) + ParseError -> Prop :=
| run_stop fl args rest :
    parseOne fl args = Stop rest -> parse_run fl args (inl (fl, rest))
| run_seen fl args fl' rest r :
    parseOne fl args = Seen fl' rest -> parse_run fl' rest r -> parse_run fl args r
| run_fail fl args e :
    parseOne fl args = Fail e -> parse_run fl args (inr e).

(** ** What [ExitOnError] prints *)

(** One flag of [flag.PrintDefaults()]: ["  -name string"], then the usage
    on the next line after four spaces and a tab. *)
Definition flag_line (name usage : gostring) : gostring :=
  gs "  -" ++ name ++ gs " string" ++ [rNL] ++ gs "    " ++ [9%Z] ++ usage ++ [rNL].

(** [flag.PrintDefaults()] for the flags of lines 20-22, sorted by name. *)
Definition usage_defaults : gostring :=
  flag_line (gs "d") (gs "Domain name") ++
  flag_line (gs "o") (gs "Output file to save the results (optional)") ++
  flag_line (gs "org") (gs "Organization name").

(** [flag.Usage] of [CommandLine]: ["Usage of <os.Args[0]>:"], then the
    defaults. *)
Definition usage_text (prog : gostring) : gostring :=
  gs "Usage of " ++ prog ++ gs ":" ++ [rNL] ++ usage_defaults.

(** The message [failf] prints before the usage. *)
Definition error_message (e : ParseError) : gostring :=
  match e with
  | BadSyntax s => gs "bad flag syntax: " ++ s
  | NotDefined n => gs "flag provided but not defined: -" ++ n
  | NeedsArgument n => gs "flag needs an argument: -" ++ n
  | ErrHelp => []
  end.

(** The arguments that set flag [fn] to [v]: ["-name", v]. *)
Definition flag_spelling (fn : FlagName) : gostring :=
  match fn with
  | Fd => gs "d"
  | Forg => gs "org"
  | Fo => gs "o"
  end.

Definition pair_args (p : FlagName * gostring) : list gostring :=
  [rMINUS :: flag_spelling p.1; p.2].

(** ** Lemmas *)

(** A consumed flag consumes at least one argument. *)
Lemma parseOne_Seen_length (fl fl' : Flags) (args rest : list gostring) :
  parseOne fl args = Seen fl' rest -> (length rest < length args)%nat.
Proof.
  unfold parseOne. intros H. repeat case_match; simplify_eq; simpl; lia.
Qed.

(** With fuel above the number of arguments the fuelled loop is a
    finished run. *)
Lemma parse_loop_run (n : nat) (fl : Flags) (args : list gostring) :
  (length args < n)%nat -> parse_run fl args (parse_loop n fl args).
Proof.
  revert fl args; induction n as [|n IH]; intros fl args Hn; [lia|].
  simpl. destruct (parseOne fl args) as [rest|fl' rest|e] eqn:E.
  - by apply run_stop.
  - apply (run_seen _ _ fl' rest); [done|]. apply IH.
    apply parseOne_Seen_length in E. lia.
  - by apply run_fail.
Qed.

(** A run has one result. *)
Lemma parse_run_det (fl : Flags) (args : list gostring) (r1 r2 : (Flags * list gostring) + ParseError) :
  parse_run fl args r1 -> parse_run fl args r2 -> r1 = r2.
Proof.
  intros H1; revert r2; induction H1 as [fl args rest E|fl args fl' rest r E _ IH|fl args e E];
    intros r2 H2; inversion H2 as [? ? ? E'|? ? ? ? ? E' H'|? ? ? E']; subst;
    rewrite E' in E; simplify_eq; [done | by apply IH | done].
Qed.

Lemma parse_loop_fuel (n m : nat) (fl : Flags) (args : list gostring) :
  (length args < n)%nat -> (length args < m)%nat ->
  parse_loop n fl args = parse_loop m fl args.
Proof.
  revert m fl args; induction n as [|n IH]; intros [|m] fl args Hn Hm; try lia.
  simpl. destruct (parseOne fl args) as [rest|fl' rest|e] eqn:E; try done.
  apply parseOne_Seen_length in E. apply IH; lia.
Qed.

Lemma formal_spelling (fn : FlagName) : formal (flag_spelling fn) = Some fn.
Proof. by destruct fn. Qed.

(** ["-name" v] sets the flag to [v], whatever [v] is. *)
Lemma parseOne_pair (fl : Flags) (fn : FlagName) (v : gostring) (rest : list gostring) :
  parseOne fl (pair_args (fn, v) ++ rest) = Seen (set_flag fl fn v) rest.
Proof. destruct fn; reflexivity. Qed.

Lemma parse_loop_pairs (fuel : nat) (fl : Flags) (ps : list (FlagName * gostring)) :
  (length ps < fuel)%nat ->
  parse_loop fuel fl (concat (map pair_args ps)) =
    inl (fold_left (fun acc p => set_flag acc p.1 p.2) ps fl, []).
Proof.
  revert fuel fl; induction ps as [|[fn v] ps IH]; intros [|fuel] fl Hlt;
    [simpl in Hlt; lia | done | simpl in Hlt; lia |].
  cbn [map concat parse_loop]. rewrite parseOne_pair. apply IH. simpl in Hlt. lia.
Qed.

Lemma length_concat_pairs (ps : list (FlagName * gostring)) :
  length (concat (map pair_args ps)) = (2 * length ps)%nat.
Proof. induction ps as [|p ps IH]; simpl; [done|]. lia. Qed.

(** ** Theorems *)

(** C11. Refinement of [flag.Parse] on well-formed command lines: a
    sequence of ["-name" value] pairs sets the flags one pair after the
    other, so the last occurrence of a flag wins, and leaves no argument. *)
Theorem Parse_pairs (ps : list (FlagName * gostring)) :
  Parse (concat (map pair_args ps)) =
    inl (fold_left (fun acc p => set_flag acc p.1 p.2) ps default_flags, []).
Proof.
  unfold Parse. apply parse_loop_pairs. rewrite length_concat_pairs. lia.
Qed.

(** The fuel of the parsing loop is never the limit: any fuel above
    the number of arguments gives the result of [Parse]. *)
Theorem Parse_fuel_enough (args : list gostring) (n : nat) :
  (length args < n)%nat -> parse_loop n default_flags args = Parse args.
Proof. intros Hn. apply parse_loop_fuel; [done | lia]. Qed.

(** C33. [flag.Parse] terminates on every command line, and [Parse]
    is its result: the loop of [parseOne] calls, run without fuel,
    finishes, and the one result it can finish with is [Parse args]. *)
Theorem Parse_terminates (args : list gostring) (r : (Flags * list gostring) + ParseError) :
  parse_run default_flags args r <-> r = Parse args.
Proof.
  split.
  - intros Hr. apply (parse_run_det _ _ _ _ Hr). apply parse_loop_run. lia.
  - intros ->. apply parse_loop_run. lia.
Qed.

(** C34. [-h], [-help], [--h] and [--help] (with or without a value) are
    not flags of the program: [Parse] stops with [ErrHelp], whatever
    follows. *)
Theorem Parse_help (spelling value : gostring) (rest : list gostring) :
  spelling ∈ [gs "-h"; gs "-help"; gs "--h"; gs "--help"] ->
  Parse (spelling :: rest) = inr ErrHelp /\
  Parse ((spelling ++ gs "=" ++ value) :: rest) = inr ErrHelp.
Proof.
  intros Hs. repeat (apply elem_of_cons in Hs as [->|Hs]);
    [split; reflexivity ..|by apply elem_of_nil in Hs].
Qed.

(** The first argument that does not start with ['-'] (or is a lone
    ["-"]) ends the flags: nothing is set and it is left in place. *)
Theorem Parse_positional_stops (a : gostring) (rest : list gostring) :
  (head a <> Some rMINUS \/ a = [rMINUS]) ->
  Parse (a :: rest) = inl (default_flags, a :: rest).
Proof.
  intros Ha. unfold Parse. cbn [parse_loop length]. unfold parseOne.
  destruct a as [|r0 [|r1 a']]; try done.
  destruct Ha as [Ha|Ha]; [|done]. simpl in Ha.
  rewrite (proj2 (Z.eqb_neq r0 rMINUS)) by congruence. done.
Qed.

(** The last occurrence of a flag wins. *)
Example Parse_last_wins :
  Parse [gs "-d"; gs "a.com"; gs "-o"; gs "x"; gs "--d=b.com"] =
    inl ({| domainArg := gs "b.com"; orgArg := []; outputFile := gs "x" |}, []).
Proof. reflexivity. Qed.

Lemma Parse_fuel_enough_witness :
  (length [gs "-d"; gs "example.com"] < 7)%nat /\
  parse_loop 7 default_flags [gs "-d"; gs "example.com"] = Parse [gs "-d"; gs "example.com"].
Proof. split; [simpl; lia|]. apply Parse_fuel_enough. simpl. lia. Defined.

Lemma Parse_help_witness :
  gs "--help" ∈ [gs "-h"; gs "-help"; gs "--h"; gs "--help"] /\
  Parse [gs "--help"; gs "-d"] = inr ErrHelp /\
  Parse [gs "--help" ++ gs "=" ++ gs "yes"; gs "-d"] = inr ErrHelp.
Proof.
  assert (Hin : gs "--help" ∈ [gs "-h"; gs "-help"; gs "--h"; gs "--help"]).
  { do 3 apply list_elem_of_further. apply list_elem_of_here. }
  split; [exact Hin|]. apply (Parse_help (gs "--help") (gs "yes") [gs "-d"] Hin).
Defined.

Lemma Parse_positional_stops_witness :
  (head (gs "example.com") <> Some rMINUS \/ gs "example.com" = [rMINUS]) /\
  Parse [gs "example.com"; gs "-d"; gs "x"] =
    inl (default_flags, [gs "example.com"; gs "-d"; gs "x"]).
Proof.
  assert (Ha : head (gs "example.com") <> Some rMINUS \/ gs "example.com" = [rMINUS])
    by (left; discriminate).
  split; [exact Ha|]. by apply Parse_positional_stops.
Defined.

(** A flag followed by another flag takes it as its value. *)
Example Parse_value_looks_like_flag :
  Parse [gs "-d"; gs "-org"; gs "Example"] =
    inl ({| domainArg := gs "-org"; orgArg := []; outputFile := [] |}, [gs "Example"]).
Proof. reflexivity. Qed.

(** An undefined flag, and a flag with no value, are errors. *)
Example Parse_errors :
  Parse [gs "-x"; gs "1"] = inr (NotDefined (gs "x")) /\
  Parse [gs "-d"] = inr (NeedsArgument (gs "d")) /\
  Parse [gs "---d"] = inr (BadSyntax (gs "---d")).
Proof. split; [|split]; reflexivity. Qed.

End FlagParse.
