(* ===== verification/Main.v ===== *)
(** * Main: the command-line pipeline of [crtRecon.go] ([func main], lines 18-90)

    [main] reads the flags, checks that exactly one query flag is set,
    builds the crt.sh URL, performs one [http.Get], reads the body, decodes
    it ([Decode.Unmarshal]), builds the name set ([Extract.collect]), prints
    one name per line and optionally writes the same text to a file.  The
    outside world is the interface [World]: the HTTP client, the JSON text
    parser, the file system and the iteration order Go picks for the map.
    A run is a value of [Outcome]: the list of observable events in order
    and the exit code.  [log.Fatal] prints its message to standard error
    (the timestamp prefix is left out) and exits with status 1. *)

From Stdlib Require Import ZArith.
From S2P Require Import Prelude GoStrings Extract Decode FlagParse.

Module Main.
Import Unicode Strings StringsFacts Extract Decode FlagParse.

(** A Go [error] result: the value, or the error's text. *)
Inductive result (A : Type) :=
| Ok (a : A)
| Err (msg : gostring).
Arguments Ok {A} a.
Arguments Err {A} msg.

(** What [http.Get] returns when it returns no error: the status code and
    what [ioutil.ReadAll(resp.Body)] will give. *)
Record Response := {
  StatusCode : Z;
  ReadAll : result (list Z);
}.

(** The collaborators of [main]. *)
Class World := {
  http_get : gostring -> result Response;
  json_parse : list Z -> option JSON;
  json_error_text : DecodeError -> gostring;
  write_file : gostring -> gostring -> Z -> result unit;
  map_order : gset gostring -> list gostring;
}.

(** Go visits every key of the map exactly once, in some order. *)
Class WorldLaws `{World} := {
  map_order_perm : forall set, map_order set ≡ₚ elements set;
}.

(** The observable events of a run, in order. *)
Inductive Event :=
| Stdout (s : gostring)
| Stderr (s : gostring)
| HttpGet (url : gostring)
| WriteFile (path data : gostring) (perm : Z).

Record Outcome := {
  trace : list Event;
  exit_code : Z;
}.

(** [log.Fatal(msg)]: the message on standard error, exit status 1. *)
Definition fatal (before : list Event) (msg : gostring) : Outcome :=
  {| trace := before ++ [Stderr msg]; exit_code := 1 |}.

(** The request URL of line 43. *)
Definition crtsh_url (query : gostring) : gostring :=
  gs "https://crt.sh/?" ++ gs "q=" ++ ReplaceAll query (gs " ") (gs "+") ++
  gs "&output=json".

(** Lines 76-78: [output += domain + "\n"] over the map, in Go's order. *)
Definition render (domains : list gostring) : gostring :=
  fold_left (fun output domain => output ++ (domain ++ [rNL])) domains [].

(** The message of line 34. *)
Definition both_flags_message : gostring :=
  gs "Please specify only one type of query: either a domain with -d or an organization with -org".

(** The file mode [0644] of line 85. *)
Definition perm_0644 : Z := 420.

Section main.
Context {CT : CaseTable} {W : World}.

(** Lines 80-89: print, then write the file when [-o] is given. *)
Definition emit (before : list Event) (output path : gostring) : Outcome :=
  let t := before ++ [Stdout output] in
  if bool_decide (path <> []) then
    let t' := t ++ [WriteFile path output perm_0644] in
    match write_file path output perm_0644 with
    | Err e => fatal t' (gs "Error writing to file:" ++ e)
    | Ok _ => {| trace := t'; exit_code := 0 |}
    end
  else {| trace := t; exit_code := 0 |}.

(** Lines 42-59: the request, the body, the decoding; the error is the
    message [log.Fatal] prints. *)
Definition fetch (url : gostring) : result (list Certificate) :=
  match http_get url with
  | Err e => Err e
  | Ok resp =>
      match ReadAll resp with
      | Err e => Err e
      | Ok body =>
          match Unmarshal json_parse body with
          | (_, Some err) => Err (gs "Error parsing JSON:" ++ json_error_text err)
          | (certificates, None) => Ok certificates
          end
      end
  end.

(** Lines 37-40: the search term. *)
Definition query_of (f : Flags) : gostring :=
  if bool_decide (orgArg f <> []) then orgArg f else domainArg f.

(** [func main()]. *)
Definition main (f : Flags) : Outcome :=
  if bool_decide (domainArg f = []) && bool_decide (orgArg f = []) then
    {| trace := [Stdout (gs "Usage:" ++ [rNL]); Stderr usage_defaults];
       exit_code := 0 |}
  else if bool_decide (domainArg f <> []) && bool_decide (orgArg f <> []) then
    fatal [] both_flags_message
  else
    let url := crtsh_url (query_of f) in
    match fetch url with
    | Err msg => fatal [HttpGet url] msg
    | Ok certificates =>
        let domainSet := collect (domainArg f) certificates in
        emit [HttpGet url] (render (map_order domainSet)) (outputFile f)
    end.
(** The whole program on [os.Args]: [flag.Parse()] (line 23) with
    [ExitOnError], then the rest of [main] on the parsed values. *)
Definition run (prog : gostring) (args : list gostring) : Outcome :=
  match Parse args with
  | inl (fl, _) => main fl
  | inr ErrHelp => {| trace := [Stderr (usage_text prog)]; exit_code := 0 |}
  | inr e =>
      {| trace := [Stderr (error_message e ++ [rNL] ++ usage_text prog)]; exit_code := 2 |}
  end.
End main.

(** The same world with every answer's status code replaced by [status]. *)
Definition with_status (W : World) (status : Z) : World := {|
  http_get u := match @http_get W u with
                | Ok resp => Ok {| StatusCode := status; ReadAll := ReadAll resp |}
                | Err e => Err e
                end;
  json_parse := @json_parse W;
  json_error_text := @json_error_text W;
  write_file := @write_file W;
  map_order := @map_order W;
|}.

(** ** Lemmas *)
Section facts.
Context `{CaseTable}.

Lemma render_acc (domains : list gostring) (acc : gostring) :
  fold_left (fun output domain => output ++ (domain ++ [rNL])) domains acc =
  acc ++ concat (map (fun d => d ++ [rNL]) domains).
Proof.
  revert acc; induction domains as [|d ds IH]; intros acc; simpl.
  - symmetry. apply app_nil_r.
  - rewrite IH. by rewrite <- app_assoc.
Qed.

Lemma render_concat (domains : list gostring) :
  render domains = concat (map (fun d => d ++ [rNL]) domains).
Proof. apply render_acc. Qed.

(** Lower-casing never produces a newline from another rune. *)
Lemma newline_not_in_lower `{!CaseTableLaws} (s : gostring) :
  rNL ∉ s -> rNL ∉ Strings.ToLower s.
Proof.
  intros Hs Hin. apply list_elem_of_In, in_map_iff in Hin as (r & Hr & Hin).
  apply list_elem_of_In in Hin.
  assert (Hsp : IsSpace r = true).
  { rewrite <- IsSpace_ToLower, Hr. reflexivity. }
  rewrite (ToLower_space r Hsp) in Hr. subst r. done.
Qed.

Lemma mode_of_domain (domainArg : gostring) :
  domainArg <> [] -> mode_of domainArg = DomainQuery.
Proof. intros Hd. unfold mode_of. by rewrite bool_decide_eq_true_2. Qed.

(** The names of a domain query never hold a newline: they come from the
    lines of [NameValue]. *)
Lemma collect_domain_no_newline `{!CaseTableLaws} (domainArg : gostring)
    (certificates : list Certificate) (x : gostring) :
  domainArg <> [] -> x ∈ collect domainArg certificates -> rNL ∉ x.
Proof.
  intros Hd (t & Ht & -> & _)%collect_spec.
  rewrite mode_of_domain in Ht by done. cbn [raw_tokens] in Ht.
  apply list_elem_of_In, in_concat in Ht as (p & Hp & Ht).
  apply in_map_iff in Hp as (c & <- & _).
  autorewrite with gostr_rw in Ht. apply list_elem_of_In in Ht.
  apply split_rune_not_elem in Ht.
  apply newline_not_in_lower. intros Hin. apply Ht.
  by apply (TrimFunc_subseteq IsSpace t rNL).
Qed.

Lemma main_success_core {W : World} `{!WorldLaws} (f : Flags)
    (certificates : list Certificate) :
  (domainArg f = [] <-> orgArg f <> []) ->
  fetch (crtsh_url (query_of f)) = Ok certificates ->
  exists domains, domains ≡ₚ elements (collect (domainArg f) certificates) /\
    main f = emit [HttpGet (crtsh_url (query_of f))] (render domains) (outputFile f).
Proof.
  intros Hone Hfetch. exists (map_order (collect (domainArg f) certificates)).
  split; [apply map_order_perm|].
  unfold main. rewrite Hfetch. repeat case_bool_decide; simpl; tauto.
Qed.

(** The three ways lines 44-59 fail: the request, reading the body, or
    the decoding, each with the message [log.Fatal] prints. *)
Lemma fetch_failures {W : World} (url msg : gostring) :
  http_get url = Err msg \/
  (exists resp, http_get url = Ok resp /\ ReadAll resp = Err msg) \/
  (exists resp body certificates err, http_get url = Ok resp /\ ReadAll resp = Ok body /\
     Unmarshal json_parse body = (certificates, Some err) /\
     msg = gs "Error parsing JSON:" ++ json_error_text err) ->
  fetch url = Err msg.
Proof.
  unfold fetch. intros [Hg | [(resp & H1 & H2) | (resp & body & cs & e & H1 & H2 & H3 & ->)]].
  - by rewrite Hg.
  - by rewrite H1, H2.
  - by rewrite H1, H2, H3.
Qed.

Lemma fetch_ok {W : World} (url : gostring) (resp : Response) (body : list Z)
    (certificates : list Certificate) :
  http_get url = Ok resp -> ReadAll resp = Ok body ->
  Unmarshal json_parse body = (certificates, None) -> fetch url = Ok certificates.
Proof. intros H1 H2 H3. unfold fetch. by rewrite H1, H2, H3. Qed.

(** [fetch] reads the body and never the status code. *)
Lemma fetch_with_status {W : World} (status : Z) (url : gostring) :
  @fetch _ (with_status W status) url = @fetch _ W url.
Proof. unfold fetch. cbn. by destruct (@http_get W url). Qed.

(** [emit] when the write succeeds. *)
Lemma emit_ok {W : World} (before : list Event) (output path : gostring) :
  (path <> [] -> write_file path output perm_0644 = Ok tt) ->
  emit before output path =
    {| trace := before ++ [Stdout output] ++
                (if bool_decide (path = []) then [] else [WriteFile path output perm_0644]);
       exit_code := 0 |}.
Proof.
  intros Hw. unfold emit.
  case_bool_decide as Hp; case_bool_decide; try done.
  all: first [by rewrite app_nil_r | rewrite Hw by done; by rewrite <- app_assoc].
Qed.

(** [emit] prints the listing, whatever the write does. *)
Lemma emit_stdout {W : World} (before : list Event) (output path : gostring) :
  Stdout output ∈ trace (emit before output path).
Proof. unfold emit. case_bool_decide; [destruct write_file|]; simpl; set_solver. Qed.

(** After the request, [emit] makes no other request. *)
Lemma emit_requests {W : World} (url u output path : gostring) :
  HttpGet u ∈ trace (emit [HttpGet url] output path) -> u = url.
Proof.
  unfold emit. case_bool_decide; [destruct write_file|]; simpl;
    intros Hin; elem_cases Hin; congruence.
Qed.

Lemma render_split (domains : list gostring) :
  (forall d, d ∈ domains -> rNL ∉ d) ->
  Split (render domains) [rNL] = domains ++ [[]].
Proof.
  intros Hd. by rewrite render_concat, Split_single, split_rune_lines.
Qed.



End facts.

(** ** Theorems *)
Section theorems.
Context {CT : CaseTable} {W : World}.

(** C5. With neither [-d] nor [-org], [main] prints the usage text and
    the flag defaults and exits with status 0, with no network call. *)
Theorem main_usage (f : Flags) :
  domainArg f = [] -> orgArg f = [] ->
  main f = {| trace := [Stdout (gs "Usage:" ++ [rNL]); Stderr usage_defaults];
              exit_code := 0 |}.
Proof.
  intros Hd Ho. unfold main. by rewrite Hd, Ho.
Qed.

(** C4. With both [-d] and [-org], [main] stops with [log.Fatal] before
    any network call: the only event is the message on standard error,
    and the exit status is 1. *)
Theorem main_both_flags (f : Flags) :
  domainArg f <> [] -> orgArg f <> [] ->
  main f = {| trace := [Stderr both_flags_message]; exit_code := 1 |}.
Proof.
  intros Hd Ho. unfold main. repeat case_bool_decide; simpl; done.
Qed.

(** C6. When exactly one query flag is given and the request fails, or
    reading the body fails, or [json.Unmarshal] reports an error, [main]
    makes the one request, prints that failure on standard error
    (["Error parsing JSON:"] before the decoder's message, with no
    space), prints nothing on standard output and exits with status 1. *)
Theorem main_fetch_error (f : Flags) (msg : gostring) :
  (domainArg f = [] <-> orgArg f <> []) ->
  http_get (crtsh_url (query_of f)) = Err msg \/
  (exists resp, http_get (crtsh_url (query_of f)) = Ok resp /\ ReadAll resp = Err msg) \/
  (exists resp body certificates err,
     http_get (crtsh_url (query_of f)) = Ok resp /\ ReadAll resp = Ok body /\
     Unmarshal json_parse body = (certificates, Some err) /\
     msg = gs "Error parsing JSON:" ++ json_error_text err) ->
  main f = {| trace := [HttpGet (crtsh_url (query_of f)); Stderr msg];
              exit_code := 1 |}.
Proof.
  intros Hone Hfail. unfold main. rewrite (fetch_failures _ _ Hfail).
  repeat case_bool_decide; simpl; tauto.
Qed.

(** C7. When exactly one query flag is given, the server answers, the
    body is read and [json.Unmarshal] stores [certificates] without
    error, and a requested [-o] write succeeds, [main] makes the one
    request, prints every name of the collected set followed by a
    newline, in the order Go visits the map (a permutation of the set),
    writes the same text to the [-o] file with mode 0644 when [-o] is
    given, and exits with status 0. *)
Theorem main_success `{!WorldLaws} (f : Flags) (certificates : list Certificate)
    (resp : Response) (body : list Z) :
  (domainArg f = [] <-> orgArg f <> []) ->
  http_get (crtsh_url (query_of f)) = Ok resp -> ReadAll resp = Ok body ->
  Unmarshal json_parse body = (certificates, None) ->
  (outputFile f <> [] -> forall data, write_file (outputFile f) data perm_0644 = Ok tt) ->
  exists domains, domains ≡ₚ elements (collect (domainArg f) certificates) /\
    main f =
      {| trace := [HttpGet (crtsh_url (query_of f));
                   Stdout (concat (map (fun d => d ++ [rNL]) domains))] ++
                  (if bool_decide (outputFile f = []) then []
                   else [WriteFile (outputFile f) (concat (map (fun d => d ++ [rNL]) domains))
                           perm_0644]);
         exit_code := 0 |}.
Proof.
  intros Hone H1 H2 H3 Hw.
  destruct (main_success_core f certificates Hone (fetch_ok _ _ _ _ H1 H2 H3))
    as (domains & Hperm & ->).
  exists domains. split; [done|]. rewrite emit_ok by (intros Hp; by apply Hw).
  by rewrite render_concat.
Qed.

(** C8. One name per line, for a domain query: standard output, split
    on newlines, is the members of the collected set (in Go's map
    order) followed by the empty piece after the last newline. *)
Theorem main_domain_output_lines `{!CaseTableLaws} `{!WorldLaws} (f : Flags)
    (certificates : list Certificate) :
  domainArg f <> [] -> orgArg f = [] ->
  fetch (crtsh_url (query_of f)) = Ok certificates ->
  exists output lines,
    Stdout output ∈ trace (main f) /\
    Split output [rNL] = lines ++ [[]] /\
    lines ≡ₚ elements (collect (domainArg f) certificates).
Proof.
  intros Hd Ho Hfetch.
  assert (Hone : domainArg f = [] <-> orgArg f <> [])
    by (split; intros Hx; exfalso; [apply Hd | apply Hx]; done).
  destruct (main_success_core f certificates Hone Hfetch) as (domains & Hperm & ->).
  exists (render domains), domains. split; [|split; [|done]].
  - apply emit_stdout.
  - apply render_split. intros d Hin. rewrite Hperm in Hin.
    apply elem_of_elements in Hin. by apply (collect_domain_no_newline (domainArg f) certificates).
Qed.

(** C28. A failing [-o] write comes after the names are printed: the run
    exits with status 1 although standard output already holds the
    whole listing (the spec says no output is produced on failure). *)
Theorem main_write_failure (f : Flags) (certificates : list Certificate) (e : gostring) :
  (domainArg f = [] <-> orgArg f <> []) -> outputFile f <> [] ->
  fetch (crtsh_url (query_of f)) = Ok certificates ->
  write_file (outputFile f) (render (map_order (collect (domainArg f) certificates)))
             perm_0644 = Err e ->
  exists output,
    main f = {| trace := [HttpGet (crtsh_url (query_of f)); Stdout output;
                          WriteFile (outputFile f) output perm_0644;
                          Stderr (gs "Error writing to file:" ++ e)];
                exit_code := 1 |}.
Proof.
  intros Hone Ho Hfetch Hw. eexists.
  unfold main. rewrite Hfetch. unfold emit. rewrite Hw.
  repeat case_bool_decide; simpl; tauto.
Qed.

(** C29. [http.Get] returns no error for a non-2xx status and [main]
    never looks at [resp.StatusCode]: whatever status code the server
    answers with, the run is the same (the spec says a non-2xx response
    is fatal). *)
Theorem main_status_ignored (status : Z) (f : Flags) :
  @main CT (with_status W status) f = main f.
Proof. unfold main. rewrite fetch_with_status. reflexivity. Qed.


(** C3. The program contacts crt.sh only when [flag.Parse] succeeds with
    exactly one of [-d] and [-org] set, and then only at the URL of that
    query: usage, conflicting flags and flag errors make no request. *)
Theorem run_request_only_with_one_query (prog : gostring) (args : list gostring)
    (u : gostring) :
  HttpGet u ∈ trace (run prog args) ->
  exists fl rest, Parse args = inl (fl, rest) /\
    (domainArg fl = [] <-> orgArg fl <> []) /\ u = crtsh_url (query_of fl).
Proof.
  unfold run. destruct (Parse args) as [[fl rest]|e].
  - unfold main. intros Hin. exists fl, rest. split; [done|].
    repeat case_bool_decide; simpl in Hin;
      try (elem_cases Hin; congruence).
    all: destruct (fetch _); [apply emit_requests in Hin | simpl in Hin; elem_cases Hin];
      split; try tauto; congruence.
  - destruct e; simpl; intros Hin; elem_cases Hin; congruence.
Qed.

(** Spec scenario 5: with both [-d] and [-org] given non-empty values
    on the command line, the run exits 1 with the conflict message and no
    request, whatever the values. *)
Theorem run_both_flags (prog d o : gostring) :
  d <> [] -> o <> [] ->
  run prog (concat (map pair_args [(Fd, d); (Forg, o)])) =
    {| trace := [Stderr both_flags_message]; exit_code := 1 |}.
Proof.
  intros Hd Ho. unfold run, Parse. rewrite parse_loop_pairs by (simpl; lia).
  simpl. unfold main. simpl. repeat case_bool_decide; simpl; done.
Qed.

(** [-h] or [-help] as the first argument prints the usage on standard
    error and exits 0, with no request. *)
Theorem run_help (prog : gostring) (rest : list gostring) (spelling : gostring) :
  spelling ∈ [gs "-h"; gs "-help"; gs "--h"; gs "--help"] ->
  run prog (spelling :: rest) = {| trace := [Stderr (usage_text prog)]; exit_code := 0 |}.
Proof. intros Hs. elem_cases Hs; subst; reflexivity. Qed.

(** C36. The request URL holds no space: [strings.ReplaceAll] turns every
    space of the search term into ['+']. *)
Theorem crtsh_url_no_space (query : gostring) : rSP ∉ crtsh_url query.
Proof.
  unfold crtsh_url. rewrite (ReplaceAll_single 32 43) by done.
  rewrite !elem_of_app. intros [Hin|[Hin|[Hin|Hin]]]; try by vm_compute in Hin;
    repeat (apply elem_of_cons in Hin as [Hin|Hin]; [discriminate|]);
    apply elem_of_nil in Hin.
  apply list_elem_of_In, in_map_iff in Hin as (r & Hr & _).
  destruct (Z.eqb_spec r 32); [discriminate | done].
Qed.

End theorems.

(** ** Runs against a fixed world, with the [latin1_case] table *)

Open Scope go_scope.

(** A world whose server answers every request with [resp], whose JSON
    parser returns [parsed], whose file system answers [w], and which
    visits the map in [elements] order. *)
Definition fixed_world (resp : result Response) (parsed : option JSON)
    (w : result unit) : World := {|
  http_get _ := resp;
  json_parse _ := parsed;
  json_error_text _ := gs "json: cannot unmarshal";
  write_file _ _ _ := w;
  map_order := elements;
|}.

#[export] Instance fixed_world_laws resp parsed w :
  WorldLaws (H := fixed_world resp parsed w).
Proof. split. reflexivity. Qed.

Definition ok_response (status : Z) (body : gostring) : result Response :=
  Ok {| StatusCode := status; ReadAll := Ok body |}.

(** The response of spec scenario 1, parsed. *)
Definition scenario_json : JSON :=
  JArray [crtsh_record [(gs "id", JNumber (gs "1"))] cert_sub_example].

Definition world_ok : World :=
  fixed_world (ok_response 200 (gs "[...]")) (Some scenario_json) (Ok tt).

Definition flags_domain (out : gostring) : Flags :=
  {| domainArg := gs "example.com"; orgArg := []; outputFile := out |}.

Lemma main_usage_witness :
  domainArg {| domainArg := []; orgArg := []; outputFile := gs "out.txt" |} = [] /\
  orgArg {| domainArg := []; orgArg := []; outputFile := gs "out.txt" |} = [] /\
  @main latin1_case world_ok {| domainArg := []; orgArg := []; outputFile := gs "out.txt" |} =
    {| trace := [Stdout (gs "Usage:" ++ [rNL]); Stderr usage_defaults]; exit_code := 0 |}.
Proof. split; [reflexivity|]. split; [reflexivity|]. apply main_usage; reflexivity. Defined.

Lemma main_both_flags_witness :
  gs "example.com" <> [] /\ gs "Example Inc" <> [] /\
  @main latin1_case world_ok
    {| domainArg := gs "example.com"; orgArg := gs "Example Inc"; outputFile := [] |} =
    {| trace := [Stderr both_flags_message]; exit_code := 1 |}.
Proof.
  split; [discriminate|]. split; [discriminate|].
  apply main_both_flags; simpl; discriminate.
Defined.

Lemma flags_domain_one (out : gostring) :
  domainArg (flags_domain out) = [] <-> orgArg (flags_domain out) <> [].
Proof. simpl. split; [discriminate | intros H; by exfalso]. Qed.

(** A server whose answer breaks off while the body is read. *)
Definition world_read_error : World :=
  fixed_world (Ok {| StatusCode := 200; ReadAll := Err (gs "unexpected EOF") |}) None (Ok tt).

Lemma main_fetch_error_witness :
  (domainArg (flags_domain []) = [] <-> orgArg (flags_domain []) <> []) /\
  (exists resp, @http_get world_read_error (crtsh_url (query_of (flags_domain []))) = Ok resp /\
                ReadAll resp = Err (gs "unexpected EOF")) /\
  @main latin1_case world_read_error (flags_domain []) =
    {| trace := [HttpGet (crtsh_url (query_of (flags_domain []))); Stderr (gs "unexpected EOF")];
       exit_code := 1 |}.
Proof.
  assert (Hr : exists resp, @http_get world_read_error (crtsh_url (query_of (flags_domain []))) = Ok resp /\
                            ReadAll resp = Err (gs "unexpected EOF")) by (eexists; split; reflexivity).
  split; [apply flags_domain_one|]. split; [exact Hr|].
  apply main_fetch_error; [apply flags_domain_one | right; left; exact Hr].
Defined.

Lemma main_success_witness :
  (domainArg (flags_domain (gs "out.txt")) = [] <-> orgArg (flags_domain (gs "out.txt")) <> []) /\
  @Unmarshal latin1_case (@json_parse world_ok) (gs "[...]") = ([cert_sub_example], None) /\
  exists domains, domains ≡ₚ elements (collect (gs "example.com") [cert_sub_example]) /\
    @main latin1_case world_ok (flags_domain (gs "out.txt")) =
      {| trace := [HttpGet (crtsh_url (gs "example.com"));
                   Stdout (concat (map (fun d => d ++ [rNL]) domains))] ++
                  (if bool_decide (gs "out.txt" = []) then []
                   else [WriteFile (gs "out.txt") (concat (map (fun d => d ++ [rNL]) domains))
                           perm_0644]);
         exit_code := 0 |}.
Proof.
  assert (Hu : @Unmarshal latin1_case (@json_parse world_ok) (gs "[...]") = ([cert_sub_example], None))
    by (vm_compute; reflexivity).
  split; [apply flags_domain_one|]. split; [exact Hu|].
  exact (@main_success latin1_case world_ok _ (flags_domain (gs "out.txt")) [cert_sub_example]
           {| StatusCode := 200; ReadAll := Ok (gs "[...]") |} (gs "[...]")
           (flags_domain_one _) eq_refl eq_refl Hu (fun _ _ => eq_refl)).
Defined.

Lemma main_domain_output_lines_witness :
  gs "example.com" <> [] /\ orgArg (flags_domain []) = [] /\
  @fetch latin1_case world_ok (crtsh_url (query_of (flags_domain []))) = Ok [cert_sub_example] /\
  exists output lines,
    Stdout output ∈ trace (@main latin1_case world_ok (flags_domain [])) /\
    Split output [rNL] = lines ++ [[]] /\
    lines ≡ₚ elements (collect (domainArg (flags_domain [])) [cert_sub_example]).
Proof.
  split; [discriminate|]. split; [reflexivity|]. split; [vm_compute; reflexivity|].
  apply (main_domain_output_lines (W := world_ok)); [discriminate | reflexivity |].
  vm_compute. reflexivity.
Defined.

Definition world_disk_full : World :=
  fixed_world (ok_response 200 (gs "[...]")) (Some scenario_json)
    (Err (gs "write out.txt: no space left on device")).

Lemma main_write_failure_witness :
  (domainArg (flags_domain (gs "out.txt")) = [] <-> orgArg (flags_domain (gs "out.txt")) <> []) /\
  gs "out.txt" <> [] /\
  exists output,
    @main latin1_case world_disk_full (flags_domain (gs "out.txt")) =
      {| trace := [HttpGet (crtsh_url (gs "example.com")); Stdout output;
                   WriteFile (gs "out.txt") output perm_0644;
                   Stderr (gs "Error writing to file:" ++ gs "write out.txt: no space left on device")];
         exit_code := 1 |}.
Proof.
  split; [apply flags_domain_one|]. split; [discriminate|].
  apply (main_write_failure (W := world_disk_full) (flags_domain (gs "out.txt"))
           [cert_sub_example]);
    [apply flags_domain_one | discriminate | vm_compute; reflexivity ..].
Defined.

Lemma run_request_only_with_one_query_witness :
  HttpGet (crtsh_url (gs "example.com"))
    ∈ trace (@run latin1_case world_ok (gs "crtRecon") [gs "-d"; gs "example.com"]) /\
  exists fl rest, Parse [gs "-d"; gs "example.com"] = inl (fl, rest) /\
    (domainArg fl = [] <-> orgArg fl <> []) /\
    crtsh_url (gs "example.com") = crtsh_url (query_of fl).
Proof.
  assert (Hin : HttpGet (crtsh_url (gs "example.com"))
            ∈ trace (@run latin1_case world_ok (gs "crtRecon") [gs "-d"; gs "example.com"])).
  { vm_compute. apply list_elem_of_here. }
  split; [exact Hin|]. exact (run_request_only_with_one_query _ _ _ Hin).
Defined.

Lemma run_both_flags_witness :
  gs "example.com" <> [] /\ gs "Example Inc" <> [] /\
  @run latin1_case world_ok (gs "crtRecon")
    (concat (map pair_args [(Fd, gs "example.com"); (Forg, gs "Example Inc")])) =
    {| trace := [Stderr both_flags_message]; exit_code := 1 |}.
Proof.
  split; [discriminate|]. split; [discriminate|].
  apply run_both_flags; discriminate.
Defined.

Lemma run_help_witness :
  gs "-help" ∈ [gs "-h"; gs "-help"; gs "--h"; gs "--help"] /\
  @run latin1_case world_ok (gs "crtRecon") [gs "-help"; gs "-d"; gs "x"] =
    {| trace := [Stderr (usage_text (gs "crtRecon"))]; exit_code := 0 |}.
Proof.
  assert (Hs : gs "-help" ∈ [gs "-h"; gs "-help"; gs "--h"; gs "--help"])
    by (apply list_elem_of_further, list_elem_of_here).
  split; [exact Hs|]. apply (run_help _ _ _ Hs).
Defined.

(** The last [-d] wins: the request is for [b.example]. *)
Example run_last_domain_wins :
  trace (@run latin1_case (fixed_world (ok_response 200 (gs "[]")) (Some (JArray [])) (Ok tt))
           (gs "crtRecon") [gs "-d"; gs "a.example"; gs "-d"; gs "b.example"]) =
    [HttpGet (crtsh_url (gs "b.example")); Stdout []].
Proof. vm_compute. reflexivity. Qed.

(** ** What the runs show beyond the spec *)

(** [http.Get] returns no error for a non-2xx status and [main] never
    looks at [resp.StatusCode]: a [500] answer whose body is the JSON
    array [[]] gives an ordinary, successful, empty run (the spec says a
    non-2xx response is fatal). *)
Example main_http_500_accepted :
  @main latin1_case (fixed_world (ok_response 500 (gs "[]")) (Some (JArray [])) (Ok tt))
    (flags_domain []) =
    {| trace := [HttpGet (crtsh_url (gs "example.com")); Stdout []]; exit_code := 0 |}.
Proof. vm_compute. reflexivity. Qed.

(** A certificate whose common name holds a newline inside it. *)
Definition cert_newline_cn : Certificate :=
  {| CommonName := gs "a" +nl+ gs "b.com"; NameValue := [] |}.

Definition world_newline_cn : World :=
  fixed_world (ok_response 200 (gs "[...]"))
    (Some (JArray [crtsh_record [] cert_newline_cn])) (Ok tt).

(** In an organization query [TrimSpace] only trims the ends of the
    common name, so a name with an inner newline is kept whole and its
    output spreads over two lines that are not names of the set: the
    output is not one name per line. *)
Example main_org_newline_splits_name :
  collect [] [cert_newline_cn] = {[ gs "a" +nl+ gs "b.com" ]} /\
  @main latin1_case world_newline_cn
    {| domainArg := []; orgArg := gs "Example"; outputFile := [] |} =
    {| trace := [HttpGet (crtsh_url (gs "Example"));
                 Stdout (gs "a" +nl+ gs "b.com" +nl+ [])];
       exit_code := 0 |} /\
  Split (gs "a" +nl+ gs "b.com" +nl+ []) [rNL] = [gs "a"; gs "b.com"; []].
Proof. split; [|split]; vm_compute; reflexivity. Qed.



(** Only spaces of the search term are encoded: an ['&'] in an
    organization name ends the [q] parameter early, so crt.sh is asked
    for ["AT"] and receives a stray parameter ["T+Inc"]. *)
Example crtsh_url_ampersand :
  crtsh_url (gs "AT&T Inc") = gs "https://crt.sh/?q=AT&T+Inc&output=json".
Proof. vm_compute. reflexivity. Qed.

End Main.
