(* ===== verification/EndToEnd.v ===== *)
(** * EndToEnd: [main] with Go's JSON decoder in place of the parser interface

    [Main] takes the JSON parser of line 56 from the interface
    [World.json_parse].  Go's [json.Unmarshal] parses by [checkValid]
    (file [JsonScan]) followed by [decodeState.unmarshal] (file
    [JsonDecode]); [go_json_parse] is that parser.  This file composes
    the two: [Decode.Unmarshal] with [go_json_parse] is
    [JsonDecode.Unmarshal] on every body,
    and a run of [main] against a server that answers with the bytes of
    a list of crt.sh records prints the names of exactly those
    certificates. *)

From Stdlib Require Import ZArith.
From S2P Require Import Prelude GoStrings Utf8 Extract Decode JsonScan JsonText JsonDecode FlagParse Main.

Open Scope Z_scope.

Module EndToEnd.
Import Unicode Utf8 Extract Decode JsonScan JsonText JsonDecode FlagParse Main.

(** The parse of [json.Unmarshal]: [checkValid], then the decoder. *)
Definition go_json_parse (body : list Z) : option JSON :=
  match checkValid body zero_scanner with
  | Some _ => None
  | None => unmarshal_value body
  end.

(** ** Lemmas *)

Section parse.
Context `{CaseTable}.

(** The parser of the interface and the library agree on every body. *)
Lemma Unmarshal_go_parse (body : list Z) :
  Decode.Unmarshal go_json_parse body = JsonDecode.Unmarshal body.
Proof.
  unfold Decode.Unmarshal, JsonDecode.Unmarshal, go_json_parse.
  destruct (checkValid body zero_scanner); [done|]. by destruct (unmarshal_value body).
Qed.

Lemma go_json_parse_text (v : JSON) :
  json_ok v -> Z.of_nat (depth v) <= maxNestingDepth -> go_json_parse (json_text v) = Some v.
Proof. intros Hok Hd. unfold go_json_parse. by rewrite checkValid_text, unmarshal_value_json. Qed.

End parse.

Section world.
Context {CT : CaseTable} {W : World}.

(** The certificates a crt.sh answer lists, as the bytes it sends. *)
Definition crtsh_body (extra : list (gostring * JSON)) (certificates : list Certificate) : list Z :=
  json_text (JArray (map (crtsh_record extra) certificates)).

(** A server answer made of crt.sh records: the parser reads them back,
    the extra members select no field. *)
Definition crtsh_answer (extra : list (gostring * JSON)) (certificates : list Certificate) : Prop :=
  json_ok (JArray (map (crtsh_record extra) certificates)) /\
  Z.of_nat (depth (JArray (map (crtsh_record extra) certificates))) <= maxNestingDepth /\
  (forall m, m ∈ extra -> field_of_key m.1 = None).

Lemma fetch_crtsh (url : gostring) (status : Z) (extra : list (gostring * JSON))
    (certificates : list Certificate) :
  (forall b, json_parse b = go_json_parse b) -> crtsh_answer extra certificates ->
  http_get url = Ok {| StatusCode := status; ReadAll := Ok (crtsh_body extra certificates) |} ->
  fetch url = Ok certificates.
Proof.
  intros Hp (Hok & Hd & Hx) Hg. unfold fetch. rewrite Hg. cbn [ReadAll].
  unfold Decode.Unmarshal. rewrite Hp. unfold crtsh_body.
  by rewrite go_json_parse_text, decode_crtsh_records.
Qed.

End world.

(** ** Theorems *)

Section theorems.
Context {CT : CaseTable} {W : World} `{!WorldLaws}.

(** C26. Composition of the pipeline with Go's decoder: when the JSON
    parser is [checkValid] followed by the decoder and the server answers
    the request with the bytes of a list of crt.sh records (any status,
    any extra members), [main] with exactly one query flag makes the one
    request and prints, and writes when [-o] is given, the names the
    extractor collects from exactly those certificates, in the order Go
    visits the map. *)
Theorem main_crtsh_body (f : Flags) (status : Z) (extra : list (gostring * JSON))
    (certificates : list Certificate) :
  (domainArg f = [] <-> orgArg f <> []) ->
  (forall b, json_parse b = go_json_parse b) -> crtsh_answer extra certificates ->
  http_get (crtsh_url (query_of f)) =
    Ok {| StatusCode := status; ReadAll := Ok (crtsh_body extra certificates) |} ->
  exists domains, domains ≡ₚ elements (collect (domainArg f) certificates) /\
    main f = emit [HttpGet (crtsh_url (query_of f))] (render domains) (outputFile f).
Proof.
  intros Hone Hp Ha Hg. apply main_success_core; [done|].
  by apply (fetch_crtsh _ status extra).
Qed.

End theorems.

(** ** Witnesses *)

Open Scope go_scope.

(** A world whose server answers with the bytes of [scenario_json] and
    whose parser is Go's. *)
Definition world_go : World := {|
  http_get _ := Ok {| StatusCode := 200;
                      ReadAll := Ok (crtsh_body [(gs "id", JNumber (gs "1"))] [cert_sub_example]) |};
  json_parse := go_json_parse;
  json_error_text _ := gs "json: cannot unmarshal";
  write_file _ _ _ := Ok tt;
  map_order := elements;
|}.

#[export] Instance world_go_laws : WorldLaws (H := world_go).
Proof. split. reflexivity. Qed.

Lemma scenario_answer :
  @crtsh_answer latin1_case [(gs "id", JNumber (gs "1"))] [cert_sub_example].
Proof.
  split_and!.
  - cbn. repeat split; try solve_valid_runes.
    exists {| n_neg := false; n_int := [49]; n_frac := []; n_exp := None |}.
    split; [|reflexivity]. split; [right; exists 49, []; repeat split; try lia; constructor|].
    split; [constructor | done].
  - vm_compute. discriminate.
  - intros m Hm. apply list_elem_of_singleton in Hm as ->. vm_compute. reflexivity.
Qed.

Lemma main_crtsh_body_witness :
  exists domains, domains ≡ₚ elements (collect (domainArg (flags_domain [])) [cert_sub_example]) /\
    @main latin1_case world_go (flags_domain []) =
      @emit world_go [HttpGet (crtsh_url (query_of (flags_domain [])))] (render domains) [].
Proof.
  exact (@main_crtsh_body latin1_case world_go world_go_laws (flags_domain []) 200
           [(gs "id", JNumber (gs "1"))] [cert_sub_example]
           ltac:(cbn; split; [intros H; discriminate | intros H; by exfalso])
           (fun _ => eq_refl) scenario_answer eq_refl).
Defined.

(** ** Examples *)

(** The whole run on those bytes: one request, then the two names of
    the record's [name_value], lower-cased, one per line. *)
Example main_go_example :
  @main latin1_case world_go (flags_domain []) =
    {| trace := [HttpGet (crtsh_url (gs "example.com"));
                 Stdout (gs "sub.example.com" ++ [rNL] ++ gs "example.com" ++ [rNL])];
       exit_code := 0 |}.
Proof. vm_compute. reflexivity. Qed.

(** A body the syntax check rejects ([[1,]]) ends the run with the
    message of line 57 after the one request. *)
Example main_go_syntax_error :
  @main latin1_case
    {| http_get _ := Ok {| StatusCode := 200; ReadAll := Ok (gs "[1,]") |};
       json_parse := go_json_parse;
       json_error_text _ := gs "invalid character";
       write_file _ _ _ := Ok tt;
       map_order := elements |} (flags_domain []) =
    {| trace := [HttpGet (crtsh_url (gs "example.com"));
                 Stderr (gs "Error parsing JSON:" ++ gs "invalid character")];
       exit_code := 1 |}.
Proof. vm_compute. reflexivity. Qed.

End EndToEnd.
